(** * MDtoDOCX: the document-structuring and rendering pipeline

    A shallow embedding of [src/parser/markdownParser.js],
    [src/services/geminiService.js] and [src/converter/docxConverter.js],
    followed by the properties of the retry controller, the diagram
    detector, the fallback diagram analyzer and the renderer.

    Conventions of the embedding.
    - A JavaScript string is the list of its UTF-16 code units ([ustring]);
      [length], [includes], [split], [trim] and the regular expressions of
      the source (none carries the [u] flag) all work on code units.
    - JavaScript numbers that are counters, sizes or status codes are [Z] or
      [nat]; the millisecond delays of the retry controller are doubles
      ([Double.t]): every operation rounds its exact result to binary64.
    - Objects that come from JSON are records whose fields are optional; a
      field holds a value of the type the prompt's schema gives it.
    - [console.log] and friends are not modelled. *)

From Stdlib Require Import List NArith ZArith QArith Qround Qminmax Qpower Qabs
  Bool String Ascii DecimalString Lia Lqa.
Import ListNotations.

(** ** Strings as sequences of UTF-16 code units *)

Definition ustring := list N.

(** An ASCII literal of the source. *)
Fixpoint u (s : string) : ustring :=
  match s with
  | EmptyString => []
  | String a s' => N_of_ascii a :: u s'
  end.

Module Str.

Fixpoint eqb (a b : ustring) : bool :=
  match a, b with
  | [], [] => true
  | x :: a', y :: b' => N.eqb x y && eqb a' b'
  | _, _ => false
  end.

Fixpoint startsWith (p s : ustring) : bool :=
  match p, s with
  | [], _ => true
  | x :: p', y :: s' => N.eqb x y && startsWith p' s'
  | _ :: _, [] => false
  end.

(** [s.includes(p)] *)
Fixpoint includes (p s : ustring) : bool :=
  startsWith p s ||
  match s with
  | [] => false
  | _ :: s' => includes p s'
  end.

(** WhiteSpace and LineTerminator code units of ECMAScript: what [trim]
    removes and what [\s] matches. *)
Definition isWhite (c : N) : bool :=
  ((9 <=? c) && (c <=? 13) || (c =? 32) || (c =? 160) || (c =? 5760)
   || (8192 <=? c) && (c <=? 8202) || (c =? 8232) || (c =? 8233)
   || (c =? 8239) || (c =? 8287) || (c =? 12288) || (c =? 65279))%N.

Definition isLineTerminator (c : N) : bool :=
  ((c =? 10) || (c =? 13) || (c =? 8232) || (c =? 8233))%N.

Fixpoint trimStart (s : ustring) : ustring :=
  match s with
  | c :: s' => if isWhite c then trimStart s' else s
  | [] => []
  end.

Fixpoint trimEnd (s : ustring) : ustring :=
  match s with
  | c :: s' =>
      match trimEnd s' with
      | [] => if isWhite c then [] else [c]
      | t => c :: t
      end
  | [] => []
  end.

Definition trim (s : ustring) : ustring := trimEnd (trimStart s).

(** [s.split(sep)] for a one-unit separator: never the empty array. *)
Fixpoint split (sep : N) (s : ustring) : list ustring :=
  match s with
  | [] => [[]]
  | c :: s' =>
      if N.eqb c sep then [] :: split sep s'
      else match split sep s' with
           | w :: ws => (c :: w) :: ws
           | [] => [[c]]
           end
  end.

(** [parts.join(sep)] *)
Fixpoint join (sep : ustring) (parts : list ustring) : ustring :=
  match parts with
  | [] => []
  | [p] => p
  | p :: ps => p ++ sep ++ join sep ps
  end.

(** Truthiness of a string value. *)
Definition truthy (s : ustring) : bool :=
  match s with [] => false | _ => true end.

Definition isDigit (c : N) : bool := ((48 <=? c) && (c <=? 57))%N.

End Str.

(** ** The regular expressions of the source

    Every regular expression of the three files is a sequence of quantified
    one-unit atoms with at most one capture group, so this is the fragment
    that is embedded, with the backtracking order of ECMAScript: an earlier
    start first, a greedy quantifier longest first, a lazy one shortest
    first. *)

Module Regex.

Inductive quant := One | Opt | Star | Plus | LazyStar.

Inductive item :=
| Atom (q : quant) (p : N -> bool)
| GroupOpen
| GroupClose.

Definition regex := list item.

(** Positions are counted from the start of the match. *)
Record groups := { g_open : nat; g_close : option nat }.

Definition no_group : option groups := None.

Record found := { f_end : nat; f_group : option groups }.

Fixpoint matchHere (re : regex) (s : ustring) (pos : nat) (g : option groups)
  {struct re} : option found :=
  match re with
  | [] => Some {| f_end := pos; f_group := g |}
  | GroupOpen :: re' =>
      matchHere re' s pos (Some {| g_open := pos; g_close := None |})
  | GroupClose :: re' =>
      matchHere re' s pos
        (match g with
         | Some gr => Some {| g_open := g_open gr; g_close := Some pos |}
         | None => None
         end)
  | Atom One p :: re' =>
      match s with
      | c :: s' => if p c then matchHere re' s' (S pos) g else None
      | [] => None
      end
  | Atom Opt p :: re' =>
      match s with
      | c :: s' =>
          if p c then
            match matchHere re' s' (S pos) g with
            | Some r => Some r
            | None => matchHere re' s pos g
            end
          else matchHere re' s pos g
      | [] => matchHere re' s pos g
      end
  | Atom Star p :: re' =>
      (fix star (s : ustring) (pos : nat) {struct s} : option found :=
         match s with
         | c :: s' =>
             if p c then
               match star s' (S pos) with
               | Some r => Some r
               | None => matchHere re' s pos g
               end
             else matchHere re' s pos g
         | [] => matchHere re' s pos g
         end) s pos
  | Atom Plus p :: re' =>
      match s with
      | c :: s' =>
          if p c then
            (fix star (s : ustring) (pos : nat) {struct s} : option found :=
               match s with
               | c :: s' =>
                   if p c then
                     match star s' (S pos) with
                     | Some r => Some r
                     | None => matchHere re' s pos g
                     end
                   else matchHere re' s pos g
               | [] => matchHere re' s pos g
               end) s' (S pos)
          else None
      | [] => None
      end
  | Atom LazyStar p :: re' =>
      (fix lazy (s : ustring) (pos : nat) {struct s} : option found :=
         match matchHere re' s pos g with
         | Some r => Some r
         | None =>
             match s with
             | c :: s' => if p c then lazy s' (S pos) else None
             | [] => None
             end
         end) s pos
  end.

(** The text of capture group 1 of a match that starts at the head of [s]. *)
Definition capture (s : ustring) (r : found) : option ustring :=
  match f_group r with
  | Some {| g_open := a; g_close := Some b |} => Some (firstn (b - a) (skipn a s))
  | _ => None
  end.

(** [s.match(re)] without the [g] flag: the leftmost match; the result is
    capture group 1 ([match[1]]). *)
Fixpoint exec (re : regex) (s : ustring) : option (option ustring) :=
  match matchHere re s 0 no_group with
  | Some r => Some (capture s r)
  | None =>
      match s with
      | [] => None
      | _ :: s' => exec re s'
      end
  end.

(** [re.test(s)] without the [g] flag. *)
Definition test (re : regex) (s : ustring) : bool :=
  match exec re s with Some _ => true | None => false end.

(** [s.replace(re, repl)] with the [g] flag; [repl] receives capture
    group 1 ([$1]).  [skip] counts the units of the last match that are
    still to be passed over. *)
Fixpoint replaceFrom (re : regex) (repl : option ustring -> ustring)
  (s : ustring) (skip : nat) : ustring :=
  match s with
  | [] =>
      match skip with
      | O =>
          match matchHere re [] 0 no_group with
          | Some r => repl (capture [] r)
          | None => []
          end
      | S _ => []
      end
  | c :: s' =>
      match skip with
      | S k => replaceFrom re repl s' k
      | O =>
          match matchHere re s 0 no_group with
          | Some r =>
              match f_end r with
              | S len => repl (capture s r) ++ replaceFrom re repl s' len
              | O => repl (capture s r) ++ c :: replaceFrom re repl s' 0
              end
          | None => c :: replaceFrom re repl s' 0
          end
      end
  end.

Definition replaceAll (re : regex) (repl : option ustring -> ustring)
  (s : ustring) : ustring :=
  replaceFrom re repl s 0.

(** Replacement by the empty string. *)
Definition erase : option ustring -> ustring := fun _ => [].

(** Replacement by ['$1']. *)
Definition dollar1 : option ustring -> ustring :=
  fun c => match c with Some t => t | None => [] end.

(** Atoms. *)
Definition chr (c : N) : N -> bool := N.eqb c.

Definition oneOf (cs : list N) : N -> bool :=
  fun c => existsb (N.eqb c) cs.

Definition noneOf (cs : list N) : N -> bool :=
  fun c => negb (existsb (N.eqb c) cs).

(** [.]: anything but a line terminator. *)
Definition dot : N -> bool := fun c => negb (Str.isLineTerminator c).

(** An ASCII letter under the [i] flag. *)
Definition ci (a : ascii) : N -> bool :=
  fun c =>
    let n := N_of_ascii a in
    (c =? n)%N
    || (if ((97 <=? n) && (n <=? 122))%N then (c =? n - 32)%N else false)
    || (if ((65 <=? n) && (n <=? 90))%N then (c =? n + 32)%N else false).

(** A literal run, case sensitive or under the [i] flag. *)
Fixpoint lit (s : string) : regex :=
  match s with
  | EmptyString => []
  | String a s' => Atom One (chr (N_of_ascii a)) :: lit s'
  end.

Fixpoint liti (s : string) : regex :=
  match s with
  | EmptyString => []
  | String a s' => Atom One (ci a) :: liti s'
  end.

End Regex.

(** ** The glyphs shared by the detector and the fallback analyzer

    The character class of [isAsciiDiagram], which is also the first part of
    the class stripped by [fallbackDiagramConversion]: box-drawing lines,
    corners and junctions (U+2500 .. U+253C), their double-line variants
    (U+2550 .. U+256C), the four triangles used as arrows and the filled and
    outline circles and squares. *)

Definition boxGlyphs : list N :=
  [ 9472; 9474; 9484; 9488; 9492; 9496; 9500; 9508; 9516; 9524; 9532;
    9552; 9553; 9556; 9559; 9562; 9565; 9568; 9571; 9574; 9577; 9580;
    9660; 9650; 9668; 9658; 9679; 9675; 9632; 9633; 9642; 9643 ]%N.

(** U+2022, the bullet. *)
Definition bullet : N := 8226%N.

(** ** src/parser/markdownParser.js *)

Module MarkdownParser.

(** [const boxChars = /[...]/] *)
Definition boxChars : Regex.regex :=
  [Regex.Atom Regex.One (Regex.oneOf boxGlyphs)].

Definition isAsciiDiagram (code : ustring) : bool :=
  Regex.test boxChars code.

(** A token of markdown-it, with the fields the converter reads.  Inline
    tokens are the [children] of a block token of type [inline]. *)
Record InlineToken := { i_type : ustring; i_content : ustring }.

Record Token := {
  type : ustring;
  tag : ustring;
  content : ustring;
  info : ustring;
  children : option (list InlineToken)
}.

End MarkdownParser.

(** ** The wire contract with the AI backend *)

Module Schema.

Record Component := { name : option ustring; description : option ustring }.

Record Connection := {
  from : option ustring;
  to : option ustring;
  label : option ustring
}.

(** One run of a paragraph element. *)
Record InlineRun := {
  run_text : ustring;
  run_bold : bool;
  run_italic : bool;
  run_strikethrough : bool;
  run_code : bool;
  run_link : option ustring
}.

(** [content] is a string for a [code] element and an array of runs for a
    [paragraph] element. *)
Inductive Content :=
| ContentText (s : ustring)
| ContentRuns (rs : list InlineRun).

(** An element of [parsed.elements]: a JSON object seen through the
    properties [processAIParsedElements] reads. *)
Record AIElement := {
  e_type : option ustring;
  e_text : option ustring;
  e_level : option Z;
  e_content : option Content;
  e_language : option ustring;
  e_headers : option (list ustring);
  e_rows : option (list (list (option ustring)));
  e_items : option (list ustring);
  e_ordered : bool;
  e_title : option ustring;
  e_description : option ustring;
  e_components : option (list Component);
  e_connections : option (list Connection)
}.

(** What [JSON.parse] gives for the reply to the document prompt. *)
Record ParsedDocument := {
  doc_title : option ustring;
  elements : option (list AIElement)
}.

(** What [JSON.parse] gives for the reply to the diagram prompt: every
    property may be missing, [success] included. *)
Record DiagramReply := {
  r_success : option bool;
  r_type : option ustring;
  r_title : option ustring;
  r_description : option ustring;
  r_components : option (list Component);
  r_connections : option (list Connection);
  r_summary : option ustring
}.

Record DiagramAnalysis := {
  success : bool;
  type : option ustring;
  title : option ustring;
  a_description : option ustring;
  components : option (list Component);
  connections : option (list Connection);
  summary : option ustring
}.

End Schema.

(** ** The numbers of JavaScript: IEEE 754 binary64

    A finite double is the rational it stands for (the sign of a zero is not
    kept).  The result of an operation is the exact result rounded to the
    nearest double, to the one with an even last bit when two are equally
    near, and to an infinity from [2 ^ 1024] on. *)

Module Double.
Local Open Scope Q_scope.

Inductive t :=
| Finite (q : Q)
| Infinity (negative : bool)
| NaN.

(** The integer next to [x], the even one of two that are equally near. *)
Definition nearestEven (x : Q) : Z :=
  let f := Qfloor x in
  match Qcompare (x - inject_Z f) (1 # 2) with
  | Lt => f
  | Gt => (f + 1)%Z
  | Eq => if Z.even f then f else (f + 1)%Z
  end.

(** [floor (log2 a)] for a positive [a]. *)
Definition exponent (a : Q) : Z :=
  let k := (Z.log2 (Qnum a) - Z.log2 (Zpos (Qden a)))%Z in
  if Qle_bool (2 ^ k) a then k else (k - 1)%Z.

(** The doubles around a positive [a] are the multiples of [2 ^ ulp a]:
    53 bits of precision, and the subnormal numbers below [2 ^ -1022]. *)
Definition ulp (a : Q) : Z := Z.max (exponent a - 52) (-1074).

(** The double a real number is rounded to. *)
(** The multiple of [2 ^ ulp a] next to a positive [a]. *)
Definition nearest (a : Q) : Q :=
  inject_Z (nearestEven (a / 2 ^ ulp a)) * 2 ^ ulp a.

Definition isNegative (q : Q) : bool := negb (Qle_bool 0 q).

(** The double a real number is rounded to; a fraction is kept in lowest
    terms. *)
Definition round (q : Q) : t :=
  if Qeq_bool q 0 then Finite 0
  else
    let r := nearest (Qabs q) in
    if Qle_bool (2 ^ 1024) r then Infinity (isNegative q)
    else Finite (Qred (if isNegative q then - r else r)).

(** [a * b] *)
Definition mul (a b : t) : t :=
  match a, b with
  | Finite x, Finite y => round (x * y)
  | Finite x, Infinity s | Infinity s, Finite x =>
      if Qeq_bool x 0 then NaN else Infinity (xorb s (isNegative x))
  | Infinity s, Infinity s' => Infinity (xorb s s')
  | _, _ => NaN
  end.

(** [a + b] *)
Definition add (a b : t) : t :=
  match a, b with
  | Finite x, Finite y => round (x + y)
  | Finite _, Infinity s | Infinity s, Finite _ => Infinity s
  | Infinity s, Infinity s' => if Bool.eqb s s' then Infinity s else NaN
  | _, _ => NaN
  end.

(** [Math.ceil(a)] *)
Definition ceil (a : t) : t :=
  match a with
  | Finite x => Finite (inject_Z (Qceiling x))
  | _ => a
  end.

(** [Math.min(a, b)] *)
Definition min (a b : t) : t :=
  match a, b with
  | NaN, _ | _, NaN => NaN
  | Infinity true, _ | _, Infinity true => Infinity true
  | Infinity false, _ => b
  | _, Infinity false => a
  | Finite x, Finite y => if Qle_bool x y then a else b
  end.

(** [Math.pow(2, n)] for a counter [n]. *)
Definition pow2 (n : nat) : t := round (2 ^ Z.of_nat n).

(** The order of the numbers; NaN is not in it. *)
Definition le (a b : t) : Prop :=
  match a, b with
  | Finite x, Finite y => x <= y
  | Finite _, Infinity negative => negative = false
  | Infinity negative, Finite _ => negative = true
  | Infinity negative, Infinity negative' =>
      negative = true \/ negative' = false
  | _, _ => False
  end.

Definition truthy (a : t) : bool :=
  match a with
  | Finite x => negb (Qeq_bool x 0)
  | Infinity _ => true
  | NaN => false
  end.

(** A number literal of the source. *)
Definition literal (q : Q) : t := round q.

End Double.

(** ** Error objects and the world around the service *)

Module Js.

(** The values a status property takes. *)
Inductive value :=
| Undefined
| Number (z : Z)
| Text (s : ustring).

Definition truthy (v : value) : bool :=
  match v with
  | Undefined => false
  | Number z => negb (Z.eqb z 0)
  | Text s => Str.truthy s
  end.

(** [a || b] *)
Definition or (a b : value) : value := if truthy a then a else b.

(** [v === n] for a number literal [n]. *)
Definition isNumber (n : Z) (v : value) : bool :=
  match v with
  | Number z => Z.eqb z n
  | _ => false
  end.

(** An [Error] object: [response_status] is [error.response?.status]. *)
Record Error := {
  name : ustring;
  message : option ustring;
  status : value;
  response_status : value
}.

(** [error.message?.includes(needle)] as a condition. *)
Definition messageIncludes (needle : string) (e : Error) : bool :=
  match message e with
  | Some m => Str.includes (u needle) m
  | None => false
  end.

(** [String(error)] for an [Error] whose message is empty or missing. *)
Definition toStringNoMessage (e : Error) : ustring := name e.

Definition TypeError (msg : string) : Error :=
  {| name := u "TypeError"; message := Some (u msg);
     status := Undefined; response_status := Undefined |}.

Inductive Nullish := Null | Undef.

(** What a [throw] or a rejected promise carries: an object, seen through
    the properties the catch blocks read (a primitive other than [null]
    and [undefined] reads like an object without them), or [null] or
    [undefined], on which reading a property throws. *)
Inductive Thrown :=
| Obj (e : Error)
| Nil (n : Nullish).

(** The [TypeError] of reading [property] of [null] or [undefined]. *)
Definition cannotRead (n : Nullish) (property : string) : Error :=
  {| name := u "TypeError";
     message :=
       Some (u "Cannot read properties of "
             ++ match n with Null => u "null" | Undef => u "undefined" end
             ++ u " (reading '" ++ u property ++ u "')");
     status := Undefined; response_status := Undefined |}.

End Js.

Module World.

(** The two prompts; each embeds its argument in a fixed instruction. *)
Inductive Prompt :=
| DiagramPrompt (asciiDiagram : ustring)
| DocumentPrompt (markdown : ustring).

(** What one [model.generateContent(prompt)] followed by
    [response.text()] does. *)
Inductive Outcome :=
| Reply (text : ustring)
| Throw (e : Js.Error)
| ThrowNullish (n : Js.Nullish).

(** What the process does to the outside. *)
Inductive Event :=
| GenerateContent (p : Prompt)
| Sleep (ms : Double.t).

(** The parts of the platform the code calls: the backend ([backend k p]
    is the outcome of the call number [k], counted from 0), [Math.random]
    ([random k] is the result of draw number [k], a double), [JSON.parse]
    on the two kinds of reply (in the second, [None] is the JSON value
    [null]), markdown-it, [toUpperCase] and the client constructor. *)
Record Runtime := {
  backend : nat -> Prompt -> Outcome;
  random : nat -> Q;
  JSON_parse_diagram : ustring -> Js.Error + Schema.DiagramReply;
  JSON_parse_document : ustring -> Js.Error + option Schema.ParsedDocument;
  mdParser_parse : ustring -> list MarkdownParser.Token;
  toUpperCase : ustring -> ustring;
  GoogleGenerativeAI : ustring -> option Js.Error
}.

Inductive GenerativeModel := gemini_3_flash_preview.

(** The module state of geminiService.js ([model], [useGemini]) and the
    history of the process. *)
Record State := {
  model : option GenerativeModel;
  useGemini : bool;
  calls : nat;
  draws : nat;
  trace : list Event
}.

(** A computation that may throw. *)
Definition M (A : Type) : Type := State -> (Js.Thrown + A) * State.

Definition ret {A} (a : A) : M A := fun w => (inr a, w).

(** [throw] of an object. *)
Definition throw {A} (e : Js.Error) : M A := fun w => (inl (Js.Obj e), w).

Definition bind {A B} (m : M A) (k : A -> M B) : M B :=
  fun w =>
    match m w with
    | (inr a, w') => k a w'
    | (inl e, w') => (inl e, w')
    end.

(** [try { body } catch (error) { handler }] *)
Definition tryCatch {A} (body : M A) (handler : Js.Thrown -> M A) : M A :=
  fun w =>
    match body w with
    | (inr a, w') => (inr a, w')
    | (inl e, w') => handler e w'
    end.

(** A function of the platform that returns or throws an object. *)
Definition lift {A} (r : Js.Error + A) : M A :=
  fun w =>
    match r with
    | inr a => (inr a, w)
    | inl e => (inl (Js.Obj e), w)
    end.

Definition get : M State := fun w => (inr w, w).

Definition emit (ev : Event) : M unit :=
  fun w =>
    (inr tt, {| model := model w; useGemini := useGemini w; calls := calls w;
                draws := draws w; trace := trace w ++ [ev] |}).

(** [await sleep(ms)] *)
Definition sleep (ms : Double.t) : M unit := emit (Sleep ms).

(** [Math.random()] *)
Definition Math_random (rt : Runtime) : M Double.t :=
  fun w =>
    (inr (Double.Finite (random rt (draws w))),
     {| model := model w; useGemini := useGemini w; calls := calls w;
        draws := S (draws w); trace := trace w |}).

(** [(await (await model.generateContent(prompt)).response).text()] *)
Definition generateContent (rt : Runtime) (p : Prompt) : M ustring :=
  fun w =>
    let w' := {| model := model w; useGemini := useGemini w;
                 calls := S (calls w); draws := draws w;
                 trace := trace w ++ [GenerateContent p] |} in
    match backend rt (calls w) p with
    | Reply text => (inr text, w')
    | Throw e => (inl (Js.Obj e), w')
    | ThrowNullish n => (inl (Js.Nil n), w')
    end.

Definition setUseGemini (b : bool) : M unit :=
  fun w =>
    (inr tt, {| model := model w; useGemini := b; calls := calls w;
                draws := draws w; trace := trace w |}).

Definition setModel (m : option GenerativeModel) : M unit :=
  fun w =>
    (inr tt, {| model := m; useGemini := useGemini w; calls := calls w;
                draws := draws w; trace := trace w |}).

(** How often the backend was called in a history. *)
Definition isCall (ev : Event) : bool :=
  match ev with GenerateContent _ => true | Sleep _ => false end.

Definition attempts (t : list Event) : nat := List.length (filter isCall t).

End World.

Declare Scope js_scope.
Delimit Scope js_scope with js.
Notation "x <- m ;; k" := (World.bind m (fun x => k))
  (at level 61, m at next level, right associativity) : js_scope.
Notation "m ;;; k" := (World.bind m (fun _ => k))
  (at level 61, right associativity) : js_scope.

(** ** src/services/geminiService.js *)

Module GeminiService.
Import World Schema.
Local Open Scope js_scope.

Module RETRY_CONFIG.
Definition maxRetries : nat := 2.
Definition baseDelay : Double.t := Double.Finite 2000.
Definition maxDelay : Double.t := Double.Finite 20000.
End RETRY_CONFIG.

(** The first expression of [extractRetryDelay], under the [i] flag:
    [retry], a lazy [.*?], capture group 1 [\d+\.?\d*], then [\s*s]. *)
Definition retryInSeconds : Regex.regex :=
  Regex.liti "retry"
  ++ [ Regex.Atom Regex.LazyStar Regex.dot;
       Regex.GroupOpen;
       Regex.Atom Regex.Plus Str.isDigit;
       Regex.Atom Regex.Opt (Regex.chr 46);
       Regex.Atom Regex.Star Str.isDigit;
       Regex.GroupClose;
       Regex.Atom Regex.Star Str.isWhite;
       Regex.Atom Regex.One (Regex.ci "s") ].

(** The second one, [/retryDelay.*?(\d+)/i]. *)
Definition retryDelayField : Regex.regex :=
  Regex.liti "retryDelay"
  ++ [ Regex.Atom Regex.LazyStar Regex.dot;
       Regex.GroupOpen;
       Regex.Atom Regex.Plus Str.isDigit;
       Regex.GroupClose ].

(** The leading decimal digits of [s] and what follows them. *)
Fixpoint spanDigits (s : ustring) : ustring * ustring :=
  match s with
  | c :: s' =>
      if Str.isDigit c then let (d, r) := spanDigits s' in (c :: d, r)
      else ([], s)
  | [] => ([], [])
  end.

Definition digitsValue (ds : ustring) : Z :=
  fold_left (fun acc c => (10 * acc + (Z.of_N c - 48))%Z) ds 0%Z.

(** [parseFloat] on an unsigned decimal without exponent, which is all
    that capture group 1 of the two expressions above can hold: the
    double next to the decimal. *)
Definition parseFloat (s : ustring) : Double.t :=
  let (ip, rest) := spanDigits s in
  let fp := match rest with
            | 46%N :: rest' => fst (spanDigits rest')
            | _ => []
            end in
  match ip ++ fp with
  | [] => Double.NaN
  | ds => Double.round (Qmake (digitsValue ds)
                          (Z.to_pos (10 ^ Z.of_nat (List.length fp))))
  end.

(** The text [extractRetryDelay] searches: [error?.message || String(error)];
    [lastError] is [null] before the first failure. *)
Definition errorText (error : option Js.Error) : ustring :=
  match error with
  | Some e =>
      match Js.message e with
      | Some m => if Str.truthy m then m else Js.toStringNoMessage e
      | None => Js.toStringNoMessage e
      end
  | None => u "null"
  end.

(** [None] is [null]. *)
Definition extractRetryDelay (error : option Js.Error) : option Double.t :=
  let message := errorText error in
  let match_ :=
    match Regex.exec retryInSeconds message with
    | Some m => Some m
    | None => Regex.exec retryDelayField message
    end in
  match match_ with
  | Some (Some m1) =>
      Some (Double.add
              (Double.ceil (Double.mul (parseFloat m1) (Double.Finite 1000)))
              (Double.Finite 500))
  | _ => None
  end.

(** Truthiness of [suggestedDelay]. *)
Definition suggested (suggestedDelay : option Double.t) : option Double.t :=
  match suggestedDelay with
  | Some d => if Double.truthy d then Some d else None
  | None => None
  end.

Definition getRetryDelay (rt : Runtime) (attempt : nat)
  (suggestedDelay : option Double.t) : M Double.t :=
  match suggested suggestedDelay with
  | Some d => ret (Double.min d RETRY_CONFIG.maxDelay)
  | None =>
      let delay :=
        Double.min (Double.mul RETRY_CONFIG.baseDelay (Double.pow2 attempt))
                   RETRY_CONFIG.maxDelay in
      r <- Math_random rt ;;
      ret (Double.mul delay
             (Double.add (Double.literal (8 # 10))
                (Double.mul r (Double.literal (4 # 10)))))
  end.

Definition initializeGemini (rt : Runtime) (apiKey : option ustring) : M bool :=
  match apiKey with
  | None | Some [] => setUseGemini false ;;; ret false
  | Some key =>
      match GoogleGenerativeAI rt key with
      | None =>
          setModel (Some gemini_3_flash_preview) ;;;
          setUseGemini true ;;;
          ret true
      | Some _ => setUseGemini false ;;; ret false
      end
  end.

Definition disableGemini : M unit := setUseGemini false.

Definition enableGemini : M unit :=
  w <- get ;;
  match model w with
  | Some _ => setUseGemini true
  | None => ret tt
  end.

Definition isGeminiAvailable : M bool :=
  w <- get ;;
  ret (match model w with Some _ => useGemini w | None => false end).

(** [!model || !useGemini] *)
Definition unavailable (w : State) : bool :=
  match model w with
  | None => true
  | Some _ => negb (useGemini w)
  end.

(** [/[...\[\]]/g]: the glyphs of the detector and the two brackets. *)
Definition frameGlyphs : Regex.regex :=
  [Regex.Atom Regex.One (Regex.oneOf (boxGlyphs ++ [91; 93]%N))].

(** [/[-|+*]/g] *)
Definition asciiFrame : Regex.regex :=
  [Regex.Atom Regex.One (Regex.oneOf [45; 124; 43; 42]%N)].

Definition cleanLine (line : ustring) : ustring :=
  Str.trim
    (Regex.replaceAll asciiFrame Regex.erase
       (Regex.replaceAll frameGlyphs Regex.erase line)).

(** The [for (const line of lines)] loop, one step. *)
Definition pushCleaned (textContent : list ustring) (line : ustring)
  : list ustring :=
  let cleaned := cleanLine line in
  if (2 <? List.length cleaned)%nat then textContent ++ [cleaned]
  else textContent.

(** [[...new Set(xs)]]: a set keeps the order of first insertion. *)
Definition setAdd (acc : list ustring) (x : ustring) : list ustring :=
  if existsb (Str.eqb x) acc then acc else acc ++ [x].

Definition newSet (xs : list ustring) : list ustring :=
  fold_left setAdd xs [].

(** ['\n• '] *)
Definition bulletSeparator : ustring := [10%N; bullet; 32%N].

Definition uniqueContent (asciiDiagram : ustring) : list ustring :=
  let lines := Str.split 10 asciiDiagram in
  let textContent := fold_left pushCleaned lines [] in
  filter (fun t => (2 <? List.length t)%nat) (newSet textContent).

Definition fallbackDiagramConversion (asciiDiagram : ustring)
  : DiagramAnalysis :=
  let uniqueContent := uniqueContent asciiDiagram in
  {| success := true;
     type := Some (u "architecture");
     title := Some (u "System Architecture Diagram");
     a_description := Some (u "Diagram converted from ASCII representation");
     components :=
       Some (map (fun text => {| name := Some text; description := Some [] |})
               (firstn 20 uniqueContent));
     connections := Some [];
     summary := Some (Str.join bulletSeparator uniqueContent) |}.

(** [/```json\n?/g] and [/```\n?/g] *)
Definition jsonFence : Regex.regex :=
  Regex.lit "```json" ++ [Regex.Atom Regex.Opt (Regex.chr 10)].

Definition anyFence : Regex.regex :=
  Regex.lit "```" ++ [Regex.Atom Regex.Opt (Regex.chr 10)].

(** [response.text().trim()] and the clean-up before [JSON.parse], the
    same in both wrappers. *)
Definition cleanReply (text : ustring) : ustring :=
  let text := Str.trim text in
  Str.trim
    (Regex.replaceAll anyFence Regex.erase
       (Regex.replaceAll jsonFence Regex.erase text)).

(** [{ success: true, ...parsed }]: a later property wins. *)
Definition withSuccess (parsed : DiagramReply) : DiagramAnalysis :=
  {| success := match r_success parsed with Some b => b | None => true end;
     type := r_type parsed;
     title := r_title parsed;
     a_description := r_description parsed;
     components := r_components parsed;
     connections := r_connections parsed;
     summary := r_summary parsed |}.

(** How one turn of a retry loop ends. *)
Inductive Turn (A : Type) :=
| Return (a : A)
| Continue (lastError : Js.Error).
Arguments Return {A} a.
Arguments Continue {A} lastError.

(** The pause at the head of a turn. *)
Definition backoff (rt : Runtime) (attempt : nat) (lastError : option Js.Error)
  : M unit :=
  if (0 <? attempt)%nat then
    let suggestedDelay := extractRetryDelay lastError in
    delay <- getRetryDelay rt (attempt - 1) suggestedDelay ;;
    sleep delay
  else ret tt.

Definition statusCode (error : Js.Error) : Js.value :=
  Js.or (Js.or (Js.status error) (Js.response_status error))
        (Js.Text (u "unknown")).

(** [isRetryable] of [convertDiagramWithAI] *)
Definition isRetryableDiagram (error : Js.Error) : bool :=
  Js.isNumber 404 (statusCode error) || Js.isNumber 503 (statusCode error)
  || Js.isNumber 429 (statusCode error)
  || Js.messageIncludes "404" error || Js.messageIncludes "503" error
  || Js.messageIncludes "overloaded" error
  || Js.messageIncludes "temporarily" error.

(** [isRetryable] of [parseDocumentWithAI] *)
Definition isRetryableDocument (error : Js.Error) : bool :=
  Js.messageIncludes "429" error || Js.messageIncludes "503" error
  || Js.messageIncludes "quota" error
  || Js.messageIncludes "overloaded" error
  || Js.messageIncludes "rate" error.

(** The loop of [convertDiagramWithAI]; [remaining] turns are left, the
    next one has the number [attempt].  The catch block reads
    [error.message] (the status code of [null] or [undefined] is
    ['unknown'], so the message is always read), which throws on [null]
    and [undefined]. *)
Fixpoint diagramLoop (rt : Runtime) (asciiDiagram : ustring)
  (remaining attempt : nat) (lastError : option Js.Error)
  : M DiagramAnalysis :=
  match remaining with
  | O => ret (fallbackDiagramConversion asciiDiagram)
  | S remaining' =>
      turn <-
        tryCatch
          (backoff rt attempt lastError ;;;
           text <- generateContent rt (DiagramPrompt asciiDiagram) ;;
           parsed <- lift (JSON_parse_diagram rt (cleanReply text)) ;;
           ret (Return (withSuccess parsed)))
          (fun error =>
             match error with
             | Js.Nil n => throw (Js.cannotRead n "message")
             | Js.Obj error =>
                 if negb (isRetryableDiagram error)
                    || (RETRY_CONFIG.maxRetries <=? attempt)%nat
                 then ret (Return (fallbackDiagramConversion asciiDiagram))
                 else ret (Continue error)
             end) ;;
      match turn with
      | Return analysis => ret analysis
      | Continue error =>
          diagramLoop rt asciiDiagram remaining' (S attempt) (Some error)
      end
  end.

Definition convertDiagramWithAI (rt : Runtime) (asciiDiagram : ustring)
  : M DiagramAnalysis :=
  w <- get ;;
  if unavailable w then ret (fallbackDiagramConversion asciiDiagram)
  else diagramLoop rt asciiDiagram (S RETRY_CONFIG.maxRetries) 0 None.

(** The loop of [parseDocumentWithAI].  The log line after [JSON.parse]
    reads [parsed.elements], which throws when the reply is [null]. *)
Fixpoint documentLoop (rt : Runtime) (markdown : ustring)
  (remaining attempt : nat) (lastError : option Js.Error)
  : M (option ParsedDocument) :=
  match remaining with
  | O => ret None
  | S remaining' =>
      turn <-
        tryCatch
          (backoff rt attempt lastError ;;;
           text <- generateContent rt (DocumentPrompt markdown) ;;
           parsed <- lift (JSON_parse_document rt (cleanReply text)) ;;
           match parsed with
           | Some doc => ret (Return (Some doc))
           | None =>
               throw (Js.TypeError
                        "Cannot read properties of null (reading 'elements')")
           end)
          (fun error =>
             match error with
             | Js.Nil n => throw (Js.cannotRead n "message")
             | Js.Obj error =>
                 if negb (isRetryableDocument error)
                    || (RETRY_CONFIG.maxRetries <=? attempt)%nat
                 then ret (Return None)
                 else ret (Continue error)
             end) ;;
      match turn with
      | Return parsed => ret parsed
      | Continue error =>
          documentLoop rt markdown remaining' (S attempt) (Some error)
      end
  end.

Definition parseDocumentWithAI (rt : Runtime) (markdown : ustring)
  : M (option ParsedDocument) :=
  w <- get ;;
  if unavailable w then ret None
  else documentLoop rt markdown (S RETRY_CONFIG.maxRetries) 0 None.

End GeminiService.

(** ** The docx library: option objects as lists of options *)

Module Docx.

Inductive HeadingLevel :=
| HEADING_1 | HEADING_2 | HEADING_3 | HEADING_4 | HEADING_5 | HEADING_6.

(** [shading] is always [{ type: ShadingType.SOLID, color }], [underline]
    always [{ type: UnderlineType.SINGLE }]; [size] is a number of
    half-points. *)
Inductive RunOption :=
| text (s : ustring)
| bold (b : bool)
| italics (b : bool)
| strike (b : bool)
| font (f : ustring)
| size (halfPoints : Z)
| color (c : ustring)
| shading (c : ustring)
| underline
| break (n : Z).

Inductive TextRun := mkTextRun (options : list RunOption).

Record Spacing := { before : option Z; after : option Z; line : option Z }.

Inductive Side := side_left | side_bottom.

(** [border] is one [BorderStyle.SINGLE] line on one side. *)
Inductive ParagraphOption :=
| heading (h : HeadingLevel)
| spacing (s : Spacing)
| p_shading (c : ustring)
| indent (twips : Z)
| border (side : Side) (width : Z) (c : ustring)
| children (runs : list TextRun)
| p_text (s : ustring).

Inductive Paragraph := mkParagraph (options : list ParagraphOption).

(** [c_shading None] is [shading: undefined]; [width] is always
    [{ size: 0, type: WidthType.AUTO }]. *)
Inductive CellOption :=
| c_children (ps : list Paragraph)
| c_shading (c : option ustring)
| margins (top bottom left_ right_ : Z)
| width_auto.

Inductive TableCell := mkTableCell (options : list CellOption).

Record TableRow := { cells : list TableCell }.

(** A table is always 100 percent wide and has all six borders single and
    one unit thick; [outer] and [inside] are their colours. *)
Record Table := {
  rows : list TableRow;
  autofit : bool;
  outer : ustring;
  inside : ustring
}.

Inductive Element :=
| ElParagraph (p : Paragraph)
| ElTable (t : Table).

(** One section with the same margin on the four sides. *)
Record Document := { margin : Z; doc_children : list Element }.

Definition convertInchesToTwip (inches : Q) : Z := Qfloor (inches * 1440).

Definition just (before after : Z) : Spacing :=
  {| before := Some before; after := Some after; line := None |}.

Definition afterOnly (after : Z) : Spacing :=
  {| before := None; after := Some after; line := None |}.

End Docx.

(** ** src/converter/docxConverter.js *)

Module DocxConverter.
Import World Schema MarkdownParser Docx.
Local Open Scope js_scope.
Local Open Scope Z_scope.

Module STYLES.
Module fonts.
Definition heading := u "Calibri".
Definition body := u "Calibri".
Definition code := u "Consolas".
End fonts.
Module sizes.
Definition h1 := 28.
Definition h2 := 24.
Definition h3 := 20.
Definition h4 := 18.
Definition h5 := 16.
Definition h6 := 14.
Definition body := 11.
Definition code := 10.
Definition table := 10.
End sizes.
Module colors.
Definition heading := u "1a1a1a".
Definition body := u "333333".
Definition code := u "24292e".
Definition codeBackground := u "f6f8fa".
Definition link := u "0366d6".
Definition tableHeader := u "f6f8fa".
Definition tableBorder := u "d0d7de".
Definition diagramBg := u "e8f4fd".
Definition diagramBorder := u "0366d6".
Definition componentBg := u "ffffff".
End colors.
End STYLES.

(** A property that may be [undefined], inside a template or a [+]. *)
Definition str (v : option ustring) : ustring :=
  match v with Some s => s | None => u "undefined" end.

(** [v || fallback] *)
Definition orElse (v : option ustring) (fallback : ustring) : ustring :=
  match v with
  | Some s => if Str.truthy s then s else fallback
  | None => fallback
  end.

Definition truthy (v : option ustring) : bool :=
  match v with Some s => Str.truthy s | None => false end.

(** The decimal numeral of a counter. *)
Definition decimal (n : nat) : ustring :=
  u (NilEmpty.string_of_uint (Nat.to_uint n)).

Definition isLit (name : string) (type : ustring) : bool :=
  Str.eqb type (u name).

(** [s.replace(pattern, replacement)] with a string pattern: the first
    occurrence only. *)
Fixpoint replaceFirst (pattern replacement s : ustring) : ustring :=
  if Str.startsWith pattern s then
    replacement ++ skipn (List.length pattern) s
  else
    match s with
    | [] => []
    | c :: s' => c :: replaceFirst pattern replacement s'
    end.

(** [parseInt(s)]: white space, a sign, then hexadecimal digits after
    [0x] and decimal digits otherwise; [None] is NaN. *)
Definition hexValue (c : N) : option Z :=
  if Str.isDigit c then Some (Z.of_N c - 48)
  else if ((97 <=? c) && (c <=? 102))%N then Some (Z.of_N c - 87)
  else if ((65 <=? c) && (c <=? 70))%N then Some (Z.of_N c - 55)
  else None.

Fixpoint readDigits (radix : Z) (s : ustring) (acc : option Z) : option Z :=
  match s with
  | c :: s' =>
      match hexValue c with
      | Some d =>
          if d <? radix then
            readDigits radix s'
              (Some (radix * match acc with Some a => a | None => 0 end + d))
          else acc
      | None => acc
      end
  | [] => acc
  end.

Definition parseInt (s : ustring) : option Z :=
  let s := Str.trimStart s in
  let (sign, s) :=
    match s with
    | 45%N :: s' => (-1, s')
    | 43%N :: s' => (1, s')
    | _ => (1, s)
    end in
  let magnitude :=
    match s with
    | 48%N :: 120%N :: s' | 48%N :: 88%N :: s' => readDigits 16 s' None
    | _ => readDigits 10 s None
    end in
  match magnitude with
  | Some m => Some (sign * m)
  | None => None
  end.

(** The link expression of [cleanText]: a bracketed text, kept, followed
    by a parenthesised target, dropped. *)
Definition markdownLink : Regex.regex :=
  [ Regex.Atom Regex.One (Regex.chr 91);
    Regex.GroupOpen;
    Regex.Atom Regex.Plus (Regex.noneOf [93%N]);
    Regex.GroupClose;
    Regex.Atom Regex.One (Regex.chr 93);
    Regex.Atom Regex.One (Regex.chr 40);
    Regex.Atom Regex.Plus (Regex.noneOf [41%N]);
    Regex.Atom Regex.One (Regex.chr 41) ].

Definition cleanText (text : option ustring) : ustring :=
  match text with
  | None | Some [] => []
  | Some text_ =>
      Str.trim
        (Regex.replaceAll markdownLink Regex.dollar1
           (Regex.replaceAll (Regex.lit "`") Regex.erase
              (Regex.replaceAll (Regex.lit "*") Regex.erase
                 (Regex.replaceAll (Regex.lit "**") Regex.erase text_))))
  end.

Definition createHorizontalRule : Paragraph :=
  mkParagraph
    [ spacing (just 200 200);
      border side_bottom 6 (u "d0d7de");
      children [mkTextRun [text []]] ].

(** What the [TextRun] of docx throws on a [size] that is NaN. *)
Definition invalidSize : Js.Error :=
  {| Js.name := u "Error";
     Js.message := Some (u "Invalid value 'NaN' specified. Must be an integer.");
     Js.status := Js.Undefined; Js.response_status := Js.Undefined |}.

(** [level] is NaN ([None]) when [parseInt] found no number.  A level
    without entry in [sizes] makes [sizes[level] * 2] NaN, and the
    [TextRun] throws. *)
Definition createHeading (text_ : option ustring) (level : option Z)
  : Js.Error + Paragraph :=
  let headingLevel :=
    match level with
    | Some 2 => HEADING_2
    | Some 3 => HEADING_3
    | Some 4 => HEADING_4
    | Some 5 => HEADING_5
    | Some 6 => HEADING_6
    | _ => HEADING_1
    end in
  let sizes :=
    match level with
    | Some 1 => Some STYLES.sizes.h1
    | Some 2 => Some STYLES.sizes.h2
    | Some 3 => Some STYLES.sizes.h3
    | Some 4 => Some STYLES.sizes.h4
    | Some 5 => Some STYLES.sizes.h5
    | Some 6 => Some STYLES.sizes.h6
    | _ => None
    end in
  match sizes with
  | Some s =>
      inr (mkParagraph
             [ heading headingLevel;
               spacing (just 240 120);
               children
                 [ mkTextRun
                     [ text (cleanText text_);
                       bold true;
                       size (s * 2);
                       font STYLES.fonts.heading;
                       color STYLES.colors.heading ] ] ])
  | None => inl invalidSize
  end.

Record Formatting := {
  f_bold : bool;
  f_italic : bool;
  f_code : bool;
  f_strikethrough : bool
}.

Definition createTextRun (text_ : ustring) (formatting : Formatting) : TextRun :=
  mkTextRun
    [ text text_;
      bold (f_bold formatting);
      italics (f_italic formatting);
      strike (f_strikethrough formatting);
      font STYLES.fonts.body;
      size (STYLES.sizes.body * 2);
      color STYLES.colors.body ].

Definition codeRun (text_ : ustring) : TextRun :=
  mkTextRun
    [ text text_;
      font STYLES.fonts.code;
      size (STYLES.sizes.code * 2);
      shading STYLES.colors.codeBackground ].

Definition linkRun (text_ : ustring) : TextRun :=
  mkTextRun [ text text_; color STYLES.colors.link; underline ].

(** The loop of [processInlineTokens] over what is left of [tokens];
    [link_open] looks one token ahead and steps over it when it is text. *)
Fixpoint processInlineFrom (tokens : list InlineToken) (formatting : Formatting)
  : list TextRun :=
  match tokens with
  | [] => []
  | token :: rest =>
      let type := i_type token in
      let set b i c s := {| f_bold := b; f_italic := i; f_code := c;
                            f_strikethrough := s |} in
      let fb := f_bold formatting in
      let fi := f_italic formatting in
      let fc := f_code formatting in
      let fs := f_strikethrough formatting in
      if isLit "text" type || isLit "emoji" type then
        createTextRun (i_content token) formatting
        :: processInlineFrom rest formatting
      else if isLit "code_inline" type then
        codeRun (i_content token) :: processInlineFrom rest formatting
      else if isLit "strong_open" type then processInlineFrom rest (set true fi fc fs)
      else if isLit "strong_close" type then processInlineFrom rest (set false fi fc fs)
      else if isLit "em_open" type then processInlineFrom rest (set fb true fc fs)
      else if isLit "em_close" type then processInlineFrom rest (set fb false fc fs)
      else if isLit "s_open" type then processInlineFrom rest (set fb fi fc true)
      else if isLit "s_close" type then processInlineFrom rest (set fb fi fc false)
      else if isLit "link_open" type then
        match rest with
        | linkText :: rest' =>
            if isLit "text" (i_type linkText) then
              linkRun (i_content linkText) :: processInlineFrom rest' formatting
            else processInlineFrom rest formatting
        | [] => processInlineFrom rest formatting
        end
      else if isLit "softbreak" type || isLit "hardbreak" type then
        mkTextRun [text []; break 1] :: processInlineFrom rest formatting
      else processInlineFrom rest formatting
  end.

Definition processInlineTokens (tokens : list InlineToken) : list TextRun :=
  processInlineFrom tokens
    {| f_bold := false; f_italic := false; f_code := false;
       f_strikethrough := false |}.

Definition createParagraph (inlineTokens : option (list InlineToken))
  : Paragraph :=
  let children_ :=
    processInlineTokens
      (match inlineTokens with Some ts => ts | None => [] end) in
  mkParagraph
    [ spacing (afterOnly 160);
      children (match children_ with
                | [] => [mkTextRun [text []]]
                | _ => children_
                end) ].

Definition extractTextFromInline (tokens : option (list InlineToken))
  : ustring :=
  match tokens with
  | None => []
  | Some tokens =>
      Str.join []
        (map i_content
           (filter (fun t => isLit "text" (i_type t) || isLit "code_inline" (i_type t)
                             || isLit "emoji" (i_type t))
              tokens))
  end.

Definition createCodeBlock (rt : Runtime) (code language : ustring)
  : list Paragraph :=
  let lines := Str.split 10 code in
  let label :=
    if Str.truthy language then
      [ mkParagraph
          [ spacing (just 120 0);
            p_shading (u "d0d7de");
            children
              [ mkTextRun
                  [ text (u "  " ++ toUpperCase rt language);
                    font STYLES.fonts.code;
                    size (16 * 2);
                    bold true;
                    color (u "57606a") ] ] ] ]
    else [] in
  label
  ++ map (fun line =>
            mkParagraph
              [ spacing {| before := Some 0; after := Some 0; line := Some 260 |};
                p_shading STYLES.colors.codeBackground;
                children
                  [ mkTextRun
                      [ text (u "  " ++ (if Str.truthy line then line else u " "));
                        font STYLES.fonts.code;
                        size (STYLES.sizes.code * 2);
                        color STYLES.colors.code ] ] ])
       lines
  ++ [ mkParagraph [spacing (afterOnly 160)] ].

(** *** Tables of the local path

    [createTable] pushes the array [currentRow] itself into [rows] and
    goes on appending to it, so the arrays live in a store: [heap] maps
    the identity of an array to its cells, [rows] holds identities. *)

Record Cell := { cell_content : ustring; cell_isHeader : bool }.

Record RowRef := { row_cells : nat; row_isHeader : bool }.

Record TableState := {
  heap : list (list Cell);
  rows_ : list RowRef;
  currentRow : nat;
  isHeader : bool;
  inCell : bool;
  cellContent : list ustring
}.

Definition deref (heap : list (list Cell)) (ref : nat) : list Cell :=
  nth ref heap [].

(** [array.push(cell)] on the array with identity [ref]. *)
Fixpoint pushAt (heap : list (list Cell)) (ref : nat) (cell : Cell)
  : list (list Cell) :=
  match heap, ref with
  | row :: heap', O => (row ++ [cell]) :: heap'
  | row :: heap', S ref' => row :: pushAt heap' ref' cell
  | [], _ => []
  end.

(** One turn of the [for (const token of tokens)] loop. *)
Definition tableStep (st : TableState) (token : Token) : TableState :=
  let type := MarkdownParser.type token in
  let mk h r c hd i cc :=
    {| heap := h; rows_ := r; currentRow := c; isHeader := hd; inCell := i;
       cellContent := cc |} in
  if isLit "thead_open" type then
    mk (heap st) (rows_ st) (currentRow st) true (inCell st) (cellContent st)
  else if isLit "thead_close" type then
    mk (heap st) (rows_ st) (currentRow st) false (inCell st) (cellContent st)
  else if isLit "tr_open" type then
    mk (heap st ++ [[]]) (rows_ st) (List.length (heap st)) (isHeader st)
       (inCell st) (cellContent st)
  else if isLit "tr_close" type then
    match deref (heap st) (currentRow st) with
    | [] => st
    | _ :: _ =>
        mk (heap st)
           (rows_ st ++ [{| row_cells := currentRow st;
                            row_isHeader := isHeader st |}])
           (currentRow st) (isHeader st) (inCell st) (cellContent st)
    end
  else if isLit "th_open" type || isLit "td_open" type then
    mk (heap st) (rows_ st) (currentRow st) (isHeader st) true []
  else if isLit "th_close" type || isLit "td_close" type then
    mk (pushAt (heap st) (currentRow st)
          {| cell_content := Str.join [] (cellContent st);
             cell_isHeader := isLit "th_close" type |})
       (rows_ st) (currentRow st) (isHeader st) false (cellContent st)
  else if isLit "inline" type then
    if inCell st then
      mk (heap st) (rows_ st) (currentRow st) (isHeader st) (inCell st)
         (cellContent st ++ [extractTextFromInline (MarkdownParser.children token)])
    else st
  else st.

(** The state before the loop: [currentRow] is a first, empty array. *)
Definition tableStart : TableState :=
  {| heap := [[]]; rows_ := []; currentRow := 0%nat; isHeader := false;
     inCell := false; cellContent := [] |}.

(** The rows collected by the loop, each with the cells its array holds
    when the loop is over. *)
Definition collectRows (tokens : list Token) : list (list Cell) :=
  let st := fold_left tableStep tokens tableStart in
  map (fun r => deref (heap st) (row_cells r)) (rows_ st).

(** [Math.max(...lengths)] of a list that is not empty. *)
Definition maxLength (rows : list (list Cell)) : nat :=
  fold_right Nat.max 0%nat (map (@List.length Cell) rows).

Definition tableCell (cell : Cell) : TableCell :=
  mkTableCell
    [ c_children
        [ mkParagraph
            [ spacing (just 40 40);
              children
                [ mkTextRun
                    [ text (cell_content cell);
                      bold (cell_isHeader cell);
                      font STYLES.fonts.body;
                      size (STYLES.sizes.table * 2);
                      color (if cell_isHeader cell then u "24292f"
                             else STYLES.colors.body) ] ] ] ];
      c_shading (if cell_isHeader cell then Some STYLES.colors.tableHeader
                 else None);
      margins 100 100 150 150;
      width_auto ].

Definition emptyCell : TableCell :=
  mkTableCell [ c_children [ mkParagraph [ p_text [] ] ] ].

(** [while (cells.length < columnCount) cells.push(emptyCell)] *)
Definition padRow (columnCount : nat) (cells : list TableCell)
  : list TableCell :=
  cells ++ repeat emptyCell (columnCount - List.length cells).

Definition gridTable (tableRows : list TableRow) : Table :=
  {| rows := tableRows; autofit := true;
     outer := STYLES.colors.tableBorder; inside := STYLES.colors.tableBorder |}.

Definition createTable (tokens : list Token) : Element :=
  let rows := collectRows tokens in
  match rows with
  | [] => ElParagraph (mkParagraph [ p_text [] ])
  | _ :: _ =>
      let columnCount := maxLength rows in
      let tableRows :=
        map (fun row => {| cells := padRow columnCount (map tableCell row) |})
          rows in
      ElTable (gridTable tableRows)
  end.

(** *** Lists, quotes and diagrams of the local path *)

Definition listItem (text_ : ustring) : Paragraph :=
  mkParagraph
    [ spacing (afterOnly 80);
      indent (convertInchesToTwip (1 # 4));
      children
        [ mkTextRun
            [ text text_;
              font STYLES.fonts.body;
              size (STYLES.sizes.body * 2) ] ] ].

(** The bullet ['• '] or the ordinal [`${n}. `]. *)
Definition marker (ordered : bool) (n : nat) : ustring :=
  if ordered then decimal n ++ u ". " else [bullet; 32%N].

Fixpoint createListFrom (tokens : list Token) (isOrdered : bool)
  (itemNumber : nat) (currentContent : ustring) : list Paragraph :=
  match tokens with
  | [] => []
  | token :: rest =>
      let type := MarkdownParser.type token in
      if isLit "list_item_open" type then
        createListFrom rest isOrdered itemNumber []
      else if isLit "inline" type then
        createListFrom rest isOrdered itemNumber
          (extractTextFromInline (MarkdownParser.children token))
      else if isLit "list_item_close" type then
        listItem (marker isOrdered itemNumber ++ currentContent)
        :: createListFrom rest isOrdered (S itemNumber) currentContent
      else createListFrom rest isOrdered itemNumber currentContent
  end.

Definition createList (tokens : list Token) (isOrdered : bool)
  : list Paragraph :=
  createListFrom tokens isOrdered 1%nat [].

Definition quoteParagraph (text_ : ustring) : Paragraph :=
  mkParagraph
    [ spacing (afterOnly 80);
      indent (convertInchesToTwip (1 # 2));
      border side_left 24 (u "d0d7de");
      children
        [ mkTextRun
            [ text (u "  " ++ text_);
              font STYLES.fonts.body;
              size (STYLES.sizes.body * 2);
              color (u "6a737d");
              italics true ] ] ].

Definition createBlockquote (tokens : list Token) : list Paragraph :=
  map (fun token => quoteParagraph (extractTextFromInline (MarkdownParser.children token)))
    (filter (fun token => isLit "inline" (MarkdownParser.type token)) tokens).

Definition componentHeaderCell (caption : string) : TableCell :=
  mkTableCell
    [ c_children
        [ mkParagraph
            [ children
                [ mkTextRun
                    [ text (u caption); bold true;
                      size (STYLES.sizes.body * 2);
                      color (u "ffffff") ] ] ] ];
      c_shading (Some STYLES.colors.diagramBorder);
      margins 80 80 120 120 ].

Definition componentRow (comp : Component) : TableRow :=
  {| cells :=
       [ mkTableCell
           [ c_children
               [ mkParagraph
                   [ children
                       [ mkTextRun
                           [ text (orElse (name comp) []);
                             bold true;
                             size (STYLES.sizes.body * 2);
                             color STYLES.colors.diagramBorder ] ] ] ];
             c_shading (Some STYLES.colors.diagramBg);
             margins 60 60 120 120 ];
         mkTableCell
           [ c_children
               [ mkParagraph
                   [ children
                       [ mkTextRun
                           [ text (orElse (description comp) (u "-"));
                             size (STYLES.sizes.body * 2) ] ] ] ];
             margins 60 60 120 120 ] ] |}.

Definition createComponentsTable (components : list Component) : Table :=
  {| rows :=
       {| cells := [ componentHeaderCell "Component";
                     componentHeaderCell "Description" ] |}
       :: map componentRow components;
     autofit := false;
     outer := STYLES.colors.diagramBorder;
     inside := STYLES.colors.tableBorder |}.

(** The four parts a diagram has on both paths. *)
Definition diagramTitle (title_ : ustring) : Paragraph :=
  mkParagraph
    [ spacing (just 240 120);
      p_shading STYLES.colors.diagramBorder;
      children
        [ mkTextRun
            [ text ([32; 55357; 56522; 32]%N ++ title_);
              bold true;
              size (24 * 2);
              font STYLES.fonts.heading;
              color (u "ffffff") ] ] ].

Definition diagramDescription (description_ : ustring) : Paragraph :=
  mkParagraph
    [ spacing (afterOnly 120);
      p_shading STYLES.colors.diagramBg;
      children
        [ mkTextRun
            [ text (32%N :: description_);
              italics true;
              size (STYLES.sizes.body * 2);
              font STYLES.fonts.body;
              color (u "555555") ] ] ].

Definition dataFlowLabel : Paragraph :=
  mkParagraph
    [ spacing (just 160 80);
      children
        [ mkTextRun
            [ text ([55357; 56599]%N ++ u " Data Flow:");
              bold true;
              size (STYLES.sizes.body * 2);
              font STYLES.fonts.heading ] ] ].

Definition connectionLine (conn : Connection) : Paragraph :=
  let label_ :=
    if truthy (label conn) then u " (" ++ str (label conn) ++ u ")" else [] in
  mkParagraph
    [ spacing (afterOnly 60);
      indent (convertInchesToTwip (1 # 4));
      children
        [ mkTextRun
            [ text ([8594; 32]%N ++ str (from conn)
                    ++ [32; 32; 10140; 32; 32]%N ++ str (to conn) ++ label_);
              size (STYLES.sizes.body * 2);
              font STYLES.fonts.body;
              color STYLES.colors.body ] ] ].

Definition summaryLine (line_ : ustring) : Paragraph :=
  mkParagraph
    [ spacing (afterOnly 60);
      p_shading STYLES.colors.diagramBg;
      indent (convertInchesToTwip (1 # 4));
      children
        [ mkTextRun
            [ text (if Str.startsWith [bullet] line_ then 32%N :: line_
                    else [32%N; bullet; 32%N] ++ line_);
              size (STYLES.sizes.body * 2);
              font STYLES.fonts.body ] ] ].

(** [x && x.length > 0] for an array that may be missing. *)
Definition nonEmpty {A} (xs : option (list A)) : list A :=
  match xs with Some l => l | None => [] end.

Definition diagramParts (title_ description_ : option ustring)
  (components_ : option (list Component))
  (connections_ : option (list Connection)) : list Element :=
  (if truthy title_ then [ElParagraph (diagramTitle (str title_))] else [])
  ++ (if truthy description_
      then [ElParagraph (diagramDescription (str description_))] else [])
  ++ (match nonEmpty components_ with
      | [] => []
      | cs => [ElTable (createComponentsTable cs)]
      end)
  ++ (match nonEmpty connections_ with
      | [] => []
      | cs => ElParagraph dataFlowLabel
              :: map (fun conn => ElParagraph (connectionLine conn)) cs
      end).

Definition spacer : Element :=
  ElParagraph (mkParagraph [spacing (afterOnly 200)]).

(** The body of the [try] of [createDiagramBlock], after the analysis. *)
Definition renderAnalysis (analysis : DiagramAnalysis) : list Element :=
  diagramParts (title analysis) (a_description analysis)
    (components analysis) (connections analysis)
  ++ (match nonEmpty (components analysis) with
      | [] =>
          if truthy (summary analysis) then
            map (fun line_ => ElParagraph (summaryLine line_))
              (filter (fun l => Str.truthy (Str.trim l))
                 (Str.split 10 (str (summary analysis))))
          else []
      | _ :: _ => []
      end)
  ++ [spacer].

Definition createDiagramBlock (rt : Runtime) (asciiContent : ustring)
  : M (list Element) :=
  tryCatch
    (analysis <- GeminiService.convertDiagramWithAI rt asciiContent ;;
     ret (renderAnalysis analysis))
    (fun error =>
       ret (map ElParagraph (createCodeBlock rt asciiContent (u "text")))).

(** *** The AI path *)

Definition aiRun (item : InlineRun) : TextRun :=
  if run_code item then codeRun (run_text item)
  else if truthy (run_link item) then linkRun (run_text item)
  else
    mkTextRun
      [ text (run_text item);
        bold (run_bold item);
        italics (run_italic item);
        strike (run_strikethrough item);
        font STYLES.fonts.body;
        size (STYLES.sizes.body * 2);
        color STYLES.colors.body ].

Definition createAIParagraph (content_ : option Content) : Paragraph :=
  match content_ with
  | Some (ContentRuns runs) =>
      mkParagraph [ spacing (afterOnly 160); children (map aiRun runs) ]
  | _ => mkParagraph [ spacing (afterOnly 160); children [] ]
  end.

Definition aiHeaderCell (h : ustring) : TableCell :=
  mkTableCell
    [ c_children
        [ mkParagraph
            [ spacing (just 40 40);
              children
                [ mkTextRun
                    [ text h;
                      bold true;
                      font STYLES.fonts.body;
                      size (STYLES.sizes.table * 2);
                      color (u "24292f") ] ] ] ];
      c_shading (Some STYLES.colors.tableHeader);
      margins 100 100 150 150;
      width_auto ].

Definition aiDataCell (cell : option ustring) : TableCell :=
  mkTableCell
    [ c_children
        [ mkParagraph
            [ spacing (just 40 40);
              children
                [ mkTextRun
                    [ text (orElse cell []);
                      font STYLES.fonts.body;
                      size (STYLES.sizes.table * 2);
                      color STYLES.colors.body ] ] ] ];
      margins 100 100 150 150;
      width_auto ].

Definition createAITable (headers : option (list ustring))
  (rows : option (list (list (option ustring)))) : Table :=
  let headerRow :=
    match nonEmpty headers with
    | [] => []
    | hs => [ {| cells := map aiHeaderCell hs |} ]
    end in
  let dataRows :=
    map (fun row => {| cells := map aiDataCell row |}) (nonEmpty rows) in
  gridTable (headerRow ++ dataRows).

(** [items.map((item, i) => ...)], [i] counted from [start]. *)
Fixpoint aiListFrom (items : list ustring) (ordered : bool) (i : nat)
  : list Paragraph :=
  match items with
  | [] => []
  | item :: rest =>
      listItem (marker ordered (i + 1) ++ item) :: aiListFrom rest ordered (S i)
  end.

Definition createAIList (items : option (list ustring)) (ordered : bool)
  : list Paragraph :=
  match items with
  | Some items => aiListFrom items ordered 0
  | None => []
  end.

Definition createAIBlockquote (text_ : option ustring) : Paragraph :=
  quoteParagraph (str text_).

Definition createAIDiagram (diagram : AIElement) : list Element :=
  diagramParts (e_title diagram) (e_description diagram)
    (e_components diagram) (e_connections diagram)
  ++ [spacer].

(** The paragraph of the [default] branch. *)
Definition plainParagraph (text_ : ustring) : Paragraph :=
  mkParagraph [ spacing (afterOnly 160); children [ mkTextRun [ text text_ ] ] ].

(** The eight tags the [switch] of [processAIParsedElements] knows. *)
Definition knownTypes : list string :=
  [ "heading"; "paragraph"; "code"; "table"; "list"; "blockquote";
    "diagram"; "hr" ]%string.

(** What one turn of the loop pushes; [code] calls [split] on the content
    and throws when that is not a string, [heading] throws on a level
    that is not one of 1 to 6. *)
Definition renderElement (rt : Runtime) (elem : AIElement)
  : Js.Error + list Element :=
  let type := match e_type elem with Some t => t | None => [] end in
  let default :=
    if truthy (e_text elem)
    then inr [ElParagraph (plainParagraph (str (e_text elem)))]
    else inr [] in
  match e_type elem with
  | None => default
  | Some _ =>
      if isLit "heading" type then
        match createHeading (e_text elem)
                (Some (match e_level elem with
                       | Some 0 | None => 1
                       | Some l => l
                       end)) with
        | inr paragraph => inr [ElParagraph paragraph]
        | inl error => inl error
        end
      else if isLit "paragraph" type then
        inr [ElParagraph (createAIParagraph (e_content elem))]
      else if isLit "code" type then
        match e_content elem with
        | Some (ContentText code) =>
            inr (map ElParagraph
                   (createCodeBlock rt code (orElse (e_language elem) [])))
        | _ => inl (Js.TypeError "code.split is not a function")
        end
      else if isLit "table" type then
        inr [ElTable (createAITable (e_headers elem) (e_rows elem))]
      else if isLit "list" type then
        inr (map ElParagraph (createAIList (e_items elem) (e_ordered elem)))
      else if isLit "blockquote" type then
        inr [ElParagraph (createAIBlockquote (e_text elem))]
      else if isLit "diagram" type then inr (createAIDiagram elem)
      else if isLit "hr" type then inr [ElParagraph createHorizontalRule]
      else default
  end.

(** The [for (const elem of parsed.elements)] loop. *)
Fixpoint processElementsFrom (rt : Runtime) (elems : list AIElement)
  (elements : list Element) : Js.Error + list Element :=
  match elems with
  | [] => inr elements
  | elem :: rest =>
      match renderElement rt elem with
      | inl error => inl error
      | inr pushed => processElementsFrom rt rest (elements ++ pushed)
      end
  end.

Definition processAIParsedElements (rt : Runtime) (parsed : ParsedDocument)
  : Js.Error + list Element :=
  match elements parsed with
  | Some elems => processElementsFrom rt elems []
  | None => inl (Js.TypeError "parsed.elements is not iterable")
  end.

(** *** The token walk of the local path *)

(** The loop of [findClosingToken] over [tokens[i..]], [i] the index of
    the head of [rest]. *)
Fixpoint findClosingFrom (rest : list Token) (openType closeType : ustring)
  (depth : Z) (i : nat) : option nat :=
  match rest with
  | [] => None
  | token :: rest' =>
      let depth :=
        if Str.eqb (MarkdownParser.type token) openType then depth + 1
        else depth in
      let depth :=
        if Str.eqb (MarkdownParser.type token) closeType then depth - 1
        else depth in
      if depth =? 0 then Some i
      else findClosingFrom rest' openType closeType depth (S i)
  end.

(** The result is an index of the array, or [tokens.length - 1] when the
    loop runs out, which is [-1] on the empty array. *)
Definition findClosingToken (tokens : list Token) (startIndex : nat)
  (closeType : ustring) : Z :=
  let openType := replaceFirst (u "_close") (u "_open") closeType in
  match findClosingFrom (skipn (S startIndex) tokens) openType closeType 1
          (S startIndex) with
  | Some i => Z.of_nat i
  | None => Z.of_nat (List.length tokens) - 1
  end.

(** [tokens.slice(from, to)]; a negative [to] counts from the end. *)
Definition slice (tokens : list Token) (from : nat) (to : Z) : list Token :=
  let to :=
    if to <? 0 then Z.max 0 (Z.of_nat (List.length tokens) + to) else to in
  firstn (Z.to_nat to - from) (skipn from tokens).

(** The [for (let i = 0; i < tokens.length; i++)] loop of [processTokens],
    from index [i] on.  Every turn moves [i] ahead by at least one, so
    [tokens.length] turns are enough: [fuel] counts them down. *)
Fixpoint processTokensAt (rt : Runtime) (tokens : list Token) (fuel i : nat)
  (elements : list Element) : M (list Element) :=
  match fuel with
  | O => ret elements
  | S fuel' =>
      match nth_error tokens i with
      | None => ret elements
      | Some token =>
          let type := MarkdownParser.type token in
          if isLit "heading_open" type then
            match nth_error tokens (i + 1) with
            | Some headingContent =>
                let level := parseInt (skipn 1 (tag token)) in
                paragraph <-
                  lift (createHeading (Some (content headingContent)) level) ;;
                processTokensAt rt tokens fuel' (i + 2 + 1)
                  (elements ++ [ElParagraph paragraph])
            | None =>
                throw (Js.TypeError
                         "Cannot read properties of undefined (reading 'content')")
            end
          else if isLit "paragraph_open" type then
            processTokensAt rt tokens fuel' (i + 2 + 1)
              (match nth_error tokens (i + 1) with
               | Some paragraphContent =>
                   if isLit "inline" (MarkdownParser.type paragraphContent)
                   then elements
                        ++ [ElParagraph
                              (createParagraph
                                 (MarkdownParser.children paragraphContent))]
                   else elements
               | None => elements
               end)
          else if isLit "fence" type then
            if isAsciiDiagram (content token) then
              diagramElements <- createDiagramBlock rt (content token) ;;
              processTokensAt rt tokens fuel' (i + 1)
                (elements ++ diagramElements)
            else
              processTokensAt rt tokens fuel' (i + 1)
                (elements
                 ++ map ElParagraph
                      (createCodeBlock rt (content token) (info token)))
          else if isLit "code_block" type then
            if isAsciiDiagram (content token) then
              diagramElements <- createDiagramBlock rt (content token) ;;
              processTokensAt rt tokens fuel' (i + 1)
                (elements ++ diagramElements)
            else
              processTokensAt rt tokens fuel' (i + 1)
                (elements
                 ++ map ElParagraph (createCodeBlock rt (content token) []))
          else if isLit "table_open" type then
            let tableEnd := findClosingToken tokens i (u "table_close") in
            let tableTokens := slice tokens i (tableEnd + 1) in
            processTokensAt rt tokens fuel' (Z.to_nat (tableEnd + 1))
              (elements ++ [createTable tableTokens])
          else if isLit "bullet_list_open" type
                  || isLit "ordered_list_open" type then
            let listEnd :=
              findClosingToken tokens i
                (replaceFirst (u "_open") (u "_close") type) in
            let listTokens := slice tokens i (listEnd + 1) in
            let isOrdered := isLit "ordered_list_open" type in
            processTokensAt rt tokens fuel' (Z.to_nat (listEnd + 1))
              (elements ++ map ElParagraph (createList listTokens isOrdered))
          else if isLit "hr" type then
            processTokensAt rt tokens fuel' (i + 1)
              (elements ++ [ElParagraph createHorizontalRule])
          else if isLit "blockquote_open" type then
            let bqEnd := findClosingToken tokens i (u "blockquote_close") in
            let bqTokens := slice tokens (i + 1) bqEnd in
            processTokensAt rt tokens fuel' (Z.to_nat (bqEnd + 1))
              (elements ++ map ElParagraph (createBlockquote bqTokens))
          else processTokensAt rt tokens fuel' (i + 1) elements
      end
  end.

Definition processTokens (rt : Runtime) (tokens : list Token)
  (elements : list Element) : M (list Element) :=
  processTokensAt rt tokens (List.length tokens) 0 elements.

(** The same loop over what is left of the tokens, [tokens[i..]], without
    a count of turns: [skip] is how many tokens the next turns pass over
    because the body moved [i] ahead; [findClosingToken] and [slice] are
    applied to [tokens[i..]] with the start index 0.  It is shown below to
    be [processTokensAt]. *)
Fixpoint processTokensFrom (rt : Runtime) (tokens : list Token) (skip : nat)
  (elements : list Element) : M (list Element) :=
  match tokens with
  | [] => ret elements
  | token :: rest =>
      match skip with
      | S skip' => processTokensFrom rt rest skip' elements
      | O =>
          let type := MarkdownParser.type token in
          if isLit "heading_open" type then
            match rest with
            | headingContent :: _ =>
                let level := parseInt (skipn 1 (tag token)) in
                paragraph <-
                  lift (createHeading (Some (content headingContent)) level) ;;
                processTokensFrom rt rest 2
                  (elements ++ [ElParagraph paragraph])
            | [] =>
                throw (Js.TypeError
                         "Cannot read properties of undefined (reading 'content')")
            end
          else if isLit "paragraph_open" type then
            processTokensFrom rt rest 2
              (match rest with
               | paragraphContent :: _ =>
                   if isLit "inline" (MarkdownParser.type paragraphContent)
                   then elements
                        ++ [ElParagraph
                              (createParagraph
                                 (MarkdownParser.children paragraphContent))]
                   else elements
               | [] => elements
               end)
          else if isLit "fence" type then
            if isAsciiDiagram (content token) then
              diagramElements <- createDiagramBlock rt (content token) ;;
              processTokensFrom rt rest 0 (elements ++ diagramElements)
            else
              processTokensFrom rt rest 0
                (elements
                 ++ map ElParagraph
                      (createCodeBlock rt (content token) (info token)))
          else if isLit "code_block" type then
            if isAsciiDiagram (content token) then
              diagramElements <- createDiagramBlock rt (content token) ;;
              processTokensFrom rt rest 0 (elements ++ diagramElements)
            else
              processTokensFrom rt rest 0
                (elements
                 ++ map ElParagraph (createCodeBlock rt (content token) []))
          else if isLit "table_open" type then
            let tableEnd := findClosingToken tokens 0 (u "table_close") in
            let tableTokens := slice tokens 0 (tableEnd + 1) in
            processTokensFrom rt rest (Z.to_nat tableEnd)
              (elements ++ [createTable tableTokens])
          else if isLit "bullet_list_open" type
                  || isLit "ordered_list_open" type then
            let listEnd :=
              findClosingToken tokens 0
                (replaceFirst (u "_open") (u "_close") type) in
            let listTokens := slice tokens 0 (listEnd + 1) in
            let isOrdered := isLit "ordered_list_open" type in
            processTokensFrom rt rest (Z.to_nat listEnd)
              (elements ++ map ElParagraph (createList listTokens isOrdered))
          else if isLit "hr" type then
            processTokensFrom rt rest 0
              (elements ++ [ElParagraph createHorizontalRule])
          else if isLit "blockquote_open" type then
            let bqEnd := findClosingToken tokens 0 (u "blockquote_close") in
            let bqTokens := slice tokens 1 bqEnd in
            processTokensFrom rt rest (Z.to_nat bqEnd)
              (elements ++ map ElParagraph (createBlockquote bqTokens))
          else processTokensFrom rt rest 0 elements
      end
  end.

(** [parseToTokens] of markdownParser.js, on a string. *)
Definition parseToTokens (rt : Runtime) (markdown : ustring) : list Token :=
  match markdown with
  | [] => []
  | _ => mdParser_parse rt markdown
  end.

(** The first half of [convertToDocx]: [Some docElements] when the AI
    structure was used.  The catch block logs [error.message]. *)
Definition tryAI (rt : Runtime) (markdown : ustring) (useAI : bool)
  : M (option (list Element)) :=
  if useAI then
    available <- GeminiService.isGeminiAvailable ;;
    if available : bool then
      tryCatch
        (aiParsed <- GeminiService.parseDocumentWithAI rt markdown ;;
         match aiParsed with
         | Some doc =>
             match elements doc with
             | Some (_ :: _) =>
                 docElements <- lift (processAIParsedElements rt doc) ;;
                 ret (Some docElements)
             | _ => ret None
             end
         | None => ret None
         end)
        (fun error =>
           match error with
           | Js.Nil n => throw (Js.cannotRead n "message")
           | Js.Obj _ => ret None
           end)
    else ret None
  else ret None.

(** The result is the document handed to [Packer.toBuffer]. *)
Definition convertToDocx (rt : Runtime) (markdown : ustring) (useAI : bool)
  : M Document :=
  usedAI <- tryAI rt markdown useAI ;;
  docElements <-
    match usedAI with
    | Some docElements => ret docElements
    | None => processTokens rt (parseToTokens rt markdown) []
    end ;;
  ret {| margin := convertInchesToTwip 1; doc_children := docElements |}.

End DocxConverter.

(** ** src/parser/markdownParser.js: the slugs of heading anchors *)

Module Anchor.





End Anchor.

(** ** src/server.js: the route [POST /api/convert] *)

Module Server.
Import World.
Local Open Scope js_scope.

(** A value of the JSON body, as far as [useAI !== false] tells values
    apart. *)
Inductive JsonValue :=
| JNull
| JBool (b : bool)
| JNumber (z : Z)
| JString (s : ustring).

(** [req.body] with the three properties the route reads; a property is
    [None] when the body does not have it, and [markdown] and [filename]
    are strings when it has them. *)
Record Body := {
  markdown : option ustring;
  filename : option ustring;
  useAI : option JsonValue
}.

(** What the route answers: [res.status(code).json({ error })], or the
    two headers and [res.send] of the packed document. *)
Inductive Response :=
| Json (status : Z) (error : ustring)
| Attachment (outputFilename : ustring) (document : Docx.Document).

(** [useAI !== false] *)
Definition notFalse (v : option JsonValue) : bool :=
  match v with
  | Some (JBool false) => false
  | _ => true
  end.

(** The alternatives of [/\.(md|markdown|txt)$/i], the dot in front of
    each. *)
Definition extensions : list Regex.regex :=
  [Regex.liti ".md"; Regex.liti ".markdown"; Regex.liti ".txt"].

(** A match of that expression at the head of [s]: one of the
    alternatives matches and the end of the match is the end of [s]. *)
Definition extensionHere (s : ustring) : bool :=
  existsb
    (fun re =>
       match Regex.matchHere re s 0 Regex.no_group with
       | Some r => Nat.eqb (Regex.f_end r) (List.length s)
       | None => false
       end)
    extensions.

(** [filename.replace(/\.(md|markdown|txt)$/i, '.docx')]: the leftmost
    match is replaced, and it reaches to the end. *)
Fixpoint replaceExtension (s : ustring) : ustring :=
  if extensionHere s then u ".docx"
  else
    match s with
    | [] => []
    | c :: s' => c :: replaceExtension s'
    end.

Definition outputFilename (filename : option ustring) : ustring :=
  match filename with
  | Some (c :: name) => replaceExtension (c :: name)
  | _ => u "document.docx"
  end.

(** The units node takes in the value of a header: the tab, 0x20 to 0x7e
    and 0x80 to 0xff. *)
Definition headerUnit (c : N) : bool :=
  ((c =? 9) || (32 <=? c) && (c <=? 126) || (128 <=? c) && (c <=? 255))%N.

(** [res.setHeader(name, value)]: node throws a [TypeError] on a value
    with any other unit. *)
Definition setHeader (name value : ustring) : M unit :=
  if forallb headerUnit value then ret tt
  else throw {| Js.name := u "TypeError";
                Js.message :=
                  Some (u "Invalid character in header content [" ++ [34%N]
                        ++ name ++ [34%N] ++ u "]");
                Js.status := Js.Undefined;
                Js.response_status := Js.Undefined |}.

Definition docxType : ustring :=
  u "application/vnd.openxmlformats-officedocument.wordprocessingml.document".

(** [`attachment; filename="${outputFilename}"`] *)
Definition contentDisposition (outputFilename : ustring) : ustring :=
  u "attachment; filename=" ++ [34%N] ++ outputFilename ++ [34%N].

(** [app.post('/api/convert', async (req, res) => ...)] *)
Definition convert (rt : Runtime) (body : Body) : M Response :=
  tryCatch
    (match markdown body with
     | None | Some [] => ret (Json 400 (u "No markdown content provided"))
     | Some markdown_ =>
         let useAIFlag := notFalse (useAI body) in
         docxBuffer <- DocxConverter.convertToDocx rt markdown_ useAIFlag ;;
         let outputFilename_ := outputFilename (filename body) in
         setHeader (u "Content-Type") docxType ;;;
         setHeader (u "Content-Disposition")
           (contentDisposition outputFilename_) ;;;
         ret (Attachment outputFilename_ docxBuffer)
     end)
    (fun error => ret (Json 500 (u "Failed to convert to DOCX"))).

End Server.

(** ** What an expression matches

    The texts an expression of the fragment matches, without any order of
    preference: [matchHere] is compared with this below. *)

Module RegexSpec.
Import Regex.

Inductive Matches : regex -> ustring -> Prop :=
| M_end : Matches [] []
| M_open re s : Matches re s -> Matches (GroupOpen :: re) s
| M_close re s : Matches re s -> Matches (GroupClose :: re) s
| M_one p c re s :
    p c = true -> Matches re s -> Matches (Atom One p :: re) (c :: s)
| M_opt_none p re s : Matches re s -> Matches (Atom Opt p :: re) s
| M_opt_some p c re s :
    p c = true -> Matches re s -> Matches (Atom Opt p :: re) (c :: s)
| M_star p cs re s :
    forallb p cs = true -> Matches re s -> Matches (Atom Star p :: re) (cs ++ s)
| M_lazy p cs re s :
    forallb p cs = true -> Matches re s ->
    Matches (Atom LazyStar p :: re) (cs ++ s)
| M_plus p c cs re s :
    p c = true -> forallb p cs = true -> Matches re s ->
    Matches (Atom Plus p :: re) (c :: cs ++ s).

(** The same, with the positions of capture group 1: the text is matched
    from position [pos] on, [g] is the group before and [g'] the group
    after. *)
Definition closeAt (pos : nat) (g : option groups) : option groups :=
  match g with
  | Some gr => Some {| g_open := g_open gr; g_close := Some pos |}
  | None => None
  end.

Inductive Derives : regex -> ustring -> nat -> option groups -> option groups
                    -> Prop :=
| D_end pos g : Derives [] [] pos g g
| D_open re s pos g g' :
    Derives re s pos (Some {| g_open := pos; g_close := None |}) g' ->
    Derives (GroupOpen :: re) s pos g g'
| D_close re s pos g g' :
    Derives re s pos (closeAt pos g) g' ->
    Derives (GroupClose :: re) s pos g g'
| D_one p c re s pos g g' :
    p c = true -> Derives re s (S pos) g g' ->
    Derives (Atom One p :: re) (c :: s) pos g g'
| D_opt_none p re s pos g g' :
    Derives re s pos g g' -> Derives (Atom Opt p :: re) s pos g g'
| D_opt_some p c re s pos g g' :
    p c = true -> Derives re s (S pos) g g' ->
    Derives (Atom Opt p :: re) (c :: s) pos g g'
| D_star p cs re s pos g g' :
    forallb p cs = true -> Derives re s (pos + List.length cs) g g' ->
    Derives (Atom Star p :: re) (cs ++ s) pos g g'
| D_lazy p cs re s pos g g' :
    forallb p cs = true -> Derives re s (pos + List.length cs) g g' ->
    Derives (Atom LazyStar p :: re) (cs ++ s) pos g g'
| D_plus p c cs re s pos g g' :
    p c = true -> forallb p cs = true ->
    Derives re s (S pos + List.length cs) g g' ->
    Derives (Atom Plus p :: re) (c :: cs ++ s) pos g g'.

(** Some part of [s] matches [re]. *)
Definition Occurs (re : regex) (s : ustring) : Prop :=
  exists before m after, s = before ++ m ++ after /\ Matches re m.

End RegexSpec.

(** ** Expressions with one group in the middle *)

Module Grouped.
Import Regex.

Definition isAtom (it : item) : bool :=
  match it with
  | Atom _ _ => true
  | _ => false
  end.

(** An expression without group. *)
Definition plain (re : regex) : Prop := forallb isAtom re = true.

(** [before (inside) after] *)
Definition grouped (before inside after : regex) : regex :=
  before ++ GroupOpen :: inside ++ GroupClose :: after.

End Grouped.

(** ** The claims in the words of the specification *)

Module Glyphs.

(** "Box-drawing lines": U+2500 and U+2502, light horizontal and light
    vertical. *)
Definition lines : list N := [0x2500; 0x2502]%N.

(** "Corners": light down and right, down and left, up and right, up and
    left. *)
Definition corners : list N := [0x250C; 0x2510; 0x2514; 0x2518]%N.

(** "Junctions": the four light tees and the light cross. *)
Definition junctions : list N :=
  [0x251C; 0x2524; 0x252C; 0x2534; 0x253C]%N.

(** "Double-line variants": double horizontal and vertical, the four
    double corners, the four double tees and the double cross. *)
Definition doubleLines : list N :=
  [0x2550; 0x2551; 0x2554; 0x2557; 0x255A; 0x255D; 0x2560; 0x2563; 0x2566;
   0x2569; 0x256C]%N.

(** "Directional arrows": the black triangles that point down and up and
    the black pointers that point left and right. *)
Definition arrows : list N := [0x25BC; 0x25B2; 0x25C4; 0x25BA]%N.

(** "Filled/outline geometric markers": black and white circle, black and
    white square, black and white small square. *)
Definition markers : list N :=
  [0x25CF; 0x25CB; 0x25A0; 0x25A1; 0x25AA; 0x25AB]%N.

(** "A fixed glyph set": 32 glyphs. *)
Definition fixedSet : list N :=
  lines ++ corners ++ junctions ++ doubleLines ++ arrows ++ markers.

(** "Common ASCII frame characters": the brackets, the minus, the bar,
    the plus and the star. *)
Definition frame : ustring := u "[]-|+*".

End Glyphs.

Module Spec.

(** "Each line": the texts between the line feeds. *)
Fixpoint linesFrom (line : ustring) (text : ustring) : list ustring :=
  match text with
  | [] => [rev line]
  | c :: text' =>
      if (c =? 0xA)%N then rev line :: linesFrom [] text'
      else linesFrom (c :: line) text'
  end.

Definition lines (text : ustring) : list ustring := linesFrom [] text.

(** "Strip box-drawing/line/bullet glyphs and common ASCII frame
    characters": the glyphs of the fixed set and the frame characters. *)
Definition stripped (c : N) : bool :=
  existsb (N.eqb c) (Glyphs.fixedSet ++ Glyphs.frame).

Definition strip (line : ustring) : ustring :=
  filter (fun c => negb (stripped c)) line.

(** White space and line terminators of ECMAScript: tab, line feed, line
    tabulation, form feed, carriage return, space, no-break space, ogham
    space mark, en quad to hair space, line and paragraph separator,
    narrow no-break space, medium mathematical space, ideographic space,
    byte order mark. *)
Definition blanks : list N :=
  [0x9; 0xA; 0xB; 0xC; 0xD; 0x20; 0xA0; 0x1680;
   0x2000; 0x2001; 0x2002; 0x2003; 0x2004; 0x2005; 0x2006; 0x2007; 0x2008;
   0x2009; 0x200A; 0x2028; 0x2029; 0x202F; 0x205F; 0x3000; 0xFEFF]%N.

Definition blank (c : N) : bool := existsb (N.eqb c) blanks.

Fixpoint dropBlanks (s : ustring) : ustring :=
  match s with
  | c :: s' => if blank c then dropBlanks s' else s
  | [] => []
  end.

(** "Trim": without the blanks at the start and at the end. *)
Definition trimmed (s : ustring) : ustring :=
  rev (dropBlanks (rev (dropBlanks s))).

(** "Deduplicate preserving first-seen order": an entry is kept unless it
    was seen before. *)
Fixpoint firstSeen (seen l : list ustring) : list ustring :=
  match l with
  | [] => []
  | x :: r =>
      if existsb (Str.eqb x) seen then firstSeen seen r
      else x :: firstSeen (x :: seen) r
  end.

(** "Strip ..., trim, discard fragments of length <= 2, deduplicate". *)
Definition fragments (diagram : ustring) : list ustring :=
  firstSeen []
    (filter (fun t => (2 <? List.length t)%nat)
       (map (fun line => trimmed (strip line)) (lines diagram))).

(** "A bullet separator": a line feed, the bullet U+2022 and a space. *)
Definition bulletSeparator : ustring := [0xA; 0x2022; 0x20]%N.

(** "Joining the fragments with a separator": the separator stands
    before every fragment but the first. *)
Definition joined (separator : ustring) (fragments : list ustring)
  : ustring :=
  match fragments with
  | [] => []
  | first :: others =>
      first ++ flat_map (fun fragment => separator ++ fragment) others
  end.

End Spec.

(** ** Outcomes of one attempt, for the statements about the retry loops *)

Module Attempt.
Import World.

(** The error object the attempt that makes call number [k] ends with,
    if it fails with one: the backend throws it, or [JSON.parse] throws
    on the cleaned reply, or (document prompt) the reply is [null]. *)
Definition failure (rt : Runtime) (p : Prompt) (k : nat) : option Js.Error :=
  match backend rt k p with
  | Throw e => Some e
  | ThrowNullish _ => None
  | Reply text =>
      match p with
      | DiagramPrompt _ =>
          match JSON_parse_diagram rt (GeminiService.cleanReply text) with
          | inl e => Some e
          | inr _ => None
          end
      | DocumentPrompt _ =>
          match JSON_parse_document rt (GeminiService.cleanReply text) with
          | inl e => Some e
          | inr None =>
              Some (Js.TypeError
                      "Cannot read properties of null (reading 'elements')")
          | inr (Some _) => None
          end
      end
  end.

(** The backend rejects call number [k] with [null] or [undefined]. *)
Definition rejection (rt : Runtime) (p : Prompt) (k : nat)
  : option Js.Nullish :=
  match backend rt k p with
  | ThrowNullish n => Some n
  | _ => None
  end.

(** How a wrapper ends when its last call is number [k]: when the
    backend rejected that call with [null] or [undefined], with the
    TypeError of reading [message] of it; otherwise with a value. *)
Definition ends {A : Type} (rt : Runtime) (p : Prompt) (k : nat)
  (r : Js.Thrown + A) : Prop :=
  match rejection rt p k with
  | Some n => r = inl (Js.Obj (Js.cannotRead n "message"))
  | None => exists value, r = inr value
  end.

(** The state after one more call with prompt [p]. *)
Definition called (p : Prompt) (w : State) : State :=
  {| model := model w; useGemini := useGemini w; calls := S (calls w);
     draws := draws w; trace := trace w ++ [GenerateContent p] |}.

(** The state after the pause that precedes turn [attempt]. *)
Definition paused (rt : Runtime) (attempt : nat) (lastError : option Js.Error)
  (w : State) : State :=
  snd (GeminiService.backoff rt attempt lastError w).

End Attempt.

(** ** Retryability in the words of the specification *)

Module Retryability.

(** "The error's status code or message text matches one of ...": the
    status code is one of [codes] or the message contains one of
    [words]. *)
Definition matches (codes : list Z) (words : list string) (e : Js.Error)
  : bool :=
  existsb (fun c => Js.isNumber c (GeminiService.statusCode e)) codes
  || existsb (fun word => Js.messageIncludes word e) words.

(** The one set the specification gives for both wrappers. *)
Definition bySpec : Js.Error -> bool :=
  matches [404; 429; 503]%Z
    ["404"; "429"; "503"; "overloaded"; "temporarily"; "quota"; "rate"]%string.

(** The set of each wrapper. *)
Definition ofDiagram : Js.Error -> bool :=
  matches [404; 503; 429]%Z ["404"; "503"; "overloaded"; "temporarily"]%string.

Definition ofDocument : Js.Error -> bool :=
  matches [] ["429"; "503"; "quota"; "overloaded"; "rate"]%string.

End Retryability.

(** ** Elements of an unknown type *)

Module Unknown.
Import Schema.

(** The [type] of the element is none of the eight known tags (it may be
    missing altogether). *)
Definition unknownType (elem : AIElement) : bool :=
  match e_type elem with
  | None => true
  | Some t => negb (existsb (fun k => Str.eqb t (u k)) DocxConverter.knownTypes)
  end.

(** What the element adds to the output. *)
Definition pushed (elem : AIElement) : list Docx.Element :=
  if DocxConverter.truthy (e_text elem)
  then [Docx.ElParagraph
          (DocxConverter.plainParagraph (DocxConverter.str (e_text elem)))]
  else [].

End Unknown.

(** ** Column counts *)

Module Columns.

(** The cell count of every row of a table. *)
Definition counts (t : Docx.Table) : list nat :=
  map (fun r => List.length (Docx.cells r)) (Docx.rows t).

End Columns.

(** ** What a conversion does to the outside *)

Module Quiet.
Import World.

Definition isDocumentCall (ev : Event) : bool :=
  match ev with
  | GenerateContent (DocumentPrompt _) => true
  | _ => false
  end.

(** How often the document prompt was sent in a history. *)
Definition documentCalls (t : list Event) : nat :=
  List.length (filter isDocumentCall t).

(** From [w] to [w'] the client was left as it was and the document
    prompt was not sent. *)
Definition noDocumentCall (w w' : State) : Prop :=
  model w' = model w /\ useGemini w' = useGemini w
  /\ documentCalls (trace w') = documentCalls (trace w).

(** From [w] to [w'] nothing happened at all, if the client of [w] is not
    available. *)
Definition idleWhenUnavailable (w w' : State) : Prop :=
  GeminiService.unavailable w = true -> w' = w.

End Quiet.

(** ** Replies wrapped in a code fence *)

Module Fence.

(** The code-fence marker. *)
Definition marker : ustring := u "```".

(** The text holds no marker. *)
Definition free (s : ustring) : Prop := Str.includes marker s = false.

(** Only white space. *)
Definition blank (w : ustring) : Prop := forallb Str.isWhite w = true.

(** [body] between an opening [```json] and a closing [```], set off by
    the white space [w1] and [w2] (line breaks, blanks or nothing). *)
Definition wrap (w1 body w2 : ustring) : ustring :=
  u "```json" ++ w1 ++ body ++ w2 ++ marker.

(** A line feed at the head is taken by the opening fence. *)
Definition dropLineFeed (s : ustring) : ustring :=
  match s with
  | c :: r => if N.eqb 10 c then r else s
  | [] => []
  end.

End Fence.

(** ** The delay a server suggests *)

Module Delay.
Import GeminiService.

(** The number a run of decimal digits stands for. *)
Fixpoint digitsNumber (ds : ustring) : Z :=
  match ds with
  | [] => 0
  | c :: ds' =>
      ((Z.of_N c - 48) * 10 ^ Z.of_nat (List.length ds') + digitsNumber ds')%Z
  end.

(** The decimal digits at the head of a text. *)
Fixpoint leadingDigits (s : ustring) : ustring :=
  match s with
  | c :: s' =>
      if ((48 <=? c) && (c <=? 57))%N then c :: leadingDigits s' else []
  | [] => []
  end.

(** The decimal a numeral [12], [12.] or [12.345] stands for. *)
Definition decimal (numeral : ustring) : Q :=
  let whole := leadingDigits numeral in
  let frac :=
    match skipn (List.length whole) numeral with
    | 46%N :: rest => leadingDigits rest
    | _ => []
    end in
  Qmake (digitsNumber (whole ++ frac))
    (Z.to_pos (10 ^ Z.of_nat (List.length frac))).

(** The seconds named in the text of the last error: capture group 1 of
    the first of the two expressions that matches, read as a decimal. *)
Definition suggestedSeconds (lastError : option Js.Error) : option Q :=
  let text := errorText lastError in
  match
    match Regex.exec retryInSeconds text with
    | Some m => Some m
    | None => Regex.exec retryDelayField text
    end
  with
  | Some (Some m1) => Some (decimal m1)
  | _ => None
  end.


(** "min(suggested seconds converted to ms rounded up + 500, 20000)", in
    the arithmetic of doubles. *)
Definition suggestedPause (seconds : Q) : Double.t :=
  Double.min
    (Double.add
       (Double.ceil (Double.mul (Double.round seconds) (Double.Finite 1000)))
       (Double.Finite 500))
    (Double.Finite 20000).

(** "min(2000 * 2^(n-1), 20000)" *)
Definition exponential (n : nat) : Double.t :=
  Double.min (Double.mul (Double.Finite 2000) (Double.pow2 (n - 1)))
    (Double.Finite 20000).

(** The factor [0.8 + Math.random() * 0.4] for the draw [r]. *)
Definition jitter (r : Q) : Double.t :=
  Double.add (Double.round (8 # 10))
    (Double.mul (Double.Finite r) (Double.round (4 # 10))).

(** A result of [Math.random]: a double from 0 up to, not including, 1;
    the largest is [1 - 2^-53]. *)
Definition drawn (r : Q) : Prop :=
  0 <= r /\ r <= 1 - (1 # 9007199254740992).


(** A pause of at least half a second and at most twenty. *)
Definition inRange (ms : Double.t) : Prop :=
  match ms with
  | Double.Finite q => 500 <= q /\ q <= 20000
  | _ => False
  end.

End Delay.

(** ** Concrete platforms and inputs *)

Module Samples.
Import World Schema.

Definition plainError (msg : string) : Js.Error :=
  {| Js.name := u "Error"; Js.message := Some (u msg);
     Js.status := Js.Undefined; Js.response_status := Js.Undefined |}.

Definition httpError (code : Z) (msg : string) : Js.Error :=
  {| Js.name := u "Error"; Js.message := Some (u msg);
     Js.status := Js.Number code; Js.response_status := Js.Undefined |}.

Definition syntaxError : Js.Error :=
  {| Js.name := u "SyntaxError"; Js.message := Some (u "Unexpected end of JSON input");
     Js.status := Js.Undefined; Js.response_status := Js.Undefined |}.

(** An initialized and enabled client, before any call. *)
Definition ready : State :=
  {| model := Some gemini_3_flash_preview; useGemini := true;
     calls := 0; draws := 0; trace := [] |}.

(** A client that was never initialized. *)
Definition off : State :=
  {| model := None; useGemini := false; calls := 0; draws := 0; trace := [] |}.

(** A platform whose backend throws [e] at every call. *)
Definition failing (e : Js.Error) : Runtime :=
  {| backend := fun _ _ => Throw e;
     random := fun _ => 1 # 2;
     JSON_parse_diagram := fun _ => inl syntaxError;
     JSON_parse_document := fun _ => inl syntaxError;
     mdParser_parse := fun _ => [];
     toUpperCase := fun s => s;
     GoogleGenerativeAI := fun _ => None |}.

Definition emptyReply : DiagramReply :=
  {| r_success := None; r_type := None; r_title := None;
     r_description := None; r_components := None; r_connections := None;
     r_summary := None |}.

(** The reply [{"success": false}] and what [JSON.parse] makes of it. *)
Definition denialText : ustring :=
  u "{" ++ [34%N] ++ u "success" ++ [34%N] ++ u ": false}".

Definition denial : DiagramReply :=
  {| r_success := Some false; r_type := None; r_title := None;
     r_description := None; r_components := None; r_connections := None;
     r_summary := None |}.

(** A diagram with two boxes, an arrow and ASCII frames:
    a box around Frontend, a tee and an arrow down, then the lines
    [[ Backend ]], [| Frontend |], [+-- DB --+] and a bullet U+2022
    before Cache. *)
Definition layers : ustring :=
  ([0x250C] ++ repeat 0x2500 10 ++ [0x2510; 0xA]
   ++ [0x2502] ++ u " Frontend " ++ [0x2502; 0xA]
   ++ [0x2514] ++ repeat 0x2500 4 ++ [0x252C] ++ repeat 0x2500 5
   ++ [0x2518; 0xA]
   ++ u "     " ++ [0x25BC; 0xA]
   ++ u "[ Backend ]" ++ [0xA]
   ++ u "| Frontend |" ++ [0xA]
   ++ u "+-- DB --+" ++ [0xA]
   ++ [0x2022] ++ u " Cache")%N.

(** A fenced block that holds the box [┌─┐]: the markdown and the one
    token markdown-it makes of it. *)
Definition boxLine : ustring := [9484; 9472; 9488; 10]%N.

Definition boxMarkdown : ustring := u "```" ++ [10%N] ++ boxLine ++ u "```" ++ [10%N].

Definition boxFence : MarkdownParser.Token :=
  {| MarkdownParser.type := u "fence"; MarkdownParser.tag := u "code";
     MarkdownParser.content := boxLine; MarkdownParser.info := [];
     MarkdownParser.children := None |}.

(** A platform whose backend answers every call with [denialText];
    [JSON.parse] and markdown-it are given on the texts of the scenario. *)
Definition denying : Runtime :=
  {| backend := fun _ _ => Reply denialText;
     random := fun _ => 1 # 2;
     JSON_parse_diagram :=
       fun text => if Str.eqb text denialText then inr denial
                   else inl syntaxError;
     JSON_parse_document := fun _ => inl syntaxError;
     mdParser_parse :=
       fun markdown => if Str.eqb markdown boxMarkdown then [boxFence]
                       else [];
     toUpperCase := fun s => s;
     GoogleGenerativeAI := fun _ => None |}.

(** An element of a type the renderer does not know. *)
Definition blankElement : AIElement :=
  {| e_type := None; e_text := None; e_level := None; e_content := None;
     e_language := None; e_headers := None; e_rows := None; e_items := None;
     e_ordered := false; e_title := None; e_description := None;
     e_components := None; e_connections := None |}.

Definition footnote : AIElement :=
  {| e_type := Some (u "footnote"); e_text := Some (u "See appendix");
     e_level := None; e_content := None;
     e_language := None; e_headers := None; e_rows := None; e_items := None;
     e_ordered := false; e_title := None; e_description := None;
     e_components := None; e_connections := None |}.

Definition rule : AIElement :=
  {| e_type := Some (u "hr"); e_text := None;
     e_level := None; e_content := None;
     e_language := None; e_headers := None; e_rows := None; e_items := None;
     e_ordered := false; e_title := None; e_description := None;
     e_components := None; e_connections := None |}.

(** A rate-limit error that names a delay, and one that does not. *)
Definition retryIn17s : Js.Error :=
  httpError 429 "Resource exhausted. Please retry in 17.369220798s.".

Definition overloaded : Js.Error :=
  httpError 503 "The model is overloaded. Please try again later.".

End Samples.

(** ** Histories of one wrapper call *)

Module History.
Import World.

(** A pause and the call that follows it, for each of [pauses]. *)
Definition retries (p : Prompt) (pauses : list Double.t) : list Event :=
  flat_map (fun ms => [Sleep ms; GenerateContent p]) pauses.

(** What a wrapper that reaches the backend does to the outside: a call
    with the prompt [p], then a pause and one more call for each of
    [pauses]. *)
Definition rounds (p : Prompt) (pauses : list Double.t) : list Event :=
  GenerateContent p :: retries p pauses.

End History.

(** ** The life of the client *)

Module Client.
Import World.

(** The operations geminiService.js exports on the client. *)
Inductive Op :=
| Initialize (apiKey : option ustring)
| Disable
| Enable.

Definition apply (rt : Runtime) (op : Op) (w : State) : State :=
  match op with
  | Initialize apiKey => snd (GeminiService.initializeGemini rt apiKey w)
  | Disable => snd (GeminiService.disableGemini w)
  | Enable => snd (GeminiService.enableGemini w)
  end.

Definition run (rt : Runtime) (ops : list Op) (w : State) : State :=
  fold_left (fun w op => apply rt op w) ops w.

(** The key is one [initializeGemini] succeeds with: it is not empty and
    the constructor does not throw. *)
Definition accepted (rt : Runtime) (apiKey : option ustring) : bool :=
  match apiKey with
  | Some (c :: key) =>
      match GoogleGenerativeAI rt (c :: key) with
      | None => true
      | Some _ => false
      end
  | _ => false
  end.

(** No operation of [ops] is an [initializeGemini] that succeeds. *)
Definition neverInitialized (rt : Runtime) (ops : list Op) : bool :=
  forallb (fun op => match op with
                     | Initialize apiKey => negb (accepted rt apiKey)
                     | _ => true
                     end) ops.

End Client.

(** ** The text of runs and paragraphs *)

Module Runs.
Import Docx.

(** The text a run shows: its [text] option. *)
Definition runText (run : TextRun) : ustring :=
  match run with
  | mkTextRun options =>
      flat_map (fun o => match o with text s => s | _ => [] end) options
  end.

(** The tokens [extractTextFromInline] keeps. *)
Definition shown (t : MarkdownParser.InlineToken) : bool :=
  DocxConverter.isLit "text" (MarkdownParser.i_type t)
  || DocxConverter.isLit "code_inline" (MarkdownParser.i_type t)
  || DocxConverter.isLit "emoji" (MarkdownParser.i_type t).

(** The text of the runs of a paragraph, one after the other. *)
Definition paragraphText (p : Paragraph) : ustring :=
  match p with
  | mkParagraph options =>
      flat_map (fun o => match o with
                         | children runs => flat_map runText runs
                         | _ => []
                         end) options
  end.

End Runs.

(** ** Blocks of the token stream *)

Module Blocks.
Import MarkdownParser.

(** A token the local walk hands to the diagram analyzer: a fenced or an
    indented code block whose content holds a glyph. *)
Definition isDiagramBlock (token : Token) : bool :=
  (DocxConverter.isLit "fence" (type token)
   || DocxConverter.isLit "code_block" (type token))
  && isAsciiDiagram (content token).

Definition diagrams (tokens : list Token) : nat :=
  List.length (filter isDiagramBlock tokens).

(** What the local walk may send to the backend: the content of a
    diagram block of [tokens], under the diagram prompt. *)
Definition sent (tokens : list Token) (ev : World.Event) : Prop :=
  match ev with
  | World.GenerateContent p =>
      exists token,
        In token tokens /\ isDiagramBlock token = true
        /\ p = World.DiagramPrompt (content token)
  | World.Sleep _ => True
  end.

(** The last token opens a heading: the one stream on which the local
    walk reads past the end. *)
Definition endsWithHeadingOpen (tokens : list Token) : bool :=
  match rev tokens with
  | token :: _ => DocxConverter.isLit "heading_open" (type token)
  | [] => false
  end.

(** The tags markdown-it gives to a heading. *)
Definition headingTags : list ustring :=
  [u "h1"; u "h2"; u "h3"; u "h4"; u "h5"; u "h6"].

(** Every token that opens a heading has one of these tags. *)
Definition headingsTagged (tokens : list Token) : bool :=
  forallb
    (fun token =>
       negb (Str.eqb (type token) (u "heading_open"))
       || existsb (Str.eqb (tag token)) headingTags)
    tokens.

Definition isType (name : ustring) (token : Token) : bool :=
  Str.eqb (type token) name.

(** Opening tokens minus closing tokens. *)
Definition balance (openType closeType : ustring) (tokens : list Token) : Z :=
  (Z.of_nat (List.length (filter (isType openType) tokens))
   - Z.of_nat (List.length (filter (isType closeType) tokens)))%Z.

End Blocks.

(** ** What a diagram block shows *)

Module DiagramBlock.

(** What [createDiagramBlock] makes of the outcome of the analyzer: the
    rendered analysis, or the code block of the [catch] when it throws. *)
Definition rendering (rt : World.Runtime) (asciiContent : ustring)
  (r : Js.Thrown + Schema.DiagramAnalysis) : list Docx.Element :=
  match r with
  | inr analysis => DocxConverter.renderAnalysis analysis
  | inl _ =>
      map Docx.ElParagraph
        (DocxConverter.createCodeBlock rt asciiContent (u "text"))
  end.

End DiagramBlock.

(** ** The structure the AI returns *)

Module AIPath.
Import Schema.

(** The elements [convertToDocx] takes from the reply to the document
    prompt: the reply is an object with at least one element and
    rendering the elements does not throw. *)
Definition usable (rt : World.Runtime) (aiParsed : option ParsedDocument)
  : option (list Docx.Element) :=
  match aiParsed with
  | Some doc =>
      match elements doc with
      | Some (_ :: _) =>
          match DocxConverter.processAIParsedElements rt doc with
          | inr docElements => Some docElements
          | inl _ => None
          end
      | _ => None
      end
  | None => None
  end.

End AIPath.

(** ** File names and slugs *)

Module Names.

(** An ASCII capital as the small letter, anything else as it is. *)
Definition lower (c : N) : N :=
  if ((65 <=? c) && (c <=? 90))%N then (c + 32)%N else c.

(** [ext] is [.md], [.markdown] or [.txt], in any mix of capitals and
    small letters. *)
Definition isMarkdownExtension (ext : ustring) : bool :=
  existsb (Str.eqb (map lower ext)) [u ".md"; u ".markdown"; u ".txt"].

(** The letters of [str] are small letters, or no letters at all. *)
Fixpoint small (str : string) : bool :=
  match str with
  | EmptyString => true
  | String a str' =>
      (let n := N_of_ascii a in
       (97 <=? n) && (n <=? 122) || negb ((65 <=? n) && (n <=? 90))
                                    && negb ((97 <=? n) && (n <=? 122)))%N
      && small str'
  end.

(** The units at the head of [s] that satisfy [p], counted. *)
Fixpoint run (p : N -> bool) (s : ustring) : nat :=
  match s with
  | c :: s' => if p c then S (run p s') else O
  | [] => O
  end.

End Names.

(** ** More platforms *)

Module Scenarios.
Import World Schema.

(** A backend that is overloaded at the first call and answers the later
    ones with [{"success": false}]. *)
Definition recovering : Runtime :=
  {| backend := fun k _ =>
                  match k with
                  | O => Throw Samples.overloaded
                  | S _ => Reply Samples.denialText
                  end;
     random := fun _ => 1 # 2;
     JSON_parse_diagram :=
       fun text => if Str.eqb text Samples.denialText then inr Samples.denial
                   else inl Samples.syntaxError;
     JSON_parse_document :=
       fun text => if Str.eqb text Samples.denialText
                   then inr (Some {| doc_title := None; elements := None |})
                   else inl Samples.syntaxError;
     mdParser_parse := fun _ => [];
     toUpperCase := fun s => s;
     GoogleGenerativeAI := fun _ => None |}.

(** A backend that rejects every call with [null]. *)
Definition rejecting : Runtime :=
  {| backend := fun _ _ => ThrowNullish Js.Null;
     random := fun _ => 1 # 2;
     JSON_parse_diagram := fun _ => inl Samples.syntaxError;
     JSON_parse_document := fun _ => inl Samples.syntaxError;
     mdParser_parse := fun _ => [];
     toUpperCase := fun s => s;
     GoogleGenerativeAI := fun _ => None |}.

(** A block token of markdown-it, and an inline token that holds one
    text. *)
Definition token (type_ : string) : MarkdownParser.Token :=
  {| MarkdownParser.type := u type_; MarkdownParser.tag := [];
     MarkdownParser.content := []; MarkdownParser.info := [];
     MarkdownParser.children := None |}.

Definition inline (text_ : string) : MarkdownParser.Token :=
  {| MarkdownParser.type := u "inline"; MarkdownParser.tag := [];
     MarkdownParser.content := u text_; MarkdownParser.info := [];
     MarkdownParser.children :=
       Some [ {| MarkdownParser.i_type := u "text";
                 MarkdownParser.i_content := u text_ |} ] |}.

(** The tokens of a table with the header cells A and B and a row that
    holds the one cell 1. *)
Definition raggedTable : list MarkdownParser.Token :=
  [ token "table_open"; token "thead_open"; token "tr_open";
    token "th_open"; inline "A"; token "th_close";
    token "th_open"; inline "B"; token "th_close";
    token "tr_close"; token "thead_close"; token "tbody_open";
    token "tr_open"; token "td_open"; inline "1"; token "td_close";
    token "tr_close"; token "tbody_close"; token "table_close" ].

(** A platform whose markdown-it gives a paragraph and that table for
    every markdown, and whose backend is overloaded. *)
Definition prose : Runtime :=
  {| backend := fun _ _ => Throw Samples.overloaded;
     random := fun _ => 1 # 2;
     JSON_parse_diagram := fun _ => inl Samples.syntaxError;
     JSON_parse_document := fun _ => inl Samples.syntaxError;
     mdParser_parse :=
       fun _ => [token "paragraph_open"; inline "Hello";
                 token "paragraph_close"] ++ raggedTable;
     toUpperCase := fun s => s;
     GoogleGenerativeAI := fun _ => None |}.

(** A platform whose markdown-it gives a heading with the tag [h7]. *)
Definition oddHeading : Runtime :=
  {| backend := fun _ _ => Throw Samples.overloaded;
     random := fun _ => 1 # 2;
     JSON_parse_diagram := fun _ => inl Samples.syntaxError;
     JSON_parse_document := fun _ => inl Samples.syntaxError;
     mdParser_parse :=
       fun _ => [ {| MarkdownParser.type := u "heading_open";
                     MarkdownParser.tag := u "h7";
                     MarkdownParser.content := []; MarkdownParser.info := [];
                     MarkdownParser.children := None |};
                  inline "Title"; token "heading_close" ];
     toUpperCase := fun s => s;
     GoogleGenerativeAI := fun _ => None |}.

End Scenarios.

(** ** Token streams of markdown-it

    The streams markdown-it gives for a table, a flat list, a quote of one
    paragraph and a paragraph of formatted runs, as functions of what they
    hold. *)

Module Stream.
Import MarkdownParser DocxConverter.
Import Schema (InlineRun, run_code, run_text, run_link, run_bold, run_italic,
  run_strikethrough).

Definition block (type_ : string) : Token :=
  {| MarkdownParser.type := u type_; tag := []; content := []; info := [];
     children := None |}.

Definition textToken (text_ : ustring) : InlineToken :=
  {| i_type := u "text"; i_content := text_ |}.

Definition mark (type_ : string) : InlineToken :=
  {| i_type := u type_; i_content := [] |}.

(** An [inline] token whose one child is a text. *)
Definition inlineText (text_ : ustring) : Token :=
  {| MarkdownParser.type := u "inline"; tag := []; content := text_; info := [];
     children := Some [textToken text_] |}.

(** A cell: [th_open], the text, [th_close] for a header cell, the [td]
    tokens otherwise. *)
Definition cell (c : Cell) : list Token :=
  if cell_isHeader c
  then [block "th_open"; inlineText (cell_content c); block "th_close"]
  else [block "td_open"; inlineText (cell_content c); block "td_close"].

Definition row (cells_ : list Cell) : list Token :=
  [block "tr_open"] ++ flat_map cell cells_ ++ [block "tr_close"].

Definition table (head : list Cell) (body : list (list Cell)) : list Token :=
  [block "table_open"; block "thead_open"] ++ row head
  ++ [block "thead_close"; block "tbody_open"] ++ flat_map row body
  ++ [block "tbody_close"; block "table_close"].

(** An item of a list: a paragraph that holds the text. *)
Definition item (text_ : ustring) : list Token :=
  [ block "list_item_open"; block "paragraph_open"; inlineText text_;
    block "paragraph_close"; block "list_item_close" ].

Definition list_ (ordered : bool) (items : list ustring) : list Token :=
  [block (if ordered then "ordered_list_open" else "bullet_list_open")]
  ++ flat_map item items
  ++ [block (if ordered then "ordered_list_close" else "bullet_list_close")].

(** What is inside a quote of one paragraph. *)
Definition quoted (text_ : ustring) : list Token :=
  [block "paragraph_open"; inlineText text_; block "paragraph_close"].

(** The inline tokens of one run: inline code, a link around its text,
    or the text inside the marks of its formats. *)
Definition run (r : InlineRun) : list InlineToken :=
  if run_code r then [ {| i_type := u "code_inline"; i_content := run_text r |} ]
  else if truthy (run_link r)
  then [mark "link_open"; textToken (run_text r); mark "link_close"]
  else
    (if run_bold r then [mark "strong_open"] else [])
    ++ (if run_italic r then [mark "em_open"] else [])
    ++ (if run_strikethrough r then [mark "s_open"] else [])
    ++ [textToken (run_text r)]
    ++ (if run_strikethrough r then [mark "s_close"] else [])
    ++ (if run_italic r then [mark "em_close"] else [])
    ++ (if run_bold r then [mark "strong_close"] else []).

(** The tag of a heading: markdown-it has the six levels [h1] to [h6]. *)
Definition headingTag (level : Docx.HeadingLevel) : ustring :=
  match level with
  | Docx.HEADING_1 => u "h1"
  | Docx.HEADING_2 => u "h2"
  | Docx.HEADING_3 => u "h3"
  | Docx.HEADING_4 => u "h4"
  | Docx.HEADING_5 => u "h5"
  | Docx.HEADING_6 => u "h6"
  end.

(** The blocks of a document, at the top level of the stream. *)
Inductive Block :=
| Heading (level : Docx.HeadingLevel) (text_ : ustring)
| Paragraph (children_ : list InlineToken)
| Rule
| Fence (content_ info_ : ustring)
| CodeBlock (content_ : ustring)
| Table (head : list Cell) (body : list (list Cell))
| List_ (ordered : bool) (items : list ustring)
| Quote (text_ : ustring).

Definition tokens (b : Block) : list Token :=
  match b with
  | Heading level text_ =>
      [ {| MarkdownParser.type := u "heading_open"; tag := headingTag level;
           content := []; info := []; children := None |};
        inlineText text_;
        block "heading_close" ]
  | Paragraph children_ =>
      [ block "paragraph_open";
        {| MarkdownParser.type := u "inline"; tag := []; content := [];
           info := []; children := Some children_ |};
        block "paragraph_close" ]
  | Rule => [block "hr"]
  | Fence content_ info_ =>
      [ {| MarkdownParser.type := u "fence"; tag := u "code";
           content := content_; info := info_; children := None |} ]
  | CodeBlock content_ =>
      [ {| MarkdownParser.type := u "code_block"; tag := u "code";
           content := content_; info := []; children := None |} ]
  | Table head body => table head body
  | List_ ordered items => list_ ordered items
  | Quote text_ =>
      [block "blockquote_open"] ++ quoted text_ ++ [block "blockquote_close"]
  end.

(** A code block that goes to the diagram analyzer. *)
Definition isDiagram (b : Block) : bool :=
  match b with
  | Fence content_ _ | CodeBlock content_ => isAsciiDiagram content_
  | _ => false
  end.

(** What the renderers of docxConverter.js make of a block that is no
    diagram. *)
Definition rendered (rt : World.Runtime) (b : Block) : list Docx.Element :=
  match b with
  | Heading level text_ =>
      match createHeading (Some text_)
              (parseInt (skipn 1 (headingTag level))) with
      | inr paragraph => [Docx.ElParagraph paragraph]
      | inl _ => []
      end
  | Paragraph children_ =>
      [Docx.ElParagraph (createParagraph (Some children_))]
  | Rule => [Docx.ElParagraph createHorizontalRule]
  | Fence content_ info_ =>
      map Docx.ElParagraph (createCodeBlock rt content_ info_)
  | CodeBlock content_ =>
      map Docx.ElParagraph (createCodeBlock rt content_ [])
  | Table head body => [createTable (table head body)]
  | List_ ordered items =>
      map Docx.ElParagraph (createList (list_ ordered items) ordered)
  | Quote text_ =>
      map Docx.ElParagraph (createBlockquote (quoted text_))
  end.

End Stream.

(** ** A document of every kind of block *)

Module Documents.
Import World.

Definition blocks : list Stream.Block :=
  [ Stream.Heading Docx.HEADING_2 (u "Release **notes**");
    Stream.Paragraph
      [ Stream.textToken (u "Hello, "); Stream.mark "strong_open";
        Stream.textToken (u "world"); Stream.mark "strong_close" ];
    Stream.Rule;
    Stream.List_ true [u "one"; u "two"];
    Stream.Table
      [ {| DocxConverter.cell_content := u "A";
           DocxConverter.cell_isHeader := true |};
        {| DocxConverter.cell_content := u "B";
           DocxConverter.cell_isHeader := true |} ]
      [ [ {| DocxConverter.cell_content := u "1";
             DocxConverter.cell_isHeader := false |} ] ];
    Stream.Quote (u "quoted");
    Stream.Fence (u "x = 1" ++ [10%N]) (u "js") ].

(** A platform whose markdown-it gives these blocks, with a backend that
    is overloaded. *)
Definition platform : Runtime :=
  {| backend := fun _ _ => Throw Samples.overloaded;
     random := fun _ => 1 # 2;
     JSON_parse_diagram := fun _ => inl Samples.syntaxError;
     JSON_parse_document := fun _ => inl Samples.syntaxError;
     mdParser_parse := fun _ => flat_map Stream.tokens blocks;
     toUpperCase := fun s => s;
     GoogleGenerativeAI := fun _ => None |}.

(** The structure of a document with one heading of level 7. *)
Definition deepHeading : Schema.ParsedDocument :=
  {| Schema.doc_title := None;
     Schema.elements :=
       Some [ {| Schema.e_type := Some (u "heading");
                 Schema.e_text := Some (u "AI title");
                 Schema.e_level := Some 7%Z; Schema.e_content := None;
                 Schema.e_language := None; Schema.e_headers := None;
                 Schema.e_rows := None; Schema.e_items := None;
                 Schema.e_ordered := false; Schema.e_title := None;
                 Schema.e_description := None; Schema.e_components := None;
                 Schema.e_connections := None |} ] |}.

(** A platform whose backend answers the document prompt with that
    structure and whose markdown-it gives the heading "Local title". *)
Definition deep : Runtime :=
  {| backend := fun _ _ => Reply Samples.denialText;
     random := fun _ => 1 # 2;
     JSON_parse_diagram := fun _ => inl Samples.syntaxError;
     JSON_parse_document := fun _ => inr (Some deepHeading);
     mdParser_parse :=
       fun _ => Stream.tokens (Stream.Heading Docx.HEADING_1 (u "Local title"));
     toUpperCase := fun s => s;
     GoogleGenerativeAI := fun _ => None |}.

End Documents.

(** * Properties *)

(** ** Rounding to doubles *)

Module DoubleFacts.
Import Double.
Local Open Scope Q_scope.

Ltac compared H :=
  first [ apply (proj2 (Qeq_alt _ _)) in H
        | apply (proj2 (Qlt_alt _ _)) in H
        | apply (proj2 (Qgt_alt _ _)) in H ].

Lemma floor_bounds (x : Q) : inject_Z (Qfloor x) <= x < inject_Z (Qfloor x) + 1.
Proof.
  split; [apply Qfloor_le|].
  pose proof (Qlt_floor x) as H. rewrite inject_Z_plus in H. exact H.
Qed.

Lemma nearestEven_floor (x : Q) :
  (Qfloor x <= nearestEven x <= Qfloor x + 1)%Z.
Proof.
  unfold nearestEven.
  destruct (Qcompare (x - inject_Z (Qfloor x)) (1 # 2));
    [destruct (Z.even (Qfloor x))| |]; lia.
Qed.

Lemma nearestEven_integer (n : Z) : nearestEven (inject_Z n) = n.
Proof.
  unfold nearestEven. rewrite Qfloor_Z.
  replace (Qcompare (inject_Z n - inject_Z n) (1 # 2)) with Lt; [reflexivity|].
  symmetry. apply (proj1 (Qlt_alt _ _)). lra.
Qed.

Lemma nearestEven_comp (x y : Q) : x == y -> nearestEven x = nearestEven y.
Proof.
  intros E. unfold nearestEven. rewrite (Qfloor_comp x y E).
  assert (x - inject_Z (Qfloor y) == y - inject_Z (Qfloor y)) as E' by lra.
  now rewrite (Qcompare_comp _ _ E' (1 # 2) (1 # 2) (Qeq_refl _)).
Qed.

Lemma nearestEven_ge (n : Z) (x : Q) :
  inject_Z n <= x -> (n <= nearestEven x)%Z.
Proof.
  intros H. pose proof (nearestEven_floor x).
  assert (n <= Qfloor x)%Z; [|lia].
  rewrite <- (Qfloor_Z n). now apply Qfloor_resp_le.
Qed.

Lemma nearestEven_le (n : Z) (x : Q) :
  x <= inject_Z n -> (nearestEven x <= n)%Z.
Proof.
  intros H. destruct (Qlt_le_dec x (inject_Z n)) as [L|G].
  - pose proof (nearestEven_floor x). pose proof (floor_bounds x) as [F _].
    assert (inject_Z (Qfloor x) < inject_Z n) as K by lra.
    rewrite <- Zlt_Qlt in K. lia.
  - assert (x == inject_Z n) as E by lra.
    rewrite (nearestEven_comp _ _ E), nearestEven_integer. lia.
Qed.

Lemma nearestEven_mono (x y : Q) : x <= y -> (nearestEven x <= nearestEven y)%Z.
Proof.
  intros H.
  assert (Qfloor x <= Qfloor y)%Z as F by now apply Qfloor_resp_le.
  pose proof (nearestEven_floor x) as Bx. pose proof (nearestEven_floor y) as By.
  destruct (Z.eq_dec (Qfloor x) (Qfloor y)) as [E|N]; [|lia].
  unfold nearestEven. rewrite E.
  destruct (Qcompare (x - inject_Z (Qfloor y)) (1 # 2)) eqn:Cx;
    destruct (Qcompare (y - inject_Z (Qfloor y)) (1 # 2)) eqn:Cy;
    try (destruct (Z.even (Qfloor y))); try lia;
    compared Cx; compared Cy; lra.
Qed.

Lemma nearestEven_near (x : Q) :
  Qabs (inject_Z (nearestEven x) - x) <= 1 # 2.
Proof.
  unfold nearestEven. pose proof (floor_bounds x) as [F1 F2].
  apply Qabs_Qle_condition.
  destruct (Qcompare (x - inject_Z (Qfloor x)) (1 # 2)) eqn:C;
    compared C;
    try (destruct (Z.even (Qfloor x))); rewrite ?inject_Z_plus;
    change (inject_Z 1) with 1; split; lra.
Qed.

Lemma pow2_pos (e : Z) : 0 < 2 ^ e.
Proof. apply Qpower_0_lt. reflexivity. Qed.

Lemma pow2_plus (a b : Z) : 2 ^ (a + b) == 2 ^ a * 2 ^ b.
Proof. apply Qpower_plus. discriminate. Qed.

Lemma pow2_Z (n : Z) : (0 <= n)%Z -> 2 ^ n == inject_Z (2 ^ n).
Proof. intros H. now rewrite Zpower_Qpower. Qed.

Lemma pow2_le (a b : Z) : (a <= b)%Z -> 2 ^ a <= 2 ^ b.
Proof. intros H. apply Qpower_le_compat_l; [exact H | discriminate]. Qed.

Lemma pow2_lt_inv (a b : Z) : 2 ^ a < 2 ^ b -> (a < b)%Z.
Proof. intros H. apply (Qpower_lt_compat_l_inv 2); [exact H | reflexivity]. Qed.

Lemma fraction (n : Z) (d : positive) :
  n # d == inject_Z n / inject_Z (Zpos d).
Proof. apply Qmake_Qdiv. Qed.

Lemma exponent_spec (a : Q) :
  0 < a -> 2 ^ exponent a <= a /\ a < 2 ^ (exponent a + 1).
Proof.
  intros Ha. destruct a as [n d].
  assert (0 < n)%Z as Hn.
  { unfold Qlt in Ha. simpl in Ha. lia. }
  pose proof (Z.log2_spec n Hn) as [N1 N2].
  pose proof (Z.log2_spec (Zpos d) eq_refl) as [D1 D2].
  pose proof (Z.log2_nonneg n) as Ln.
  pose proof (Z.log2_nonneg (Zpos d)) as Ld.
  set (ln := Z.log2 n) in *. set (ld := Z.log2 (Zpos d)) in *.
  assert (0 < inject_Z (Zpos d)) as Dpos by reflexivity.
  rewrite Zle_Qle in N1, D1. rewrite Zlt_Qlt in N2, D2.
  rewrite <- pow2_Z in N1, N2, D1, D2 by lia.
  assert (n # d < 2 ^ (ln - ld + 1)) as Up.
  { rewrite (fraction n d). apply Qlt_shift_div_r; [exact Dpos|].
    apply Qlt_le_trans with (2 ^ Z.succ ln); [exact N2|].
    replace (Z.succ ln) with ((ln - ld + 1) + ld)%Z by lia.
    rewrite pow2_plus. apply Qmult_le_l; [apply pow2_pos | exact D1]. }
  assert (2 ^ (ln - ld - 1) <= n # d) as Low.
  { rewrite (fraction n d). apply Qle_shift_div_l; [exact Dpos|].
    apply Qle_trans with (2 ^ ln); [|exact N1].
    replace ln with ((ln - ld - 1) + Z.succ ld)%Z at 2 by lia.
    rewrite pow2_plus. apply Qmult_le_l; [apply pow2_pos|]. now apply Qlt_le_weak. }
  unfold exponent. cbn [Qnum Qden]. fold ln ld.
  destruct (Qle_bool (2 ^ (ln - ld)) (n # d)) eqn:B.
  - apply Qle_bool_iff in B. split; [exact B | exact Up].
  - split; [exact Low|].
    replace (ln - ld - 1 + 1)%Z with (ln - ld)%Z by lia.
    apply Qnot_le_lt. intros C. apply Qle_bool_iff in C. congruence.
Qed.

Lemma exponent_unique (a : Q) (k : Z) :
  2 ^ k <= a -> a < 2 ^ (k + 1) -> exponent a = k.
Proof.
  intros L U.
  assert (0 < a) as Ha by (pose proof (pow2_pos k); lra).
  destruct (exponent_spec a Ha) as [L' U'].
  assert (2 ^ exponent a < 2 ^ (k + 1)) as A by lra.
  assert (2 ^ k < 2 ^ (exponent a + 1)) as B by lra.
  apply pow2_lt_inv in A, B. lia.
Qed.

Lemma exponent_mono (x y : Q) : 0 < x -> x <= y -> (exponent x <= exponent y)%Z.
Proof.
  intros Hx H.
  destruct (exponent_spec x Hx) as [L _].
  destruct (exponent_spec y) as [_ U]; [lra|].
  assert (2 ^ exponent x < 2 ^ (exponent y + 1)) as A by lra.
  apply pow2_lt_inv in A. lia.
Qed.

Lemma exponent_comp (x y : Q) : 0 < x -> x == y -> exponent x = exponent y.
Proof.
  intros Hx E. destruct (exponent_spec x Hx) as [L U].
  symmetry. apply exponent_unique; lra.
Qed.

Lemma exponent_below (a : Q) (k : Z) : 0 < a -> a < 2 ^ k -> (exponent a < k)%Z.
Proof.
  intros Ha H. destruct (exponent_spec a Ha) as [L _].
  apply pow2_lt_inv. lra.
Qed.

Lemma ulp_mono (x y : Q) : 0 < x -> x <= y -> (ulp x <= ulp y)%Z.
Proof. intros Hx H. unfold ulp. pose proof (exponent_mono x y Hx H). lia. Qed.

Lemma scaled (a : Q) (e : Z) : a / 2 ^ e * 2 ^ e == a.
Proof. field. pose proof (pow2_pos e). lra. Qed.

Lemma scale_le (x y : Q) (e : Z) : x <= y -> x / 2 ^ e <= y / 2 ^ e.
Proof.
  intros H. unfold Qdiv. apply Qmult_le_compat_r; [exact H|].
  apply Qlt_le_weak, Qinv_lt_0_compat, pow2_pos.
Qed.

Lemma nearest_nonneg (a : Q) : 0 < a -> 0 <= nearest a.
Proof.
  intros Ha. unfold nearest.
  apply Qmult_le_0_compat; [|apply Qlt_le_weak, pow2_pos].
  change 0 with (inject_Z 0). rewrite <- Zle_Qle. apply nearestEven_ge.
  change (inject_Z 0) with 0. apply Qle_shift_div_l; [apply pow2_pos | lra].
Qed.

Lemma nearest_comp (x y : Q) : 0 < x -> x == y -> nearest x == nearest y.
Proof.
  intros Hx E. unfold nearest, ulp. rewrite <- (exponent_comp x y Hx E).
  rewrite (nearestEven_comp (x / _) (y / 2 ^ Z.max (exponent x - 52) (-1074))).
  - reflexivity.
  - apply Qdiv_comp; [exact E | reflexivity].
Qed.

(** Rounding keeps the order. *)
Lemma nearest_mono (x y : Q) : 0 < x -> x <= y -> nearest x <= nearest y.
Proof.
  intros Hx H. assert (0 < y) as Hy by lra.
  pose proof (ulp_mono x y Hx H) as U.
  destruct (Z.eq_dec (ulp x) (ulp y)) as [E|N].
  - unfold nearest. rewrite E.
    apply Qmult_le_compat_r; [|apply Qlt_le_weak, pow2_pos].
    rewrite <- Zle_Qle. apply nearestEven_mono, scale_le, H.
  - assert (ulp x < ulp y)%Z as L by lia. clear N U.
    assert (ulp y = exponent y - 52)%Z as Uy by (unfold ulp in *; lia).
    assert (exponent x < exponent y)%Z as Ex by (unfold ulp in *; lia).
    destruct (exponent_spec x Hx) as [_ X2].
    destruct (exponent_spec y Hy) as [Y1 _].
    apply Qle_trans with (2 ^ exponent y).
    + unfold nearest.
      replace (exponent y) with ((exponent y - ulp x) + ulp x)%Z by lia.
      rewrite pow2_plus.
      apply Qmult_le_compat_r; [|apply Qlt_le_weak, pow2_pos].
      rewrite (pow2_Z (exponent y - ulp x)) by (unfold ulp in *; lia).
      rewrite <- Zle_Qle. apply nearestEven_le.
      rewrite <- (pow2_Z (exponent y - ulp x)) by (unfold ulp in *; lia).
      apply Qle_shift_div_r; [apply pow2_pos|].
      rewrite <- pow2_plus.
      replace (exponent y - ulp x + ulp x)%Z with (exponent y) by lia.
      apply Qle_trans with (2 ^ (exponent x + 1)); [lra|].
      apply pow2_le. lia.
    + unfold nearest. rewrite Uy.
      replace (exponent y) with (52 + (exponent y - 52))%Z at 1 by lia.
      rewrite pow2_plus.
      apply Qmult_le_compat_r; [|apply Qlt_le_weak, pow2_pos].
      rewrite (pow2_Z 52) by lia.
      rewrite <- Zle_Qle. apply nearestEven_ge.
      rewrite <- (pow2_Z 52) by lia.
      apply Qle_shift_div_l; [apply pow2_pos|].
      rewrite <- pow2_plus.
      replace (52 + (exponent y - 52))%Z with (exponent y) by lia.
      exact Y1.
Qed.

(** The error of rounding is at most half the spacing. *)
Lemma nearest_error (a : Q) :
  Qabs (nearest a - a) <= 2 ^ ulp a / 2.
Proof.
  unfold nearest. set (e := ulp a).
  pose proof (nearestEven_near (a / 2 ^ e)) as N.
  pose proof (pow2_pos e) as P.
  assert (inject_Z (nearestEven (a / 2 ^ e)) * 2 ^ e - a
          == (inject_Z (nearestEven (a / 2 ^ e)) - a / 2 ^ e) * 2 ^ e) as E.
  { field. lra. }
  rewrite E, Qabs_Qmult, (Qabs_pos (2 ^ e)) by lra.
  apply Qle_trans with ((1 # 2) * 2 ^ e).
  - apply Qmult_le_compat_r; [exact N | lra].
  - apply Qle_lteq. right. field.
Qed.

Lemma ulp_below (a : Q) (k : Z) :
  0 < a -> a < 2 ^ k -> (ulp a <= Z.max (k - 53) (-1074))%Z.
Proof.
  intros Ha H. pose proof (exponent_below a k Ha H). unfold ulp. lia.
Qed.

Lemma round_pos (q : Q) :
  0 < q ->
  round q = if Qle_bool (2 ^ 1024) (nearest q) then Infinity false
            else Finite (Qred (nearest q)).
Proof.
  intros H. unfold round, isNegative.
  assert (Qeq_bool q 0 = false) as E.
  { apply not_true_iff_false. intros C. apply Qeq_bool_iff in C. lra. }
  assert (Qle_bool 0 q = true) as L by (apply Qle_bool_iff; lra).
  assert (Qabs q = q) as A.
  { destruct q as [n d]. unfold Qlt in H. simpl in H. simpl.
    f_equal. apply Z.abs_eq. lia. }
  rewrite E, L, A. reflexivity.
Qed.

Lemma round_zero (q : Q) : q == 0 -> round q = Finite 0.
Proof.
  intros H. unfold round.
  replace (Qeq_bool q 0) with true; [reflexivity|].
  symmetry. now apply Qeq_bool_iff.
Qed.

Lemma round_nonneg (q : Q) : 0 <= q -> le (Finite 0) (round q).
Proof.
  intros H. destruct (Qeq_dec q 0) as [E|N].
  - rewrite (round_zero q E). cbn [le]. lra.
  - rewrite round_pos by lra.
    destruct (Qle_bool (2 ^ 1024) (nearest q)); cbn [le]; [reflexivity|].
    rewrite Qred_correct. apply nearest_nonneg. lra.
Qed.

(** Rounding keeps the order of the numbers that are not negative. *)
Lemma round_mono (x y : Q) : 0 <= x -> x <= y -> le (round x) (round y).
Proof.
  intros Hx H. destruct (Qeq_dec x 0) as [E|N].
  - rewrite (round_zero x E). apply round_nonneg. lra.
  - assert (0 < x) as Px by lra. assert (0 < y) as Py by lra.
    rewrite (round_pos x Px), (round_pos y Py).
    pose proof (nearest_mono x y Px H) as M.
    destruct (Qle_bool (2 ^ 1024) (nearest x)) eqn:Bx;
      destruct (Qle_bool (2 ^ 1024) (nearest y)) eqn:By; cbn [le]; auto.
    + apply Qle_bool_iff in Bx.
      assert (Qle_bool (2 ^ 1024) (nearest y) = true) as C.
      { apply Qle_bool_iff. lra. }
      congruence.
    + now rewrite !Qred_correct.
Qed.

Lemma le_trans (a b c : t) : le a b -> le b c -> le a c.
Proof.
  destruct a as [x|[|]|], b as [y|[|]|], c as [z|[|]|]; cbn [le]; intros;
    try tauto;
    try congruence; try lra; try (destruct H; congruence);
    try (destruct H0; congruence).
Qed.

(** Between two doubles a number is rounded to a double between them. *)
Lemma round_between (lo hi lo' hi' x : Q) :
  0 <= lo -> lo <= x -> x <= hi ->
  round lo = Finite lo' -> round hi = Finite hi' ->
  exists r, round x = Finite r /\ lo' <= r <= hi'.
Proof.
  intros H0 H1 H2 L U.
  pose proof (round_mono lo x H0 H1) as A.
  pose proof (round_mono x hi ltac:(lra) H2) as B.
  rewrite L in A. rewrite U in B.
  destruct (round x) as [r|[|]|]; cbn [le] in A, B; try tauto;
    try discriminate.
  exists r. split; [reflexivity | lra].
Qed.

(** Below [2 ^ k] the error of rounding is at most half of
    [2 ^ (k - 53)]. *)
Lemma round_error (a r : Q) (k : Z) :
  0 <= a -> a < 2 ^ k -> round a = Finite r ->
  Qabs (r - a) <= 2 ^ Z.max (k - 53) (-1074) / 2.
Proof.
  intros H0 Hk E.
  assert (0 <= 2 ^ Z.max (k - 53) (-1074) / 2) as P.
  { pose proof (pow2_pos (Z.max (k - 53) (-1074))) as Q0.
    apply Qle_shift_div_l; lra. }
  destruct (Qeq_dec a 0) as [Z0|N].
  - rewrite (round_zero a Z0) in E. injection E as <-.
    assert (0 - a == 0) as D by lra. rewrite D. exact P.
  - assert (0 < a) as Ha by lra.
    rewrite (round_pos a Ha) in E.
    destruct (Qle_bool (2 ^ 1024) (nearest a)); [discriminate|].
    injection E as <-.
    assert (Qred (nearest a) - a == nearest a - a) as D.
    { now rewrite Qred_correct. }
    rewrite (Qabs_wd _ _ D).
    apply Qle_trans with (2 ^ ulp a / 2); [apply nearest_error|].
    unfold Qdiv. apply Qmult_le_compat_r; [|unfold Qle; simpl; lia].
    apply pow2_le, ulp_below; assumption.
Qed.

(** Rounding does not depend on how the fraction is written. *)
Lemma round_comp (x y : Q) : x == y -> round x = round y.
Proof.
  intros E. destruct (Qeq_dec x 0) as [Z0|N].
  - rewrite (round_zero x Z0), (round_zero y); [reflexivity | lra].
  - unfold round.
    assert (Qeq_bool x 0 = false) as Bx.
    { apply not_true_iff_false. intros C. now apply Qeq_bool_iff in C. }
    assert (Qeq_bool y 0 = false) as By.
    { apply not_true_iff_false. intros C. apply Qeq_bool_iff in C. lra. }
    rewrite Bx, By.
    assert (isNegative x = isNegative y) as S.
    { unfold isNegative. f_equal. apply eq_true_iff_eq.
      rewrite !Qle_bool_iff. split; lra. }
    assert (nearest (Qabs x) == nearest (Qabs y)) as M.
    { apply nearest_comp.
      - destruct (Q_dec x 0) as [[L|G]|Z0]; [| |tauto];
          apply Qabs_case; intros; lra.
      - now rewrite E. }
    rewrite <- S.
    replace (Qle_bool (2 ^ 1024) (nearest (Qabs y)))
      with (Qle_bool (2 ^ 1024) (nearest (Qabs x))).
    + destruct (Qle_bool (2 ^ 1024) (nearest (Qabs x))); [reflexivity|].
      f_equal. apply Qred_complete. destruct (isNegative x); lra.
    + apply eq_true_iff_eq. rewrite !Qle_bool_iff. split; lra.
Qed.

End DoubleFacts.


(** ** One-atom expressions and the diagram detector *)

Module RegexFacts.
Import Regex.

Lemma oneOf_In (cs : list N) (c : N) : oneOf cs c = true <-> In c cs.
Proof.
  unfold oneOf. rewrite existsb_exists. split.
  - intros [x [Hx Heq]]. apply N.eqb_eq in Heq. now subst.
  - intros H. exists c. split; [assumption | apply N.eqb_refl].
Qed.

(** A one-atom expression finds the first unit that satisfies the atom. *)
Lemma test_one_atom (p : N -> bool) (s : ustring) :
  test [Atom One p] s = existsb p s.
Proof.
  unfold test. induction s as [|c s IH]; simpl.
  - reflexivity.
  - destruct (p c); simpl; [reflexivity | exact IH].
Qed.

(** Erasing a one-atom expression everywhere is a filter. *)
Lemma replaceAll_one_atom (p : N -> bool) (s : ustring) :
  replaceAll [Atom One p] erase s = filter (fun c => negb (p c)) s.
Proof.
  unfold replaceAll. induction s as [|c s IH]; simpl.
  - reflexivity.
  - destruct (p c); simpl; [exact IH | now rewrite IH].
Qed.
End RegexFacts.


(** ** The matcher against what an expression matches *)

Module RegexSound.
Import Regex RegexSpec.

Lemma Derives_Matches (re : regex) (m : ustring) (pos : nat)
  (g g' : option groups) :
  Derives re m pos g g' -> Matches re m.
Proof. induction 1; econstructor; eassumption. Qed.

(** What [matchHere] finds is a prefix that matches, and the group it
    reports is the group of that match. *)
Lemma matchHere_derives (re : regex) :
  forall s pos g r,
    matchHere re s pos g = Some r ->
    exists m rest,
      s = m ++ rest /\ Derives re m pos g (f_group r)
      /\ f_end r = (pos + List.length m)%nat.
Proof.
  induction re as [|it re IH]; intros s pos g r H.
  - injection H as <-. exists [], s. simpl. repeat split; [constructor | lia].
  - destruct it as [q p| |].
    + destruct q; cbn [matchHere] in H.
      * (* One *)
        destruct s as [|c s]; [discriminate|].
        destruct (p c) eqn:P; [|discriminate].
        destruct (IH _ _ _ _ H) as (m & rest & -> & Hm & He).
        exists (c :: m), rest. repeat split; [now constructor | simpl; lia].
      * (* Opt *)
        assert (matchHere re s pos g = Some r ->
                exists m rest,
                  s = m ++ rest /\ Derives (Atom Opt p :: re) m pos g (f_group r)
                  /\ f_end r = (pos + List.length m)%nat) as Skip.
        { intros H'. destruct (IH _ _ _ _ H') as (m & rest & -> & Hm & He).
          exists m, rest. repeat split; [now constructor | exact He]. }
        destruct s as [|c s]; [now apply Skip|].
        destruct (p c) eqn:P; [|now apply Skip].
        destruct (matchHere re s (S pos) g) as [r'|] eqn:E; [|now apply Skip].
        injection H as <-.
        destruct (IH _ _ _ _ E) as (m & rest & -> & Hm & He).
        exists (c :: m), rest.
        repeat split; [now apply D_opt_some | simpl; lia].
      * (* Star *)
        revert pos H. induction s as [|c s IHs]; intros pos H.
        -- destruct (IH _ _ _ _ H) as (m & rest & E & Hm & He).
           exists m, rest. repeat split; try assumption.
           apply (D_star p [] re m pos g _ eq_refl).
           now rewrite Nat.add_0_r.
        -- assert (matchHere re (c :: s) pos g = Some r ->
                   exists m rest,
                     c :: s = m ++ rest
                     /\ Derives (Atom Star p :: re) m pos g (f_group r)
                     /\ f_end r = (pos + List.length m)%nat) as Stop.
           { intros H'. destruct (IH _ _ _ _ H') as (m & rest & E & Hm & He).
             exists m, rest. repeat split; try assumption.
             apply (D_star p [] re m pos g _ eq_refl).
             now rewrite Nat.add_0_r. }
           destruct (p c) eqn:P; [|now apply Stop].
           match type of H with
           | match ?x with Some _ => _ | None => _ end = _ =>
               destruct x as [r'|] eqn:E
           end; [|now apply Stop].
           injection H as <-.
           destruct (IHs _ E) as (m & rest & -> & Hm & He).
           inversion Hm as [| | | | | |p' cs re' s' pos' g0 g1 Hcs Hs| |]; subst.
           exists (c :: cs ++ s'), rest. repeat split.
           ++ apply (D_star p (c :: cs) re s').
              ** simpl. now rewrite P, Hcs.
              ** simpl. now rewrite <- Nat.add_succ_comm.
           ++ simpl in *. lia.
      * (* Plus *)
        destruct s as [|c s]; [discriminate|].
        destruct (p c) eqn:P; [|discriminate].
        assert (forall t pos' r',
                  (fix star (s : ustring) (pos : nat) {struct s} : option found :=
                     match s with
                     | c :: s' =>
                         if p c then
                           match star s' (S pos) with
                           | Some r => Some r
                           | None => matchHere re s pos g
                           end
                         else matchHere re s pos g
                     | [] => matchHere re s pos g
                     end) t pos' = Some r' ->
                  exists cs m rest,
                    t = cs ++ m ++ rest /\ forallb p cs = true
                    /\ Derives re m (pos' + List.length cs) g (f_group r')
                    /\ f_end r' = (pos' + List.length (cs ++ m))%nat) as Loop.
        { induction t as [|d t IHt]; intros pos' r' H'.
          - destruct (IH _ _ _ _ H') as (m & rest & E & Hm & He).
            exists [], m, rest. simpl. rewrite Nat.add_0_r.
            repeat split; assumption.
          - assert (matchHere re (d :: t) pos' g = Some r' ->
                    exists cs m rest,
                      d :: t = cs ++ m ++ rest /\ forallb p cs = true
                      /\ Derives re m (pos' + List.length cs) g (f_group r')
                      /\ f_end r' = (pos' + List.length (cs ++ m))%nat) as Stop.
            { intros H''. destruct (IH _ _ _ _ H'') as (m & rest & E & Hm & He).
              exists [], m, rest. simpl. rewrite Nat.add_0_r.
              repeat split; assumption. }
            destruct (p d) eqn:Pd; [|now apply Stop].
            match type of H' with
            | match ?x with Some _ => _ | None => _ end = _ =>
                destruct x as [r''|] eqn:E
            end; [|now apply Stop].
            injection H' as <-.
            destruct (IHt _ _ E) as (cs & m & rest & -> & Hcs & Hm & He).
            exists (d :: cs), m, rest. repeat split.
            + simpl. now rewrite Pd, Hcs.
            + simpl. now rewrite <- Nat.add_succ_comm.
            + simpl in *. lia. }
        destruct (Loop _ _ _ H) as (cs & m & rest & -> & Hcs & Hm & He).
        exists (c :: cs ++ m), rest. repeat split.
        -- simpl. now rewrite <- app_assoc.
        -- now apply D_plus.
        -- simpl in *. lia.
      * (* LazyStar *)
        revert pos H. induction s as [|c s IHs]; intros pos H.
        -- destruct (matchHere re [] pos g) as [r'|] eqn:E; [|discriminate].
           injection H as <-.
           destruct (IH _ _ _ _ E) as (m & rest & E' & Hm & He).
           exists m, rest. repeat split; try assumption.
           apply (D_lazy p [] re m pos g _ eq_refl).
           now rewrite Nat.add_0_r.
        -- destruct (matchHere re (c :: s) pos g) as [r'|] eqn:E.
           ++ injection H as <-.
              destruct (IH _ _ _ _ E) as (m & rest & E' & Hm & He).
              exists m, rest. repeat split; try assumption.
              apply (D_lazy p [] re m pos g _ eq_refl).
              now rewrite Nat.add_0_r.
           ++ destruct (p c) eqn:P; [|discriminate].
              destruct (IHs _ H) as (m & rest & -> & Hm & He).
              inversion Hm as [| | | | | | |p' cs re' s' pos' g0 g1 Hcs Hs|]; subst.
              exists (c :: cs ++ s'), rest. repeat split.
              ** apply (D_lazy p (c :: cs) re s').
                 --- simpl. now rewrite P, Hcs.
                 --- simpl. now rewrite <- Nat.add_succ_comm.
              ** simpl in *. lia.
    + (* GroupOpen *)
      cbn [matchHere] in H.
      destruct (IH _ _ _ _ H) as (m & rest & -> & Hm & He).
      exists m, rest. repeat split; [now constructor | exact He].
    + (* GroupClose *)
      cbn [matchHere] in H.
      destruct (IH _ _ _ _ H) as (m & rest & -> & Hm & He).
      exists m, rest. repeat split; [now constructor | exact He].
Qed.

Lemma matchHere_sound (re : regex) (s : ustring) (pos : nat)
  (g : option groups) (r : found) :
  matchHere re s pos g = Some r ->
  exists m rest,
    s = m ++ rest /\ Matches re m /\ f_end r = (pos + List.length m)%nat.
Proof.
  intros H. destruct (matchHere_derives re s pos g r H) as (m & rest & E & D & L).
  exists m, rest. repeat split; try assumption.
  exact (Derives_Matches re m pos g (f_group r) D).
Qed.

(** Where a prefix matches, [matchHere] finds a match (the first in its
    order of preference, which may be another one). *)
Lemma matchHere_complete (re : regex) (m : ustring) :
  Matches re m ->
  forall rest pos g, exists r, matchHere re (m ++ rest) pos g = Some r.
Proof.
  induction 1 as [|re s _ IH|re s _ IH|p c re s P _ IH|p re s _ IH
                  |p c re s P _ IH|p cs re s Hcs _ IH|p cs re s Hcs _ IH
                  |p c cs re s P Hcs _ IH];
    intros rest pos g.
  - simpl. eauto.
  - cbn [matchHere]. apply IH.
  - cbn [matchHere]. apply IH.
  - cbn [matchHere app]. rewrite P. apply IH.
  - cbn [matchHere]. destruct (s ++ rest) as [|c t] eqn:E.
    + rewrite <- E. apply IH.
    + destruct (p c).
      * destruct (matchHere re t (S pos) g); [eauto|]. rewrite <- E. apply IH.
      * rewrite <- E. apply IH.
  - cbn [matchHere app]. rewrite P.
    destruct (IH rest (S pos) g) as [r E]. rewrite E. eauto.
  - cbn [matchHere]. rewrite <- app_assoc.
    revert pos. induction cs as [|c cs IHcs]; intros pos.
    + cbn [app]. destruct (IH rest pos g) as [r E].
      destruct (s ++ rest) as [|d t]; [eauto|].
      destruct (p d); [|eauto].
      match goal with
      | |- exists r, match ?x with Some _ => _ | None => _ end = _ =>
          destruct x
      end; eauto.
    + cbn [forallb] in Hcs. apply andb_true_iff in Hcs as [Pc Hcs].
      cbn [app]. rewrite Pc. destruct (IHcs Hcs (S pos)) as [r E].
      rewrite E. eauto.
  - cbn [matchHere]. rewrite <- app_assoc.
    revert pos. induction cs as [|c cs IHcs]; intros pos.
    + cbn [app]. destruct (IH rest pos g) as [r E].
      destruct (s ++ rest) as [|d t]; rewrite E; eauto.
    + cbn [forallb] in Hcs. apply andb_true_iff in Hcs as [Pc Hcs].
      cbn [app].
      destruct (matchHere re (c :: cs ++ s ++ rest) pos g); [eauto|].
      rewrite Pc. apply (IHcs Hcs).
  - cbn [matchHere app]. rewrite P. rewrite <- app_assoc.
    generalize (S pos) as pos'.
    induction cs as [|c' cs IHcs]; intros pos'.
    + cbn [app]. destruct (IH rest pos' g) as [r E].
      destruct (s ++ rest) as [|d t]; [eauto|].
      destruct (p d); [|eauto].
      match goal with
      | |- exists r, match ?x with Some _ => _ | None => _ end = _ =>
          destruct x
      end; eauto.
    + cbn [forallb] in Hcs. apply andb_true_iff in Hcs as [Pc Hcs].
      cbn [app]. rewrite Pc. destruct (IHcs Hcs (S pos')) as [r E].
      rewrite E. eauto.
Qed.

(** [exec] finds a match exactly when some part of the text matches. *)
Lemma exec_iff_occurs (re : regex) (s : ustring) :
  (exists cap, exec re s = Some cap) <-> Occurs re s.
Proof.
  split.
  - induction s as [|c s IH]; cbn [exec].
    + destruct (matchHere re [] 0 no_group) as [r|] eqn:E; intros [cap H];
        [|discriminate].
      destruct (matchHere_sound re [] 0 no_group r E) as (m & rest & E' & Hm & _).
      exists [], m, rest. now split.
    + destruct (matchHere re (c :: s) 0 no_group) as [r|] eqn:E; intros [cap H].
      * destruct (matchHere_sound re (c :: s) 0 no_group r E)
          as (m & rest & E' & Hm & _).
        exists [], m, rest. now split.
      * destruct (IH (ex_intro _ cap H)) as (before & m & after & -> & Hm).
        exists (c :: before), m, after. now split.
  - intros (before & m & after & -> & Hm).
    induction before as [|c before IH].
    + cbn [app]. destruct (matchHere_complete re m Hm after 0%nat no_group)
        as [r E].
      destruct (m ++ after); cbn [exec]; rewrite E; eauto.
    + cbn [app exec].
      destruct (matchHere re (c :: before ++ m ++ after) 0 no_group); eauto.
Qed.

Lemma test_iff_occurs (re : regex) (s : ustring) :
  test re s = true <-> Occurs re s.
Proof.
  rewrite <- exec_iff_occurs. unfold test.
  destruct (exec re s) as [cap|]; split; try reflexivity; try discriminate.
  - eauto.
  - intros [cap H]. discriminate.
Qed.

(** *** The text of the group *)

Lemma Derives_split (a : regex) :
  Grouped.plain a ->
  forall b m pos g g',
    Derives (a ++ b) m pos g g' ->
    exists m0 m',
      m = m0 ++ m' /\ Matches (a ++ []) m0
      /\ Derives b m' (pos + List.length m0) g g'.
Proof.
  unfold Grouped.plain.
  induction a as [|it a IH]; intros Ha b m pos g g' D.
  - exists [], m. simpl. rewrite Nat.add_0_r. repeat split; [constructor | exact D].
  - cbn [forallb] in Ha. apply andb_true_iff in Ha as [Hit Ha].
    destruct it as [q p| |]; try discriminate.
    cbn [app] in D.
    inversion D as [| | |p' c re s pos' g0 g1 P D'|p' re s pos' g0 g1 D'
                    |p' c re s pos' g0 g1 P D'|p' cs re s pos' g0 g1 Hcs D'
                    |p' cs re s pos' g0 g1 Hcs D'
                    |p' c cs re s pos' g0 g1 P Hcs D']; subst;
      destruct (IH Ha _ _ _ _ _ D') as (m0 & m' & -> & Hm & Hd).
    + exists (c :: m0), m'. repeat split.
      * now constructor.
      * simpl. now rewrite <- Nat.add_succ_comm.
    + exists m0, m'. repeat split; [now constructor | exact Hd].
    + exists (c :: m0), m'. repeat split.
      * now apply M_opt_some.
      * simpl. now rewrite <- Nat.add_succ_comm.
    + exists (cs ++ m0), m'. repeat split.
      * now rewrite app_assoc.
      * now apply M_star.
      * now rewrite length_app, Nat.add_assoc.
    + exists (cs ++ m0), m'. repeat split.
      * now rewrite app_assoc.
      * now apply M_lazy.
      * now rewrite length_app, Nat.add_assoc.
    + exists (c :: cs ++ m0), m'. repeat split.
      * simpl. now rewrite app_assoc.
      * now apply M_plus.
      * simpl. rewrite length_app.
        replace (pos + S (List.length cs + List.length m0))%nat
          with (S pos + List.length cs + List.length m0)%nat by lia.
        exact Hd.
Qed.

Lemma skipn_length_app {A} (a b : list A) : skipn (List.length a) (a ++ b) = b.
Proof. induction a; simpl; [reflexivity | assumption]. Qed.

Lemma firstn_length_app {A} (a b : list A) : firstn (List.length a) (a ++ b) = a.
Proof. induction a; simpl; [reflexivity | now f_equal]. Qed.

(** A match of [before (inside) after] reports as capture the text its
    [inside] matched. *)
Lemma matchHere_capture (before inside after : regex) (s : ustring) (r : found) :
  Grouped.plain before -> Grouped.plain inside -> Grouped.plain after ->
  matchHere (Grouped.grouped before inside after) s 0 no_group = Some r ->
  exists m1, capture s r = Some m1 /\ Matches (inside ++ []) m1.
Proof.
  intros Hb Hi Ha H.
  destruct (matchHere_derives _ _ _ _ _ H) as (m & rest & -> & D & _).
  unfold Grouped.grouped in D.
  destruct (Derives_split before Hb _ _ _ _ _ D) as (m0 & m' & -> & _ & D1).
  inversion D1 as [|re s pos g0 g1 D2| | | | | | |]; subst.
  destruct (Derives_split inside Hi _ _ _ _ _ D2) as (m1 & m'' & -> & Hm1 & D3).
  inversion D3 as [| |re s pos g0 g1 D4| | | | | |]; subst.
  rewrite <- (app_nil_r after) in D4.
  destruct (Derives_split after Ha _ _ _ _ _ D4) as (m2 & m3 & -> & _ & D5).
  inversion D5; subst.
  exists m1. split; [|exact Hm1].
  unfold capture.
  match goal with H : _ = f_group r |- _ => rewrite <- H end.
  cbn [closeAt g_open]. cbn [Nat.add].
  rewrite <- !app_assoc, skipn_length_app.
  replace (List.length m0 + List.length m1 - List.length m0)%nat
    with (List.length m1) by lia.
  now rewrite firstn_length_app.
Qed.

Lemma exec_capture (before inside after : regex) (s : ustring)
  (cap : option ustring) :
  Grouped.plain before -> Grouped.plain inside -> Grouped.plain after ->
  exec (Grouped.grouped before inside after) s = Some cap ->
  exists m1, cap = Some m1 /\ Matches (inside ++ []) m1.
Proof.
  intros Hb Hi Ha. induction s as [|c s IH]; cbn [exec].
  - destruct (matchHere _ [] 0 no_group) as [r|] eqn:E; [|discriminate].
    intros H. injection H as <-.
    exact (matchHere_capture before inside after [] r Hb Hi Ha E).
  - destruct (matchHere _ (c :: s) 0 no_group) as [r|] eqn:E; [|exact IH].
    intros H. injection H as <-.
    exact (matchHere_capture before inside after (c :: s) r Hb Hi Ha E).
Qed.

End RegexSound.

(** ** Trimming *)

Module TrimFacts.
Import Str.

Lemma trimStart_blank (w : ustring) : Fence.blank w -> trimStart w = [].
Proof.
  unfold Fence.blank. induction w as [|c w IH]; simpl; [reflexivity|].
  intros H. apply andb_true_iff in H as [Hc Hw]. rewrite Hc. now apply IH.
Qed.

Lemma trimStart_blank_app (w s : ustring) :
  Fence.blank w -> trimStart (w ++ s) = trimStart s.
Proof.
  unfold Fence.blank. induction w as [|c w IH]; simpl; [reflexivity|].
  intros H. apply andb_true_iff in H as [Hc Hw]. rewrite Hc. now apply IH.
Qed.

Lemma trimEnd_blank (w : ustring) : Fence.blank w -> trimEnd w = [].
Proof.
  unfold Fence.blank. induction w as [|c w IH]; simpl; [reflexivity|].
  intros H. apply andb_true_iff in H as [Hc Hw]. rewrite (IH Hw). now rewrite Hc.
Qed.

Lemma trimEnd_app_blank (s w : ustring) :
  Fence.blank w -> trimEnd (s ++ w) = trimEnd s.
Proof.
  intros H. induction s as [|c s IH]; simpl.
  - now apply trimEnd_blank.
  - now rewrite IH.
Qed.

Lemma trim_blank_l (w s : ustring) : Fence.blank w -> trim (w ++ s) = trim s.
Proof. intros H. unfold trim. now rewrite trimStart_blank_app. Qed.

Lemma trim_blank_r (s w : ustring) : Fence.blank w -> trim (s ++ w) = trim s.
Proof.
  intros H. unfold trim. induction s as [|c s IH]; cbn [app trimStart].
  - now rewrite trimStart_blank.
  - destruct (isWhite c); [exact IH|].
    exact (trimEnd_app_blank (c :: s) w H).
Qed.

(** White space at the end is all that [trimEnd] removes. *)
Lemma trimEnd_prefix (s : ustring) : exists w, s = trimEnd s ++ w.
Proof.
  induction s as [|c s [w IH]]; simpl.
  - now exists [].
  - destruct (trimEnd s) as [|d t].
    + destruct (isWhite c).
      * now exists (c :: s).
      * exists w. simpl in *. congruence.
    + exists w. simpl in *. congruence.
Qed.

Lemma trimEnd_idem (s : ustring) : trimEnd (trimEnd s) = trimEnd s.
Proof.
  induction s as [|c s IH]; simpl; [reflexivity|].
  destruct (trimEnd s) as [|d t] eqn:E.
  - destruct (isWhite c) eqn:W; simpl; [reflexivity | now rewrite W].
  - change (trimEnd (c :: d :: t)) with
      (match trimEnd (d :: t) with
       | [] => if isWhite c then [] else [c]
       | x => c :: x
       end).
    now rewrite IH.
Qed.

Lemma trimStart_head (s : ustring) :
  trimStart s = [] \/ exists c r, trimStart s = c :: r /\ isWhite c = false.
Proof.
  induction s as [|c s IH]; simpl; [now left|].
  destruct (isWhite c) eqn:W; [exact IH|]. right. now exists c, s.
Qed.

Lemma trimEnd_head (c : N) (r : ustring) :
  isWhite c = false -> exists t, trimEnd (c :: r) = c :: t.
Proof.
  intros W. simpl. destruct (trimEnd r) as [|d t]; rewrite ?W; eauto.
Qed.

Lemma trim_idem (s : ustring) : trim (trim s) = trim s.
Proof.
  unfold trim. destruct (trimStart_head s) as [E | (c & r & E & W)]; rewrite E.
  - reflexivity.
  - destruct (trimEnd_head c r W) as [t Et]. rewrite Et.
    simpl trimStart. rewrite W, <- Et. apply trimEnd_idem.
Qed.

(** Nothing is trimmed off a text that begins and ends with a unit that
    is not white space. *)
Lemma trimEnd_last (s : ustring) (c : N) :
  isWhite c = false -> trimEnd (s ++ [c]) = s ++ [c].
Proof.
  intros W. induction s as [|a s IH]; simpl; [now rewrite W|].
  rewrite IH. destruct (s ++ [c]) eqn:E; [|reflexivity].
  now destruct s.
Qed.

Lemma trimStart_suffix (s : ustring) : exists w, s = w ++ trimStart s.
Proof.
  induction s as [|c s [w IH]]; simpl; [now exists []|].
  destruct (isWhite c); [|now exists []].
  exists (c :: w). simpl. now rewrite <- IH.
Qed.

(** [trim] adds no unit. *)
Lemma trim_In (s : ustring) (c : N) : In c (trim s) -> In c s.
Proof.
  unfold trim. intros H.
  destruct (trimEnd_prefix (trimStart s)) as [w1 E1].
  destruct (trimStart_suffix s) as [w0 E0].
  rewrite E0, E1, !in_app_iff. tauto.
Qed.

End TrimFacts.

(** ** The fallback diagram analyzer *)

Module StrFacts.

Lemma eqb_eq (a b : ustring) : Str.eqb a b = true <-> a = b.
Proof.
  revert b. induction a as [|x a IH]; intros [|y b]; simpl; split;
    try reflexivity; try discriminate.
  - intros H. apply andb_true_iff in H as [Hx Hab].
    apply N.eqb_eq in Hx. apply IH in Hab. now subst.
  - intros H. injection H as -> ->. rewrite N.eqb_refl. simpl. now apply IH.
Qed.

Lemma eqb_refl (a : ustring) : Str.eqb a a = true.
Proof. now apply eqb_eq. Qed.

Lemma mem_In (x : ustring) (l : list ustring) :
  existsb (Str.eqb x) l = true <-> In x l.
Proof.
  rewrite existsb_exists. split.
  - intros [y [Hy He]]. apply eqb_eq in He. now subst.
  - intros H. exists x. split; [assumption | apply eqb_refl].
Qed.

Lemma mem_ext (x : ustring) (l l' : list ustring) :
  (forall y, In y l <-> In y l') ->
  existsb (Str.eqb x) l = existsb (Str.eqb x) l'.
Proof.
  intros H. apply eq_true_iff_eq. rewrite !mem_In. apply H.
Qed.

End StrFacts.

(** The definitions in the words of the specification and the functions
    of the source. *)

Module SpecFacts.

(** [split] never gives the empty array. *)
Lemma split_first (sep : N) (text : ustring) :
  exists first others, Str.split sep text = first :: others.
Proof.
  induction text as [|c text (first & others & IH)]; cbn [Str.split];
    [eauto|].
  rewrite IH. destruct (N.eqb c sep); eauto.
Qed.

(** The lines of a text are what [split] gives at the line feed. *)
Lemma linesFrom_split (text line : ustring) :
  Spec.linesFrom line text
  = match Str.split 10 text with
    | first :: others => (rev line ++ first) :: others
    | [] => [rev line]
    end.
Proof.
  revert line. induction text as [|c text IH]; intros line;
    cbn [Spec.linesFrom Str.split].
  - now rewrite app_nil_r.
  - change 0xA%N with 10%N. rewrite !IH.
    destruct (split_first 10 text) as (first & others & E). rewrite E.
    destruct (N.eqb c 10); cbn [rev app]; [now rewrite app_nil_r|].
    now rewrite <- app_assoc.
Qed.

Lemma lines_split (text : ustring) : Spec.lines text = Str.split 10 text.
Proof.
  unfold Spec.lines. rewrite linesFrom_split.
  destruct (split_first 10 text) as (first & others & E). now rewrite E.
Qed.

(** The blanks are the white space of [trim]. *)
Lemma blank_isWhite (c : N) : Spec.blank c = Str.isWhite c.
Proof.
  unfold Spec.blank, Spec.blanks, Str.isWhite. cbn [existsb].
  repeat match goal with
         | |- context [N.eqb c ?k] =>
             destruct (N.eqb_spec c k) as [->|];
             [reflexivity|]
         end.
  cbn [orb].
  destruct (N.leb_spec 9 c), (N.leb_spec c 13), (N.leb_spec 8192 c),
    (N.leb_spec c 8202); cbn [andb orb]; try reflexivity; lia.
Qed.

Lemma dropBlanks_trimStart (s : ustring) :
  Spec.dropBlanks s = Str.trimStart s.
Proof.
  induction s as [|c s IH]; cbn [Spec.dropBlanks Str.trimStart];
    [reflexivity|].
  rewrite blank_isWhite, IH. reflexivity.
Qed.

Lemma trimStart_app (s : ustring) (c : N) :
  Str.trimStart (s ++ [c])
  = match Str.trimStart s with
    | [] => if Str.isWhite c then [] else [c]
    | t => t ++ [c]
    end.
Proof.
  induction s as [|d s IH]; cbn [app Str.trimStart]; [reflexivity|].
  destruct (Str.isWhite d); [exact IH | reflexivity].
Qed.

Lemma trimEnd_rev (s : ustring) :
  Str.trimEnd s = rev (Str.trimStart (rev s)).
Proof.
  induction s as [|c s IH]; cbn [Str.trimEnd rev]; [reflexivity|].
  rewrite trimStart_app, IH.
  destruct (Str.trimStart (rev s)) as [|d t]; cbn [rev].
  - now destruct (Str.isWhite c).
  - rewrite rev_app_distr. cbn [rev app].
    destruct (rev t ++ [d]) eqn:E; [|reflexivity].
    now destruct (rev t).
Qed.

Lemma trimmed_trim (s : ustring) : Spec.trimmed s = Str.trim s.
Proof.
  unfold Spec.trimmed, Str.trim.
  now rewrite trimEnd_rev, !dropBlanks_trimStart.
Qed.

Lemma joined_join (separator : ustring) (fragments : list ustring) :
  Spec.joined separator fragments = Str.join separator fragments.
Proof.
  destruct fragments as [|first others]; [reflexivity|].
  revert first. induction others as [|second others IH]; intros first.
  - cbn. now rewrite app_nil_r.
  - change (Str.join separator (first :: second :: others))
      with (first ++ separator ++ Str.join separator (second :: others)).
    rewrite <- (IH second). cbn [Spec.joined flat_map].
    now rewrite <- app_assoc.
Qed.

(** The stripped glyphs are the units of the two classes. *)
Lemma stripped_classes (c : N) :
  Spec.stripped c
  = Regex.oneOf (boxGlyphs ++ [91; 93]%N) c
    || Regex.oneOf [45; 124; 43; 42]%N c.
Proof. unfold Spec.stripped, Regex.oneOf. now rewrite <- existsb_app. Qed.

Lemma fixedSet_class (c : N) :
  In c Glyphs.fixedSet <-> Regex.oneOf boxGlyphs c = true.
Proof.
  unfold Regex.oneOf. rewrite existsb_exists.
  change Glyphs.fixedSet with boxGlyphs. split.
  - intros H. exists c. split; [exact H | apply N.eqb_refl].
  - intros (x & H & E). apply N.eqb_eq in E. now subst.
Qed.

End SpecFacts.

Module FallbackFacts.
Import GeminiService Schema.

Lemma filter_filter {A} (p q : A -> bool) (l : list A) :
  filter q (filter p l) = filter (fun x => p x && q x) l.
Proof.
  induction l as [|x l IH]; simpl; [reflexivity|].
  destruct (p x); simpl; [destruct (q x); now rewrite IH | exact IH].
Qed.

(** The two [replace] calls together remove exactly the stripped glyphs. *)
Lemma cleanLine_strip (line : ustring) :
  cleanLine line = Spec.trimmed (Spec.strip line).
Proof.
  unfold cleanLine, frameGlyphs, asciiFrame, Spec.strip.
  rewrite SpecFacts.trimmed_trim.
  rewrite !RegexFacts.replaceAll_one_atom, filter_filter. f_equal.
  apply filter_ext. intros c.
  now rewrite SpecFacts.stripped_classes, negb_orb.
Qed.

Lemma pushCleaned_fold (lines acc : list ustring) :
  fold_left pushCleaned lines acc
  = acc ++ filter (fun t => (2 <? List.length t)%nat) (map cleanLine lines).
Proof.
  revert acc. induction lines as [|l lines IH]; intros acc; simpl.
  - now rewrite app_nil_r.
  - rewrite IH. unfold pushCleaned.
    destruct (2 <? List.length (cleanLine l))%nat; [|reflexivity].
    now rewrite <- app_assoc.
Qed.

Lemma firstSeen_ext (l seen seen' : list ustring) :
  (forall y, In y seen <-> In y seen') ->
  Spec.firstSeen seen l = Spec.firstSeen seen' l.
Proof.
  revert seen seen'. induction l as [|x l IH]; intros seen seen' H; simpl.
  - reflexivity.
  - rewrite (StrFacts.mem_ext x seen seen' H).
    destruct (existsb (Str.eqb x) seen'); [now apply IH|].
    f_equal. apply IH. intros y. simpl. now rewrite H.
Qed.

(** The insertion order of a [Set] is the first-seen order. *)
Lemma setAdd_fold (xs acc : list ustring) :
  fold_left setAdd xs acc = acc ++ Spec.firstSeen acc xs.
Proof.
  revert acc. induction xs as [|x xs IH]; intros acc; simpl.
  - now rewrite app_nil_r.
  - rewrite IH. unfold setAdd.
    destruct (existsb (Str.eqb x) acc); [reflexivity|].
    rewrite <- app_assoc. simpl. do 2 f_equal.
    apply firstSeen_ext. intros y. rewrite in_app_iff. simpl. tauto.
Qed.

Lemma newSet_firstSeen (xs : list ustring) :
  newSet xs = Spec.firstSeen [] xs.
Proof. unfold newSet. now rewrite setAdd_fold. Qed.

Lemma firstSeen_In (l seen : list ustring) (x : ustring) :
  In x (Spec.firstSeen seen l) -> In x l /\ ~ In x seen.
Proof.
  revert seen. induction l as [|y l IH]; intros seen; simpl; [tauto|].
  destruct (existsb (Str.eqb y) seen) eqn:E.
  - intros H. apply IH in H. tauto.
  - intros [-> | H].
    + split; [now left|]. intros Hin. apply StrFacts.mem_In in Hin. congruence.
    + apply IH in H. simpl in H. tauto.
Qed.

Lemma firstSeen_complete (l seen : list ustring) (x : ustring) :
  In x l -> ~ In x seen -> In x (Spec.firstSeen seen l).
Proof.
  revert seen. induction l as [|y l IH]; intros seen; simpl; [tauto|].
  intros Hin Hseen. destruct (existsb (Str.eqb y) seen) eqn:E.
  - destruct Hin as [-> | Hin]; [apply StrFacts.mem_In in E; tauto | now apply IH].
  - destruct (Str.eqb y x) eqn:E'.
    + left. now apply StrFacts.eqb_eq.
    + right. destruct Hin as [-> | Hin].
      * rewrite StrFacts.eqb_refl in E'. discriminate.
      * apply IH; [assumption|]. simpl. intros [-> | H]; [|tauto].
        rewrite StrFacts.eqb_refl in E'. discriminate.
Qed.

Lemma firstSeen_NoDup (l seen : list ustring) : NoDup (Spec.firstSeen seen l).
Proof.
  revert seen. induction l as [|y l IH]; intros seen; simpl; [constructor|].
  destruct (existsb (Str.eqb y) seen); [apply IH|].
  constructor; [|apply IH].
  intros H. apply firstSeen_In in H. simpl in H. tauto.
Qed.

Lemma filter_id {A} (p : A -> bool) (l : list A) :
  (forall x, In x l -> p x = true) -> filter p l = l.
Proof.
  induction l as [|x l IH]; simpl; intros H; [reflexivity|].
  rewrite (H x (or_introl eq_refl)). f_equal. apply IH. intros y Hy. apply H. now right.
Qed.

(** The list of fragments the analyzer works with is the one of the
    specification. *)
Lemma uniqueContent_fragments (diagram : ustring) :
  uniqueContent diagram = Spec.fragments diagram.
Proof.
  unfold uniqueContent, Spec.fragments.
  rewrite pushCleaned_fold, newSet_firstSeen, SpecFacts.lines_split.
  cbn [app].
  rewrite (map_ext cleanLine (fun line => Spec.trimmed (Spec.strip line))
             cleanLine_strip).
  apply filter_id. intros x Hx. apply firstSeen_In in Hx as [Hx _].
  apply filter_In in Hx. tauto.
Qed.

Lemma strip_clean (line : ustring) (c : N) :
  In c (Spec.strip line) -> Spec.stripped c = false.
Proof.
  unfold Spec.strip. intros H. apply filter_In in H as [_ H].
  now apply negb_true_iff in H.
Qed.

Lemma trimmed_In (s : ustring) (c : N) : In c (Spec.trimmed s) -> In c s.
Proof. rewrite SpecFacts.trimmed_trim. apply TrimFacts.trim_In. Qed.

(** C5.  The fallback analyzer works on the fragments of the
    specification: of every line (the texts between the line feeds), the
    glyphs of the fixed set and the frame characters [[]-|+*] stripped
    and the rest trimmed, the results of length 2 or less dropped, each
    of the others kept where it is first seen.  It emits the first 20 of
    them as components with an empty description, an empty array of
    connections, and as summary all of them joined by a line feed, the
    bullet U+2022 and a blank.  The bullet U+2022 is not one of the
    stripped glyphs. *)
Theorem fallback_analysis (asciiDiagram : ustring) :
  let fragments := Spec.fragments asciiDiagram in
  let analysis := fallbackDiagramConversion asciiDiagram in
  components analysis
  = Some (map (fun t => {| name := Some t; description := Some [] |})
            (firstn 20 fragments))
  /\ connections analysis = Some []
  /\ summary analysis = Some (Spec.joined Spec.bulletSeparator fragments)
  /\ (List.length (firstn 20 fragments) <= 20)%nat
  /\ NoDup fragments
  /\ (forall t, In t fragments ->
                (2 < List.length t)%nat
                /\ (forall c, In c t -> Spec.stripped c = false)
                /\ exists line, In line (Spec.lines asciiDiagram)
                                /\ t = Spec.trimmed (Spec.strip line))
  /\ (forall line, In line (Spec.lines asciiDiagram) ->
                   (2 < List.length (Spec.trimmed (Spec.strip line)))%nat ->
                   In (Spec.trimmed (Spec.strip line)) fragments).
Proof.
  cbv zeta. unfold fallbackDiagramConversion.
  cbn [components connections summary].
  rewrite uniqueContent_fragments, SpecFacts.joined_join. repeat split.
  - apply firstn_le_length.
  - apply firstSeen_NoDup.
  - unfold Spec.fragments in H. apply firstSeen_In in H as [H _].
    apply filter_In in H as [_ H]. now apply Nat.ltb_lt.
  - unfold Spec.fragments in H. apply firstSeen_In in H as [H _].
    apply filter_In in H as [H _]. apply in_map_iff in H as (line & <- & _).
    intros c Hc. apply trimmed_In in Hc. exact (strip_clean line c Hc).
  - unfold Spec.fragments in H. apply firstSeen_In in H as [H _].
    apply filter_In in H as [H _]. apply in_map_iff in H as (line & <- & Hl).
    now exists line.
  - intros line Hl Hlen. unfold Spec.fragments.
    apply firstSeen_complete; [|intros []].
    apply filter_In. split.
    + apply in_map_iff. now exists line.
    + now apply Nat.ltb_lt.
Qed.

(** The diagram of two boxes: the components are Frontend, Backend and
    the line with the bullet; the second Frontend and DB are not among
    them, and the lines that hold glyphs only give nothing. *)
Lemma fallback_analysis_witness :
  components (fallbackDiagramConversion Samples.layers)
  = Some [ {| name := Some (u "Frontend"); description := Some [] |};
           {| name := Some (u "Backend"); description := Some [] |};
           {| name := Some ([8226%N] ++ u " Cache");
              description := Some [] |} ]
  /\ connections (fallbackDiagramConversion Samples.layers) = Some []
  /\ summary (fallbackDiagramConversion Samples.layers)
     = Some (u "Frontend" ++ [10; 8226; 32]%N ++ u "Backend"
             ++ [10; 8226; 32; 8226]%N ++ u " Cache").
Proof.
  pose proof (fallback_analysis Samples.layers) as H. cbv zeta in H.
  destruct H as (C & N & S & _).
  split; [exact C|]. split; [exact N | exact S].
Defined.

(** More than 20 fragments: 20 components, and every fragment in the
    summary. *)
Lemma fallback_analysis_cap :
  let diagram :=
    Str.join [10%N]
      (map (fun n => u "node " ++ DocxConverter.decimal n) (seq 1 25)) in
  option_map (@List.length _) (components (fallbackDiagramConversion diagram))
  = Some 20%nat
  /\ List.length (Spec.fragments diagram) = 25%nat.
Proof. vm_compute. split; reflexivity. Qed.

End FallbackFacts.

(** ** The diagram detector *)

Module MarkdownParserFacts.
Import MarkdownParser.

(** C7.  [isAsciiDiagram] is true exactly for the texts that hold at
    least one glyph of the fixed set (2 box-drawing lines, 4 corners, 5
    junctions, 11 double-line variants, 4 arrows, 6 filled and outline
    markers) and false for every other text; it is a function of the
    text alone, the expression has no flag that keeps a state. *)
Theorem isAsciiDiagram_iff_glyph (code : ustring) :
  (isAsciiDiagram code = true
   <-> exists c, In c code /\ In c Glyphs.fixedSet)
  /\ (isAsciiDiagram code = false
      <-> forall c, In c code -> ~ In c Glyphs.fixedSet).
Proof.
  assert (isAsciiDiagram code = true
          <-> exists c, In c code /\ In c Glyphs.fixedSet) as H.
  { unfold isAsciiDiagram, boxChars.
    rewrite RegexFacts.test_one_atom, existsb_exists.
    split; intros [c [Hin Hc]]; exists c; split; try assumption;
      now apply SpecFacts.fixedSet_class. }
  split; [exact H|].
  rewrite <- not_true_iff_false, H. split.
  - intros Hn c Hc Hg. apply Hn. now exists c.
  - intros Ha [c [Hc Hg]]. exact (Ha c Hc Hg).
Qed.

(** A text with the pointer U+25BA is a diagram; an ASCII frame with an
    ASCII arrow and the bullet U+2022 is none. *)
Lemma isAsciiDiagram_iff_glyph_witness :
  isAsciiDiagram (u "a " ++ [0x25BA%N] ++ u " b") = true
  /\ isAsciiDiagram (u "+--+ a -> b |" ++ [0x2022%N]) = false.
Proof.
  split.
  - apply (proj1 (isAsciiDiagram_iff_glyph _)).
    exists 0x25BA%N. split; cbn; tauto.
  - apply (proj2 (isAsciiDiagram_iff_glyph _)).
    intros c Hin Hg. cbn in Hin.
    repeat (destruct Hin as [<-|Hin];
            [cbn in Hg; repeat (destruct Hg as [Hg|Hg]; [discriminate Hg|]);
             exact Hg|]).
    exact Hin.
Defined.

(** Each of the 32 glyphs alone makes a diagram; their neighbours in the
    blocks of Unicode, the heavy horizontal line U+2501, the rightwards
    arrow U+2192 and the white triangle U+25B3, do not, nor do the ASCII
    frame characters. *)
Lemma isAsciiDiagram_glyphs :
  forallb (fun c => isAsciiDiagram [c])
    [ 0x2500; 0x2502; 0x250C; 0x2510; 0x2514; 0x2518; 0x251C; 0x2524;
      0x252C; 0x2534; 0x253C; 0x2550; 0x2551; 0x2554; 0x2557; 0x255A;
      0x255D; 0x2560; 0x2563; 0x2566; 0x2569; 0x256C; 0x25BC; 0x25B2;
      0x25C4; 0x25BA; 0x25CF; 0x25CB; 0x25A0; 0x25A1; 0x25AA; 0x25AB ]%N
  = true
  /\ forallb (fun c => negb (isAsciiDiagram [c]))
       ([0x2501; 0x2192; 0x25B3; 0x2022]%N ++ u "+-|*[]<>^v") = true
  /\ List.length Glyphs.fixedSet = 32%nat
  /\ NoDup Glyphs.fixedSet.
Proof.
  repeat split.
  unfold Glyphs.fixedSet, Glyphs.lines, Glyphs.corners, Glyphs.junctions,
    Glyphs.doubleLines, Glyphs.arrows, Glyphs.markers. cbn [app].
  repeat (constructor; [cbn; intuition discriminate|]). constructor.
Qed.

End MarkdownParserFacts.

(** ** The retry loops *)

Module RetryFacts.
Import World GeminiService Schema Attempt.

Lemma attempts_app (t1 t2 : list Event) :
  attempts (t1 ++ t2) = (attempts t1 + attempts t2)%nat.
Proof. unfold attempts. now rewrite filter_app, length_app. Qed.

(** The pause never throws and never calls the backend. *)
Lemma backoff_ok (rt : Runtime) (attempt : nat) (lastError : option Js.Error)
  (w : State) :
  backoff rt attempt lastError w = (inr tt, paused rt attempt lastError w)
  /\ model (paused rt attempt lastError w) = model w
  /\ useGemini (paused rt attempt lastError w) = useGemini w
  /\ calls (paused rt attempt lastError w) = calls w
  /\ attempts (trace (paused rt attempt lastError w)) = attempts (trace w).
Proof.
  assert (forall ms, attempts (trace w ++ [Sleep ms]) = attempts (trace w))
    as A.
  { intros ms. rewrite attempts_app. apply Nat.add_0_r. }
  unfold paused, backoff.
  destruct (0 <? attempt)%nat; [|cbn [ret snd]; auto].
  unfold getRetryDelay.
  destruct (suggested (extractRetryDelay lastError));
    cbv beta iota delta [bind ret sleep emit Math_random snd model useGemini
                           calls trace draws];
    rewrite A; auto.
Qed.

(** One failed turn of the diagram loop. *)
Lemma diagram_turn_fails (rt : Runtime) (ascii : ustring)
  (remaining attempt : nat) (lastError : option Js.Error) (w : State)
  (e : Js.Error) :
  failure rt (DiagramPrompt ascii) (calls w) = Some e ->
  diagramLoop rt ascii (S remaining) attempt lastError w
  = let w' := called (DiagramPrompt ascii) (paused rt attempt lastError w) in
    if negb (isRetryableDiagram e) || (RETRY_CONFIG.maxRetries <=? attempt)%nat
    then (inr (fallbackDiagramConversion ascii), w')
    else diagramLoop rt ascii remaining (S attempt) (Some e) w'.
Proof.
  intros Hf.
  destruct (backoff_ok rt attempt lastError w) as (Hb & _ & _ & Hc & _).
  cbn [diagramLoop]. unfold bind at 1. unfold tryCatch. unfold bind at 1.
  rewrite Hb. unfold bind at 1. unfold generateContent, failure in *.
  rewrite Hc.
  destruct (backend rt (calls w) (DiagramPrompt ascii)) as [text | e' | n].
  - unfold lift, bind.
    destruct (JSON_parse_diagram rt (cleanReply text)) as [e'|]; [|discriminate].
    injection Hf as ->. unfold called. rewrite Hc.
    destruct (negb (isRetryableDiagram e) || (RETRY_CONFIG.maxRetries <=? attempt)%nat);
      reflexivity.
  - injection Hf as ->. unfold called. rewrite Hc.
    destruct (negb (isRetryableDiagram e) || (RETRY_CONFIG.maxRetries <=? attempt)%nat);
      reflexivity.
  - discriminate.
Qed.

(** One failed turn of the document loop. *)
Lemma document_turn_fails (rt : Runtime) (markdown : ustring)
  (remaining attempt : nat) (lastError : option Js.Error) (w : State)
  (e : Js.Error) :
  failure rt (DocumentPrompt markdown) (calls w) = Some e ->
  documentLoop rt markdown (S remaining) attempt lastError w
  = let w' := called (DocumentPrompt markdown) (paused rt attempt lastError w) in
    if negb (isRetryableDocument e) || (RETRY_CONFIG.maxRetries <=? attempt)%nat
    then (inr None, w')
    else documentLoop rt markdown remaining (S attempt) (Some e) w'.
Proof.
  intros Hf.
  destruct (backoff_ok rt attempt lastError w) as (Hb & _ & _ & Hc & _).
  cbn [documentLoop]. unfold bind at 1. unfold tryCatch. unfold bind at 1.
  rewrite Hb. unfold bind at 1. unfold generateContent, failure in *.
  rewrite Hc.
  destruct (backend rt (calls w) (DocumentPrompt markdown)) as [text | e' | n].
  - unfold lift, bind.
    destruct (JSON_parse_document rt (cleanReply text)) as [e'|[doc|]];
      try discriminate;
      injection Hf as <-; unfold called, throw; rewrite Hc;
      match goal with
      | |- context [negb (isRetryableDocument ?x) || ?y] =>
          destruct (negb (isRetryableDocument x) || y)
      end;
      reflexivity.
  - injection Hf as ->. unfold called. rewrite Hc.
    destruct (negb (isRetryableDocument e) || (RETRY_CONFIG.maxRetries <=? attempt)%nat);
      reflexivity.
  - discriminate.
Qed.

(** A turn in which the backend rejects with [null] or [undefined]: the
    catch block throws, and so does the wrapper. *)
Lemma diagram_turn_rejected (rt : Runtime) (ascii : ustring)
  (remaining attempt : nat) (lastError : option Js.Error) (w : State)
  (n : Js.Nullish) :
  rejection rt (DiagramPrompt ascii) (calls w) = Some n ->
  diagramLoop rt ascii (S remaining) attempt lastError w
  = (inl (Js.Obj (Js.cannotRead n "message")),
     called (DiagramPrompt ascii) (paused rt attempt lastError w)).
Proof.
  intros Hr.
  destruct (backoff_ok rt attempt lastError w) as (Hb & _ & _ & Hc & _).
  cbn [diagramLoop]. unfold bind at 1. unfold tryCatch. unfold bind at 1.
  rewrite Hb. unfold bind at 1. unfold generateContent, rejection in *.
  rewrite Hc.
  destruct (backend rt (calls w) (DiagramPrompt ascii)) as [text | e' | n'];
    try discriminate.
  injection Hr as ->. unfold throw, called. now rewrite Hc.
Qed.

Lemma document_turn_rejected (rt : Runtime) (markdown : ustring)
  (remaining attempt : nat) (lastError : option Js.Error) (w : State)
  (n : Js.Nullish) :
  rejection rt (DocumentPrompt markdown) (calls w) = Some n ->
  documentLoop rt markdown (S remaining) attempt lastError w
  = (inl (Js.Obj (Js.cannotRead n "message")),
     called (DocumentPrompt markdown) (paused rt attempt lastError w)).
Proof.
  intros Hr.
  destruct (backoff_ok rt attempt lastError w) as (Hb & _ & _ & Hc & _).
  cbn [documentLoop]. unfold bind at 1. unfold tryCatch. unfold bind at 1.
  rewrite Hb. unfold bind at 1. unfold generateContent, rejection in *.
  rewrite Hc.
  destruct (backend rt (calls w) (DocumentPrompt markdown)) as [text | e' | n'];
    try discriminate.
  injection Hr as ->. unfold throw, called. now rewrite Hc.
Qed.

(** One turn of the diagram loop, however it ends: the backend is called
    once, and then the loop returns, goes on with the next turn, or
    throws because the backend rejected with [null] or [undefined]. *)
Lemma diagram_turn (rt : Runtime) (ascii : ustring)
  (remaining attempt : nat) (lastError : option Js.Error) (w : State) :
  let w' := called (DiagramPrompt ascii) (paused rt attempt lastError w) in
  (exists analysis,
     diagramLoop rt ascii (S remaining) attempt lastError w
     = (inr analysis, w'))
  \/ (exists e,
        diagramLoop rt ascii (S remaining) attempt lastError w
        = diagramLoop rt ascii remaining (S attempt) (Some e) w')
  \/ (exists n,
        rejection rt (DiagramPrompt ascii) (calls w) = Some n
        /\ diagramLoop rt ascii (S remaining) attempt lastError w
           = (inl (Js.Obj (Js.cannotRead n "message")), w')).
Proof.
  cbv zeta.
  destruct (rejection rt (DiagramPrompt ascii) (calls w)) as [n|] eqn:Rj.
  { right. right. exists n. split; [reflexivity|].
    now apply diagram_turn_rejected. }
  destruct (failure rt (DiagramPrompt ascii) (calls w)) as [e|] eqn:F.
  - rewrite (diagram_turn_fails rt ascii remaining attempt lastError w e F).
    cbv zeta.
    destruct (negb (isRetryableDiagram e)
              || (RETRY_CONFIG.maxRetries <=? attempt)%nat); eauto.
  - left.
    destruct (backoff_ok rt attempt lastError w) as (Hb & _ & _ & Hc & _).
    cbn [diagramLoop]. unfold bind at 1. unfold tryCatch. unfold bind at 1.
    rewrite Hb. unfold bind at 1. unfold generateContent, failure, rejection in *.
    rewrite Hc.
    destruct (backend rt (calls w) (DiagramPrompt ascii)) as [text | e' | n'];
      try discriminate.
    unfold lift, bind.
    destruct (JSON_parse_diagram rt (cleanReply text)) as [e'|parsed];
      [discriminate|].
    unfold ret, called. rewrite Hc. eauto.
Qed.

Section Loop.
Variable rt : Runtime.
Variable R : State -> State -> Prop.
Hypothesis R_refl : forall w, R w w.
Hypothesis R_trans : forall w1 w2 w3, R w1 w2 -> R w2 w3 -> R w1 w3.
Hypothesis R_turn :
  forall ascii attempt lastError w,
    R w (called (DiagramPrompt ascii) (paused rt attempt lastError w)).

(** The diagram loop respects what every turn respects, however it
    ends. *)
Lemma diagramLoop_respects (ascii : ustring) (remaining : nat) :
  forall attempt lastError w,
  exists r w',
    diagramLoop rt ascii remaining attempt lastError w = (r, w')
    /\ R w w'.
Proof.
  induction remaining as [|remaining IH]; intros attempt lastError w.
  - simpl. unfold ret. eauto.
  - destruct (diagram_turn rt ascii remaining attempt lastError w)
      as [[a E] | [[e E] | (n & _ & E)]]; rewrite E.
    + eauto.
    + destruct (IH (S attempt) (Some e)
                  (called (DiagramPrompt ascii) (paused rt attempt lastError w)))
        as (a & w' & E' & H).
      exists a, w'. split; [exact E' | eauto].
    + eauto.
Qed.

(** It returns an analysis unless the backend rejects with [null] or
    [undefined]. *)
Lemma diagramLoop_returns (ascii : ustring) (remaining : nat) :
  (forall k, rejection rt (DiagramPrompt ascii) k = None) ->
  forall attempt lastError w,
  exists analysis w',
    diagramLoop rt ascii remaining attempt lastError w = (inr analysis, w')
    /\ R w w'.
Proof.
  intros Hn.
  induction remaining as [|remaining IH]; intros attempt lastError w.
  - simpl. unfold ret. eauto.
  - destruct (diagram_turn rt ascii remaining attempt lastError w)
      as [[a E] | [[e E] | (n & Rj & _)]].
    + rewrite E. eauto.
    + rewrite E.
      destruct (IH (S attempt) (Some e)
                  (called (DiagramPrompt ascii) (paused rt attempt lastError w)))
        as (a & w' & E' & H).
      exists a, w'. split; [exact E' | eauto].
    + rewrite Hn in Rj. discriminate.
Qed.
End Loop.

Lemma called_paused (rt : Runtime) (p : Prompt) (attempt : nat)
  (lastError : option Js.Error) (w : State) :
  let w' := called p (paused rt attempt lastError w) in
  calls w' = S (calls w)
  /\ attempts (trace w') = S (attempts (trace w))
  /\ model w' = model w /\ useGemini w' = useGemini w.
Proof.
  destruct (backoff_ok rt attempt lastError w) as (_ & Hm & Hu & Hc & Ha).
  simpl. rewrite attempts_app, Hc, Ha, Hm, Hu. simpl.
  repeat split; try reflexivity.
  change (attempts [GenerateContent p]) with 1%nat. lia.
Qed.

Lemma convertDiagramWithAI_available (rt : Runtime) (ascii : ustring) (w : State) :
  unavailable w = false ->
  convertDiagramWithAI rt ascii w
  = diagramLoop rt ascii (S RETRY_CONFIG.maxRetries) 0 None w.
Proof. intros H. unfold convertDiagramWithAI, bind, get. now rewrite H. Qed.

Lemma parseDocumentWithAI_available (rt : Runtime) (markdown : ustring) (w : State) :
  unavailable w = false ->
  parseDocumentWithAI rt markdown w
  = documentLoop rt markdown (S RETRY_CONFIG.maxRetries) 0 None w.
Proof. intros H. unfold parseDocumentWithAI, bind, get. now rewrite H. Qed.

(** Three failed turns with retryable errors: the diagram loop. *)
Lemma diagram_always_transient (rt : Runtime) (ascii : ustring) (w : State) :
  (forall k, exists e, failure rt (DiagramPrompt ascii) k = Some e
                       /\ isRetryableDiagram e = true) ->
  exists w',
    diagramLoop rt ascii (S RETRY_CONFIG.maxRetries) 0 None w
    = (inr (fallbackDiagramConversion ascii), w')
    /\ attempts (trace w') = (attempts (trace w) + 3)%nat
    /\ calls w' = (calls w + 3)%nat.
Proof.
  intros H. unfold RETRY_CONFIG.maxRetries.
  destruct (H (calls w)) as (e0 & F0 & R0).
  rewrite (diagram_turn_fails rt ascii _ 0 None w e0 F0). cbv zeta.
  rewrite R0. cbn [negb orb RETRY_CONFIG.maxRetries Nat.leb].
  set (w1 := called _ (paused rt 0 None w)).
  destruct (called_paused rt (DiagramPrompt ascii) 0 None w) as (C1 & A1 & _).
  fold w1 in C1, A1.
  destruct (H (calls w1)) as (e1 & F1 & R1).
  rewrite (diagram_turn_fails rt ascii _ 1 (Some e0) w1 e1 F1). cbv zeta.
  rewrite R1. cbn [negb orb RETRY_CONFIG.maxRetries Nat.leb].
  set (w2 := called _ (paused rt 1 (Some e0) w1)).
  destruct (called_paused rt (DiagramPrompt ascii) 1 (Some e0) w1) as (C2 & A2 & _).
  fold w2 in C2, A2.
  destruct (H (calls w2)) as (e2 & F2 & R2).
  rewrite (diagram_turn_fails rt ascii _ 2 (Some e1) w2 e2 F2). cbv zeta.
  rewrite R2. cbn [negb orb RETRY_CONFIG.maxRetries Nat.leb].
  set (w3 := called _ (paused rt 2 (Some e1) w2)).
  destruct (called_paused rt (DiagramPrompt ascii) 2 (Some e1) w2) as (C3 & A3 & _).
  fold w3 in C3, A3.
  exists w3. repeat split; lia.
Qed.

Lemma document_always_transient (rt : Runtime) (markdown : ustring) (w : State) :
  (forall k, exists e, failure rt (DocumentPrompt markdown) k = Some e
                       /\ isRetryableDocument e = true) ->
  exists w',
    documentLoop rt markdown (S RETRY_CONFIG.maxRetries) 0 None w
    = (inr None, w')
    /\ attempts (trace w') = (attempts (trace w) + 3)%nat
    /\ calls w' = (calls w + 3)%nat.
Proof.
  intros H. unfold RETRY_CONFIG.maxRetries.
  destruct (H (calls w)) as (e0 & F0 & R0).
  rewrite (document_turn_fails rt markdown _ 0 None w e0 F0). cbv zeta.
  rewrite R0. cbn [negb orb RETRY_CONFIG.maxRetries Nat.leb].
  set (w1 := called _ (paused rt 0 None w)).
  destruct (called_paused rt (DocumentPrompt markdown) 0 None w) as (C1 & A1 & _).
  fold w1 in C1, A1.
  destruct (H (calls w1)) as (e1 & F1 & R1).
  rewrite (document_turn_fails rt markdown _ 1 (Some e0) w1 e1 F1). cbv zeta.
  rewrite R1. cbn [negb orb RETRY_CONFIG.maxRetries Nat.leb].
  set (w2 := called _ (paused rt 1 (Some e0) w1)).
  destruct (called_paused rt (DocumentPrompt markdown) 1 (Some e0) w1) as (C2 & A2 & _).
  fold w2 in C2, A2.
  destruct (H (calls w2)) as (e2 & F2 & R2).
  rewrite (document_turn_fails rt markdown _ 2 (Some e1) w2 e2 F2). cbv zeta.
  rewrite R2. cbn [negb orb RETRY_CONFIG.maxRetries Nat.leb].
  set (w3 := called _ (paused rt 2 (Some e1) w2)).
  destruct (called_paused rt (DocumentPrompt markdown) 2 (Some e1) w2) as (C3 & A3 & _).
  fold w3 in C3, A3.
  exists w3. repeat split; lia.
Qed.

(** A first failure that is not retryable ends the loop. *)
Lemma diagram_permanent (rt : Runtime) (ascii : ustring) (w : State) (e : Js.Error) :
  failure rt (DiagramPrompt ascii) (calls w) = Some e ->
  isRetryableDiagram e = false ->
  exists w',
    diagramLoop rt ascii (S RETRY_CONFIG.maxRetries) 0 None w
    = (inr (fallbackDiagramConversion ascii), w')
    /\ attempts (trace w') = (attempts (trace w) + 1)%nat
    /\ calls w' = (calls w + 1)%nat.
Proof.
  intros F R. unfold RETRY_CONFIG.maxRetries.
  rewrite (diagram_turn_fails rt ascii _ 0 None w e F). cbv zeta.
  rewrite R. cbn [negb orb].
  destruct (called_paused rt (DiagramPrompt ascii) 0 None w) as (C1 & A1 & _).
  eexists. split; [reflexivity|]. split; lia.
Qed.

Lemma document_permanent (rt : Runtime) (markdown : ustring) (w : State) (e : Js.Error) :
  failure rt (DocumentPrompt markdown) (calls w) = Some e ->
  isRetryableDocument e = false ->
  exists w',
    documentLoop rt markdown (S RETRY_CONFIG.maxRetries) 0 None w
    = (inr None, w')
    /\ attempts (trace w') = (attempts (trace w) + 1)%nat
    /\ calls w' = (calls w + 1)%nat.
Proof.
  intros F R. unfold RETRY_CONFIG.maxRetries.
  rewrite (document_turn_fails rt markdown _ 0 None w e F). cbv zeta.
  rewrite R. cbn [negb orb].
  destruct (called_paused rt (DocumentPrompt markdown) 0 None w) as (C1 & A1 & _).
  eexists. split; [reflexivity|]. split; lia.
Qed.

End RetryFacts.

Module RetryClaims.
Import World GeminiService Schema Attempt RetryFacts.

(** Each wrapper tests its own set. *)
Lemma isRetryableDiagram_set (e : Js.Error) :
  isRetryableDiagram e = Retryability.ofDiagram e.
Proof.
  unfold isRetryableDiagram, Retryability.ofDiagram, Retryability.matches.
  simpl. now rewrite !orb_false_r, !orb_assoc.
Qed.

Lemma isRetryableDocument_set (e : Js.Error) :
  isRetryableDocument e = Retryability.ofDocument e.
Proof.
  unfold isRetryableDocument, Retryability.ofDocument, Retryability.matches.
  simpl. now rewrite !orb_false_r, !orb_assoc.
Qed.

(** C4, as the code has it.  When every attempt fails with an error of
    the wrapper's own set (for [convertDiagramWithAI] a status code 404,
    503 or 429 or a message that contains "404", "503", "overloaded" or
    "temporarily"; for [parseDocumentWithAI] a message that contains
    "429", "503", "quota", "overloaded" or "rate"), exactly three calls
    are made and the wrapper returns its fallback value (the result of
    [fallbackDiagramConversion], resp. [null]) instead of throwing; when
    the first attempt fails with an error outside that set, exactly one
    call is made before the fallback value is returned. *)
Theorem retry_attempts (rt : Runtime) (w : State) (asciiDiagram markdown : ustring) :
  unavailable w = false ->
  ((forall k, exists e, failure rt (DiagramPrompt asciiDiagram) k = Some e
                        /\ Retryability.ofDiagram e = true) ->
   exists w',
     convertDiagramWithAI rt asciiDiagram w
     = (inr (fallbackDiagramConversion asciiDiagram), w')
     /\ attempts (trace w') = (attempts (trace w) + 3)%nat)
  /\ ((forall k, exists e, failure rt (DocumentPrompt markdown) k = Some e
                           /\ Retryability.ofDocument e = true) ->
      exists w',
        parseDocumentWithAI rt markdown w = (inr None, w')
        /\ attempts (trace w') = (attempts (trace w) + 3)%nat)
  /\ (forall e, failure rt (DiagramPrompt asciiDiagram) (calls w) = Some e ->
                Retryability.ofDiagram e = false ->
      exists w',
        convertDiagramWithAI rt asciiDiagram w
        = (inr (fallbackDiagramConversion asciiDiagram), w')
        /\ attempts (trace w') = (attempts (trace w) + 1)%nat)
  /\ (forall e, failure rt (DocumentPrompt markdown) (calls w) = Some e ->
                Retryability.ofDocument e = false ->
      exists w',
        parseDocumentWithAI rt markdown w = (inr None, w')
        /\ attempts (trace w') = (attempts (trace w) + 1)%nat).
Proof.
  intros Hav.
  rewrite (convertDiagramWithAI_available rt asciiDiagram w Hav).
  rewrite (parseDocumentWithAI_available rt markdown w Hav).
  repeat split.
  - intros H.
    destruct (diagram_always_transient rt asciiDiagram w) as (w' & E & A & _).
    { intros k. destruct (H k) as (e & F & S). exists e.
      now rewrite isRetryableDiagram_set. }
    now exists w'.
  - intros H.
    destruct (document_always_transient rt markdown w) as (w' & E & A & _).
    { intros k. destruct (H k) as (e & F & S). exists e.
      now rewrite isRetryableDocument_set. }
    now exists w'.
  - intros e F R. rewrite <- isRetryableDiagram_set in R.
    destruct (diagram_permanent rt asciiDiagram w e F R)
      as (w' & E & A & _). now exists w'.
  - intros e F R. rewrite <- isRetryableDocument_set in R.
    destruct (document_permanent rt markdown w e F R)
      as (w' & E & A & _). now exists w'.
Qed.

(** The backend answers every call with the status 503 and a message
    that holds "503": three calls by each wrapper, then the fallback
    value; an invalid key: one call by each. *)
Lemma retry_attempts_witness :
  (exists w',
     convertDiagramWithAI
       (Samples.failing (Samples.httpError 503 "503 Service Unavailable"))
       Samples.boxLine Samples.ready
     = (inr (fallbackDiagramConversion Samples.boxLine), w')
     /\ attempts (trace w') = 3%nat)
  /\ (exists w',
        parseDocumentWithAI
          (Samples.failing (Samples.httpError 503 "503 Service Unavailable"))
          Samples.boxMarkdown Samples.ready
        = (inr None, w')
        /\ attempts (trace w') = 3%nat)
  /\ (exists w',
        convertDiagramWithAI
          (Samples.failing (Samples.plainError "API key not valid"))
          Samples.boxLine Samples.ready
        = (inr (fallbackDiagramConversion Samples.boxLine), w')
        /\ attempts (trace w') = 1%nat)
  /\ (exists w',
        parseDocumentWithAI
          (Samples.failing (Samples.plainError "API key not valid"))
          Samples.boxMarkdown Samples.ready
        = (inr None, w')
        /\ attempts (trace w') = 1%nat).
Proof.
  destruct (retry_attempts
              (Samples.failing (Samples.httpError 503 "503 Service Unavailable"))
              Samples.ready Samples.boxLine Samples.boxMarkdown eq_refl)
    as (H1 & H2 & _).
  destruct (retry_attempts
              (Samples.failing (Samples.plainError "API key not valid"))
              Samples.ready Samples.boxLine Samples.boxMarkdown eq_refl)
    as (_ & _ & H3 & H4).
  split; [|split; [|split]].
  - apply H1. intros k.
    exists (Samples.httpError 503 "503 Service Unavailable").
    split; reflexivity.
  - apply H2. intros k.
    exists (Samples.httpError 503 "503 Service Unavailable").
    split; reflexivity.
  - apply (H3 (Samples.plainError "API key not valid")); reflexivity.
  - apply (H4 (Samples.plainError "API key not valid")); reflexivity.
Defined.

(** C4 as stated fails.  The status 503 is in the retryable set of the
    specification, yet with a backend that answers every call with the
    status 503 and the message "Service Unavailable"
    [parseDocumentWithAI] makes one call, not three: it looks at the
    message only.  And a message with "quota" is in the set, yet
    [convertDiagramWithAI] makes one call on it. *)
Lemma transient_error_is_not_retried :
  Retryability.bySpec (Samples.httpError 503 "Service Unavailable") = true
  /\ parseDocumentWithAI
       (Samples.failing (Samples.httpError 503 "Service Unavailable"))
       Samples.boxMarkdown Samples.ready
     = (inr None,
        called (DocumentPrompt Samples.boxMarkdown) Samples.ready)
  /\ attempts (trace (called (DocumentPrompt Samples.boxMarkdown)
                        Samples.ready)) = 1%nat
  /\ Retryability.bySpec (Samples.plainError "quota exceeded") = true
  /\ convertDiagramWithAI
       (Samples.failing (Samples.plainError "quota exceeded"))
       Samples.boxLine Samples.ready
     = (inr (fallbackDiagramConversion Samples.boxLine),
        called (DiagramPrompt Samples.boxLine) Samples.ready)
  /\ attempts (trace (called (DiagramPrompt Samples.boxLine)
                        Samples.ready)) = 1%nat.
Proof. repeat split; vm_compute; reflexivity. Qed.

Lemma retry_condition (r : bool) (attempt : nat) :
  negb r || (RETRY_CONFIG.maxRetries <=? attempt)%nat
  = negb (r && (attempt <? RETRY_CONFIG.maxRetries)%nat).
Proof.
  rewrite negb_andb. f_equal. rewrite Nat.ltb_antisym. now rewrite negb_involutive.
Qed.

(** C3, as the code has it.  A failed attempt is followed by another one
    if and only if it is not the last of the three and the error matches
    the set of the wrapper: for [convertDiagramWithAI] a status code 404,
    503 or 429 or a message that contains "404", "503", "overloaded" or
    "temporarily"; for [parseDocumentWithAI] a message that contains
    "429", "503", "quota", "overloaded" or "rate".  Any other error ends
    the loop at once with the fallback value. *)
Theorem retry_iff_in_wrapper_set (rt : Runtime) (asciiDiagram markdown : ustring)
  (remaining attempt : nat) (lastError : option Js.Error) (w : State)
  (e : Js.Error) :
  (failure rt (DiagramPrompt asciiDiagram) (calls w) = Some e ->
   diagramLoop rt asciiDiagram (S remaining) attempt lastError w
   = let w' := called (DiagramPrompt asciiDiagram)
                 (paused rt attempt lastError w) in
     if Retryability.ofDiagram e && (attempt <? RETRY_CONFIG.maxRetries)%nat
     then diagramLoop rt asciiDiagram remaining (S attempt) (Some e) w'
     else (inr (fallbackDiagramConversion asciiDiagram), w'))
  /\ (failure rt (DocumentPrompt markdown) (calls w) = Some e ->
      documentLoop rt markdown (S remaining) attempt lastError w
      = let w' := called (DocumentPrompt markdown)
                    (paused rt attempt lastError w) in
        if Retryability.ofDocument e && (attempt <? RETRY_CONFIG.maxRetries)%nat
        then documentLoop rt markdown remaining (S attempt) (Some e) w'
        else (inr None, w')).
Proof.
  split; intros F.
  - rewrite (diagram_turn_fails rt asciiDiagram remaining attempt lastError w e F).
    cbv zeta. rewrite retry_condition, isRetryableDiagram_set.
    now destruct (Retryability.ofDiagram e && (attempt <? RETRY_CONFIG.maxRetries)%nat).
  - rewrite (document_turn_fails rt markdown remaining attempt lastError w e F).
    cbv zeta. rewrite retry_condition, isRetryableDocument_set.
    now destruct (Retryability.ofDocument e && (attempt <? RETRY_CONFIG.maxRetries)%nat).
Qed.

(** A 429 on the first attempt of the diagram wrapper and a message with
    "quota" on the first attempt of the document wrapper: both retry. *)
Lemma retry_iff_in_wrapper_set_witness :
  diagramLoop (Samples.failing (Samples.httpError 429 "Too Many Requests"))
    Samples.boxLine 3 0 None Samples.ready
  = diagramLoop (Samples.failing (Samples.httpError 429 "Too Many Requests"))
      Samples.boxLine 2 1 (Some (Samples.httpError 429 "Too Many Requests"))
      (called (DiagramPrompt Samples.boxLine) Samples.ready)
  /\ documentLoop (Samples.failing (Samples.plainError "quota exceeded"))
       Samples.boxMarkdown 3 0 None Samples.ready
     = documentLoop (Samples.failing (Samples.plainError "quota exceeded"))
         Samples.boxMarkdown 2 1 (Some (Samples.plainError "quota exceeded"))
         (called (DocumentPrompt Samples.boxMarkdown) Samples.ready).
Proof.
  split.
  - exact (proj1 (retry_iff_in_wrapper_set
                    (Samples.failing (Samples.httpError 429 "Too Many Requests"))
                    Samples.boxLine Samples.boxMarkdown 2 0 None Samples.ready
                    (Samples.httpError 429 "Too Many Requests")) eq_refl).
  - exact (proj2 (retry_iff_in_wrapper_set
                    (Samples.failing (Samples.plainError "quota exceeded"))
                    Samples.boxLine Samples.boxMarkdown 2 0 None Samples.ready
                    (Samples.plainError "quota exceeded")) eq_refl).
Defined.

(** C3 as stated fails: "quota" is in the set of the specification, yet
    the diagram wrapper does not retry on it, and a message with "404" is
    in the set, yet the document wrapper does not retry on it: one call
    each.  And an error of the set is not retried for ever: with a 503 at
    every call the third failure ends the loop. *)
Lemma one_set_for_both_wrappers_fails :
  Retryability.bySpec (Samples.plainError "quota exceeded") = true
  /\ attempts (trace (snd (convertDiagramWithAI
                             (Samples.failing (Samples.plainError "quota exceeded"))
                             Samples.boxLine Samples.ready))) = 1%nat
  /\ Retryability.bySpec (Samples.plainError "404 Not Found") = true
  /\ attempts (trace (snd (parseDocumentWithAI
                             (Samples.failing (Samples.plainError "404 Not Found"))
                             Samples.boxMarkdown Samples.ready))) = 1%nat
  /\ Retryability.bySpec Samples.overloaded = true
  /\ attempts (trace (snd (convertDiagramWithAI
                             (Samples.failing Samples.overloaded)
                             Samples.boxLine Samples.ready))) = 3%nat.
Proof. repeat split; vm_compute; reflexivity. Qed.

End RetryClaims.

(** ** The pause before a retry *)

Module DelayFacts.
Import World GeminiService.
Local Open Scope Q_scope.

Lemma spanDigits_leading (s : ustring) :
  spanDigits s
  = (Delay.leadingDigits s, skipn (List.length (Delay.leadingDigits s)) s).
Proof.
  induction s as [|c s IH]; [reflexivity|].
  cbn [spanDigits Delay.leadingDigits]. unfold Str.isDigit.
  destruct ((48 <=? c) && (c <=? 57))%N; [|reflexivity].
  now rewrite IH.
Qed.

Lemma leadingDigits_digits (s : ustring) :
  forallb Str.isDigit (Delay.leadingDigits s) = true.
Proof.
  induction s as [|c s IH]; [reflexivity|].
  cbn [Delay.leadingDigits].
  destruct ((48 <=? c) && (c <=? 57))%N eqn:D; [|reflexivity].
  cbn [forallb]. unfold Str.isDigit at 1. now rewrite D, IH.
Qed.

Lemma digitsValue_number (ds : ustring) :
  digitsValue ds = Delay.digitsNumber ds.
Proof.
  unfold digitsValue.
  assert (forall acc,
             fold_left (fun acc c => (10 * acc + (Z.of_N c - 48))%Z) ds acc
             = (acc * 10 ^ Z.of_nat (List.length ds)
                + Delay.digitsNumber ds)%Z) as H.
  { induction ds as [|c ds IH]; intros acc.
    - cbn. lia.
    - cbn [fold_left Delay.digitsNumber List.length]. rewrite IH.
      rewrite Nat2Z.inj_succ, Z.pow_succ_r by lia. ring. }
  rewrite H. lia.
Qed.

Lemma digitsNumber_nonneg (ds : ustring) :
  forallb Str.isDigit ds = true -> (0 <= Delay.digitsNumber ds)%Z.
Proof.
  induction ds as [|c ds IH]; intros H; [cbn; lia|].
  cbn [forallb] in H. apply andb_true_iff in H as [Hc Hd].
  cbn [Delay.digitsNumber].
  unfold Str.isDigit in Hc. apply andb_true_iff in Hc as [Lo _].
  apply N.leb_le in Lo. specialize (IH Hd).
  assert (0 <= 10 ^ Z.of_nat (List.length ds))%Z by (apply Z.pow_nonneg; lia).
  nia.
Qed.

(** The decimal of a numeral is not negative. *)
Lemma decimal_nonneg (numeral : ustring) : 0 <= Delay.decimal numeral.
Proof.
  unfold Delay.decimal, Qle. cbn [Qnum Qden]. rewrite Z.mul_1_r, Z.mul_0_l.
  apply digitsNumber_nonneg. rewrite forallb_app, leadingDigits_digits.
  destruct (skipn _ numeral) as [|c rest]; [reflexivity|].
  destruct (N.eqb_spec c 46) as [->|Hne]; [apply leadingDigits_digits|].
  destruct c as [|p]; [reflexivity|].
  repeat (destruct p as [p|p|]; try reflexivity); congruence.
Qed.

(** On a numeral [parseFloat] gives the double next to its decimal. *)
Lemma parseFloat_decimal (c : N) (t : ustring) :
  Str.isDigit c = true ->
  parseFloat (c :: t) = Double.round (Delay.decimal (c :: t)).
Proof.
  intros D. unfold parseFloat, Delay.decimal.
  rewrite spanDigits_leading.
  set (whole := Delay.leadingDigits (c :: t)).
  assert (whole = c :: Delay.leadingDigits t) as W.
  { subst whole. cbn [Delay.leadingDigits]. unfold Str.isDigit in D.
    now rewrite D. }
  assert (forall frac,
             match whole ++ frac with
             | [] => Double.NaN
             | ds => Double.round
                       (Qmake (digitsValue ds)
                          (Z.to_pos (10 ^ Z.of_nat (List.length frac))))
             end
             = Double.round
                 (Qmake (Delay.digitsNumber (whole ++ frac))
                    (Z.to_pos (10 ^ Z.of_nat (List.length frac))))) as K.
  { intros frac. rewrite W. cbn [app]. now rewrite digitsValue_number. }
  destruct (skipn (List.length whole) (c :: t)) as [|x rest]; [apply K|].
  destruct x as [|p]; [apply K|].
  repeat (destruct p as [p|p|]; try apply K).
  rewrite spanDigits_leading. apply K.
Qed.

(** Both expressions are of the form [before (inside) after], and what
    the group holds begins with a digit. *)
Lemma retryInSeconds_grouped :
  retryInSeconds
  = Grouped.grouped
      (Regex.liti "retry" ++ [Regex.Atom Regex.LazyStar Regex.dot])
      [ Regex.Atom Regex.Plus Str.isDigit;
        Regex.Atom Regex.Opt (Regex.chr 46);
        Regex.Atom Regex.Star Str.isDigit ]
      [ Regex.Atom Regex.Star Str.isWhite;
        Regex.Atom Regex.One (Regex.ci "s") ].
Proof. reflexivity. Qed.

Lemma retryDelayField_grouped :
  retryDelayField
  = Grouped.grouped
      (Regex.liti "retryDelay" ++ [Regex.Atom Regex.LazyStar Regex.dot])
      [ Regex.Atom Regex.Plus Str.isDigit ]
      [].
Proof. reflexivity. Qed.

Lemma capture_is_numeral (re : Regex.regex) (text : ustring)
  (cap : option ustring) :
  re = retryInSeconds \/ re = retryDelayField ->
  Regex.exec re text = Some cap ->
  exists c t, cap = Some (c :: t) /\ Str.isDigit c = true.
Proof.
  intros [-> | ->] H.
  - rewrite retryInSeconds_grouped in H.
    apply RegexSound.exec_capture in H as (m1 & -> & Hm); try reflexivity.
    inversion Hm; subst. now exists c, (cs ++ s).
  - rewrite retryDelayField_grouped in H.
    apply RegexSound.exec_capture in H as (m1 & -> & Hm); try reflexivity.
    inversion Hm; subst. now exists c, (cs ++ s).
Qed.

(** What [extractRetryDelay] makes of the seconds. *)
Lemma extractRetryDelay_seconds (lastError : option Js.Error) :
  extractRetryDelay lastError
  = match Delay.suggestedSeconds lastError with
    | Some seconds =>
        Some (Double.add
                (Double.ceil
                   (Double.mul (Double.round seconds) (Double.Finite 1000)))
                (Double.Finite 500))
    | None => None
    end.
Proof.
  unfold extractRetryDelay, Delay.suggestedSeconds.
  destruct (Regex.exec retryInSeconds (errorText lastError)) as [cap|] eqn:E1.
  - destruct (capture_is_numeral retryInSeconds _ cap (or_introl eq_refl) E1)
      as (c & t & -> & D).
    now rewrite (parseFloat_decimal c t D).
  - destruct (Regex.exec retryDelayField (errorText lastError)) as [cap|] eqn:E2;
      [|reflexivity].
    destruct (capture_is_numeral retryDelayField _ cap (or_intror eq_refl) E2)
      as (c & t & -> & D).
    now rewrite (parseFloat_decimal c t D).
Qed.

Lemma suggestedSeconds_nonneg (lastError : option Js.Error) (seconds : Q) :
  Delay.suggestedSeconds lastError = Some seconds -> 0 <= seconds.
Proof.
  unfold Delay.suggestedSeconds.
  destruct (match Regex.exec retryInSeconds (errorText lastError) with
            | Some m => Some m
            | None => Regex.exec retryDelayField (errorText lastError)
            end) as [[m1|]|]; try discriminate.
  intros H. injection H as <-. apply decimal_nonneg.
Qed.


(** The delay a server suggests is at least the 500 of the buffer. *)
Lemma suggestedDelay_buffer (seconds : Q) :
  0 <= seconds ->
  Double.le (Double.Finite 500)
    (Double.add
       (Double.ceil (Double.mul (Double.round seconds) (Double.Finite 1000)))
       (Double.Finite 500)).
Proof.
  intros H.
  assert (forall c, 0 <= c ->
                    Double.le (Double.Finite 500)
                      (Double.add (Double.Finite c) (Double.Finite 500))) as A.
  { intros c Hc. cbn [Double.add].
    change (Double.Finite 500) with (Double.round 500) at 1.
    apply DoubleFacts.round_mono; lra. }
  pose proof (DoubleFacts.round_nonneg seconds H) as R.
  destruct (Double.round seconds) as [x|[|]|]; cbn [Double.le] in R;
    try tauto; try discriminate; try reflexivity.
  cbn [Double.mul].
  pose proof (DoubleFacts.round_nonneg (x * 1000) ltac:(nra)) as R'.
  destruct (Double.round (x * 1000)) as [y|[|]|]; cbn [Double.le] in R';
    try tauto; try discriminate; try reflexivity.
  cbn [Double.ceil]. apply A.
  change 0 with (inject_Z 0). rewrite <- Zle_Qle.
  change 0%Z with (Qceiling 0). now apply Qceiling_resp_le.
Qed.

Lemma buffer_truthy (d : Double.t) :
  Double.le (Double.Finite 500) d -> Double.truthy d = true.
Proof.
  destruct d as [x|[|]|]; cbn [Double.le Double.truthy]; try tauto;
    try discriminate.
  intros H. apply negb_true_iff, not_true_iff_false. intros C.
  apply Qeq_bool_iff in C. lra.
Qed.

(** The pause a server suggests lasts between 500 and 20000. *)
Lemma suggestedPause_range (seconds : Q) :
  0 <= seconds ->
  exists q, Delay.suggestedPause seconds = Double.Finite q
            /\ 500 <= q <= 20000.
Proof.
  intros H. unfold Delay.suggestedPause.
  pose proof (suggestedDelay_buffer seconds H) as B.
  destruct (Double.add _ _) as [x|[|]|]; cbn [Double.le] in B; try tauto;
    try discriminate.
  - cbn [Double.min]. destruct (Qle_bool x 20000) eqn:L.
    + apply Qle_bool_iff in L. exists x. split; [reflexivity | lra].
    + exists 20000. split; [reflexivity | lra].
  - exists 20000. split; [reflexivity | lra].
Qed.

(** The factor of the jitter is the draw taken from [0, 1) to
    [0.8, 1.2), up to the rounding of the three operations. *)
Lemma jitter_range (r : Q) :
  Delay.drawn r ->
  exists factor,
    Delay.jitter r = Double.Finite factor
    /\ 8 # 10 <= factor /\ factor <= 12 # 10
    /\ Qabs (factor - ((8 # 10) + r * (4 # 10))) <= 1 # 4503599627370496.
Proof.
  intros [R0 R1]. unfold Delay.jitter.
  assert (Double.round (4 # 10)
          = Double.Finite (3602879701896397 # 9007199254740992)) as C4
      by (vm_compute; reflexivity).
  assert (Double.round (8 # 10)
          = Double.Finite (3602879701896397 # 4503599627370496)) as C8
      by (vm_compute; reflexivity).
  rewrite C4, C8. cbn [Double.mul].
  set (c4 := 3602879701896397 # 9007199254740992).
  set (c8 := 3602879701896397 # 4503599627370496).
  destruct (DoubleFacts.round_between 0
              ((1 - (1 # 9007199254740992)) * c4)
              0 (7205759403792793 # 18014398509481984) (r * c4))
    as (x & Ex & X0 & X1);
    [lra | subst c4; nra | subst c4; nra
     | reflexivity | vm_compute; reflexivity |].
  rewrite Ex. cbn [Double.add].
  destruct (DoubleFacts.round_between c8
              (c8 + (7205759403792793 # 18014398509481984))
              c8 (5404319552844595 # 4503599627370496) (c8 + x))
    as (f & Ef & F0 & F1);
    [subst c8; lra | lra | lra
     | vm_compute; reflexivity | vm_compute; reflexivity |].
  exists f. split; [exact Ef|].
  split; [subst c8; lra|]. split; [lra|].
  pose proof (DoubleFacts.round_error (r * c4) x (-1)
                ltac:(subst c4; nra) ltac:(subst c4; cbn; nra) Ex) as Dx.
  pose proof (DoubleFacts.round_error (c8 + x) f 1
                ltac:(subst c8; lra) ltac:(subst c8; cbn; lra) Ef) as Df.
  assert (2 ^ Z.max (-1 - 53) (-1074) / 2 == 1 # 36028797018963968) as Bx
      by reflexivity.
  assert (2 ^ Z.max (1 - 53) (-1074) / 2 == 1 # 9007199254740992) as Bf
      by reflexivity.
  rewrite Bx in Dx. rewrite Bf in Df.
  apply Qabs_Qle_condition in Dx, Df. apply Qabs_Qle_condition.
  subst c4 c8. split; lra.
Qed.




(** More pauses before the first retry: 16.1 s gives 16601 ms (the
    product of doubles is just above 16100), 17 s after "retryDelay"
    gives 17500 ms, 30 s is cut to 20000 ms, 0 s gives the 500 ms. *)
Lemma retry_delay_examples :
  map (fun text =>
         trace (snd (backoff (Samples.failing Samples.overloaded) 1
                       (Some (Samples.plainError text)) Samples.ready)))
    [ "Please retry in 16.1s."; "retryDelay: 17"; "retry in 30s";
      "retry in 0s" ]%string
  = [ [Sleep (Double.Finite 16601)]; [Sleep (Double.Finite 17500)];
      [Sleep (Double.Finite 20000)]; [Sleep (Double.Finite 500)] ].
Proof. vm_compute. reflexivity. Qed.

(** What the two expressions find in some error texts. *)
Lemma suggestedSeconds_examples :
  Delay.suggestedSeconds (Some Samples.retryIn17s)
  = Some (17369220798 # 1000000000)
  /\ Delay.suggestedSeconds (Some (Samples.plainError "retryDelay: 17"))
     = Some (17 # 1)
  /\ Delay.suggestedSeconds (Some Samples.overloaded) = None
  /\ Delay.suggestedSeconds (Some (Samples.plainError "retry after 5 minutes"))
     = None
  /\ Delay.suggestedSeconds None = None.
Proof. repeat split; vm_compute; reflexivity. Qed.

End DelayFacts.

(** ** The clean-up of a reply *)

Module FenceFacts.
Import Str Regex GeminiService.

Lemma free_tail (c : N) (s : ustring) : Fence.free (c :: s) -> Fence.free s.
Proof.
  unfold Fence.free. cbn [includes]. intros H.
  now apply orb_false_iff in H as [_ H].
Qed.

Lemma free_head (c : N) (s : ustring) :
  Fence.free (c :: s) -> startsWith Fence.marker (c :: s) = false.
Proof.
  unfold Fence.free. cbn [includes]. intros H.
  now apply orb_false_iff in H as [H _].
Qed.

Lemma white_not_backtick (c : N) : isWhite c = true -> N.eqb 96 c = false.
Proof.
  intros W. destruct (N.eqb_spec 96 c) as [<-|]; [discriminate W | reflexivity].
Qed.

Lemma marker_cons (c : N) (s : ustring) :
  startsWith Fence.marker (c :: s) = N.eqb 96 c && startsWith [96; 96]%N s.
Proof. reflexivity. Qed.

Lemma blank_cons (c : N) (w : ustring) :
  Fence.blank (c :: w) -> N.eqb 96 c = false /\ Fence.blank w.
Proof.
  unfold Fence.blank. cbn [forallb]. intros H.
  apply andb_true_iff in H as [Hc Hw]. split; [|exact Hw].
  now apply white_not_backtick.
Qed.

(** White space after a text begins no marker and completes none. *)
Lemma startsWith_marker_app_blank (s w : ustring) :
  Fence.blank w ->
  startsWith Fence.marker (s ++ w) = startsWith Fence.marker s.
Proof.
  intros Hw.
  destruct s as [|a [|b [|c r]]]; cbn -[N.eqb]; try reflexivity;
    destruct w as [|x w]; cbn -[N.eqb]; try reflexivity;
    apply blank_cons in Hw as [Hx _]; rewrite Hx;
    now rewrite ?andb_false_r.
Qed.

Lemma free_app_blank (s w : ustring) :
  Fence.free s -> Fence.blank w -> Fence.free (s ++ w).
Proof.
  intros Hs Hw. induction s as [|c s IH].
  - unfold Fence.free. simpl app. induction w as [|x w IHw]; [reflexivity|].
    cbn [includes]. destruct (blank_cons x w Hw) as [Hx Hw'].
    rewrite (IHw Hw'), orb_false_r, marker_cons, Hx. reflexivity.
  - pose proof (free_head c s Hs) as Hh. specialize (IH (free_tail c s Hs)).
    unfold Fence.free in *. cbn [app includes]. rewrite IH, orb_false_r.
    change (c :: s ++ w) with ((c :: s) ++ w).
    now rewrite startsWith_marker_app_blank.
Qed.

Lemma free_blank (w : ustring) : Fence.blank w -> Fence.free w.
Proof. intros H. exact (free_app_blank [] w eq_refl H). Qed.

Lemma free_blank_app (w s : ustring) :
  Fence.blank w -> Fence.free s -> Fence.free (w ++ s).
Proof.
  unfold Fence.free. intros Hw Hs.
  induction w as [|c w IH]; [exact Hs|].
  destruct (blank_cons c w Hw) as [Hc Hw'].
  cbn [app includes]. rewrite (IH Hw'), orb_false_r, marker_cons, Hc.
  reflexivity.
Qed.

Lemma startsWith_app (p a b : ustring) :
  startsWith p a = true -> startsWith p (a ++ b) = true.
Proof.
  revert a. induction p as [|x p IH]; intros a; [reflexivity|].
  destruct a as [|y a]; simpl; [discriminate|].
  intros H. apply andb_true_iff in H as [Hx Hp]. now rewrite Hx, (IH a Hp).
Qed.

Lemma free_prefix (a b : ustring) : Fence.free (a ++ b) -> Fence.free a.
Proof.
  unfold Fence.free. induction a as [|c a IH]; [reflexivity|].
  cbn [app includes]. intros H. apply orb_false_iff in H as [Hh Ht].
  rewrite (IH Ht), orb_false_r.
  destruct (startsWith Fence.marker (c :: a)) eqn:E; [|reflexivity].
  pose proof (startsWith_app Fence.marker (c :: a) b E) as E'.
  cbn [app] in E'. congruence.
Qed.

Lemma free_trimStart (s : ustring) : Fence.free s -> Fence.free (trimStart s).
Proof.
  induction s as [|c s IH]; simpl; [trivial|].
  intros H. destruct (isWhite c); [|exact H]. apply IH. exact (free_tail c s H).
Qed.

Lemma free_trim (s : ustring) : Fence.free s -> Fence.free (trim s).
Proof.
  intros H. unfold trim. apply free_trimStart in H.
  destruct (TrimFacts.trimEnd_prefix (trimStart s)) as [w E].
  rewrite E in H. exact (free_prefix _ _ H).
Qed.

(** Neither expression matches where no marker starts. *)
Lemma anyFence_needs_marker (s : ustring) :
  startsWith Fence.marker s = false -> matchHere anyFence s 0 no_group = None.
Proof.
  destruct s as [|a [|b [|c r]]]; cbn -[N.eqb]; unfold chr;
    repeat match goal with
           | |- context [N.eqb 96 ?x] => destruct (N.eqb 96 x)
           end; cbn -[N.eqb]; try reflexivity; discriminate.
Qed.

Lemma jsonFence_needs_marker (s : ustring) :
  startsWith Fence.marker s = false -> matchHere jsonFence s 0 no_group = None.
Proof.
  destruct s as [|a [|b [|c r]]]; cbn -[N.eqb]; unfold chr;
    repeat match goal with
           | |- context [N.eqb 96 ?x] => destruct (N.eqb 96 x)
           end; cbn -[N.eqb]; try reflexivity; discriminate.
Qed.

(** A text without marker passes both replacements unchanged. *)
Lemma replace_free (re : regex) (s : ustring) :
  (forall t, startsWith Fence.marker t = false ->
             matchHere re t 0 no_group = None) ->
  Fence.free s -> replaceFrom re erase s 0 = s.
Proof.
  intros Hre. induction s as [|c s IH]; intros H.
  - simpl. now rewrite (Hre [] eq_refl).
  - cbn [replaceFrom]. rewrite (Hre (c :: s) (free_head c s H)).
    now rewrite (IH (free_tail c s H)).
Qed.


Lemma eqb_96 (c : N) : N.eqb 96 c = true -> c = 96%N.
Proof. intros H. apply N.eqb_eq in H. now subst. Qed.

(** Before a closing marker the JSON fence matches nowhere. *)
Lemma jsonFence_not_at_closing (x : ustring) :
  Fence.free x -> matchHere jsonFence (x ++ Fence.marker) 0 no_group = None.
Proof.
  intros H. destruct x as [|c [|d [|e r]]].
  - reflexivity.
  - cbn -[N.eqb]. unfold chr. now destruct (N.eqb 96 c).
  - cbn -[N.eqb]. unfold chr. destruct (N.eqb 96 c); [|reflexivity].
    now destruct (N.eqb 96 d).
  - apply jsonFence_needs_marker. exact (free_head c (d :: e :: r) H).
Qed.

Lemma replace_json_closing (x : ustring) :
  Fence.free x ->
  replaceFrom jsonFence erase (x ++ Fence.marker) 0 = x ++ Fence.marker.
Proof.
  induction x as [|c x IH]; intros H; [reflexivity|].
  pose proof (jsonFence_not_at_closing (c :: x) H) as E.
  cbn [app] in E |- *. cbn [replaceFrom]. rewrite E.
  now rewrite (IH (free_tail c x H)).
Qed.

(** The closing marker is removed, and nothing else, even where the text
    ends with one or two backticks of its own. *)
Lemma replace_any_closing (x : ustring) :
  Fence.free x -> replaceFrom anyFence erase (x ++ Fence.marker) 0 = x.
Proof.
  induction x as [|c x IH]; intros H; [reflexivity|].
  destruct (startsWith Fence.marker ((c :: x) ++ Fence.marker)) eqn:E.
  - destruct x as [|d [|e r]].
    + cbn -[N.eqb] in E. apply andb_true_iff in E as [E _].
      apply eqb_96 in E. subst c. reflexivity.
    + cbn -[N.eqb] in E. apply andb_true_iff in E as [Ec E].
      apply andb_true_iff in E as [Ed _].
      apply eqb_96 in Ec, Ed. subst c d. reflexivity.
    + pose proof (free_head c (d :: e :: r) H) as Hh.
      cbn -[N.eqb] in E, Hh. congruence.
  - apply anyFence_needs_marker in E. cbn [app] in E |- *.
    cbn [replaceFrom]. rewrite E. now rewrite (IH (free_tail c x H)).
Qed.

(** The opening fence is removed together with a line feed after it. *)
Lemma replace_json_opening (rest : ustring) :
  replaceAll jsonFence erase (u "```json" ++ rest)
  = replaceFrom jsonFence erase (Fence.dropLineFeed rest) 0.
Proof.
  unfold replaceAll. destruct rest as [|c r]; [reflexivity|].
  assert (matchHere jsonFence (u "```json" ++ c :: r) 0 no_group
          = Some {| f_end := if N.eqb 10 c then 8 else 7; f_group := None |})
    as E.
  { change (matchHere jsonFence (u "```json" ++ c :: r) 0 no_group)
      with (matchHere [Atom Opt (chr 10)] (c :: r) 7 no_group).
    cbn -[N.eqb]. unfold chr. now destruct (N.eqb 10 c). }
  change (u "```json" ++ c :: r)
    with (96 :: 96 :: 96 :: 106 :: 115 :: 111 :: 110 :: c :: r)%N in *.
  cbn [replaceFrom]. rewrite E. cbn [f_end Fence.dropLineFeed].
  destruct (N.eqb 10 c); reflexivity.
Qed.

End FenceFacts.

Module CleanupClaims.
Import World GeminiService.

Lemma cleanReply_plain (body : ustring) :
  Fence.free body -> cleanReply body = Str.trim body.
Proof.
  intros H. unfold cleanReply, Regex.replaceAll.
  pose proof (FenceFacts.free_trim body H) as Ht.
  rewrite (FenceFacts.replace_free jsonFence (Str.trim body)
             FenceFacts.jsonFence_needs_marker Ht).
  rewrite (FenceFacts.replace_free anyFence (Str.trim body)
             FenceFacts.anyFence_needs_marker Ht).
  apply TrimFacts.trim_idem.
Qed.

Lemma dropLineFeed_free (s : ustring) :
  Fence.free s -> Fence.free (Fence.dropLineFeed s).
Proof.
  destruct s as [|c r]; [trivial|]. unfold Fence.dropLineFeed.
  intros H. destruct (N.eqb 10 c); [exact (FenceFacts.free_tail c r H) | exact H].
Qed.

Lemma dropLineFeed_trim (s : ustring) :
  Str.trim (Fence.dropLineFeed s) = Str.trim s.
Proof.
  destruct s as [|c r]; [reflexivity|]. unfold Fence.dropLineFeed.
  destruct (N.eqb_spec 10 c) as [<-|]; reflexivity.
Qed.

Lemma dropLineFeed_closing (s : ustring) :
  Fence.dropLineFeed (s ++ Fence.marker) = Fence.dropLineFeed s ++ Fence.marker.
Proof.
  destruct s as [|c r]; [reflexivity|]. unfold Fence.dropLineFeed.
  cbn [app]. now destruct (N.eqb 10 c).
Qed.

Lemma cleanReply_wrapped (w1 body w2 : ustring) :
  Fence.blank w1 -> Fence.blank w2 -> Fence.free body ->
  cleanReply (Fence.wrap w1 body w2) = Str.trim body.
Proof.
  intros B1 B2 H. unfold cleanReply.
  assert (Str.trim (Fence.wrap w1 body w2) = Fence.wrap w1 body w2) as ->.
  { unfold Str.trim.
    change (Str.trimStart (Fence.wrap w1 body w2)) with (Fence.wrap w1 body w2).
    unfold Fence.wrap, Fence.marker.
    change (u "```") with ([96; 96]%N ++ [96%N]).
    rewrite !app_assoc. now apply TrimFacts.trimEnd_last. }
  unfold Fence.wrap.
  rewrite FenceFacts.replace_json_opening.
  assert (Fence.free (w1 ++ body ++ w2)) as Hy.
  { apply FenceFacts.free_blank_app; [exact B1|].
    now apply FenceFacts.free_app_blank. }
  replace (w1 ++ body ++ w2 ++ Fence.marker)
    with ((w1 ++ body ++ w2) ++ Fence.marker)
    by now rewrite <- !app_assoc.
  rewrite dropLineFeed_closing.
  rewrite (FenceFacts.replace_json_closing _ (dropLineFeed_free _ Hy)).
  unfold Regex.replaceAll.
  rewrite (FenceFacts.replace_any_closing _ (dropLineFeed_free _ Hy)).
  rewrite dropLineFeed_trim, TrimFacts.trim_blank_l by exact B1.
  now apply TrimFacts.trim_blank_r.
Qed.

(** C8. Let [body] hold no code-fence marker.  The clean-up both wrappers
    apply before [JSON.parse] turns [body] wrapped in [```json] and [```]
    (with any white space, or none, between fence and body) into the text
    it turns [body] itself into, so [JSON.parse] gives the same value, or
    throws the same error, for both. *)
Theorem fenced_reply_decodes_alike (rt : Runtime) (w1 body w2 : ustring) :
  Fence.blank w1 -> Fence.blank w2 -> Fence.free body ->
  cleanReply (Fence.wrap w1 body w2) = cleanReply body
  /\ JSON_parse_diagram rt (cleanReply (Fence.wrap w1 body w2))
     = JSON_parse_diagram rt (cleanReply body)
  /\ JSON_parse_document rt (cleanReply (Fence.wrap w1 body w2))
     = JSON_parse_document rt (cleanReply body).
Proof.
  intros B1 B2 H.
  assert (cleanReply (Fence.wrap w1 body w2) = cleanReply body) as E.
  { now rewrite cleanReply_wrapped, cleanReply_plain. }
  now rewrite E.
Qed.

(** The reply [{"success": false}] between [```json], a line feed, a line
    feed and [```]. *)
Lemma fenced_reply_decodes_alike_witness :
  cleanReply (u "```json" ++ [10%N] ++ Samples.denialText ++ [10%N] ++ u "```")
  = cleanReply Samples.denialText
  /\ JSON_parse_diagram Samples.denying
       (cleanReply (u "```json" ++ [10%N] ++ Samples.denialText ++ [10%N] ++ u "```"))
     = inr Samples.denial.
Proof.
  destruct (fenced_reply_decodes_alike Samples.denying [10%N]
              Samples.denialText [10%N] eq_refl eq_refl eq_refl)
    as (E & D & _).
  split; [exact E|]. exact D.
Defined.

End CleanupClaims.

(** ** The [success] property of an analysis *)

Module SuccessFacts.
Import World GeminiService Schema Attempt.

Lemma fallback_success (asciiDiagram : ustring) :
  success (fallbackDiagramConversion asciiDiagram) = true.
Proof. reflexivity. Qed.

(** A reply without a [success] property of its own is marked a success;
    a reply with one keeps it. *)
Lemma withSuccess_own (parsed : DiagramReply) :
  success (withSuccess parsed)
  = match r_success parsed with Some b => b | None => true end.
Proof. reflexivity. Qed.

(** A first attempt that succeeds gives the reply with [success: true]
    put in front of it. *)
Lemma first_attempt_succeeds (rt : Runtime) (asciiDiagram text : ustring)
  (parsed : DiagramReply) (w : State) :
  unavailable w = false ->
  backend rt (calls w) (DiagramPrompt asciiDiagram) = Reply text ->
  JSON_parse_diagram rt (cleanReply text) = inr parsed ->
  convertDiagramWithAI rt asciiDiagram w
  = (inr (withSuccess parsed), called (DiagramPrompt asciiDiagram) w).
Proof.
  intros U B P.
  rewrite (RetryFacts.convertDiagramWithAI_available rt asciiDiagram w U).
  cbn [diagramLoop]. unfold bind at 1. unfold tryCatch. unfold bind at 1.
  cbn [backoff Nat.ltb Nat.leb]. unfold ret at 1. unfold bind at 1.
  unfold generateContent. rewrite B. unfold lift, bind. rewrite P.
  reflexivity.
Qed.

(** The wrapper returns an analysis, it does not throw, unless the
    backend rejects with [null] or [undefined]. *)
Lemma convertDiagramWithAI_returns (rt : Runtime) (asciiDiagram : ustring)
  (w : State) :
  (forall k, rejection rt (DiagramPrompt asciiDiagram) k = None) ->
  exists analysis w',
    convertDiagramWithAI rt asciiDiagram w = (inr analysis, w').
Proof.
  intros H. unfold convertDiagramWithAI, bind, get.
  destruct (unavailable w).
  - unfold ret. eauto.
  - destruct (RetryFacts.diagramLoop_returns rt (fun _ _ => True)
                (fun _ => I) (fun _ _ _ _ _ => I) (fun _ _ _ _ => I)
                asciiDiagram (S RETRY_CONFIG.maxRetries) H 0%nat None w)
      as (a & w' & E & _).
    eauto.
Qed.

(** A reply that is the empty object: [success] is true. *)
Lemma empty_reply_is_success :
  success (withSuccess Samples.emptyReply) = true.
Proof. reflexivity. Qed.

(** C9 says that every analysis [convertDiagramWithAI] returns has
    [success] true.  It fails on the code: when the backend answers the
    diagram prompt with [{"success": false}], [convertDiagramWithAI]
    spreads the reply after [success: true], so the analysis it returns
    has [success] false. *)
Theorem success_overridden_by_reply :
  exists analysis w',
    convertDiagramWithAI Samples.denying Samples.boxLine Samples.ready
    = (inr analysis, w')
    /\ success analysis = false
    /\ trace w' = [GenerateContent (DiagramPrompt Samples.boxLine)].
Proof.
  eexists. eexists. split; [vm_compute; reflexivity|]. split; reflexivity.
Qed.

End SuccessFacts.

(** ** The renderer of the AI path, and tables *)

Module RendererFacts.
Import World Schema MarkdownParser Docx DocxConverter.

(** The loop only appends to what was pushed before. *)
Lemma processElementsFrom_acc (rt : Runtime) (elems : list AIElement) :
  forall acc,
    processElementsFrom rt elems acc
    = match processElementsFrom rt elems [] with
      | inl error => inl error
      | inr out => inr (acc ++ out)
      end.
Proof.
  induction elems as [|elem elems IH]; intros acc; simpl.
  - now rewrite app_nil_r.
  - destruct (renderElement rt elem) as [error|pushed]; [reflexivity|].
    rewrite (IH (acc ++ pushed)), (IH pushed).
    destruct (processElementsFrom rt elems []); [reflexivity|].
    now rewrite app_assoc.
Qed.

Lemma processElementsFrom_app (rt : Runtime) (before after : list AIElement) :
  forall acc,
    processElementsFrom rt (before ++ after) acc
    = match processElementsFrom rt before acc with
      | inl error => inl error
      | inr out => processElementsFrom rt after out
      end.
Proof.
  induction before as [|elem before IH]; intros acc; simpl; [reflexivity|].
  destruct (renderElement rt elem); [reflexivity | apply IH].
Qed.

Lemma unknown_default (rt : Runtime) (elem : AIElement) :
  Unknown.unknownType elem = true ->
  renderElement rt elem = inr (Unknown.pushed elem).
Proof.
  unfold Unknown.unknownType, renderElement, Unknown.pushed.
  destruct (e_type elem) as [t|].
  - intros H. apply negb_true_iff in H.
    unfold knownTypes in H. cbn [existsb] in H.
    repeat (apply orb_false_iff in H; destruct H as [?E H]).
    unfold isLit. rewrite E, E0, E1, E2, E3, E4, E5, E6.
    now destruct (truthy (e_text elem)).
  - intros _. now destruct (truthy (e_text elem)).
Qed.

(** C10. An element whose type is none of the eight known tags adds one
    plain paragraph with its text when it has a non-empty [text], and
    nothing otherwise; the loop does not fail on it: where the elements
    before it give [out1] and those after it give [out2], the whole
    sequence gives [out1], what the element adds, and [out2]. *)
Theorem unknown_type_is_plain_paragraph (rt : Runtime) (elem : AIElement)
  (title_ : option ustring) (before after : list AIElement)
  (out1 out2 : list Element) :
  Unknown.unknownType elem = true ->
  processElementsFrom rt before [] = inr out1 ->
  processElementsFrom rt after [] = inr out2 ->
  renderElement rt elem
  = inr (if truthy (e_text elem)
         then [ElParagraph
                 (mkParagraph
                    [ spacing (afterOnly 160);
                      children [ mkTextRun [ text (str (e_text elem)) ] ] ])]
         else [])
  /\ processAIParsedElements rt
       {| doc_title := title_; elements := Some (before ++ elem :: after) |}
     = inr (out1 ++ Unknown.pushed elem ++ out2).
Proof.
  intros U H1 H2. split; [exact (unknown_default rt elem U)|].
  unfold processAIParsedElements. simpl.
  rewrite processElementsFrom_app, H1. simpl.
  rewrite (unknown_default rt elem U).
  rewrite processElementsFrom_acc, H2. now rewrite app_assoc.
Qed.

(** A footnote between two rules: one plain paragraph between the two
    rule paragraphs. *)
Lemma unknown_type_is_plain_paragraph_witness :
  processAIParsedElements (Samples.failing Samples.syntaxError)
    {| doc_title := None;
       elements := Some ([Samples.rule] ++ Samples.footnote :: [Samples.rule]) |}
  = inr ([ElParagraph createHorizontalRule]
         ++ [ElParagraph (plainParagraph (u "See appendix"))]
         ++ [ElParagraph createHorizontalRule]).
Proof.
  exact (proj2 (unknown_type_is_plain_paragraph
                  (Samples.failing Samples.syntaxError) Samples.footnote None
                  [Samples.rule] [Samples.rule]
                  [ElParagraph createHorizontalRule]
                  [ElParagraph createHorizontalRule]
                  eq_refl eq_refl eq_refl)).
Defined.


(** An element without type and without text adds nothing. *)
Lemma blank_element_adds_nothing (rt : Runtime) :
  renderElement rt Samples.blankElement = inr [].
Proof. reflexivity. Qed.

(** *** Column counts *)

Lemma padRow_length (columnCount : nat) (cells_ : list TableCell) :
  (List.length cells_ <= columnCount)%nat ->
  List.length (padRow columnCount cells_) = columnCount.
Proof.
  intros H. unfold padRow. rewrite length_app, repeat_length. lia.
Qed.

Lemma maxLength_ge (rows_ : list (list Cell)) (row : list Cell) :
  In row rows_ -> (List.length row <= maxLength rows_)%nat.
Proof.
  unfold maxLength. induction rows_ as [|r rows_ IH]; simpl; [tauto|].
  intros [-> | H]; [lia | specialize (IH H); lia].
Qed.

Lemma maxLength_attained (rows_ : list (list Cell)) :
  rows_ <> [] -> exists row, In row rows_ /\ List.length row = maxLength rows_.
Proof.
  unfold maxLength. induction rows_ as [|r rows_ IH]; [congruence|]. intros _.
  destruct rows_ as [|r' rows_].
  - exists r. simpl. split; [now left | lia].
  - destruct IH as (row & Hin & Hlen); [congruence|].
    cbn [map fold_right] in *.
    destruct (Nat.max_spec (List.length r)
                (Nat.max (List.length r')
                   (fold_right Nat.max 0%nat (map (@List.length Cell) rows_))))
      as [[_ E] | [_ E]]; rewrite E.
    + exists row. split; [now right | exact Hlen].
    + exists r. split; [now left | reflexivity].
Qed.

(** On the local path every row of the table has as many cells as the
    longest row the loop collected; a shorter row is filled up with empty
    cells. *)
Lemma createTable_uniform (tokens : list Token) (t : Table) :
  createTable tokens = ElTable t ->
  Forall (fun n => n = maxLength (collectRows tokens)) (Columns.counts t)
  /\ (exists row, In row (collectRows tokens)
                  /\ List.length row = maxLength (collectRows tokens))
  /\ Docx.rows t
     = map (fun row =>
              {| cells := map tableCell row
                          ++ repeat emptyCell
                               (maxLength (collectRows tokens) - List.length row) |})
         (collectRows tokens).
Proof.
  intros H.
  assert (t = gridTable
                (map (fun row =>
                        {| cells := padRow (maxLength (collectRows tokens))
                                      (map tableCell row) |})
                   (collectRows tokens))
          /\ collectRows tokens <> []) as [-> Hne].
  { unfold createTable in H. destruct (collectRows tokens); [discriminate|].
    injection H as <-. split; [reflexivity | congruence]. }
  split; [|split].
  - unfold Columns.counts, gridTable. cbn [Docx.rows].
    rewrite map_map. apply Forall_forall. intros n Hn.
    apply in_map_iff in Hn as (row & <- & Hin). cbn [cells].
    apply padRow_length. rewrite length_map. now apply maxLength_ge.
  - now apply maxLength_attained.
  - unfold gridTable, padRow. cbn [Docx.rows].
    apply map_ext. intros row. now rewrite length_map.
Qed.

(** C2 says that on both paths every row of a table has as many cells as
    the longest one.  It fails on the AI path: [createAITable] gives
    every row the cells it came with, the header row as many as there are
    headers, every data row as many as it holds (first part).  With three
    headers and one data row of a single cell, the header row has three
    cells and the data row keeps its one cell, it is not padded (second
    part). *)
Theorem createAITable_does_not_pad :
  (forall headers rows,
      Columns.counts (createAITable headers rows)
      = match nonEmpty headers with
        | [] => []
        | hs => [List.length hs]
        end
        ++ map (@List.length (option ustring)) (nonEmpty rows))
  /\ Columns.counts
       (createAITable (Some [u "A"; u "B"; u "C"]) (Some [[Some (u "1")]]))
     = [3; 1]%nat.
Proof.
  split; [|reflexivity].
  intros headers rows. unfold Columns.counts, createAITable, gridTable.
  cbn [Docx.rows]. rewrite map_app, map_map. f_equal.
  - destruct (nonEmpty headers) as [|h hs]; [reflexivity|].
    cbn [map cells List.length]. now rewrite length_map.
  - apply map_ext. intros row. cbn [cells]. apply length_map.
Qed.

End RendererFacts.

(** ** Conversions with [useAI] false *)

Module ConvertFacts.
Import World Schema MarkdownParser Docx DocxConverter GeminiService Attempt Quiet.

Lemma documentCalls_app (t1 t2 : list Event) :
  documentCalls (t1 ++ t2) = (documentCalls t1 + documentCalls t2)%nat.
Proof. unfold documentCalls. now rewrite filter_app, length_app. Qed.

Lemma noDocumentCall_refl (w : State) : noDocumentCall w w.
Proof. now repeat split. Qed.

Lemma noDocumentCall_trans (w1 w2 w3 : State) :
  noDocumentCall w1 w2 -> noDocumentCall w2 w3 -> noDocumentCall w1 w3.
Proof.
  intros (M1 & U1 & D1) (M2 & U2 & D2). repeat split; congruence.
Qed.

Lemma paused_noDocumentCall (rt : Runtime) (attempt : nat)
  (lastError : option Js.Error) (w : State) :
  noDocumentCall w (paused rt attempt lastError w).
Proof.
  assert (forall ms,
             documentCalls (trace w ++ [Sleep ms]) = documentCalls (trace w))
    as A.
  { intros ms. rewrite documentCalls_app. apply Nat.add_0_r. }
  unfold paused, backoff. destruct (0 <? attempt)%nat;
    [|apply noDocumentCall_refl].
  unfold getRetryDelay.
  destruct (suggested (extractRetryDelay lastError));
    cbv beta iota delta [bind ret sleep emit Math_random snd];
    repeat split; cbn [trace]; apply A.
Qed.

Lemma called_diagram_noDocumentCall (asciiDiagram : ustring) (w : State) :
  noDocumentCall w (called (DiagramPrompt asciiDiagram) w).
Proof.
  repeat split. simpl. rewrite documentCalls_app.
  unfold documentCalls. simpl. lia.
Qed.

(** The diagram loop sends no document prompt. *)
Lemma diagramLoop_noDocumentCall (rt : Runtime) (asciiDiagram : ustring)
  (remaining attempt : nat) (lastError : option Js.Error) (w : State) :
  exists r w',
    diagramLoop rt asciiDiagram remaining attempt lastError w = (r, w')
    /\ noDocumentCall w w'.
Proof.
  apply (RetryFacts.diagramLoop_respects rt noDocumentCall
           noDocumentCall_refl noDocumentCall_trans).
  intros ascii attempt' lastError' w0.
  eapply noDocumentCall_trans;
    [apply paused_noDocumentCall | apply called_diagram_noDocumentCall].
Qed.

(** A diagram block is always rendered: with what the analyzer returns,
    or with the code block of the [catch] when the analyzer throws. *)
Lemma createDiagramBlock_returns (rt : Runtime) (asciiContent : ustring)
  (w : State) :
  exists r w',
    convertDiagramWithAI rt asciiContent w = (r, w')
    /\ createDiagramBlock rt asciiContent w
       = (inr (DiagramBlock.rendering rt asciiContent r), w')
    /\ noDocumentCall w w' /\ idleWhenUnavailable w w'.
Proof.
  unfold createDiagramBlock, tryCatch, bind at 1.
  unfold convertDiagramWithAI, bind, get, idleWhenUnavailable.
  destruct (unavailable w) eqn:U.
  - unfold ret. do 2 eexists. repeat split.
  - destruct (diagramLoop_noDocumentCall rt asciiContent
                (S RETRY_CONFIG.maxRetries) 0 None w) as (r & w' & E & Hq).
    rewrite E. exists r, w'.
    destruct r as [e|a]; unfold ret; repeat split; try apply Hq;
      discriminate.
Qed.

Section Walk.
Variable rt : Runtime.
Variable R : State -> State -> Prop.
Hypothesis R_refl : forall w, R w w.
Hypothesis R_trans : forall w1 w2 w3, R w1 w2 -> R w2 w3 -> R w1 w3.
Hypothesis R_block :
  forall asciiContent w,
  exists elements w',
    createDiagramBlock rt asciiContent w = (inr elements, w') /\ R w w'.

(** The token walk relates the state before and after by whatever the
    diagram blocks on its way respect. *)
Lemma processTokensFrom_respects (tokens : list Token) :
  forall skip elements w,
  exists r w', processTokensFrom rt tokens skip elements w = (r, w') /\ R w w'.
Proof.
  induction tokens as [|token rest IH]; intros skip elements w.
  - simpl. unfold ret. eauto.
  - cbn [processTokensFrom]. destruct skip as [|skip]; [|apply IH].
    repeat match goal with
           | |- exists r w', (if ?c then _ else _) _ = _ /\ _ => destruct c
           end;
      try apply IH.
    + destruct rest as [|headingContent rest']; [unfold throw; eauto|].
      unfold bind, lift.
      destruct (createHeading _ _) as [e|paragraph]; [eauto | apply IH].
    + unfold bind.
      destruct (R_block (content token) w) as (els & w1 & E & H1).
      rewrite E. destruct (IH 0%nat (elements ++ els) w1) as (r & w' & E' & H2).
      exists r, w'. split; [exact E' | eauto].
    + unfold bind.
      destruct (R_block (content token) w) as (els & w1 & E & H1).
      rewrite E. destruct (IH 0%nat (elements ++ els) w1) as (r & w' & E' & H2).
      exists r, w'. split; [exact E' | eauto].
Qed.
End Walk.

(** *** The loop over indices and the walk over what is left *)

Lemma processTokensFrom_skip (rt : Runtime) (tokens : list Token) :
  forall skip elements,
    processTokensFrom rt tokens skip elements
    = processTokensFrom rt (skipn skip tokens) 0 elements.
Proof.
  induction tokens as [|token rest IH]; intros skip elements.
  - now destruct skip.
  - destruct skip as [|skip]; [reflexivity|]. cbn [processTokensFrom skipn].
    apply IH.
Qed.

Lemma skipn_nth_error {A} (l : list A) :
  forall i,
    match nth_error l i with
    | Some x => skipn i l = x :: skipn (S i) l
    | None => skipn i l = []
    end.
Proof.
  induction l as [|a l IH]; intros [|i]; simpl; try reflexivity.
  apply IH.
Qed.

Lemma skipn_skipn {A} (l : list A) :
  forall a b, skipn a (skipn b l) = skipn (a + b) l.
Proof.
  induction l as [|x l IH]; intros a b.
  - now rewrite !skipn_nil.
  - destruct b as [|b].
    + now rewrite Nat.add_0_r.
    + rewrite Nat.add_succ_r. cbn [skipn]. apply IH.
Qed.

Lemma findClosingFrom_shift (rest : list Token) (openType closeType : ustring) :
  forall depth i k,
    findClosingFrom rest openType closeType depth (k + i)
    = option_map (Nat.add k)
        (findClosingFrom rest openType closeType depth i).
Proof.
  induction rest as [|t rest IH]; intros depth i k; cbn [findClosingFrom];
    [reflexivity|].
  match goal with
  | |- (if ?c then _ else _) = _ => destruct c
  end; [reflexivity|].
  rewrite <- Nat.add_succ_r. apply IH.
Qed.

(** [findClosingToken] on the whole array and on what is left of it. *)
Lemma findClosingToken_suffix (tokens : list Token) (i : nat)
  (closeType : ustring) :
  (i < List.length tokens)%nat ->
  findClosingToken tokens i closeType
  = (Z.of_nat i + findClosingToken (skipn i tokens) 0 closeType)%Z.
Proof.
  intros Hi. unfold findClosingToken.
  rewrite (skipn_skipn tokens 1 i). cbn [Nat.add].
  replace (S i) with (i + 1)%nat at 2 by lia.
  rewrite findClosingFrom_shift.
  destruct (findClosingFrom (skipn (S i) tokens) _ closeType 1 1); cbn [option_map].
  - lia.
  - rewrite length_skipn. lia.
Qed.

(** On an array that is not empty the result is an index. *)
Lemma findClosingToken_index (tokens : list Token) (startIndex : nat)
  (closeType : ustring) :
  tokens <> [] -> (0 <= findClosingToken tokens startIndex closeType)%Z.
Proof.
  intros H. unfold findClosingToken.
  destruct (findClosingFrom _ _ _ _ _); [lia|].
  destruct tokens; [congruence | cbn [List.length]; lia].
Qed.

Lemma slice_from (tokens : list Token) (i : nat) (r : Z) :
  (0 <= r)%Z ->
  slice tokens i (Z.of_nat i + r + 1) = slice (skipn i tokens) 0 (r + 1).
Proof.
  intros H. unfold slice. cbn [skipn].
  replace (Z.of_nat i + r + 1 <? 0)%Z with false
    by (symmetry; apply Z.ltb_ge; lia).
  replace (r + 1 <? 0)%Z with false by (symmetry; apply Z.ltb_ge; lia).
  f_equal. lia.
Qed.

Lemma slice_inside (tokens : list Token) (i : nat) (r : Z) :
  (0 <= r)%Z ->
  slice tokens (S i) (Z.of_nat i + r) = slice (skipn i tokens) 1 r.
Proof.
  intros H. unfold slice. rewrite (skipn_skipn tokens 1 i). cbn [Nat.add].
  replace (Z.of_nat i + r <? 0)%Z with false
    by (symmetry; apply Z.ltb_ge; lia).
  replace (r <? 0)%Z with false by (symmetry; apply Z.ltb_ge; lia).
  f_equal. lia.
Qed.

Lemma nth_error_length {A} (l : list A) (i : nat) (x : A) :
  nth_error l i = Some x -> (i < List.length l)%nat.
Proof. intros H. apply nth_error_Some. congruence. Qed.

(** The loop of the source, with its index, is the walk over what is left
    of the tokens; [tokens.length] turns are enough. *)
Lemma processTokensAt_walk (rt : Runtime) (tokens : list Token) :
  forall fuel i elements w,
    (List.length tokens - i <= fuel)%nat ->
    processTokensAt rt tokens fuel i elements w
    = processTokensFrom rt (skipn i tokens) 0 elements w.
Proof.
  induction fuel as [|fuel IH]; intros i elements w Hf.
  - rewrite skipn_all2 by lia. reflexivity.
  - cbn [processTokensAt].
    pose proof (skipn_nth_error tokens i) as Hs.
    destruct (nth_error tokens i) as [token|] eqn:Ei; [|now rewrite Hs].
    pose proof (nth_error_length tokens i token Ei) as Hi.
    rewrite Hs. cbn [processTokensFrom]. rewrite <- Hs.
    assert (forall k els w',
              processTokensAt rt tokens fuel (i + k + 1) els w'
              = processTokensFrom rt (skipn (S i) tokens) k els w') as Next.
    { intros k els w'. rewrite processTokensFrom_skip, skipn_skipn.
      rewrite IH by lia. do 2 f_equal. lia. }
    pose proof (skipn_nth_error tokens (S i)) as Hs1.
    assert (forall c, (0 <= findClosingToken (skipn i tokens) 0 c)%Z)
      as Closing.
    { intros c. apply findClosingToken_index. rewrite Hs. discriminate. }
    replace (i + 1)%nat with (S i) by lia.
    repeat match goal with
           | |- (if ?c then _ else _) _ = (if ?c then _ else _) _ => destruct c
           end.
    + destruct (nth_error tokens (S i)) as [headingContent|]; rewrite Hs1.
      * rewrite <- Hs1. unfold bind, lift.
        destruct (createHeading _ _) as [e|paragraph]; [reflexivity|].
        exact (Next 2%nat _ w).
      * reflexivity.
    + rewrite <- (Next 2%nat).
      destruct (nth_error tokens (S i)) as [paragraphContent|]; rewrite Hs1;
        reflexivity.
    + unfold bind. destruct (createDiagramBlock rt (content token) w) as [[e|els] w'];
        [reflexivity|]. rewrite <- (Next 0%nat). do 2 f_equal. lia.
    + rewrite <- (Next 0%nat). do 2 f_equal. lia.
    + unfold bind. destruct (createDiagramBlock rt (content token) w) as [[e|els] w'];
        [reflexivity|]. rewrite <- (Next 0%nat). do 2 f_equal. lia.
    + rewrite <- (Next 0%nat). do 2 f_equal. lia.
    + cbv zeta. rewrite (findClosingToken_suffix tokens i _ Hi).
      pose proof (Closing (u "table_close")) as C.
      rewrite <- Next, slice_from by exact C. do 2 f_equal. lia.
    + cbv zeta. rewrite (findClosingToken_suffix tokens i _ Hi).
      match goal with
      | |- context [findClosingToken (skipn i tokens) 0 ?c] =>
          pose proof (Closing c) as C
      end.
      rewrite <- Next, slice_from by exact C. do 2 f_equal. lia.
    + rewrite <- (Next 0%nat). do 2 f_equal. lia.
    + cbv zeta. rewrite (findClosingToken_suffix tokens i _ Hi).
      pose proof (Closing (u "blockquote_close")) as C.
      replace (i + 1)%nat with (S i) by lia.
      rewrite <- Next, slice_inside by exact C. do 2 f_equal. lia.
    + rewrite <- (Next 0%nat). do 2 f_equal. lia.
Qed.

Lemma processTokens_walk (rt : Runtime) (tokens : list Token)
  (elements : list Element) (w : State) :
  processTokens rt tokens elements w
  = processTokensFrom rt tokens 0 elements w.
Proof.
  unfold processTokens. rewrite processTokensAt_walk by lia. reflexivity.
Qed.

(** With [useAI] false the document prompt is never sent, and a client
    that is not available is not called at all. *)
Lemma convertToDocx_local (rt : Runtime) (markdown : ustring) (w : State) :
  exists r w',
    convertToDocx rt markdown false w = (r, w')
    /\ documentCalls (trace w') = documentCalls (trace w)
    /\ (unavailable w = true -> w' = w).
Proof.
  unfold convertToDocx, tryAI, bind at 1. unfold ret at 1.
  unfold bind at 1. rewrite processTokens_walk.
  destruct (processTokensFrom_respects rt
              (fun w w' => noDocumentCall w w' /\ idleWhenUnavailable w w')
              (fun w => conj (noDocumentCall_refl w) (fun _ => eq_refl)))
    with (tokens := parseToTokens rt markdown) (skip := 0%nat)
         (elements := @nil Element) (w := w)
    as (r & w' & E & (_ & _ & D) & I).
  - intros w1 w2 w3 (Q1 & I1) (Q2 & I2). split.
    + eapply noDocumentCall_trans; eassumption.
    + intros U. unfold idleWhenUnavailable in *.
      rewrite (I1 U) in *. now apply I2.
  - intros c w0. destruct (createDiagramBlock_returns rt c w0)
      as (a & w1 & _ & E & Q & I). eauto.
  - rewrite E. destruct r as [e|els]; unfold ret; eauto.
Qed.

(** Where the client is available a diagram block costs at least one
    call of the backend. *)
Lemma createDiagramBlock_calls (rt : Runtime) (asciiContent : ustring)
  (w : State) :
  unavailable w = false ->
  exists elements w',
    createDiagramBlock rt asciiContent w = (inr elements, w')
    /\ (attempts (trace w) < attempts (trace w'))%nat.
Proof.
  intros U. unfold createDiagramBlock, tryCatch, bind at 1.
  rewrite (RetryFacts.convertDiagramWithAI_available rt asciiContent w U).
  destruct (RetryFacts.called_paused rt (DiagramPrompt asciiContent) 0 None w)
    as (_ & A & _).
  cbv zeta in A.
  destruct (RetryFacts.diagram_turn rt asciiContent RETRY_CONFIG.maxRetries
              0 None w) as [[a E] | [[e E] | (n & _ & E)]]; rewrite E.
  - unfold ret. do 2 eexists. split; [reflexivity|]. lia.
  - destruct (RetryFacts.diagramLoop_respects rt
                (fun w1 w2 => (attempts (trace w1) <= attempts (trace w2))%nat)
                (fun w1 => le_n _)
                (fun w1 w2 w3 H1 H2 => Nat.le_trans _ _ _ H1 H2))
      with (ascii := asciiContent) (remaining := RETRY_CONFIG.maxRetries)
           (attempt := 1%nat) (lastError := Some e)
           (w := called (DiagramPrompt asciiContent) (paused rt 0 None w))
      as (a & w' & E' & H).
    + intros ascii attempt lastError w0.
      destruct (RetryFacts.called_paused rt (DiagramPrompt ascii) attempt
                  lastError w0) as (_ & A0 & _).
      cbv zeta in A0. lia.
    + rewrite E'. destruct a as [thrown|a]; unfold ret;
        (do 2 eexists; split; [reflexivity|]); lia.
  - unfold ret. do 2 eexists. split; [reflexivity|]. lia.
Qed.

(** C1 says that a conversion with [useAI] false never calls the
    backend.  It fails on the code: when the client is initialized and
    enabled and the markdown is one fenced block with box-drawing
    characters, the loop over the local tokens reaches
    [convertDiagramWithAI], which looks at the client only, and the
    diagram prompt is sent to the backend.  This is so on every platform
    (first part), and on the platform of the example the history of the
    conversion is the one call (second part). *)
Theorem useAI_false_calls_backend_for_diagram :
  (forall rt markdown w token,
      unavailable w = false ->
      parseToTokens rt markdown = [token] ->
      MarkdownParser.type token = u "fence" ->
      isAsciiDiagram (content token) = true ->
      exists r w',
        convertToDocx rt markdown false w = (r, w')
        /\ (attempts (trace w) < attempts (trace w'))%nat)
  /\ exists doc w',
       convertToDocx Samples.denying Samples.boxMarkdown false Samples.ready
       = (inr doc, w')
       /\ trace w' = [GenerateContent (DiagramPrompt Samples.boxLine)]
       /\ attempts (trace w') = 1%nat.
Proof.
  split.
  - intros rt markdown w token U T F D.
    unfold convertToDocx, tryAI, bind at 1. unfold ret at 1.
    unfold bind at 1. rewrite processTokens_walk, T.
    cbn [processTokensFrom]. rewrite F, D.
    change (isLit "heading_open" (u "fence")) with false.
    change (isLit "paragraph_open" (u "fence")) with false.
    change (isLit "fence" (u "fence")) with true. cbv iota.
    unfold bind at 1.
    destruct (createDiagramBlock_calls rt (content token) w U)
      as (els & w' & E & A).
    rewrite E. unfold ret. eauto.
  - do 2 eexists. split; [vm_compute; reflexivity|]. split; reflexivity.
Qed.

(** *** The states of the client *)

Lemma unavailable_isGeminiAvailable (w : State) :
  isGeminiAvailable w = (inr (negb (unavailable w)), w).
Proof.
  unfold isGeminiAvailable, unavailable, bind, get, ret.
  destruct (model w); [now rewrite negb_involutive | reflexivity].
Qed.

(** A client is available after [initializeGemini] with a key the
    constructor accepts, not after [disableGemini], and again after
    [enableGemini]; a client that was never initialized stays unavailable
    whatever is enabled. *)
Lemma client_states (rt : Runtime) (key : ustring) (w : State) :
  key <> [] -> GoogleGenerativeAI rt key = None ->
  unavailable (snd (initializeGemini rt (Some key) w)) = false
  /\ unavailable (snd (disableGemini w)) = true
  /\ unavailable
       (snd (enableGemini (snd (disableGemini
                                   (snd (initializeGemini rt (Some key) w))))))
     = false
  /\ (model w = None -> unavailable (snd (enableGemini w)) = true).
Proof.
  intros Hk Hc. unfold initializeGemini. rewrite Hc.
  destruct key as [|c key]; [congruence|].
  repeat split.
  - unfold unavailable, disableGemini, setUseGemini. simpl.
    now destruct (model w).
  - intros Hm. unfold unavailable, enableGemini, bind, get. rewrite Hm.
    simpl. now rewrite Hm.
Qed.

(** The same markdown with a client that was never initialized: the
    fallback analyzer is used and the backend is not called. *)
Lemma useAI_false_without_client :
  exists doc,
    convertToDocx Samples.denying Samples.boxMarkdown false Samples.off
    = (inr doc, Samples.off).
Proof. eexists. vm_compute. reflexivity. Qed.

End ConvertFacts.

(** ** Bounds on what a wrapper does *)

Module RetryBounds.
Import World GeminiService Schema Attempt.

(** One turn of the document loop, however it ends. *)
Lemma document_turn (rt : Runtime) (markdown : ustring)
  (remaining attempt : nat) (lastError : option Js.Error) (w : State) :
  let w' := called (DocumentPrompt markdown) (paused rt attempt lastError w) in
  (exists parsed,
     documentLoop rt markdown (S remaining) attempt lastError w
     = (inr parsed, w'))
  \/ (exists e,
        documentLoop rt markdown (S remaining) attempt lastError w
        = documentLoop rt markdown remaining (S attempt) (Some e) w')
  \/ (exists n,
        rejection rt (DocumentPrompt markdown) (calls w) = Some n
        /\ documentLoop rt markdown (S remaining) attempt lastError w
           = (inl (Js.Obj (Js.cannotRead n "message")), w')).
Proof.
  cbv zeta.
  destruct (rejection rt (DocumentPrompt markdown) (calls w)) as [n|] eqn:Rj.
  { right. right. exists n. split; [reflexivity|].
    now apply RetryFacts.document_turn_rejected. }
  destruct (failure rt (DocumentPrompt markdown) (calls w)) as [e|] eqn:F.
  - rewrite (RetryFacts.document_turn_fails rt markdown remaining attempt
               lastError w e F).
    cbv zeta.
    destruct (negb (isRetryableDocument e)
              || (RETRY_CONFIG.maxRetries <=? attempt)%nat); eauto.
  - left.
    destruct (RetryFacts.backoff_ok rt attempt lastError w)
      as (Hb & _ & _ & Hc & _).
    cbn [documentLoop]. unfold bind at 1. unfold tryCatch. unfold bind at 1.
    rewrite Hb. unfold bind at 1.
    unfold generateContent, failure, rejection in *.
    rewrite Hc.
    destruct (backend rt (calls w) (DocumentPrompt markdown))
      as [text | e' | n']; try discriminate.
    unfold lift, bind.
    destruct (JSON_parse_document rt (cleanReply text)) as [e'|[doc|]];
      try discriminate.
    unfold ret, called. rewrite Hc. eauto.
Qed.

(** A turn that does not throw was not rejected with [null] or
    [undefined]. *)
Lemma diagram_turn_value (rt : Runtime) (ascii : ustring)
  (remaining attempt : nat) (lastError : option Js.Error) (w w' : State)
  (analysis : DiagramAnalysis) :
  diagramLoop rt ascii (S remaining) attempt lastError w = (inr analysis, w') ->
  rejection rt (DiagramPrompt ascii) (calls w) = None.
Proof.
  intros E.
  destruct (rejection rt (DiagramPrompt ascii) (calls w)) as [n|] eqn:Rj;
    [|reflexivity].
  rewrite (RetryFacts.diagram_turn_rejected rt ascii remaining attempt
             lastError w n Rj) in E.
  discriminate.
Qed.

Lemma document_turn_value (rt : Runtime) (markdown : ustring)
  (remaining attempt : nat) (lastError : option Js.Error) (w w' : State)
  (parsed : option ParsedDocument) :
  documentLoop rt markdown (S remaining) attempt lastError w = (inr parsed, w') ->
  rejection rt (DocumentPrompt markdown) (calls w) = None.
Proof.
  intros E.
  destruct (rejection rt (DocumentPrompt markdown) (calls w)) as [n|] eqn:Rj;
    [|reflexivity].
  rewrite (RetryFacts.document_turn_rejected rt markdown remaining attempt
             lastError w n Rj) in E.
  discriminate.
Qed.

Lemma ends_value {A : Type} (rt : Runtime) (p : Prompt) (k : nat) (a : A) :
  rejection rt p k = None -> ends rt p k (inr a : Js.Thrown + A).
Proof. intros H. unfold ends. rewrite H. eauto. Qed.

Lemma ends_thrown {A : Type} (rt : Runtime) (p : Prompt) (k : nat)
  (n : Js.Nullish) :
  rejection rt p k = Some n ->
  ends rt p k (inl (Js.Obj (Js.cannotRead n "message")) : Js.Thrown + A).
Proof. intros H. unfold ends. now rewrite H. Qed.

(** The pause before the first turn is none; before a later turn it is
    one [sleep]. *)
Lemma paused_first (rt : Runtime) (lastError : option Js.Error) (w : State) :
  paused rt 0 lastError w = w.
Proof. reflexivity. Qed.

Lemma paused_later (rt : Runtime) (attempt : nat) (lastError : option Js.Error)
  (w : State) :
  (0 < attempt)%nat ->
  exists ms,
    trace (paused rt attempt lastError w) = trace w ++ [Sleep ms]
    /\ backoff rt attempt lastError w
       = (inr tt, paused rt attempt lastError w).
Proof.
  intros H. unfold paused, backoff.
  destruct (Nat.ltb_spec 0 attempt) as [_|]; [|lia].
  unfold getRetryDelay.
  destruct (suggested (extractRetryDelay lastError));
    cbv beta iota delta [bind ret sleep emit Math_random snd trace]; eauto.
Qed.

Section Pauses.
Variable rt : Runtime.
Variable P : Double.t -> Prop.
Hypothesis P_pause :
  forall attempt lastError w ms,
    (1 <= attempt <= RETRY_CONFIG.maxRetries)%nat ->
    trace (paused rt attempt lastError w) = trace w ++ [Sleep ms] ->
    P ms.

(** The turns after the first one: each adds a pause and a call, and
    the loop throws only what reading the rejection of its last call
    throws. *)
Lemma diagramLoop_later (ascii : ustring) (remaining : nat) :
  forall attempt lastError w,
    (0 < attempt)%nat ->
    (attempt + remaining <= S RETRY_CONFIG.maxRetries)%nat ->
    exists r w' pauses,
      diagramLoop rt ascii remaining attempt lastError w = (r, w')
      /\ trace w' = trace w ++ History.retries (DiagramPrompt ascii) pauses
      /\ (List.length pauses <= remaining)%nat
      /\ Forall P pauses
      /\ calls w' = (calls w + List.length pauses)%nat
      /\ match pauses with
         | [] => exists value, r = inr value
         | _ :: _ => ends rt (DiagramPrompt ascii) (calls w' - 1) r
         end
      /\ model w' = model w /\ useGemini w' = useGemini w.
Proof.
  induction remaining as [|remaining IH]; intros attempt lastError w A B.
  - exists (inr (fallbackDiagramConversion ascii)), w, [].
    simpl. rewrite app_nil_r. repeat split; eauto.
  - destruct (paused_later rt attempt lastError w A) as (ms & T & _).
    assert (Pm : P ms).
    { apply (P_pause attempt lastError w ms); [lia | exact T]. }
    destruct (RetryFacts.called_paused rt (DiagramPrompt ascii) attempt
                lastError w) as (C & _ & M & U).
    cbv zeta in C, M, U.
    set (w1 := called (DiagramPrompt ascii) (paused rt attempt lastError w))
      in *.
    assert (T1 : trace w1
                 = trace w ++ [Sleep ms; GenerateContent (DiagramPrompt ascii)]).
    { unfold w1. simpl. rewrite T, <- app_assoc. reflexivity. }
    assert (Last : forall k : nat, (calls w + S k - 1 = calls w + k)%nat)
      by (intros k; lia).
    destruct (RetryFacts.diagram_turn rt ascii remaining attempt lastError w)
      as [[a E] | [[e E] | (n & Rj & E)]]; cbv zeta in E; fold w1 in E.
    + pose proof (diagram_turn_value rt ascii remaining attempt lastError w w1 a E) as V.
      rewrite E. exists (inr a), w1, [ms].
      split; [reflexivity|].
      split; [unfold History.retries; cbn [flat_map app]; exact T1|].
      split; [cbn [List.length]; lia|]. split; [auto|].
      split; [cbn [List.length]; lia|]. split; [|auto].
      rewrite C. replace (S (calls w) - 1)%nat with (calls w) by lia.
      now apply ends_value.
    + destruct (IH (S attempt) (Some e) w1)
        as (r & w' & ps & E' & T' & L & F & C' & X & M' & U');
        [lia | lia |].
      rewrite E' in E. rewrite E.
      exists r, w', (ms :: ps). split; [reflexivity|].
      split.
      { rewrite T', T1, <- app_assoc. reflexivity. }
      split; [cbn [List.length]; lia|]. split; [auto|].
      split; [cbn [List.length]; lia|].
      split; [|split; congruence].
      destruct ps as [|ms' ps']; [|exact X].
      destruct X as (value & ->). cbn [List.length] in C'.
      rewrite C', C, Nat.add_0_r.
      replace (S (calls w) - 1)%nat with (calls w) by lia.
      apply ends_value.
      exact (diagram_turn_value rt ascii remaining attempt lastError w w' value E).
    + rewrite E. exists (inl (Js.Obj (Js.cannotRead n "message"))), w1, [ms].
      split; [reflexivity|].
      split; [unfold History.retries; cbn [flat_map app]; exact T1|].
      split; [cbn [List.length]; lia|]. split; [auto|].
      split; [cbn [List.length]; lia|]. split; [|auto].
      rewrite C. replace (S (calls w) - 1)%nat with (calls w) by lia.
      now apply ends_thrown.
Qed.

Lemma documentLoop_later (markdown : ustring) (remaining : nat) :
  forall attempt lastError w,
    (0 < attempt)%nat ->
    (attempt + remaining <= S RETRY_CONFIG.maxRetries)%nat ->
    exists r w' pauses,
      documentLoop rt markdown remaining attempt lastError w = (r, w')
      /\ trace w' = trace w ++ History.retries (DocumentPrompt markdown) pauses
      /\ (List.length pauses <= remaining)%nat
      /\ Forall P pauses
      /\ calls w' = (calls w + List.length pauses)%nat
      /\ match pauses with
         | [] => exists value, r = inr value
         | _ :: _ => ends rt (DocumentPrompt markdown) (calls w' - 1) r
         end
      /\ model w' = model w /\ useGemini w' = useGemini w.
Proof.
  induction remaining as [|remaining IH]; intros attempt lastError w A B.
  - exists (inr None), w, [].
    simpl. rewrite app_nil_r. repeat split; eauto.
  - destruct (paused_later rt attempt lastError w A) as (ms & T & _).
    assert (Pm : P ms).
    { apply (P_pause attempt lastError w ms); [lia | exact T]. }
    destruct (RetryFacts.called_paused rt (DocumentPrompt markdown) attempt
                lastError w) as (C & _ & M & U).
    cbv zeta in C, M, U.
    set (w1 := called (DocumentPrompt markdown) (paused rt attempt lastError w))
      in *.
    assert (T1 : trace w1
                 = trace w ++ [Sleep ms; GenerateContent (DocumentPrompt markdown)]).
    { unfold w1. simpl. rewrite T, <- app_assoc. reflexivity. }
    assert (Last : forall k : nat, (calls w + S k - 1 = calls w + k)%nat)
      by (intros k; lia).
    destruct (document_turn rt markdown remaining attempt lastError w)
      as [[a E] | [[e E] | (n & Rj & E)]]; cbv zeta in E; fold w1 in E.
    + pose proof (document_turn_value rt markdown remaining attempt lastError w w1 a E) as V.
      rewrite E. exists (inr a), w1, [ms].
      split; [reflexivity|].
      split; [unfold History.retries; cbn [flat_map app]; exact T1|].
      split; [cbn [List.length]; lia|]. split; [auto|].
      split; [cbn [List.length]; lia|]. split; [|auto].
      rewrite C. replace (S (calls w) - 1)%nat with (calls w) by lia.
      now apply ends_value.
    + destruct (IH (S attempt) (Some e) w1)
        as (r & w' & ps & E' & T' & L & F & C' & X & M' & U');
        [lia | lia |].
      rewrite E' in E. rewrite E.
      exists r, w', (ms :: ps). split; [reflexivity|].
      split.
      { rewrite T', T1, <- app_assoc. reflexivity. }
      split; [cbn [List.length]; lia|]. split; [auto|].
      split; [cbn [List.length]; lia|].
      split; [|split; congruence].
      destruct ps as [|ms' ps']; [|exact X].
      destruct X as (value & ->). cbn [List.length] in C'.
      rewrite C', C, Nat.add_0_r.
      replace (S (calls w) - 1)%nat with (calls w) by lia.
      apply ends_value.
      exact (document_turn_value rt markdown remaining attempt lastError w w' value E).
    + rewrite E. exists (inl (Js.Obj (Js.cannotRead n "message"))), w1, [ms].
      split; [reflexivity|].
      split; [unfold History.retries; cbn [flat_map app]; exact T1|].
      split; [cbn [List.length]; lia|]. split; [auto|].
      split; [cbn [List.length]; lia|]. split; [|auto].
      rewrite C. replace (S (calls w) - 1)%nat with (calls w) by lia.
      now apply ends_thrown.
Qed.

(** A wrapper call as a whole. *)
Lemma convertDiagramWithAI_history (ascii : ustring) (w : State) :
  exists r w' pauses,
    convertDiagramWithAI rt ascii w = (r, w')
    /\ (if unavailable w
        then w' = w /\ r = inr (fallbackDiagramConversion ascii)
        else trace w' = trace w ++ History.rounds (DiagramPrompt ascii) pauses
             /\ ends rt (DiagramPrompt ascii)
                  (calls w + List.length pauses) r)
    /\ (List.length pauses <= RETRY_CONFIG.maxRetries)%nat
    /\ Forall P pauses
    /\ model w' = model w /\ useGemini w' = useGemini w.
Proof.
  unfold convertDiagramWithAI, bind, get.
  destruct (unavailable w) eqn:U.
  - exists (inr (fallbackDiagramConversion ascii)), w, [].
    unfold ret. repeat split; auto. simpl. lia.
  - destruct (RetryFacts.called_paused rt (DiagramPrompt ascii) 0 None w)
      as (C1 & _ & M1 & U1).
    cbv zeta in C1, M1, U1. rewrite paused_first in C1, M1, U1.
    set (w1 := called (DiagramPrompt ascii) w) in *.
    destruct (RetryFacts.diagram_turn rt ascii RETRY_CONFIG.maxRetries 0 None w)
      as [[a E] | [[e E] | (n & Rj & E)]]; cbv zeta in E;
      rewrite paused_first in E; fold w1 in E.
    + pose proof (diagram_turn_value rt ascii RETRY_CONFIG.maxRetries 0 None w w1 a E)
        as V.
      rewrite E. exists (inr a), w1, [].
      split; [reflexivity|]. split; [|cbn [List.length]; auto with arith].
      split; [reflexivity|].
      cbn [List.length]. rewrite Nat.add_0_r. now apply ends_value.
    + destruct (diagramLoop_later ascii RETRY_CONFIG.maxRetries 1 (Some e) w1)
        as (r & w' & ps & E' & T' & L & F & C' & X & M' & U');
        [lia | simpl; lia |].
      rewrite E' in E. rewrite E.
      exists r, w', ps. split; [reflexivity|]. split.
      { split.
        - rewrite T'. unfold w1. simpl. rewrite <- app_assoc. reflexivity.
        - destruct ps as [|ms ps'].
          + destruct X as (value & ->). cbn [List.length].
            rewrite Nat.add_0_r. apply ends_value.
            exact (diagram_turn_value rt ascii RETRY_CONFIG.maxRetries 0 None w w' value E).
          + replace (calls w + List.length (ms :: ps'))%nat
              with (calls w' - 1)%nat by lia.
            exact X. }
      repeat split; auto; congruence.
    + rewrite E. exists (inl (Js.Obj (Js.cannotRead n "message"))), w1, [].
      split; [reflexivity|]. split; [|cbn [List.length]; auto with arith].
      split; [reflexivity|].
      cbn [List.length]. rewrite Nat.add_0_r. now apply ends_thrown.
Qed.

Lemma parseDocumentWithAI_history (markdown : ustring) (w : State) :
  exists r w' pauses,
    parseDocumentWithAI rt markdown w = (r, w')
    /\ (if unavailable w
        then w' = w /\ r = inr None
        else trace w' = trace w ++ History.rounds (DocumentPrompt markdown) pauses
             /\ ends rt (DocumentPrompt markdown)
                  (calls w + List.length pauses) r)
    /\ (List.length pauses <= RETRY_CONFIG.maxRetries)%nat
    /\ Forall P pauses
    /\ model w' = model w /\ useGemini w' = useGemini w.
Proof.
  unfold parseDocumentWithAI, bind, get.
  destruct (unavailable w) eqn:U.
  - exists (inr None), w, [].
    unfold ret. repeat split; auto. simpl. lia.
  - destruct (RetryFacts.called_paused rt (DocumentPrompt markdown) 0 None w)
      as (C1 & _ & M1 & U1).
    cbv zeta in C1, M1, U1. rewrite paused_first in C1, M1, U1.
    set (w1 := called (DocumentPrompt markdown) w) in *.
    destruct (document_turn rt markdown RETRY_CONFIG.maxRetries 0 None w)
      as [[a E] | [[e E] | (n & Rj & E)]]; cbv zeta in E;
      rewrite paused_first in E; fold w1 in E.
    + pose proof (document_turn_value rt markdown RETRY_CONFIG.maxRetries 0 None w w1 a E)
        as V.
      rewrite E. exists (inr a), w1, [].
      split; [reflexivity|]. split; [|cbn [List.length]; auto with arith].
      split; [reflexivity|].
      cbn [List.length]. rewrite Nat.add_0_r. now apply ends_value.
    + destruct (documentLoop_later markdown RETRY_CONFIG.maxRetries 1 (Some e) w1)
        as (r & w' & ps & E' & T' & L & F & C' & X & M' & U');
        [lia | simpl; lia |].
      rewrite E' in E. rewrite E.
      exists r, w', ps. split; [reflexivity|]. split.
      { split.
        - rewrite T'. unfold w1. simpl. rewrite <- app_assoc. reflexivity.
        - destruct ps as [|ms ps'].
          + destruct X as (value & ->). cbn [List.length].
            rewrite Nat.add_0_r. apply ends_value.
            exact (document_turn_value rt markdown RETRY_CONFIG.maxRetries 0 None w w' value E).
          + replace (calls w + List.length (ms :: ps'))%nat
              with (calls w' - 1)%nat by lia.
            exact X. }
      repeat split; auto; congruence.
    + rewrite E. exists (inl (Js.Obj (Js.cannotRead n "message"))), w1, [].
      split; [reflexivity|]. split; [|cbn [List.length]; auto with arith].
      split; [reflexivity|].
      cbn [List.length]. rewrite Nat.add_0_r. now apply ends_thrown.
Qed.
End Pauses.

Lemma attempts_rounds (p : Prompt) (pauses : list Double.t) :
  attempts (History.rounds p pauses) = S (List.length pauses).
Proof.
  unfold History.rounds, History.retries, attempts. simpl. f_equal.
  induction pauses as [|ms ps IH]; simpl; [reflexivity | now rewrite IH].
Qed.

(** The exponential delay before the second and the third attempt, times
    a factor between 0.8 and 1.2, rounded. *)
Lemma jittered_range (attempt : nat) (factor : Q) :
  (1 <= attempt <= RETRY_CONFIG.maxRetries)%nat ->
  8 # 10 <= factor -> factor <= 12 # 10 ->
  Delay.inRange (Double.mul (Delay.exponential attempt) (Double.Finite factor)).
Proof.
  intros A L U. unfold RETRY_CONFIG.maxRetries in A.
  assert (attempt = 1 \/ attempt = 2)%nat as [-> | ->] by lia.
  - change (Delay.exponential 1) with (Double.Finite 2000).
    cbn [Double.mul].
    destruct (DoubleFacts.round_between 1600 2400 1600 2400 (2000 * factor))
      as (r & E & B); try reflexivity; try lra.
    rewrite E. cbn [Delay.inRange]. lra.
  - change (Delay.exponential 2) with (Double.Finite 4000).
    cbn [Double.mul].
    destruct (DoubleFacts.round_between 3200 4800 3200 4800 (4000 * factor))
      as (r & E & B); try reflexivity; try lra.
    rewrite E. cbn [Delay.inRange]. lra.
Qed.

(** The pause before the second and before the third attempt lasts at
    least half a second and at most twenty. *)
Lemma pause_range (rt : Runtime) :
  (forall k, Delay.drawn (random rt k)) ->
  forall attempt lastError w ms,
    (1 <= attempt <= RETRY_CONFIG.maxRetries)%nat ->
    trace (paused rt attempt lastError w) = trace w ++ [Sleep ms] ->
    Delay.inRange ms.
Proof.
  intros Hr attempt lastError w ms A.
  unfold paused, backoff.
  destruct attempt as [|n]; [lia|]. cbn [Nat.ltb Nat.leb].
  rewrite DelayFacts.extractRetryDelay_seconds.
  destruct (Delay.suggestedSeconds lastError) as [seconds|] eqn:Sg.
  - pose proof (DelayFacts.suggestedSeconds_nonneg lastError seconds Sg) as Hs.
    unfold getRetryDelay, suggested.
    rewrite (DelayFacts.buffer_truthy _
               (DelayFacts.suggestedDelay_buffer seconds Hs)).
    cbv beta iota delta [bind ret sleep emit snd trace].
    intros H. apply app_inv_head in H. injection H as <-.
    destruct (DelayFacts.suggestedPause_range seconds Hs) as (q & E & B).
    change (Delay.inRange (Delay.suggestedPause seconds)).
    rewrite E. cbn [Delay.inRange]. lra.
  - destruct (DelayFacts.jitter_range (random rt (draws w)) (Hr (draws w)))
      as (factor & E & L & U & _).
    pose proof (jittered_range (S n) factor A L U) as R.
    rewrite <- E in R.
    unfold getRetryDelay, suggested.
    cbv beta iota delta [bind ret sleep emit Math_random snd trace].
    intros H. apply app_inv_head in H. injection H as <-.
    exact R.
Qed.

(** X1.  Whatever the backend does (it answers, throws an error object
    or rejects with [null] or [undefined]) and whatever [JSON.parse] and
    [Math.random] do, each of the two wrappers ends.  When the backend rejected its last call with
    [null] or [undefined] the wrapper throws the TypeError of reading
    [message] of it (the catch block reads [error.message]); in every
    other case it returns a value, it does not throw.  With a client that
    is not available it does nothing to the outside and returns its
    fallback ([parseDocumentWithAI] returns [null]); otherwise it calls
    the backend with its own prompt at least once and at most three
    times, with one pause between two calls and none before the first or
    after the last.  The client is left as it was. *)
Theorem wrappers_call_at_most_thrice (rt : Runtime)
  (asciiDiagram markdown : ustring) (w : State) :
  (exists r w' pauses,
     convertDiagramWithAI rt asciiDiagram w = (r, w')
     /\ (if unavailable w
         then w' = w /\ r = inr (fallbackDiagramConversion asciiDiagram)
         else trace w'
              = trace w ++ History.rounds (DiagramPrompt asciiDiagram) pauses
              /\ (1 <= attempts (History.rounds (DiagramPrompt asciiDiagram) pauses)
                  <= 3)%nat
              /\ ends rt (DiagramPrompt asciiDiagram)
                   (calls w + List.length pauses) r)
     /\ model w' = model w /\ useGemini w' = useGemini w)
  /\ (exists r w' pauses,
        parseDocumentWithAI rt markdown w = (r, w')
        /\ (if unavailable w then w' = w /\ r = inr None
            else trace w'
                 = trace w ++ History.rounds (DocumentPrompt markdown) pauses
                 /\ (1 <= attempts (History.rounds (DocumentPrompt markdown) pauses)
                     <= 3)%nat
                 /\ ends rt (DocumentPrompt markdown)
                      (calls w + List.length pauses) r)
        /\ model w' = model w /\ useGemini w' = useGemini w).
Proof.
  split.
  - destruct (convertDiagramWithAI_history rt (fun _ => True)
                (fun _ _ _ _ _ _ => I) asciiDiagram w)
      as (a & w' & ps & E & T & L & _ & M & U).
    exists a, w', ps. split; [exact E|]. split; [|auto].
    destruct (unavailable w); [exact T|]. destruct T as [T X].
    split; [exact T|]. split; [|exact X].
    rewrite attempts_rounds. unfold RETRY_CONFIG.maxRetries in L. lia.
  - destruct (parseDocumentWithAI_history rt (fun _ => True)
                (fun _ _ _ _ _ _ => I) markdown w)
      as (a & w' & ps & E & T & L & _ & M & U).
    exists a, w', ps. split; [exact E|]. split; [|auto].
    destruct (unavailable w); [exact T|]. destruct T as [T X].
    split; [exact T|]. split; [|exact X].
    rewrite attempts_rounds. unfold RETRY_CONFIG.maxRetries in L. lia.
Qed.

(** A backend that rejects the first call with [null]: each wrapper makes
    that one call and throws the TypeError. *)
Lemma wrappers_throw_on_null :
  convertDiagramWithAI Scenarios.rejecting Samples.boxLine Samples.ready
  = (inl (Js.Obj (Js.TypeError
                    "Cannot read properties of null (reading 'message')")),
     called (DiagramPrompt Samples.boxLine) Samples.ready)
  /\ parseDocumentWithAI Scenarios.rejecting Samples.boxMarkdown Samples.ready
     = (inl (Js.Obj (Js.TypeError
                       "Cannot read properties of null (reading 'message')")),
        called (DocumentPrompt Samples.boxMarkdown) Samples.ready).
Proof. split; reflexivity. Qed.

(** X2.  When every result of [Math.random] is a double from 0 up to, not
    including, 1, every pause a wrapper makes is a finite double between
    500 and 20000 milliseconds, and there are at most two of them in one
    call of a wrapper.  The pauses are computed in doubles. *)
Theorem wrapper_pauses_in_range (rt : Runtime)
  (asciiDiagram markdown : ustring) (w : State) :
  (forall k, Delay.drawn (random rt k)) ->
  unavailable w = false ->
  (exists pauses,
     trace (snd (convertDiagramWithAI rt asciiDiagram w))
     = trace w ++ History.rounds (DiagramPrompt asciiDiagram) pauses
     /\ (List.length pauses <= 2)%nat
     /\ Forall Delay.inRange pauses)
  /\ (exists pauses,
        trace (snd (parseDocumentWithAI rt markdown w))
        = trace w ++ History.rounds (DocumentPrompt markdown) pauses
        /\ (List.length pauses <= 2)%nat
        /\ Forall Delay.inRange pauses).
Proof.
  intros Hr Hu. split.
  - destruct (convertDiagramWithAI_history rt Delay.inRange
                (pause_range rt Hr) asciiDiagram w)
      as (a & w' & ps & E & T & L & F & _).
    rewrite Hu in T. rewrite E. exists ps. split; [apply T | auto].
  - destruct (parseDocumentWithAI_history rt Delay.inRange
                (pause_range rt Hr) markdown w)
      as (a & w' & ps & E & T & L & F & _).
    rewrite Hu in T. rewrite E. exists ps. split; [apply T | auto].
Qed.

Lemma wrapper_pauses_in_range_witness :
  (exists pauses,
     trace (snd (convertDiagramWithAI (Samples.failing Samples.overloaded)
                   Samples.boxLine Samples.ready))
     = trace Samples.ready
       ++ History.rounds (DiagramPrompt Samples.boxLine) pauses
     /\ (List.length pauses <= 2)%nat
     /\ Forall Delay.inRange pauses)
  /\ (exists pauses,
        trace (snd (parseDocumentWithAI (Samples.failing Samples.overloaded)
                      Samples.boxMarkdown Samples.ready))
        = trace Samples.ready
          ++ History.rounds (DocumentPrompt Samples.boxMarkdown) pauses
        /\ (List.length pauses <= 2)%nat
        /\ Forall Delay.inRange pauses).
Proof.
  apply (wrapper_pauses_in_range (Samples.failing Samples.overloaded)
           Samples.boxLine Samples.boxMarkdown Samples.ready).
  - intros k. unfold Delay.drawn. simpl. split; [lra|].
    unfold Qle. simpl. lia.
  - reflexivity.
Defined.

(** The pauses of that call: 2000 ms and 4000 ms, the draw 1/2 gives the
    factor 1. *)
Lemma wrapper_pauses_example :
  trace (snd (convertDiagramWithAI (Samples.failing Samples.overloaded)
                Samples.boxLine Samples.ready))
  = History.rounds (DiagramPrompt Samples.boxLine)
      [Double.Finite 2000; Double.Finite 4000].
Proof. vm_compute. reflexivity. Qed.

(** A turn whose reply parses ends the loop with that reply. *)
Lemma diagram_turn_succeeds (rt : Runtime) (ascii text : ustring)
  (parsed : DiagramReply) (remaining attempt : nat)
  (lastError : option Js.Error) (w : State) :
  backend rt (calls w) (DiagramPrompt ascii) = Reply text ->
  JSON_parse_diagram rt (cleanReply text) = inr parsed ->
  diagramLoop rt ascii (S remaining) attempt lastError w
  = (inr (withSuccess parsed),
     called (DiagramPrompt ascii) (paused rt attempt lastError w)).
Proof.
  intros B J.
  destruct (RetryFacts.backoff_ok rt attempt lastError w)
    as (Hb & _ & _ & Hc & _).
  cbn [diagramLoop]. unfold bind at 1. unfold tryCatch. unfold bind at 1.
  rewrite Hb. unfold bind at 1. unfold generateContent. rewrite Hc, B.
  unfold lift, bind. rewrite J. unfold ret, called. now rewrite Hc.
Qed.

Lemma document_turn_succeeds (rt : Runtime) (markdown text : ustring)
  (doc : ParsedDocument) (remaining attempt : nat)
  (lastError : option Js.Error) (w : State) :
  backend rt (calls w) (DocumentPrompt markdown) = Reply text ->
  JSON_parse_document rt (cleanReply text) = inr (Some doc) ->
  documentLoop rt markdown (S remaining) attempt lastError w
  = (inr (Some doc),
     called (DocumentPrompt markdown) (paused rt attempt lastError w)).
Proof.
  intros B J.
  destruct (RetryFacts.backoff_ok rt attempt lastError w)
    as (Hb & _ & _ & Hc & _).
  cbn [documentLoop]. unfold bind at 1. unfold tryCatch. unfold bind at 1.
  rewrite Hb. unfold bind at 1. unfold generateContent. rewrite Hc, B.
  unfold lift, bind. rewrite J. unfold ret, called. now rewrite Hc.
Qed.

(** [k] retryable failures and then a reply that parses. *)
Lemma diagramLoop_recovers (rt : Runtime) (ascii text : ustring)
  (parsed : DiagramReply) (k : nat) :
  forall remaining attempt lastError w,
    (k < remaining)%nat ->
    (attempt + k <= RETRY_CONFIG.maxRetries)%nat ->
    (forall j, (j < k)%nat ->
               exists e, failure rt (DiagramPrompt ascii) (calls w + j) = Some e
                         /\ isRetryableDiagram e = true) ->
    backend rt (calls w + k) (DiagramPrompt ascii) = Reply text ->
    JSON_parse_diagram rt (cleanReply text) = inr parsed ->
    exists w',
      diagramLoop rt ascii remaining attempt lastError w
      = (inr (withSuccess parsed), w')
      /\ attempts (trace w') = (attempts (trace w) + k + 1)%nat.
Proof.
  induction k as [|k IH]; intros remaining attempt lastError w R A F B J;
    (destruct remaining as [|remaining]; [lia|]);
    destruct (RetryFacts.called_paused rt (DiagramPrompt ascii) attempt
                lastError w) as (C1 & A1 & _); cbv zeta in C1, A1.
  - rewrite Nat.add_0_r in B.
    rewrite (diagram_turn_succeeds rt ascii text parsed remaining attempt
               lastError w B J).
    eexists. split; [reflexivity|]. lia.
  - destruct (F 0%nat) as (e & Fe & Re); [lia|].
    rewrite Nat.add_0_r in Fe.
    rewrite (RetryFacts.diagram_turn_fails rt ascii remaining attempt
               lastError w e Fe).
    cbv zeta. rewrite Re.
    destruct (Nat.leb_spec RETRY_CONFIG.maxRetries attempt) as [|_]; [lia|].
    cbn [negb orb].
    set (w1 := called (DiagramPrompt ascii) (paused rt attempt lastError w))
      in *.
    destruct (IH remaining (S attempt) (Some e) w1) as (w' & E & T);
      try lia.
    + intros j Hj. rewrite C1.
      replace (S (calls w) + j)%nat with (calls w + S j)%nat by lia.
      apply F. lia.
    + rewrite C1.
      replace (S (calls w) + k)%nat with (calls w + S k)%nat by lia.
      exact B.
    + exact J.
    + exists w'. split; [exact E|]. lia.
Qed.

Lemma documentLoop_recovers (rt : Runtime) (markdown text : ustring)
  (doc : ParsedDocument) (k : nat) :
  forall remaining attempt lastError w,
    (k < remaining)%nat ->
    (attempt + k <= RETRY_CONFIG.maxRetries)%nat ->
    (forall j, (j < k)%nat ->
               exists e, failure rt (DocumentPrompt markdown) (calls w + j) = Some e
                         /\ isRetryableDocument e = true) ->
    backend rt (calls w + k) (DocumentPrompt markdown) = Reply text ->
    JSON_parse_document rt (cleanReply text) = inr (Some doc) ->
    exists w',
      documentLoop rt markdown remaining attempt lastError w
      = (inr (Some doc), w')
      /\ attempts (trace w') = (attempts (trace w) + k + 1)%nat.
Proof.
  induction k as [|k IH]; intros remaining attempt lastError w R A F B J;
    (destruct remaining as [|remaining]; [lia|]);
    destruct (RetryFacts.called_paused rt (DocumentPrompt markdown) attempt
                lastError w) as (C1 & A1 & _); cbv zeta in C1, A1.
  - rewrite Nat.add_0_r in B.
    rewrite (document_turn_succeeds rt markdown text doc remaining attempt
               lastError w B J).
    eexists. split; [reflexivity|]. lia.
  - destruct (F 0%nat) as (e & Fe & Re); [lia|].
    rewrite Nat.add_0_r in Fe.
    rewrite (RetryFacts.document_turn_fails rt markdown remaining attempt
               lastError w e Fe).
    cbv zeta. rewrite Re.
    destruct (Nat.leb_spec RETRY_CONFIG.maxRetries attempt) as [|_]; [lia|].
    cbn [negb orb].
    set (w1 := called (DocumentPrompt markdown) (paused rt attempt lastError w))
      in *.
    destruct (IH remaining (S attempt) (Some e) w1) as (w' & E & T);
      try lia.
    + intros j Hj. rewrite C1.
      replace (S (calls w) + j)%nat with (calls w + S j)%nat by lia.
      apply F. lia.
    + rewrite C1.
      replace (S (calls w) + k)%nat with (calls w + S k)%nat by lia.
      exact B.
    + exact J.
    + exists w'. split; [exact E|]. lia.
Qed.

(** X3.  A retry recovers: when the first [k] attempts ([k] at most 2)
    fail with errors the wrapper retries and the next reply parses, the
    wrapper returns that reply ([convertDiagramWithAI] with [success] put
    in front, [parseDocumentWithAI] as it is) after [k + 1] calls; the
    fallback is not used. *)
Theorem retry_recovers (rt : Runtime) (asciiDiagram markdown : ustring)
  (w : State) (k : nat) :
  unavailable w = false ->
  (k <= RETRY_CONFIG.maxRetries)%nat ->
  (forall text parsed,
      (forall j, (j < k)%nat ->
                 exists e,
                   failure rt (DiagramPrompt asciiDiagram) (calls w + j) = Some e
                   /\ isRetryableDiagram e = true) ->
      backend rt (calls w + k) (DiagramPrompt asciiDiagram) = Reply text ->
      JSON_parse_diagram rt (cleanReply text) = inr parsed ->
      exists w',
        convertDiagramWithAI rt asciiDiagram w = (inr (withSuccess parsed), w')
        /\ attempts (trace w') = (attempts (trace w) + k + 1)%nat)
  /\ (forall text doc,
         (forall j, (j < k)%nat ->
                    exists e,
                      failure rt (DocumentPrompt markdown) (calls w + j) = Some e
                      /\ isRetryableDocument e = true) ->
         backend rt (calls w + k) (DocumentPrompt markdown) = Reply text ->
         JSON_parse_document rt (cleanReply text) = inr (Some doc) ->
         exists w',
           parseDocumentWithAI rt markdown w = (inr (Some doc), w')
           /\ attempts (trace w') = (attempts (trace w) + k + 1)%nat).
Proof.
  intros U K. split.
  - intros text parsed F B J.
    rewrite (RetryFacts.convertDiagramWithAI_available rt asciiDiagram w U).
    apply (diagramLoop_recovers rt asciiDiagram text parsed k); auto; lia.
  - intros text doc F B J.
    rewrite (RetryFacts.parseDocumentWithAI_available rt markdown w U).
    apply (documentLoop_recovers rt markdown text doc k); auto; lia.
Qed.

Lemma retry_recovers_witness :
  (exists w',
     convertDiagramWithAI Scenarios.recovering Samples.boxLine Samples.ready
     = (inr (withSuccess Samples.denial), w')
     /\ attempts (trace w') = 2%nat)
  /\ (exists w',
        parseDocumentWithAI Scenarios.recovering Samples.boxMarkdown Samples.ready
        = (inr (Some {| doc_title := None; elements := None |}), w')
        /\ attempts (trace w') = 2%nat).
Proof.
  destruct (retry_recovers Scenarios.recovering Samples.boxLine
              Samples.boxMarkdown Samples.ready 1 eq_refl (le_S 1 1 (le_n 1)))
    as (D & P).
  split.
  - apply (D Samples.denialText Samples.denial);
      [|reflexivity|reflexivity].
    intros j Hj. assert (j = 0)%nat as -> by lia.
    exists Samples.overloaded. split; reflexivity.
  - apply (P Samples.denialText {| doc_title := None; elements := None |});
      [|reflexivity|reflexivity].
    intros j Hj. assert (j = 0)%nat as -> by lia.
    exists Samples.overloaded. split; reflexivity.
Defined.

End RetryBounds.

(** ** The client and its switches *)

Module ClientFacts.
Import World GeminiService.

Lemma initializeGemini_accepted (rt : Runtime) (apiKey : option ustring)
  (w : State) :
  initializeGemini rt apiKey w
  = (inr (Client.accepted rt apiKey),
     if Client.accepted rt apiKey
     then {| model := Some gemini_3_flash_preview; useGemini := true;
             calls := calls w; draws := draws w; trace := trace w |}
     else {| model := model w; useGemini := false;
             calls := calls w; draws := draws w; trace := trace w |}).
Proof.
  unfold initializeGemini, Client.accepted.
  destruct apiKey as [[|c key]|]; try reflexivity.
  destruct (GoogleGenerativeAI rt (c :: key)); reflexivity.
Qed.

Lemma apply_quiet (rt : Runtime) (op : Client.Op) (w : State) :
  trace (Client.apply rt op w) = trace w
  /\ calls (Client.apply rt op w) = calls w
  /\ draws (Client.apply rt op w) = draws w.
Proof.
  destruct op as [apiKey| |]; cbn [Client.apply].
  - rewrite initializeGemini_accepted. cbn [snd].
    destruct (Client.accepted rt apiKey); auto.
  - auto.
  - unfold enableGemini, bind, get. destruct (model w); auto.
Qed.

Lemma apply_model (rt : Runtime) (op : Client.Op) (w : State) :
  model (Client.apply rt op w)
  = match op with
    | Client.Initialize apiKey =>
        if Client.accepted rt apiKey then Some gemini_3_flash_preview
        else model w
    | _ => model w
    end.
Proof.
  destruct op as [apiKey| |]; cbn [Client.apply].
  - rewrite initializeGemini_accepted. cbn [snd].
    now destruct (Client.accepted rt apiKey).
  - reflexivity.
  - unfold enableGemini, bind, get. destruct (model w) eqn:M; cbn; congruence.
Qed.

(** X4.  The three switches of the client never reach the backend, and a
    model that was created once is never dropped: after any sequence of
    [initializeGemini], [disableGemini] and [enableGemini] the model is
    missing exactly when it was missing before and no [initializeGemini]
    of the sequence succeeded.  In every state, [initializeGemini]
    returns whether the key was accepted and leaves the client available
    exactly then; [disableGemini] leaves it unavailable; [enableGemini]
    leaves it available exactly when there is a model, so it brings back
    the old client after an [initializeGemini] that failed. *)
Theorem client_switches (rt : Runtime) (ops : list Client.Op) (w : State) :
  let w' := Client.run rt ops w in
  (trace w' = trace w /\ calls w' = calls w)
  /\ (model w' = None
      <-> model w = None /\ Client.neverInitialized rt ops = true)
  /\ (forall apiKey,
         fst (initializeGemini rt apiKey w') = inr (Client.accepted rt apiKey)
         /\ unavailable (Client.apply rt (Client.Initialize apiKey) w')
            = negb (Client.accepted rt apiKey))
  /\ unavailable (Client.apply rt Client.Disable w') = true
  /\ unavailable (Client.apply rt Client.Enable w')
     = match model w' with Some _ => false | None => true end
  /\ (forall apiKey,
         model w' <> None ->
         unavailable
           (Client.run rt [Client.Initialize apiKey; Client.Enable] w')
         = false).
Proof.
  cbv zeta. split; [|split].
  - revert w. induction ops as [|op ops IH]; intros w; [auto|].
    cbn [Client.run fold_left].
    destruct (IH (Client.apply rt op w)) as (T & C).
    unfold Client.run in T, C. rewrite T, C.
    destruct (apply_quiet rt op w) as (T' & C' & _). auto.
  - revert w. induction ops as [|op ops IH]; intros w.
    + cbn. intuition.
    + cbn [Client.run fold_left Client.neverInitialized forallb].
      unfold Client.run in IH. rewrite IH, apply_model.
      fold (Client.neverInitialized rt ops).
      destruct op as [apiKey| |]; cbn [negb andb];
        [destruct (Client.accepted rt apiKey); cbn [negb andb]|..];
        intuition congruence.
  - generalize (Client.run rt ops w). intros w0.
    split; [|split; [|split]].
    + intros apiKey. cbn [Client.apply].
      rewrite initializeGemini_accepted. cbn [fst snd]. split; [reflexivity|].
      unfold unavailable.
      destruct (Client.accepted rt apiKey); cbn; [reflexivity|].
      now destruct (model w0).
    + cbn. now destruct (model w0).
    + cbn [Client.apply]. unfold enableGemini, bind, get, unavailable.
      destruct (model w0) eqn:M; cbn; rewrite ?M; reflexivity.
    + intros apiKey M. cbn [Client.run fold_left Client.apply].
      rewrite initializeGemini_accepted. cbn [snd].
      unfold enableGemini, bind, get, unavailable.
      destruct (Client.accepted rt apiKey); cbn; [reflexivity|].
      destruct (model w0) eqn:M'; [cbn; rewrite ?M'; reflexivity | congruence].
Qed.

End ClientFacts.

(** ** What the clean-up leaves of a reply *)

Module CleanupFacts.
Import Str Regex GeminiService.

(** At a marker the second replacement drops the marker and a line feed
    after it. *)
Lemma replace_any_at_marker (rest : ustring) :
  replaceFrom anyFence erase (96 :: 96 :: 96 :: rest)%N 0
  = replaceFrom anyFence erase (Fence.dropLineFeed rest) 0.
Proof.
  destruct rest as [|c r]; [reflexivity|].
  assert (matchHere anyFence (96 :: 96 :: 96 :: c :: r)%N 0 no_group
          = Some {| f_end := if N.eqb 10 c then 4 else 3; f_group := None |})
    as E.
  { change (matchHere anyFence (96 :: 96 :: 96 :: c :: r)%N 0 no_group)
      with (matchHere [Atom Opt (chr 10)] (c :: r) 3 no_group).
    cbn -[N.eqb]. unfold chr. now destruct (N.eqb 10 c). }
  cbn [replaceFrom]. rewrite E. cbn [f_end Fence.dropLineFeed].
  destruct (N.eqb 10 c); reflexivity.
Qed.

Lemma dropLineFeed_length (s : ustring) :
  (List.length (Fence.dropLineFeed s) <= List.length s)%nat.
Proof.
  destruct s as [|c r]; [auto|]. cbn -[N.eqb].
  destruct (N.eqb 10 c); simpl; lia.
Qed.

Lemma marker_starts (s : ustring) :
  startsWith Fence.marker s = true ->
  exists rest, s = (96 :: 96 :: 96 :: rest)%N.
Proof.
  destruct s as [|a [|b [|c r]]]; cbn -[N.eqb]; intros H;
    try discriminate;
    repeat match type of H with
           | (_ && _ = true) => apply andb_true_iff in H as [? H]
           end; try discriminate.
  repeat match goal with
         | E : N.eqb 96 _ = true |- _ => apply FenceFacts.eqb_96 in E
         end.
  subst. eauto.
Qed.

(** What begins with no backtick still begins with none afterwards. *)
Lemma replace_any_head (s : ustring) :
  startsWith [96%N] s = false ->
  startsWith [96%N] (replaceFrom anyFence erase s 0) = false.
Proof.
  destruct s as [|c s]; intros H; [reflexivity|].
  assert (startsWith Fence.marker (c :: s) = false) as E.
  { rewrite FenceFacts.marker_cons. cbn -[N.eqb] in H.
    rewrite andb_true_r in H. now rewrite H. }
  cbn [replaceFrom]. rewrite (FenceFacts.anyFence_needs_marker _ E).
  exact H.
Qed.

Lemma free_cons (c : N) (s : ustring) :
  startsWith Fence.marker (c :: s) = false -> Fence.free s ->
  Fence.free (c :: s).
Proof.
  unfold Fence.free. intros H F. cbn [includes]. now rewrite H, F.
Qed.

(** The second replacement leaves no marker, in whatever text. *)
Lemma replace_any_free (n : nat) :
  forall s, (List.length s <= n)%nat ->
            Fence.free (replaceFrom anyFence erase s 0).
Proof.
  induction n as [|n IH]; intros s L.
  - destruct s; [reflexivity | simpl in L; lia].
  - destruct s as [|c s]; [reflexivity|].
    destruct (startsWith Fence.marker (c :: s)) eqn:E.
    + destruct (marker_starts _ E) as (rest & Eq). injection Eq as -> ->.
      rewrite replace_any_at_marker. apply IH.
      pose proof (dropLineFeed_length rest). simpl in L. lia.
    + cbn [replaceFrom]. rewrite (FenceFacts.anyFence_needs_marker _ E).
      assert (Fence.free (replaceFrom anyFence erase s 0)) as Fs.
      { apply IH. simpl in L. lia. }
      apply free_cons; [|exact Fs].
      rewrite FenceFacts.marker_cons.
      destruct (N.eqb 96 c) eqn:Ec; [|reflexivity]. cbn [andb].
      rewrite FenceFacts.marker_cons, Ec in E. cbn [andb] in E.
      destruct s as [|d s]; [reflexivity|].
      assert (startsWith Fence.marker (d :: s) = false) as Ed.
      { rewrite FenceFacts.marker_cons. cbn -[N.eqb] in E.
        destruct (N.eqb 96 d); [|reflexivity]. cbn [andb] in E |- *.
        destruct s as [|e s]; [reflexivity|]. cbn -[N.eqb] in E |- *.
        rewrite andb_true_r in E. now rewrite E. }
      cbn [replaceFrom]. rewrite (FenceFacts.anyFence_needs_marker _ Ed).
      cbn -[N.eqb] in E |- *.
      destruct (N.eqb 96 d); [|reflexivity]. cbn [andb] in E |- *.
      apply replace_any_head. exact E.
Qed.

(** X5.  The text handed to [JSON.parse] holds no code-fence marker and
    no white space at its ends, whatever the reply was; cleaning it once
    more changes nothing. *)
Theorem cleanReply_leaves_no_fence (text : ustring) :
  Str.includes (u "```") (cleanReply text) = false
  /\ Str.trim (cleanReply text) = cleanReply text
  /\ cleanReply (cleanReply text) = cleanReply text.
Proof.
  assert (Fence.free (cleanReply text)) as F.
  { unfold cleanReply, replaceAll. apply FenceFacts.free_trim.
    apply (replace_any_free _ _ (le_n _)). }
  assert (Str.trim (cleanReply text) = cleanReply text) as T.
  { unfold cleanReply. apply TrimFacts.trim_idem. }
  split; [exact F|]. split; [exact T|].
  now rewrite (CleanupClaims.cleanReply_plain _ F).
Qed.

End CleanupFacts.

(** ** The block a diagram becomes when the fallback analysis is used *)

Module DiagramBlockFacts.
Import World Schema GeminiService MarkdownParser Docx DocxConverter.

Lemma join_nil (sep : ustring) : Str.join sep [] = [].
Proof. reflexivity. Qed.

(** The fallback analysis rendered: with components the summary is not
    looked at, and without components it is empty. *)
Lemma renderAnalysis_fallback (asciiDiagram : ustring) :
  renderAnalysis (fallbackDiagramConversion asciiDiagram)
  = [ ElParagraph (diagramTitle (u "System Architecture Diagram"));
      ElParagraph
        (diagramDescription (u "Diagram converted from ASCII representation")) ]
    ++ match firstn 20 (uniqueContent asciiDiagram) with
       | [] => []
       | fragments =>
           [ElTable
              (createComponentsTable
                 (map (fun t => {| name := Some t; description := Some [] |})
                    fragments))]
       end
    ++ [spacer].
Proof.
  unfold renderAnalysis, fallbackDiagramConversion, diagramParts.
  cbn [title a_description components connections summary nonEmpty].
  destruct (uniqueContent asciiDiagram) as [|x l]; reflexivity.
Qed.

Lemma components_two_columns (components_ : list Component) :
  Columns.counts (createComponentsTable components_)
  = repeat 2%nat (S (List.length components_)).
Proof.
  unfold Columns.counts, createComponentsTable.
  cbn [rows map cells List.length repeat]. f_equal.
  induction components_ as [|c cs IH]; [reflexivity|].
  cbn [map List.length repeat]. rewrite IH. reflexivity.
Qed.

(** X6.  Whenever [convertDiagramWithAI] answers with the fallback
    analysis (no client, an error that is not retried, three failures),
    the diagram block is: the title "System Architecture Diagram", the
    fixed description, a table of two columns with a header row and one
    row for each of the first 20 fragments when there is a fragment, and
    the spacer.  The summary of the fallback analysis is never rendered:
    no paragraph of the block is a summary line. *)
Theorem fallback_block (rt : Runtime) (asciiContent : ustring)
  (w w' : State) :
  convertDiagramWithAI rt asciiContent w
  = (inr (fallbackDiagramConversion asciiContent), w') ->
  let fragments := firstn 20 (uniqueContent asciiContent) in
  let table :=
    createComponentsTable
      (map (fun t => {| name := Some t; description := Some [] |}) fragments) in
  let block :=
    [ ElParagraph (diagramTitle (u "System Architecture Diagram"));
      ElParagraph
        (diagramDescription (u "Diagram converted from ASCII representation")) ]
    ++ match fragments with [] => [] | _ :: _ => [ElTable table] end
    ++ [spacer] in
  createDiagramBlock rt asciiContent w = (inr block, w')
  /\ Columns.counts table = repeat 2%nat (S (List.length fragments))
  /\ (List.length fragments <= 20)%nat
  /\ (forall line_, ~ In (ElParagraph (summaryLine line_)) block).
Proof.
  intros E. cbv zeta. split; [|split; [|split]].
  - unfold createDiagramBlock, tryCatch, bind. rewrite E. unfold ret.
    rewrite renderAnalysis_fallback.
    now destruct (firstn 20 (uniqueContent asciiContent)).
  - rewrite components_two_columns. now rewrite length_map.
  - apply firstn_le_length.
  - intros line_ H.
    destruct (firstn 20 (uniqueContent asciiContent));
      cbn [app In] in H;
      repeat match type of H with
             | _ \/ _ => destruct H as [H|H]
             | False => exact H
             | _ = _ => discriminate H
             end.
Qed.

Lemma fallback_block_witness :
  createDiagramBlock (Samples.failing Samples.syntaxError) Samples.boxLine
    Samples.off
  = (inr [ ElParagraph (diagramTitle (u "System Architecture Diagram"));
           ElParagraph
             (diagramDescription
                (u "Diagram converted from ASCII representation"));
           spacer ],
     Samples.off).
Proof.
  exact (proj1 (fallback_block (Samples.failing Samples.syntaxError)
                  Samples.boxLine Samples.off Samples.off eq_refl)).
Defined.

End DiagramBlockFacts.

(** ** Heading texts *)

Module TextFacts.
Import Str Regex DocxConverter.

Lemma units_firstn (n : nat) (s : ustring) (c : N) :
  In c (firstn n s) -> In c s.
Proof.
  revert n. induction s as [|x s IH]; intros [|n]; simpl; try tauto.
  intros [H|H]; [now left | right; eauto].
Qed.

Lemma units_skipn (n : nat) (s : ustring) (c : N) :
  In c (skipn n s) -> In c s.
Proof.
  revert n. induction s as [|x s IH]; intros [|n]; simpl; try tauto.
  intros H. right. eauto.
Qed.

(** A replacement that puts in nothing but what it captured adds no
    unit to the text. *)
Lemma replaceFrom_units (re : regex) (repl : option ustring -> ustring) :
  (forall cap c, In c (repl cap) -> exists t, cap = Some t /\ In c t) ->
  forall s skip c, In c (replaceFrom re repl s skip) -> In c s.
Proof.
  intros Hrepl.
  assert (forall s r c, In c (repl (capture s r)) -> In c s) as Hcap.
  { intros s r c H. destruct (Hrepl _ _ H) as (t & E & Ht).
    unfold capture in E. destruct (f_group r) as [[a [b|]]|]; try discriminate.
    injection E as <-. eapply units_skipn, units_firstn, Ht. }
  induction s as [|x s IH]; intros skip c H.
  - cbn [replaceFrom] in H. destruct skip; [|exact H].
    destruct (matchHere re [] 0 no_group) as [r|]; [|exact H].
    exact (Hcap [] r c H).
  - cbn [replaceFrom] in H. destruct skip as [|k].
    + destruct (matchHere re (x :: s) 0 no_group) as [r|].
      * destruct (f_end r) as [|len]; apply in_app_or in H as [H|H];
          try (exact (Hcap _ r c H)).
        -- destruct H as [<-|H]; [now left | right; eauto].
        -- right; eauto.
      * destruct H as [<-|H]; [now left | right; eauto].
    + right; eauto.
Qed.

Lemma erase_adds_nothing (cap : option ustring) (c : N) :
  In c (erase cap) -> exists t, cap = Some t /\ In c t.
Proof. intros []. Qed.

Lemma dollar1_adds_nothing (cap : option ustring) (c : N) :
  In c (dollar1 cap) -> exists t, cap = Some t /\ In c t.
Proof. destruct cap as [t|]; [eauto | intros []]. Qed.

(** Where no unit can begin a match, nothing is replaced. *)
Lemma replaceAll_no_first (p : N -> bool) (re : regex)
  (repl : option ustring -> ustring) (s : ustring) :
  (forall c, In c s -> p c = false) ->
  replaceAll (Atom One p :: re) repl s = s.
Proof.
  unfold replaceAll. induction s as [|x s IH]; intros H; [reflexivity|].
  cbn [replaceFrom matchHere]. rewrite (H x (or_introl eq_refl)).
  rewrite IH; [reflexivity|]. intros c Hc. apply H. now right.
Qed.

(** X7.  A heading text after [cleanText] holds no asterisk and no
    backtick, every unit of it comes from the text, and it has no white
    space at its ends; a text that is missing or empty gives the empty
    text, and a text without asterisk, backtick and opening bracket is
    only trimmed. *)
Theorem cleanText_strips_markup (text : option ustring) :
  (forall c, In c (cleanText text) ->
             c <> 42%N /\ c <> 96%N
             /\ exists text_, text = Some text_ /\ In c text_)
  /\ Str.trim (cleanText text) = cleanText text
  /\ (text = None \/ text = Some [] -> cleanText text = [])
  /\ (forall text_,
         text = Some text_ ->
         (forall c, In c text_ -> c <> 42%N /\ c <> 96%N /\ c <> 91%N) ->
         cleanText text = Str.trim text_).
Proof.
  split; [|split; [|split]].
  - intros c H. destruct text as [[|x t]|]; try contradiction.
    cbn [cleanText] in H. apply TrimFacts.trim_In in H.
    apply (replaceFrom_units _ _ dollar1_adds_nothing) in H.
    change (lit "`") with [Atom One (chr 96)] in H.
    change (lit "*") with [Atom One (chr 42)] in H.
    rewrite !RegexFacts.replaceAll_one_atom in H.
    apply filter_In in H as [H B]. apply filter_In in H as [H A].
    apply (replaceFrom_units _ _ erase_adds_nothing) in H.
    unfold chr in A, B.
    split; [|split].
    + intros ->. discriminate A.
    + intros ->. discriminate B.
    + eauto.
  - destruct text as [[|x t]|]; try reflexivity.
    cbn [cleanText]. apply TrimFacts.trim_idem.
  - intros [-> | ->]; reflexivity.
  - intros t -> H. destruct t as [|x t]; [reflexivity|].
    cbn [cleanText].
    change (lit "`") with [Atom One (chr 96)].
    change (lit "*") with [Atom One (chr 42)].
    change (lit "**") with [Atom One (chr 42); Atom One (chr 42)].
    unfold markdownLink.
    rewrite (replaceAll_no_first (chr 42) [Atom One (chr 42)]),
      (replaceAll_no_first (chr 42) []),
      (replaceAll_no_first (chr 96) []),
      (replaceAll_no_first (chr 91));
      try reflexivity;
      intros c Hc; destruct (H c Hc) as (A & B & C); unfold chr;
      apply N.eqb_neq; congruence.
Qed.

Lemma cleanText_strips_markup_witness :
  cleanText (Some (u "  Release notes ")) = u "Release notes".
Proof.
  refine (proj2 (proj2 (proj2 (cleanText_strips_markup
                                 (Some (u "  Release notes ")))))
            (u "  Release notes ") eq_refl _).
  intros c H.
  repeat (destruct H as [<-|H]; [repeat split; discriminate|]).
  contradiction.
Defined.

End TextFacts.

(** ** Paragraphs, code blocks and lists *)

Module LocalRenderFacts.
Import World Schema MarkdownParser Docx DocxConverter.

Lemma join_concat (parts : list ustring) : Str.join [] parts = List.concat parts.
Proof.
  induction parts as [|p [|q ps] IH]; [reflexivity | |].
  - cbn. now rewrite app_nil_r.
  - change (Str.join [] (p :: q :: ps)) with (p ++ [] ++ Str.join [] (q :: ps)).
    rewrite IH. reflexivity.
Qed.

Lemma isLit_exclusive (a b : string) (type : ustring) :
  isLit a type = true -> Str.eqb (u a) (u b) = false -> isLit b type = false.
Proof.
  unfold isLit. intros Ha Hab. apply StrFacts.eqb_eq in Ha. subst type.
  exact Hab.
Qed.

Lemma processInlineFrom_text (n : nat) :
  forall tokens formatting,
    (List.length tokens <= n)%nat ->
    flat_map Runs.runText (processInlineFrom tokens formatting)
    = List.concat (map i_content (filter Runs.shown tokens)).
Proof.
  induction n as [|n IH]; intros tokens formatting L.
  - destruct tokens; [reflexivity | simpl in L; lia].
  - destruct tokens as [|token rest]; [reflexivity|].
    assert (forall f, flat_map Runs.runText (processInlineFrom rest f)
                      = List.concat (map i_content (filter Runs.shown rest))) as IHrest.
    { intros f. apply IH. simpl in L. lia. }
    cbn [processInlineFrom filter]. unfold Runs.shown at 1.
    destruct (isLit "text" (i_type token)) eqn:T.
    { cbn [orb map concat flat_map]. rewrite IHrest.
      cbn. now rewrite app_nil_r. }
    destruct (isLit "emoji" (i_type token)) eqn:E.
    { rewrite (isLit_exclusive "emoji" "code_inline" _ E eq_refl).
      cbn [orb map concat flat_map]. rewrite IHrest.
      cbn. now rewrite app_nil_r. }
    cbn [orb].
    destruct (isLit "code_inline" (i_type token)) eqn:C.
    { cbn [orb map concat flat_map]. rewrite IHrest.
      cbn. now rewrite app_nil_r. }
    cbn [orb].
    repeat match goal with
           | |- context [if isLit ?name (i_type token) then _ else _] =>
               lazymatch name with
               | "link_open"%string => fail
               | _ => destruct (isLit name (i_type token)); [apply IHrest|]
               end
           end.
    destruct (isLit "link_open" (i_type token)).
    + destruct rest as [|linkText rest']; [reflexivity|].
      destruct (isLit "text" (i_type linkText)) eqn:TL; [|apply IHrest].
      cbn [filter]. unfold Runs.shown at 1. rewrite TL.
      cbn [orb map concat flat_map].
      rewrite (IH rest' formatting); [|simpl in L; lia].
      cbn. now rewrite app_nil_r.
    + destruct (isLit "softbreak" (i_type token)
                || isLit "hardbreak" (i_type token)); [|apply IHrest].
      cbn [flat_map]. rewrite IHrest. reflexivity.
Qed.

(** X8.  The paragraph renderer and the plain-text extractor agree on the
    text: the texts of the runs of [processInlineTokens], one after the
    other, are what [extractTextFromInline] returns for the same tokens
    (the contents of the text, inline-code and emoji tokens, in order),
    and so is the text of the paragraph [createParagraph] builds, also
    when there are no tokens at all.  Formatting, links and line breaks
    add no text and lose none. *)
Theorem paragraph_text_is_extracted_text (tokens : list InlineToken)
  (inlineTokens : option (list InlineToken)) :
  flat_map Runs.runText (processInlineTokens tokens)
  = extractTextFromInline (Some tokens)
  /\ Runs.paragraphText (createParagraph inlineTokens)
     = extractTextFromInline inlineTokens.
Proof.
  assert (forall ts, flat_map Runs.runText (processInlineTokens ts)
                     = extractTextFromInline (Some ts)) as H.
  { intros ts. unfold processInlineTokens, extractTextFromInline.
    rewrite join_concat. apply (processInlineFrom_text _ _ _ (le_n _)). }
  split; [apply H|].
  unfold createParagraph, Runs.paragraphText. cbn [flat_map].
  rewrite app_nil_r.
  destruct inlineTokens as [ts|].
  - rewrite <- H. now destruct (processInlineTokens ts).
  - reflexivity.
Qed.

(** *** Code blocks *)

Lemma split_nonempty (sep : N) (s : ustring) : Str.split sep s <> [].
Proof.
  destruct s as [|c s]; [discriminate|]. cbn [Str.split].
  destruct (N.eqb c sep); [discriminate|].
  destruct (Str.split sep s); discriminate.
Qed.

Lemma split_length (sep : N) (s : ustring) :
  List.length (Str.split sep s)
  = S (List.length (filter (fun c => N.eqb c sep) s)).
Proof.
  induction s as [|c s IH]; [reflexivity|]. cbn [Str.split filter].
  destruct (N.eqb c sep).
  - cbn [List.length]. now rewrite IH.
  - pose proof (split_nonempty sep s) as Hn.
    destruct (Str.split sep s) as [|w ws]; [congruence|]. exact IH.
Qed.

Lemma split_app_sep (sep : N) (s : ustring) :
  Str.split sep (s ++ [sep]) = Str.split sep s ++ [[]].
Proof.
  induction s as [|c s IH].
  - cbn. now rewrite N.eqb_refl.
  - cbn [app Str.split]. rewrite IH. destruct (N.eqb c sep); [reflexivity|].
    pose proof (split_nonempty sep s) as Hn.
    destruct (Str.split sep s) as [|w ws]; [congruence | reflexivity].
Qed.

(** X9.  A code block of [n] lines becomes [n + 1] paragraphs, the lines
    and a spacer, and one more in front when there is a language label;
    the lines are one more than the line feeds of the code.  So a code
    that ends with a line feed gets one more line at its end, and that
    line shows as three blanks. *)
Theorem code_block_paragraphs (rt : Runtime) (code language : ustring) :
  List.length (createCodeBlock rt code language)
  = ((if Str.truthy language then 1 else 0)
     + S (List.length (filter (fun c => N.eqb c 10) code)) + 1)%nat
  /\ createCodeBlock rt (code ++ [10%N]) language
     = removelast (createCodeBlock rt code language)
       ++ [ mkParagraph
              [ spacing {| before := Some 0%Z; after := Some 0%Z;
                           line := Some 260%Z |};
                p_shading STYLES.colors.codeBackground;
                children
                  [ mkTextRun
                      [ text (u "   ");
                        font STYLES.fonts.code;
                        size (STYLES.sizes.code * 2)%Z;
                        color STYLES.colors.code ] ] ];
            mkParagraph [spacing (afterOnly 160%Z)] ].
Proof.
  unfold createCodeBlock. split.
  - rewrite !length_app, length_map, split_length.
    destruct (Str.truthy language); cbn [List.length]; lia.
  - rewrite split_app_sep, map_app. cbn [map].
    rewrite !app_assoc, removelast_last, <- !app_assoc. reflexivity.
Qed.

(** *** Lists *)

Lemma createListFrom_numbered (tokens : list Token) (isOrdered : bool) :
  forall itemNumber currentContent k p,
    nth_error (createListFrom tokens isOrdered itemNumber currentContent) k
    = Some p ->
    exists text_, p = listItem (marker isOrdered (itemNumber + k) ++ text_).
Proof.
  induction tokens as [|token rest IH]; intros n c k p H.
  - destruct k; discriminate H.
  - cbn [createListFrom] in H.
    destruct (isLit "list_item_open" (type token)); [eauto|].
    destruct (isLit "inline" (type token)); [eauto|].
    destruct (isLit "list_item_close" (type token)); [|eauto].
    destruct k as [|k].
    + injection H as <-. rewrite Nat.add_0_r. eauto.
    + cbn [nth_error] in H. apply IH in H as (t & ->).
      exists t. now rewrite Nat.add_succ_r.
Qed.

Lemma createListFrom_length (tokens : list Token) (isOrdered : bool) :
  forall itemNumber currentContent,
    List.length (createListFrom tokens isOrdered itemNumber currentContent)
    = List.length (filter (fun t => isLit "list_item_close" (type t)) tokens).
Proof.
  induction tokens as [|token rest IH]; intros n c; [reflexivity|].
  cbn [createListFrom filter].
  destruct (isLit "list_item_open" (type token)) eqn:O.
  { rewrite (isLit_exclusive "list_item_open" "list_item_close" _ O eq_refl).
    apply IH. }
  destruct (isLit "inline" (type token)) eqn:I.
  { rewrite (isLit_exclusive "inline" "list_item_close" _ I eq_refl).
    apply IH. }
  destruct (isLit "list_item_close" (type token)); [|apply IH].
  cbn [List.length]. now rewrite IH.
Qed.

Lemma aiListFrom_nth (items : list ustring) (ordered : bool) :
  forall i k,
    nth_error (aiListFrom items ordered i) k
    = option_map (fun item => listItem (marker ordered (i + k + 1) ++ item))
        (nth_error items k).
Proof.
  induction items as [|item rest IH]; intros i k.
  - now destruct k.
  - destruct k as [|k]; cbn [aiListFrom nth_error option_map].
    + now rewrite Nat.add_0_r.
    + rewrite IH. replace (S i + k + 1)%nat with (i + S k + 1)%nat by lia.
      reflexivity.
Qed.

(** X10.  Lists are numbered by position.  On the local path a list
    becomes one paragraph for each [list_item_close] token of its range,
    and the paragraph number [k] (from 1) of an ordered list begins with
    [k] and a full stop, whatever number the list starts with in the
    markdown and however its items nest; on the AI path the items of
    [elem.items] become the paragraphs in order, numbered the same way.
    An item of a list that is not ordered begins with a bullet. *)
Theorem list_items_numbered (tokens : list Token) (items : list ustring)
  (isOrdered : bool) (k : nat) :
  List.length (createList tokens isOrdered)
  = List.length (filter (fun t => isLit "list_item_close" (type t)) tokens)
  /\ (forall p,
         nth_error (createList tokens isOrdered) k = Some p ->
         exists text_,
           p = listItem ((if isOrdered then decimal (S k) ++ u ". "
                          else [bullet; 32%N]) ++ text_))
  /\ List.length (createAIList (Some items) isOrdered) = List.length items
  /\ nth_error (createAIList (Some items) isOrdered) k
     = option_map
         (fun item =>
            listItem ((if isOrdered then decimal (S k) ++ u ". "
                       else [bullet; 32%N]) ++ item))
         (nth_error items k).
Proof.
  split; [|split; [|split]].
  - apply createListFrom_length.
  - intros p H. apply createListFrom_numbered in H as (t & ->).
    exists t. reflexivity.
  - unfold createAIList. generalize 0%nat.
    induction items as [|item rest IH]; intros i; [reflexivity|].
    cbn [aiListFrom List.length]. now rewrite IH.
  - unfold createAIList. rewrite aiListFrom_nth.
    replace (0 + k + 1)%nat with (S k) by lia. reflexivity.
Qed.

(** *** Tables *)

(** X18.  A table of the local path is a rectangle: when the loop
    collected no row with a cell the result is an empty paragraph, not a
    table; otherwise the table has one row for each collected row, every
    row has as many cells as the longest collected row, and each row is
    its own cells followed by empty cells. *)
Theorem local_table_is_rectangular (tokens : list Token) :
  match collectRows tokens with
  | [] => createTable tokens = ElParagraph (mkParagraph [p_text []])
  | _ :: _ =>
      exists t,
        createTable tokens = ElTable t
        /\ List.length (rows t) = List.length (collectRows tokens)
        /\ Forall (fun n => n = maxLength (collectRows tokens))
             (Columns.counts t)
        /\ (exists row, In row (collectRows tokens)
                        /\ List.length row = maxLength (collectRows tokens))
        /\ rows t
           = map (fun row =>
                    {| cells :=
                         map tableCell row
                         ++ repeat emptyCell
                              (maxLength (collectRows tokens)
                               - List.length row) |})
               (collectRows tokens)
  end.
Proof.
  destruct (collectRows tokens) as [|row rows_] eqn:E.
  - unfold createTable. now rewrite E.
  - assert (exists t, createTable tokens = ElTable t) as (t & T).
    { unfold createTable. rewrite E. eauto. }
    destruct (RendererFacts.createTable_uniform tokens t T) as (F & M & R).
    rewrite E in F, M, R.
    exists t. split; [exact T|]. split; [|auto].
    rewrite R. now rewrite length_map.
Qed.

Lemma local_table_is_rectangular_witness :
  exists t,
    createTable Scenarios.raggedTable = ElTable t
    /\ Columns.counts t = [2; 2]%nat.
Proof.
  pose proof (local_table_is_rectangular Scenarios.raggedTable) as H.
  change (collectRows Scenarios.raggedTable)
    with [ [ {| cell_content := u "A"; cell_isHeader := true |};
             {| cell_content := u "B"; cell_isHeader := true |} ];
           [ {| cell_content := u "1"; cell_isHeader := false |} ] ] in H.
  destruct H as (t & T & _ & _ & _ & R).
  exists t. split; [exact T|]. unfold Columns.counts. rewrite R. reflexivity.
Defined.

End LocalRenderFacts.

(** ** The closing token of a block *)

Module TokenFacts.
Import MarkdownParser DocxConverter.
Local Open Scope Z_scope.

(** What one token adds to the depth. *)
Lemma balance_cons (openType closeType : ustring) (token : Token)
  (tokens : list Token) :
  Blocks.balance openType closeType (token :: tokens)
  = (if Str.eqb (type token) openType then 1 else 0)
    - (if Str.eqb (type token) closeType then 1 else 0)
    + Blocks.balance openType closeType tokens.
Proof.
  unfold Blocks.balance, Blocks.isType. cbn [filter].
  destruct (Str.eqb (type token) openType),
    (Str.eqb (type token) closeType); cbn [List.length]; lia.
Qed.

Lemma findClosingFrom_first (openType closeType : ustring)
  (rest : list Token) :
  forall depth i,
    1 <= depth ->
    match findClosingFrom rest openType closeType depth i with
    | Some r =>
        exists k token,
          r = (i + k)%nat
          /\ nth_error rest k = Some token
          /\ type token = closeType
          /\ depth + Blocks.balance openType closeType (firstn (S k) rest) = 0
          /\ forall j, (j < k)%nat ->
               1 <= depth + Blocks.balance openType closeType (firstn (S j) rest)
    | None =>
        forall j, (j < List.length rest)%nat ->
          1 <= depth + Blocks.balance openType closeType (firstn (S j) rest)
    end.
Proof.
  induction rest as [|token rest IH]; intros depth i D.
  - cbn. intros j Hj. lia.
  - cbn [findClosingFrom].
    set (d := (if Str.eqb (type token) openType then 1 else 0)
              - (if Str.eqb (type token) closeType then 1 else 0)).
    assert ((if Str.eqb (type token) closeType
             then (if Str.eqb (type token) openType then depth + 1 else depth) - 1
             else (if Str.eqb (type token) openType then depth + 1 else depth))
            = depth + d) as E.
    { unfold d. destruct (Str.eqb (type token) openType),
        (Str.eqb (type token) closeType); lia. }
    rewrite E.
    assert (forall j, Blocks.balance openType closeType (firstn (S j) (token :: rest))
                      = d + Blocks.balance openType closeType (firstn j rest)) as B.
    { intros j. cbn [firstn]. apply balance_cons. }
    destruct (Z.eqb_spec (depth + d) 0) as [Z0|Z0].
    + exists 0%nat, token. rewrite B. cbn [firstn].
      repeat split; try lia.
      * unfold d in Z0.
        destruct (Str.eqb (type token) closeType) eqn:C;
          [now apply StrFacts.eqb_eq in C|].
        destruct (Str.eqb (type token) openType); lia.
      * unfold Blocks.balance. cbn. lia.
    + assert (1 <= depth + d) as D'.
      { unfold d in *. destruct (Str.eqb (type token) openType),
          (Str.eqb (type token) closeType); lia. }
      specialize (IH (depth + d) (S i) D').
      destruct (findClosingFrom rest openType closeType (depth + d) (S i))
        as [r|].
      * destruct IH as (k & tok & -> & N & T & Z & Hj).
        exists (S k), tok. rewrite B. repeat split; auto; try lia.
        intros [|j] Hlt.
        -- rewrite B. cbn [firstn]. unfold Blocks.balance. cbn. lia.
        -- rewrite B. specialize (Hj j). lia.
      * intros [|j] Hlt.
        -- rewrite B. cbn [firstn]. unfold Blocks.balance. cbn. lia.
        -- rewrite B. specialize (IH j). cbn [List.length] in Hlt. lia.
Qed.

(** X11.  [findClosingToken] returns the first index after [startIndex]
    at which the closing tokens outnumber the opening ones by one, the
    tokens counted from the one after [startIndex]: the token there has
    the closing type and is the partner of the token at [startIndex];
    nested blocks of the same kind are stepped over.  When there is no
    such index it returns [tokens.length - 1]: the index of the last
    token, and [-1] on the empty array. *)
Theorem findClosingToken_is_partner (tokens : list Token) (startIndex : nat)
  (closeType : ustring) :
  let openType := replaceFirst (u "_close") (u "_open") closeType in
  let r := findClosingToken tokens startIndex closeType in
  let depth (j : nat) :=
    1 + Blocks.balance openType closeType
          (slice tokens (S startIndex) (Z.of_nat j + 1)) in
  (exists i,
     r = Z.of_nat i
     /\ (startIndex < i < List.length tokens)%nat
     /\ (exists token, nth_error tokens i = Some token /\ type token = closeType)
     /\ depth i = 0
     /\ forall j, (startIndex < j < i)%nat -> 1 <= depth j)
  \/ (r = Z.of_nat (List.length tokens) - 1
      /\ forall j, (startIndex < j < List.length tokens)%nat -> 1 <= depth j).
Proof.
  cbv zeta. unfold findClosingToken.
  assert (forall j : nat,
             slice tokens (S startIndex) (Z.of_nat j + 1)
             = firstn (S j - S startIndex) (skipn (S startIndex) tokens)) as Sl.
  { intros j. unfold slice.
    destruct (Z.ltb_spec (Z.of_nat j + 1) 0) as [C|_]; [lia|].
    f_equal. lia. }
  pose proof (findClosingFrom_first
                (replaceFirst (u "_close") (u "_open") closeType) closeType
                (skipn (S startIndex) tokens) 1 (S startIndex) (Z.le_refl 1))
    as H.
  destruct (findClosingFrom (skipn (S startIndex) tokens)
              (replaceFirst (u "_close") (u "_open") closeType) closeType 1
              (S startIndex)) as [r|].
  - left. destruct H as (k & token & -> & N & T & Z & Hj).
    rewrite nth_error_skipn in N.
    pose proof (ConvertFacts.nth_error_length _ _ _ N) as L.
    exists (S startIndex + k)%nat.
    split; [reflexivity|]. split; [lia|]. split; [eauto|]. split.
    + rewrite Sl.
      replace (S (S startIndex + k) - S startIndex)%nat with (S k) by lia.
      exact Z.
    + intros j Hlt. rewrite Sl.
      replace (S j - S startIndex)%nat with (S (j - S startIndex)) by lia.
      apply Hj. lia.
  - right. split; [reflexivity|]. intros j Hlt. rewrite Sl.
    replace (S j - S startIndex)%nat with (S (j - S startIndex)) by lia.
    apply H. rewrite length_skipn. lia.
Qed.

(** On the empty array the result is [-1]; on a table that is not closed
    it is the index of the last token; a nested quote is stepped over. *)
Lemma findClosingToken_examples :
  findClosingToken [] 0 (u "table_close") = -1
  /\ findClosingToken [Stream.block "table_open"; Stream.block "thead_open"]
       0 (u "table_close") = 1
  /\ findClosingToken
       [ Stream.block "blockquote_open"; Stream.block "blockquote_open";
         Stream.block "blockquote_close"; Stream.block "blockquote_close";
         Stream.block "hr" ]
       0 (u "blockquote_close") = 3.
Proof. repeat split. Qed.

End TokenFacts.

(** ** Conversions as a whole *)

Module ConversionFacts.
Import World Schema MarkdownParser Docx DocxConverter GeminiService Attempt.

(** A diagram block costs at most three calls and leaves the client as
    it was; with a client that is not available it costs nothing. *)
Lemma createDiagramBlock_budget (rt : Runtime) (asciiContent : ustring)
  (w : State) :
  exists elements w',
    createDiagramBlock rt asciiContent w = (inr elements, w')
    /\ (attempts (trace w') <= attempts (trace w) + 3)%nat
    /\ model w' = model w /\ useGemini w' = useGemini w.
Proof.
  destruct (RetryBounds.convertDiagramWithAI_history rt (fun _ => True)
              (fun _ _ _ _ _ _ => I) asciiContent w)
    as (a & w' & ps & E & T & L & _ & M & U).
  exists (DiagramBlock.rendering rt asciiContent a), w'.
  unfold createDiagramBlock, tryCatch, bind. rewrite E. unfold ret.
  split; [destruct a; reflexivity|]. split; [|auto].
  destruct (unavailable w).
  - destruct T as [-> _]. lia.
  - destruct T as [T _].
    rewrite T, RetryFacts.attempts_app, RetryBounds.attempts_rounds.
    unfold RETRY_CONFIG.maxRetries in L. lia.
Qed.

Lemma diagrams_cons (token : Token) (rest : list Token) :
  Blocks.diagrams (token :: rest)
  = ((if Blocks.isDiagramBlock token then 1 else 0) + Blocks.diagrams rest)%nat.
Proof.
  unfold Blocks.diagrams. cbn [filter].
  now destruct (Blocks.isDiagramBlock token).
Qed.

(** The walk over the tokens: three calls at most for each diagram
    block, and nothing at all when there is none. *)
Lemma processTokensFrom_budget (rt : Runtime) (tokens : list Token) :
  forall skip elements w,
  exists r w',
    processTokensFrom rt tokens skip elements w = (r, w')
    /\ (attempts (trace w')
        <= attempts (trace w) + 3 * Blocks.diagrams tokens)%nat
    /\ model w' = model w /\ useGemini w' = useGemini w
    /\ (Blocks.diagrams tokens = 0%nat -> w' = w).
Proof.
  induction tokens as [|token rest IH]; intros skip elements w.
  - exists (inr elements), w. cbn. repeat split; auto. lia.
  - assert (forall skip' elements',
               exists r w',
                 processTokensFrom rt rest skip' elements' w = (r, w')
                 /\ (attempts (trace w')
                     <= attempts (trace w) + 3 * Blocks.diagrams (token :: rest))%nat
                 /\ model w' = model w /\ useGemini w' = useGemini w
                 /\ (Blocks.diagrams (token :: rest) = 0%nat -> w' = w)) as Step.
    { intros skip' elements'.
      destruct (IH skip' elements' w) as (r & w' & E & A & M & U & Q).
      exists r, w'. rewrite diagrams_cons. repeat split; auto; try lia.
      intros Z. apply Q. lia. }
    cbn [processTokensFrom]. destruct skip as [|skip]; [|apply Step].
    unfold Blocks.isDiagramBlock in *.
    destruct (isLit "heading_open" (type token)).
    { destruct rest as [|headingContent rest'].
      - exists (inl (Js.Obj
                       (Js.TypeError
                          "Cannot read properties of undefined (reading 'content')"))),
          w.
        unfold throw. repeat split; auto. lia.
      - unfold bind, lift.
        destruct (createHeading _ _) as [e|paragraph]; [|apply Step].
        exists (inl (Js.Obj e)), w. repeat split; auto. lia. }
    destruct (isLit "paragraph_open" (type token)); [apply Step|].
    assert (forall b,
               (b = true -> Blocks.isDiagramBlock token = true) ->
               exists r w',
                 (if b
                  then bind (createDiagramBlock rt (content token))
                         (fun diagramElements =>
                            processTokensFrom rt rest 0
                              (elements ++ diagramElements))
                  else processTokensFrom rt rest 0
                         (elements
                          ++ map ElParagraph
                               (createCodeBlock rt (content token) (info token))))
                   w = (r, w')
                 /\ (attempts (trace w')
                     <= attempts (trace w) + 3 * Blocks.diagrams (token :: rest))%nat
                 /\ model w' = model w /\ useGemini w' = useGemini w
                 /\ (Blocks.diagrams (token :: rest) = 0%nat -> w' = w)) as Fence.
    { intros [|] Hb; [|apply Step].
      rewrite diagrams_cons, (Hb eq_refl).
      destruct (createDiagramBlock_budget rt (content token) w)
        as (els & w1 & E1 & A1 & M1 & U1).
      destruct (IH 0%nat (elements ++ els) w1) as (r & w' & E & A & M & U & _).
      exists r, w'. unfold bind. rewrite E1.
      repeat split; try congruence; try lia. }
    destruct (isLit "fence" (type token)) eqn:F.
    { apply Fence. intros B. unfold Blocks.isDiagramBlock. now rewrite F, B. }
    destruct (isLit "code_block" (type token)) eqn:C.
    { assert (forall b,
                 (b = true -> Blocks.isDiagramBlock token = true) ->
                 exists r w',
                   (if b
                    then bind (createDiagramBlock rt (content token))
                           (fun diagramElements =>
                              processTokensFrom rt rest 0
                                (elements ++ diagramElements))
                    else processTokensFrom rt rest 0
                           (elements
                            ++ map ElParagraph
                                 (createCodeBlock rt (content token) [])))
                     w = (r, w')
                   /\ (attempts (trace w')
                       <= attempts (trace w) + 3 * Blocks.diagrams (token :: rest))%nat
                   /\ model w' = model w /\ useGemini w' = useGemini w
                   /\ (Blocks.diagrams (token :: rest) = 0%nat -> w' = w)) as Code.
      { intros [|] Hb; [|apply Step].
        rewrite diagrams_cons, (Hb eq_refl).
        destruct (createDiagramBlock_budget rt (content token) w)
          as (els & w1 & E1 & A1 & M1 & U1).
        destruct (IH 0%nat (elements ++ els) w1) as (r & w' & E & A & M & U & _).
        exists r, w'. unfold bind. rewrite E1.
        repeat split; try congruence; try lia. }
      apply Code. intros B. unfold Blocks.isDiagramBlock.
      now rewrite F, C, B. }
    repeat match goal with
           | |- exists r w', (if ?c then _ else _) _ = _ /\ _ => destruct c
           end; apply Step.
Qed.

Lemma convertToDocx_false (rt : Runtime) (markdown : ustring) (w : State) :
  convertToDocx rt markdown false w
  = match processTokensFrom rt (parseToTokens rt markdown) 0 [] w with
    | (inr docElements, w') =>
        (inr {| margin := convertInchesToTwip 1; doc_children := docElements |},
         w')
    | (inl error, w') => (inl error, w')
    end.
Proof.
  unfold convertToDocx, tryAI. unfold bind at 1. unfold ret at 1.
  unfold bind at 1. rewrite ConvertFacts.processTokens_walk.
  destruct (processTokensFrom rt (parseToTokens rt markdown) 0 [] w)
    as [[e|els] w']; reflexivity.
Qed.

(** How [convertToDocx] with [useAI] true goes on after the document
    wrapper has ended. *)
Lemma convertToDocx_after_wrapper (rt : Runtime) (markdown : ustring)
  (w w1 : State) (r : Js.Thrown + option ParsedDocument) :
  parseDocumentWithAI rt markdown w = (r, w1) ->
  (unavailable w = true -> w1 = w /\ r = inr None) ->
  (forall n, r <> inl (Js.Nil n)) ->
  convertToDocx rt markdown true w
  = match r with
    | inr aiParsed =>
        match AIPath.usable rt aiParsed with
        | Some docElements =>
            (inr {| margin := 1440; doc_children := docElements |}, w1)
        | None => convertToDocx rt markdown false w1
        end
    | inl _ => convertToDocx rt markdown false w1
    end.
Proof.
  intros E Off Obj.
  assert (forall w0,
             bind (processTokens rt (parseToTokens rt markdown) [])
               (fun docElements =>
                  ret {| margin := convertInchesToTwip 1;
                         doc_children := docElements |}) w0
             = convertToDocx rt markdown false w0) as Local.
  { intros w0. reflexivity. }
  unfold convertToDocx at 1, tryAI. unfold bind at 1. unfold bind at 1.
  rewrite ConvertFacts.unavailable_isGeminiAvailable.
  destruct (unavailable w) eqn:U.
  - destruct (Off eq_refl) as (-> & ->).
    cbn [negb AIPath.usable]. unfold ret at 1. apply Local.
  - cbn [negb]. unfold tryCatch, bind at 1. rewrite E.
    destruct r as [[e|n]|parsed].
    + unfold ret at 1. apply Local.
    + now destruct (Obj n).
    + unfold AIPath.usable.
      destruct parsed as [doc|]; [|apply Local].
      destruct (elements doc) as [[|elem elems]|]; try apply Local.
      unfold lift, bind at 1.
      destruct (processAIParsedElements rt doc) as [e|els]; [apply Local|].
      reflexivity.
Qed.

(** The document wrapper ends with a value or with an error object. *)
Lemma parseDocumentWithAI_ends (rt : Runtime) (markdown : ustring) (w : State) :
  exists r w1,
    parseDocumentWithAI rt markdown w = (r, w1)
    /\ (unavailable w = true -> w1 = w /\ r = inr None)
    /\ (forall n, r <> inl (Js.Nil n))
    /\ (attempts (trace w1) <= attempts (trace w) + 3)%nat
    /\ model w1 = model w /\ useGemini w1 = useGemini w.
Proof.
  destruct (RetryBounds.parseDocumentWithAI_history rt (fun _ => True)
              (fun _ _ _ _ _ _ => I) markdown w)
    as (r & w1 & ps & E & T & L & _ & M & U).
  exists r, w1. split; [exact E|].
  destruct (unavailable w).
  - destruct T as (-> & ->). repeat split; auto; try lia. discriminate.
  - destruct T as (T & X). repeat split; auto; try discriminate.
    + intros n ->. unfold ends in X.
      destruct (rejection _ _ _); [discriminate | now destruct X].
    + rewrite T, RetryFacts.attempts_app, RetryBounds.attempts_rounds.
      unfold RETRY_CONFIG.maxRetries in L. lia.
Qed.

(** X12.  With [useAI] true the conversion first asks for the structure
    of the document.  When the reply can be used (it is an object with
    at least one element and rendering the elements does not throw; a
    heading whose level is not one of 1 to 6 makes the rendering throw)
    the document holds the rendered elements and nothing else happens:
    the markdown is not parsed locally and no diagram prompt is sent.
    In every other case (no client, three failures, an error that is not
    retried, a [null] reply, no elements, an element that cannot be
    rendered, a wrapper that throws) the result is exactly that of the
    conversion with [useAI] false, run after the attempts. *)
Theorem ai_structure_or_local_conversion (rt : Runtime) (markdown : ustring)
  (w : State) :
  exists r w1,
    parseDocumentWithAI rt markdown w = (r, w1)
    /\ convertToDocx rt markdown true w
       = match r with
         | inr aiParsed =>
             match AIPath.usable rt aiParsed with
             | Some docElements =>
                 (inr {| margin := 1440; doc_children := docElements |}, w1)
             | None => convertToDocx rt markdown false w1
             end
         | inl _ => convertToDocx rt markdown false w1
         end.
Proof.
  destruct (parseDocumentWithAI_ends rt markdown w)
    as (r & w1 & E & Off & Obj & _).
  exists r, w1. split; [exact E|].
  exact (convertToDocx_after_wrapper rt markdown w w1 r E Off Obj).
Qed.

(** A structure with a heading of level 7: the rendering throws what the
    [TextRun] throws on a size that is NaN, and the document is that of
    the local walk, with the heading "Local title". *)
Lemma ai_structure_or_local_conversion_witness :
  processAIParsedElements Documents.deep Documents.deepHeading
  = inl invalidSize
  /\ convertToDocx Documents.deep (u "# Local title") true Samples.ready
     = (inr {| margin := 1440;
               doc_children :=
                 Stream.rendered Documents.deep
                   (Stream.Heading HEADING_1 (u "Local title")) |},
        called (DocumentPrompt (u "# Local title")) Samples.ready).
Proof.
  split; [reflexivity|].
  destruct (ai_structure_or_local_conversion Documents.deep
              (u "# Local title") Samples.ready) as (r & w1 & E & C).
  assert (parseDocumentWithAI Documents.deep (u "# Local title") Samples.ready
          = (inr (Some Documents.deepHeading),
             called (DocumentPrompt (u "# Local title")) Samples.ready)) as V
    by (vm_compute; reflexivity).
  rewrite V in E. injection E as <- <-. rewrite C.
  vm_compute. reflexivity.
Defined.

(** X13.  A conversion reaches the backend at most three times for the
    structure of the document (not at all when [useAI] is false) and at
    most three times for each fenced or indented code block that holds a
    glyph, and it leaves the client as it was. *)
Theorem conversion_call_budget (rt : Runtime) (markdown : ustring)
  (useAI : bool) (w : State) :
  exists r w',
    convertToDocx rt markdown useAI w = (r, w')
    /\ (attempts (trace w')
        <= attempts (trace w) + (if useAI then 3 else 0)
           + 3 * Blocks.diagrams (parseToTokens rt markdown))%nat
    /\ model w' = model w /\ useGemini w' = useGemini w.
Proof.
  assert (forall w0,
             exists r w',
               convertToDocx rt markdown false w0 = (r, w')
               /\ (attempts (trace w')
                   <= attempts (trace w0)
                      + 3 * Blocks.diagrams (parseToTokens rt markdown))%nat
               /\ model w' = model w0 /\ useGemini w' = useGemini w0) as Local.
  { intros w0. rewrite convertToDocx_false.
    destruct (processTokensFrom_budget rt (parseToTokens rt markdown) 0 [] w0)
      as (r & w' & E & A & M & U & _).
    rewrite E. destruct r as [e|els]; eauto 6. }
  destruct useAI.
  - destruct (parseDocumentWithAI_ends rt markdown w)
      as (parsed & w1 & E & Off & Obj & A1 & M & U).
    rewrite (convertToDocx_after_wrapper rt markdown w w1 parsed E Off Obj).
    destruct (Local w1) as (r & w' & E2 & A2 & M2 & U2).
    assert (exists r0 w0,
               convertToDocx rt markdown false w1 = (r0, w0)
               /\ (attempts (trace w0)
                   <= attempts (trace w) + 3
                      + 3 * Blocks.diagrams (parseToTokens rt markdown))%nat
               /\ model w0 = model w /\ useGemini w0 = useGemini w) as Fallback.
    { exists r, w'. split; [exact E2|]. repeat split; try congruence. lia. }
    destruct parsed as [thrown|parsed]; [exact Fallback|].
    destruct (AIPath.usable rt parsed) as [els|]; [|exact Fallback].
    do 2 eexists. split; [reflexivity|]. repeat split; auto. lia.
  - destruct (Local w) as (r & w' & E2 & A2 & M2 & U2).
    exists r, w'. split; [exact E2|]. repeat split; auto. lia.
Qed.

(** X14.  A conversion with [useAI] false of a markdown that has no
    fenced or indented code block with a glyph does nothing to the
    outside, whatever the state of the client: the backend is not
    called and nothing is slept. *)
Theorem local_conversion_without_diagram_is_offline (rt : Runtime)
  (markdown : ustring) (w : State) :
  Blocks.diagrams (parseToTokens rt markdown) = 0%nat ->
  exists r, convertToDocx rt markdown false w = (r, w).
Proof.
  intros Z. rewrite convertToDocx_false.
  destruct (processTokensFrom_budget rt (parseToTokens rt markdown) 0 [] w)
    as (r & w' & E & _ & _ & _ & Q).
  rewrite E, (Q Z). destruct r as [e|els]; eauto.
Qed.

Lemma local_conversion_without_diagram_is_offline_witness :
  exists r,
    convertToDocx Scenarios.prose (u "Hello") false Samples.ready
    = (r, Samples.ready).
Proof.
  exact (local_conversion_without_diagram_is_offline Scenarios.prose
           (u "Hello") Samples.ready eq_refl).
Defined.

(** *** What leaves the machine *)

Lemma createDiagramBlock_sends (rt : Runtime) (asciiContent : ustring)
  (w : State) :
  exists elements w' t,
    createDiagramBlock rt asciiContent w = (inr elements, w')
    /\ trace w' = trace w ++ t
    /\ Forall (fun ev => match ev with
                         | GenerateContent p => p = DiagramPrompt asciiContent
                         | Sleep _ => True
                         end) t.
Proof.
  destruct (RetryBounds.convertDiagramWithAI_history rt (fun _ => True)
              (fun _ _ _ _ _ _ => I) asciiContent w)
    as (a & w' & ps & E & T & _).
  assert (createDiagramBlock rt asciiContent w
          = (inr (DiagramBlock.rendering rt asciiContent a), w')) as B.
  { unfold createDiagramBlock, tryCatch, bind. rewrite E.
    destruct a; reflexivity. }
  rewrite B.
  destruct (unavailable w).
  - destruct T as [-> _].
    exists (DiagramBlock.rendering rt asciiContent a), w, [].
    rewrite app_nil_r. auto.
  - destruct T as [T _].
    exists (DiagramBlock.rendering rt asciiContent a), w',
      (History.rounds (DiagramPrompt asciiContent) ps).
    split; [reflexivity|]. split; [exact T|].
    unfold History.rounds, History.retries. constructor; [reflexivity|].
    clear. induction ps as [|ms ps IH]; cbn; auto.
Qed.

Lemma sent_cons (token : Token) (rest : list Token) (t : list Event) :
  Forall (Blocks.sent rest) t -> Forall (Blocks.sent (token :: rest)) t.
Proof.
  apply Forall_impl. intros [p|ms]; cbn; [|auto].
  intros (tok & Hin & D & E). exists tok. split; [now right | auto].
Qed.

Lemma block_then (rt : Runtime) (token : Token) (rest : list Token)
  (k : list Element -> M (list Element)) (w : State) :
  Blocks.isDiagramBlock token = true ->
  (forall els w1,
      exists r w2 t,
        k els w1 = (r, w2) /\ trace w2 = trace w1 ++ t
        /\ Forall (Blocks.sent rest) t) ->
  exists r w' t,
    bind (createDiagramBlock rt (content token)) k w = (r, w')
    /\ trace w' = trace w ++ t
    /\ Forall (Blocks.sent (token :: rest)) t.
Proof.
  intros D Hk.
  destruct (createDiagramBlock_sends rt (content token) w)
    as (els & w1 & t1 & E1 & T1 & F1).
  destruct (Hk els w1) as (r & w2 & t2 & K & T2 & F2).
  exists r, w2, (t1 ++ t2). unfold bind. rewrite E1.
  split; [exact K|]. split.
  - now rewrite T2, T1, app_assoc.
  - apply Forall_app. split; [|now apply sent_cons].
    eapply Forall_impl; [|exact F1]. intros [p|ms]; cbn; [|auto].
    intros ->. exists token. split; [now left | auto].
Qed.

Lemma processTokensFrom_sends (rt : Runtime) (tokens : list Token) :
  forall skip elements w,
  exists r w' t,
    processTokensFrom rt tokens skip elements w = (r, w')
    /\ trace w' = trace w ++ t
    /\ Forall (Blocks.sent tokens) t.
Proof.
  induction tokens as [|token rest IH]; intros skip elements w.
  - exists (inr elements), w, []. cbn. rewrite app_nil_r. auto.
  - assert (forall skip' elements',
               exists r w' t,
                 processTokensFrom rt rest skip' elements' w = (r, w')
                 /\ trace w' = trace w ++ t
                 /\ Forall (Blocks.sent (token :: rest)) t) as Step.
    { intros skip' elements'.
      destruct (IH skip' elements' w) as (r & w' & t & E & T & F).
      exists r, w', t. auto using sent_cons. }
    cbn [processTokensFrom]. destruct skip as [|skip]; [|apply Step].
    destruct (isLit "heading_open" (type token)).
    { destruct rest as [|headingContent rest'].
      - exists (inl (Js.Obj
                       (Js.TypeError
                          "Cannot read properties of undefined (reading 'content')"))),
          w, [].
        unfold throw. rewrite app_nil_r. auto.
      - unfold bind, lift.
        destruct (createHeading _ _) as [e|paragraph]; [|apply Step].
        exists (inl (Js.Obj e)), w, []. rewrite app_nil_r. auto. }
    destruct (isLit "paragraph_open" (type token)); [apply Step|].
    destruct (isLit "fence" (type token)) eqn:F.
    { destruct (isAsciiDiagram (content token)) eqn:B; [|apply Step].
      apply block_then; [|intros els w1; apply IH].
      unfold Blocks.isDiagramBlock. now rewrite F, B. }
    destruct (isLit "code_block" (type token)) eqn:C.
    { destruct (isAsciiDiagram (content token)) eqn:B; [|apply Step].
      apply block_then; [|intros els w1; apply IH].
      unfold Blocks.isDiagramBlock. now rewrite F, C, B. }
    repeat match goal with
           | |- exists r w' t, (if ?c then _ else _) _ = _ /\ _ => destruct c
           end; apply Step.
Qed.

(** X20.  With [useAI] false the only thing a conversion sends to the
    backend is the content of a fenced or indented code block that holds
    a glyph, under the diagram prompt: the markdown as a whole is never
    sent, and no other part of it. *)
Theorem useAI_false_sends_only_diagrams (rt : Runtime) (markdown : ustring)
  (w : State) :
  exists r w' t,
    convertToDocx rt markdown false w = (r, w')
    /\ trace w' = trace w ++ t
    /\ Forall (Blocks.sent (parseToTokens rt markdown)) t
    /\ Quiet.documentCalls t = 0%nat.
Proof.
  rewrite convertToDocx_false.
  destruct (processTokensFrom_sends rt (parseToTokens rt markdown) 0 [] w)
    as (r & w' & t & E & T & F).
  rewrite E.
  assert (Quiet.documentCalls t = 0%nat) as Q.
  { clear E T. induction F as [|ev t Hev F IH]; [reflexivity|].
    unfold Quiet.documentCalls in *. cbn [filter].
    destruct ev as [[a|m]|ms]; cbn; auto.
    destruct Hev as (tok & _ & _ & [=]). }
  destruct r as [e|els]; eauto 8.
Qed.

(** X19.  Without a client that is available the flag [useAI] makes no
    difference, and the conversion does nothing to the outside. *)
Theorem no_client_no_call (rt : Runtime) (markdown : ustring) (useAI : bool)
  (w : State) :
  unavailable w = true ->
  convertToDocx rt markdown useAI w = convertToDocx rt markdown false w
  /\ snd (convertToDocx rt markdown useAI w) = w.
Proof.
  intros U.
  assert (convertToDocx rt markdown useAI w = convertToDocx rt markdown false w)
    as E.
  { destruct useAI; [|reflexivity].
    unfold convertToDocx, tryAI. unfold bind at 1. unfold bind at 1.
    rewrite ConvertFacts.unavailable_isGeminiAvailable, U. reflexivity. }
  split; [exact E|]. rewrite E.
  destruct (ConvertFacts.convertToDocx_local rt markdown w)
    as (r & w' & E' & _ & Q).
  rewrite E'. exact (Q U).
Qed.

Lemma no_client_no_call_witness :
  convertToDocx Samples.denying Samples.boxMarkdown true Samples.off
  = convertToDocx Samples.denying Samples.boxMarkdown false Samples.off
  /\ snd (convertToDocx Samples.denying Samples.boxMarkdown true Samples.off)
     = Samples.off.
Proof.
  exact (no_client_no_call Samples.denying Samples.boxMarkdown true
           Samples.off eq_refl).
Defined.

(** *** Conversions that cannot fail *)

Lemma endsWithHeadingOpen_cons (token next : Token) (rest : list Token) :
  Blocks.endsWithHeadingOpen (token :: next :: rest)
  = Blocks.endsWithHeadingOpen (next :: rest).
Proof.
  unfold Blocks.endsWithHeadingOpen. cbn [rev].
  destruct (rev rest ++ [next]) as [|x l] eqn:E.
  - now apply app_eq_nil in E as [_ E].
  - reflexivity.
Qed.

(** A heading with one of the six tags is rendered. *)
Lemma createHeading_tagged (text_ : option ustring) (tag_ : ustring) :
  existsb (Str.eqb tag_) Blocks.headingTags = true ->
  exists paragraph,
    createHeading text_ (parseInt (skipn 1 tag_)) = inr paragraph.
Proof.
  unfold Blocks.headingTags. cbn [existsb].
  repeat match goal with
         | |- (Str.eqb tag_ ?t || _) = true -> _ =>
             destruct (Str.eqb tag_ t) eqn:E;
             [apply StrFacts.eqb_eq in E; subst tag_; intros _;
              eexists; reflexivity
             | clear E; cbn [orb]]
         end.
  discriminate.
Qed.

Lemma processTokensFrom_total (rt : Runtime) (tokens : list Token) :
  Blocks.endsWithHeadingOpen tokens = false ->
  Blocks.headingsTagged tokens = true ->
  forall skip elements w,
  exists docElements w',
    processTokensFrom rt tokens skip elements w = (inr docElements, w').
Proof.
  induction tokens as [|token rest IH]; intros H G skip elements w.
  - cbn. unfold ret. eauto.
  - unfold Blocks.headingsTagged in G. cbn [forallb] in G.
    apply andb_prop in G as [G G'].
    assert (forall skip' elements' w0,
               exists docElements w',
                 processTokensFrom rt rest skip' elements' w0
                 = (inr docElements, w')) as Step.
    { destruct rest as [|next rest'].
      - intros skip' elements' w0. cbn. unfold ret. eauto.
      - apply IH; [|exact G']. now rewrite endsWithHeadingOpen_cons in H. }
    cbn [processTokensFrom]. destruct skip as [|skip]; [|apply Step].
    destruct (isLit "heading_open" (type token)) eqn:O.
    { destruct rest as [|headingContent rest'].
      - unfold Blocks.endsWithHeadingOpen in H. cbn in H. congruence.
      - unfold isLit in O. rewrite O in G. cbn [negb orb] in G.
        destruct (createHeading_tagged (Some (content headingContent))
                    (tag token) G) as (paragraph & E).
        unfold bind, lift. rewrite E. apply Step. }
    repeat match goal with
           | |- exists d w', (if ?c then _ else _) _ = _ => destruct c
           end;
      try apply Step;
      unfold bind;
      destruct (createDiagramBlock_budget rt (content token) w)
        as (els & w1 & E1 & _);
      rewrite E1; apply Step.
Qed.

(** Without a heading left open at the end and with the six tags on the
    headings, the conversion returns a document. *)
Lemma convertToDocx_total (rt : Runtime) (markdown : ustring) :
  Blocks.endsWithHeadingOpen (parseToTokens rt markdown) = false ->
  Blocks.headingsTagged (parseToTokens rt markdown) = true ->
  forall useAI w,
  exists document w',
    convertToDocx rt markdown useAI w = (inr document, w').
Proof.
  intros H G.
  assert (forall w0,
             exists document w',
               convertToDocx rt markdown false w0 = (inr document, w')) as Local.
  { intros w0. rewrite convertToDocx_false.
    destruct (processTokensFrom_total rt _ H G 0%nat [] w0) as (els & w' & E).
    rewrite E. eauto. }
  intros [|] w0; [|apply Local].
  destruct (parseDocumentWithAI_ends rt markdown w0)
    as (r & w1 & E & Off & Obj & _).
  rewrite (convertToDocx_after_wrapper rt markdown w0 w1 r E Off Obj).
  destruct r as [thrown|parsed]; [apply Local|].
  destruct (AIPath.usable rt parsed) as [els|]; [eauto | apply Local].
Qed.

End ConversionFacts.

(** ** The convert route and the name of the download *)

Module ServerFacts.
Import World Server.

(** A letter of the three extensions under the [i] flag. *)
Lemma ci_lower (a : ascii) (c : N) :
  (let n := N_of_ascii a in
   (97 <=? n) && (n <=? 122) || negb ((65 <=? n) && (n <=? 90))
                                && negb ((97 <=? n) && (n <=? 122)))%N = true ->
  Regex.ci a c = N.eqb (Names.lower c) (N_of_ascii a).
Proof.
  cbv zeta. unfold Regex.ci, Names.lower. set (n := N_of_ascii a).
  intros H.
  destruct (N.leb_spec 97 n), (N.leb_spec n 122), (N.leb_spec 65 n),
    (N.leb_spec n 90), (N.leb_spec 65 c), (N.leb_spec c 90);
    cbn [andb orb negb] in *; try discriminate; try lia;
    repeat match goal with
           | |- context [N.eqb ?x ?y] => destruct (N.eqb_spec x y)
           end; cbn [andb orb negb]; try reflexivity; lia.
Qed.

Lemma liti_here (str : string) :
  Names.small str = true ->
  forall s pos g,
    Regex.matchHere (Regex.liti str) s pos g
    = if Str.startsWith (u str) (map Names.lower s)
      then Some {| Regex.f_end := (pos + String.length str)%nat;
                   Regex.f_group := g |}
      else None.
Proof.
  induction str as [|a str IH]; intros Hs s pos g.
  - cbn. now rewrite Nat.add_0_r.
  - cbn [Names.small] in Hs. apply andb_true_iff in Hs as [Ha Hs].
    cbn [Regex.liti Regex.matchHere u String.length].
    destruct s as [|c s]; [reflexivity|].
    cbn [map Str.startsWith]. rewrite (ci_lower a c Ha).
    rewrite (N.eqb_sym (N_of_ascii a)).
    destruct (N.eqb (Names.lower c) (N_of_ascii a)); [|reflexivity].
    cbn [andb]. rewrite (IH Hs). now rewrite Nat.add_succ_r.
Qed.

Lemma startsWith_same_length (p t : ustring) :
  Str.startsWith p t && Nat.eqb (List.length p) (List.length t) = Str.eqb t p.
Proof.
  revert t. induction p as [|x p IH]; intros [|y t]; try reflexivity.
  cbn [Str.startsWith Str.eqb List.length Nat.eqb].
  rewrite (N.eqb_sym x y). destruct (N.eqb y x); [apply IH | reflexivity].
Qed.

Lemma length_u (str : string) : List.length (u str) = String.length str.
Proof. induction str as [|a str IH]; [reflexivity|]. cbn. now rewrite IH. Qed.

(** The expression matches at the head of [s] exactly when all of [s] is
    one of the three extensions. *)
Lemma extensionHere_extension (s : ustring) :
  extensionHere s = Names.isMarkdownExtension s.
Proof.
  unfold extensionHere, Names.isMarkdownExtension, extensions.
  cbn [existsb].
  rewrite !liti_here by reflexivity.
  rewrite <- !startsWith_same_length, !length_u, !length_map.
  repeat match goal with
         | |- context [if ?c then _ else _] => destruct c
         end; reflexivity.
Qed.

(** An extension begins with the dot and holds no other. *)
Lemma extension_dot (ext : ustring) :
  Names.isMarkdownExtension ext = true ->
  exists rest, map Names.lower ext = 46%N :: rest /\ ~ In 46%N rest.
Proof.
  unfold Names.isMarkdownExtension. cbn [existsb].
  intros H.
  repeat match type of H with
         | (_ || _ = true) => apply orb_true_iff in H as [H|H]
         end;
    try discriminate;
    apply StrFacts.eqb_eq in H; rewrite H; eexists; (split; [reflexivity|]);
    cbn; intuition discriminate.
Qed.

Lemma replaceExtension_at (stem ext : ustring) :
  Names.isMarkdownExtension ext = true ->
  replaceExtension (stem ++ ext) = stem ++ u ".docx".
Proof.
  intros H. induction stem as [|c stem IH].
  - destruct ext as [|x ext]; [discriminate H|].
    cbn [app replaceExtension]. now rewrite extensionHere_extension, H.
  - cbn [app replaceExtension]. rewrite extensionHere_extension.
    destruct (Names.isMarkdownExtension (c :: stem ++ ext)) eqn:E;
      [|now rewrite IH].
    exfalso.
    destruct (extension_dot _ E) as (rest & E1 & N1).
    destruct (extension_dot _ H) as (rest' & E2 & _).
    cbn [map] in E1. rewrite map_app, E2 in E1.
    injection E1 as _ <-. apply N1, in_or_app. right. now left.
Qed.

Lemma replaceExtension_none (s : ustring) :
  (forall stem ext, s = stem ++ ext -> Names.isMarkdownExtension ext = false) ->
  replaceExtension s = s.
Proof.
  induction s as [|c s IH]; intros H.
  - cbn [replaceExtension]. now rewrite extensionHere_extension, (H [] [] eq_refl).
  - cbn [replaceExtension].
    rewrite extensionHere_extension, (H [] (c :: s) eq_refl).
    rewrite IH; [reflexivity|].
    intros stem ext ->. apply (H (c :: stem) ext). reflexivity.
Qed.

(** X15.  The download is named after the file: a name that ends with
    [.md], [.markdown] or [.txt], in capitals or small letters, gets
    [.docx] in place of that extension; any other name that is not empty
    is used as it is, so it gets no [.docx] at all; without a name, or
    with the empty one, the download is [document.docx]. *)
Theorem download_name (filename_ : option ustring) :
  (forall stem ext,
      filename_ = Some (stem ++ ext) ->
      Names.isMarkdownExtension ext = true ->
      outputFilename filename_ = stem ++ u ".docx")
  /\ (forall name,
         filename_ = Some name -> name <> [] ->
         (forall stem ext,
             name = stem ++ ext -> Names.isMarkdownExtension ext = false) ->
         outputFilename filename_ = name)
  /\ (filename_ = None \/ filename_ = Some [] ->
      outputFilename filename_ = u "document.docx").
Proof.
  split; [|split].
  - intros stem ext -> H. unfold outputFilename.
    destruct (stem ++ ext) as [|c name] eqn:E.
    + apply app_eq_nil in E as [-> ->]. discriminate H.
    + rewrite <- E. now apply replaceExtension_at.
  - intros name -> N H. unfold outputFilename.
    destruct name as [|c name]; [congruence|].
    now apply replaceExtension_none.
  - intros [-> | ->]; reflexivity.
Qed.

Lemma download_name_witness :
  outputFilename (Some (u "notes.v2.MD")) = u "notes.v2.docx"
  /\ outputFilename (Some (u "notes.pdf")) = u "notes.pdf".
Proof.
  split.
  - exact (proj1 (download_name (Some (u "notes.v2.MD")))
             (u "notes.v2") (u ".MD") eq_refl eq_refl).
  - refine (proj1 (proj2 (download_name (Some (u "notes.pdf"))))
              (u "notes.pdf") eq_refl _ _); [discriminate|].
    intros stem ext E.
    remember (u "notes.pdf") as name eqn:Hn. vm_compute in Hn. subst name.
    repeat (destruct stem as [|? stem];
            [ cbn [app] in E; subst ext; reflexivity
            | cbn [app] in E;
              first [discriminate E | injection E as _ E] ]).
Defined.

(** The fixed parts of the two headers are units a header carries. *)
Lemma contentDisposition_units (name : ustring) :
  forallb headerUnit (contentDisposition name) = forallb headerUnit name.
Proof.
  unfold contentDisposition. rewrite !forallb_app.
  replace (forallb headerUnit (u "attachment; filename=")) with true
    by reflexivity.
  replace (forallb headerUnit [34%N]) with true by reflexivity.
  now rewrite andb_true_r.
Qed.

Lemma setHeaders (name : ustring) (document : Docx.Document) (w : State) :
  bind (setHeader (u "Content-Type") docxType)
    (fun _ =>
       bind (setHeader (u "Content-Disposition") (contentDisposition name))
         (fun _ => ret (Attachment name document))) w
  = if forallb headerUnit name
    then (inr (Attachment name document), w)
    else (inl (Js.Obj
                 {| Js.name := u "TypeError";
                    Js.message :=
                      Some (u "Invalid character in header content [" ++ [34%N]
                            ++ u "Content-Disposition" ++ [34%N] ++ u "]");
                    Js.status := Js.Undefined;
                    Js.response_status := Js.Undefined |}), w).
Proof.
  unfold bind at 1. unfold setHeader at 1.
  replace (forallb headerUnit docxType) with true by reflexivity.
  unfold ret at 1. unfold bind, setHeader.
  rewrite contentDisposition_units.
  now destruct (forallb headerUnit name).
Qed.

(** X16.  The convert route always answers, it never rejects.  Without
    markdown, or with the empty one, the answer is the status 400 and
    nothing else happens.  Otherwise the markdown is converted, with the
    AI unless [useAI] is the boolean [false] (a body without [useAI], or
    with [null], a number or a string for it, counts as [true]).  The
    answer is the document under the name of the download when every
    unit of that name is one a header carries (the tab, 0x20 to 0x7e,
    0x80 to 0xff); it is the status 500 when the conversion throws, and
    also when the conversion succeeds and the name holds any other unit.
    With [useAI] false the document prompt is not sent. *)
Theorem convert_route (rt : Runtime) (body : Body) (w : State) :
  (exists response w',
      convert rt body w = (inr response, w')
      /\ match markdown body with
         | None | Some [] =>
             response = Json 400 (u "No markdown content provided") /\ w' = w
         | Some markdown_ =>
             match DocxConverter.convertToDocx rt markdown_
                     (notFalse (useAI body)) w with
             | (inr document, w1) =>
                 response
                 = (if forallb headerUnit (outputFilename (filename body))
                    then Attachment (outputFilename (filename body)) document
                    else Json 500 (u "Failed to convert to DOCX"))
                 /\ w' = w1
             | (inl _, w1) =>
                 response = Json 500 (u "Failed to convert to DOCX") /\ w' = w1
             end
         end
      /\ (useAI body = Some (JBool false) ->
          Quiet.documentCalls (trace w') = Quiet.documentCalls (trace w)))
  /\ (notFalse (useAI body) = false <-> useAI body = Some (JBool false))
  /\ (useAI body <> Some (JBool false) ->
      convert rt body w
      = convert rt {| markdown := markdown body; filename := filename body;
                      useAI := Some (JBool true) |} w).
Proof.
  split; [|split].
  - unfold convert, tryCatch.
    destruct (markdown body) as [[|c md]|].
    + unfold ret. do 2 eexists. split; [reflexivity|]. auto.
    + cbv zeta. unfold bind at 1.
      destruct (DocxConverter.convertToDocx rt (c :: md) (notFalse (useAI body)) w)
        as [[e|doc] w1] eqn:E.
      * unfold ret. do 2 eexists. split; [reflexivity|]. split; [auto|].
        intros F; rewrite F in E; cbn [notFalse] in E.
        destruct (ConvertFacts.convertToDocx_local rt (c :: md) w)
          as (r & w2 & E2 & D & _).
        rewrite E in E2; injection E2 as _ <-; exact D.
      * rewrite setHeaders.
        destruct (forallb headerUnit (outputFilename (filename body)));
          unfold ret; (do 2 eexists; split; [reflexivity|]);
          (split; [auto|]);
          intros F; rewrite F in E; cbn [notFalse] in E;
          destruct (ConvertFacts.convertToDocx_local rt (c :: md) w)
            as (r & w2 & E2 & D & _);
          rewrite E in E2; injection E2 as _ <-; exact D.
    + unfold ret. do 2 eexists. split; [reflexivity|]. auto.
  - destruct (useAI body) as [[|[|]|z|s]|]; cbn; split; intros H;
      try reflexivity; try discriminate; congruence.
  - intros H. unfold convert. cbn [markdown filename useAI].
    destruct (useAI body) as [[|[|]|z|s]|]; try reflexivity. congruence.
Qed.

End ServerFacts.

(** ** Conversions that cannot fail *)

Module RouteFacts.
Import World MarkdownParser DocxConverter Server.

(** X21.  When the last token of the markdown does not open a heading
    and every token that opens a heading has one of the tags h1 to h6
    (markdown-it closes every heading it opens and has these six tags),
    [convertToDocx] returns a document, whatever the backend does, also
    when it rejects with [null], and whatever [useAI] is.  The convert
    route then answers with the download, never with the status 500, as
    long as the name of the download is made of units a header
    carries. *)
Theorem conversion_returns_a_document (rt : Runtime) (markdown_ : ustring)
  (useAI_ : bool) (w : State) :
  Blocks.endsWithHeadingOpen (parseToTokens rt markdown_) = false ->
  Blocks.headingsTagged (parseToTokens rt markdown_) = true ->
  (exists document w',
      convertToDocx rt markdown_ useAI_ w = (inr document, w'))
  /\ (markdown_ <> [] ->
      forall filename_ flag,
        forallb headerUnit (outputFilename filename_) = true ->
        exists document w',
          convert rt
            {| markdown := Some markdown_; filename := filename_;
               useAI := flag |} w
          = (inr (Attachment (outputFilename filename_) document), w')).
Proof.
  intros H G.
  pose proof (ConversionFacts.convertToDocx_total rt markdown_ H G) as Any.
  split; [apply Any|].
  intros N filename_ flag V. unfold convert, tryCatch.
  cbn [markdown filename useAI].
  destruct markdown_ as [|c md]; [congruence|].
  destruct (Any (notFalse flag) w) as (doc & w' & E).
  cbv zeta. unfold bind at 1. rewrite E.
  rewrite ServerFacts.setHeaders, V. eauto.
Qed.

Lemma conversion_returns_a_document_witness :
  (exists document w',
      convertToDocx Documents.platform (u "## Release") true Samples.ready
      = (inr document, w'))
  /\ (exists document w',
         convert Documents.platform
           {| markdown := Some (u "## Release");
              filename := Some (u "notes.md"); useAI := None |}
           Samples.ready
         = (inr (Attachment (u "notes.docx") document), w')).
Proof.
  pose proof (conversion_returns_a_document Documents.platform
                (u "## Release") true Samples.ready eq_refl eq_refl)
    as [A B].
  split; [exact A|].
  refine (B _ (Some (u "notes.md")) None eq_refl). discriminate.
Defined.

(** A heading with the tag [h7] makes the local walk throw what the
    [TextRun] throws, and the route answers with the status 500. *)
Lemma heading_without_size_fails :
  exists w',
    convertToDocx Scenarios.oddHeading (u "x") false Samples.ready
    = (inl (Js.Obj invalidSize), w').
Proof. eexists. vm_compute. reflexivity. Qed.

End RouteFacts.

(** ** The slugs of heading anchors *)

Module SlugFacts.
Import Str Regex Anchor.


Lemma replaceFrom_skip (re : regex) (repl : option ustring -> ustring)
  (s : ustring) :
  forall k, (k <= List.length s)%nat ->
            replaceFrom re repl s k = replaceFrom re repl (skipn k s) 0.
Proof.
  induction s as [|c s IH]; intros [|k] L; try reflexivity.
  - simpl in L. lia.
  - cbn [replaceFrom skipn]. apply IH. simpl in L. lia.
Qed.






End SlugFacts.

(** ** Links in heading texts *)

Module LinkFacts.
Import Str Regex DocxConverter.

(** A greedy [+] takes a run that ends before a unit it does not match,
    when what follows in the expression matches there. *)
Lemma plus_takes_all (p : N -> bool) (re' : regex) (t rest : ustring)
  (pos : nat) (g : option groups) (r : found) :
  t <> [] ->
  (forall c, In c t -> p c = true) ->
  match rest with c :: _ => p c = false | [] => True end ->
  matchHere re' rest (pos + List.length t) g = Some r ->
  matchHere (Atom Plus p :: re') (t ++ rest) pos g = Some r.
Proof.
  intros Ht Hp Hrest Hr. destruct t as [|c t]; [congruence|].
  cbn [matchHere app]. rewrite (Hp c (or_introl eq_refl)).
  cbn [List.length] in Hr. rewrite Nat.add_succ_r in Hr.
  change (S (pos + List.length t)) with (S pos + List.length t)%nat in Hr.
  assert (forall x, In x t -> p x = true) as Hp'
    by (intros x Hx; apply Hp; now right).
  clear Hp Ht. revert Hr. generalize (S pos). clear pos.
  induction t as [|x t IH]; intros n Hr.
  - rewrite Nat.add_0_r in Hr. cbn [app].
    destruct rest as [|d rest']; [exact Hr|]. now rewrite Hrest.
  - cbn [app]. rewrite (Hp' x (or_introl eq_refl)).
    rewrite IH; [reflexivity | intros y Hy; apply Hp'; now right |].
    cbn [List.length] in Hr. now rewrite Nat.add_succ_r in Hr.
Qed.

Lemma noneOf_one (x c : N) : c <> x -> noneOf [x] c = true.
Proof.
  intros H. unfold noneOf. cbn [existsb].
  now destruct (N.eqb_spec c x).
Qed.

Lemma one_step (p : N -> bool) (re' : regex) (c : N) (s : ustring)
  (pos : nat) (g : option groups) :
  matchHere (Atom One p :: re') (c :: s) pos g
  = if p c then matchHere re' s (S pos) g else None.
Proof. reflexivity. Qed.

Lemma open_step (re' : regex) (s : ustring) (pos : nat) (g : option groups) :
  matchHere (GroupOpen :: re') s pos g
  = matchHere re' s pos (Some {| g_open := pos; g_close := None |}).
Proof. destruct re'; reflexivity. Qed.

Lemma close_step (re' : regex) (s : ustring) (pos : nat) (gr : groups) :
  matchHere (GroupClose :: re') s pos (Some gr)
  = matchHere re' s pos
      (Some {| g_open := g_open gr; g_close := Some pos |}).
Proof. destruct re'; reflexivity. Qed.

(** The link expression at a link. *)
Lemma link_here (label target post : ustring) :
  label <> [] -> target <> [] ->
  (forall c, In c label -> c <> 93%N) ->
  (forall c, In c target -> c <> 41%N) ->
  matchHere markdownLink
    (91%N :: label ++ 93%N :: 40%N :: target ++ 41%N :: post) 0 no_group
  = Some {| f_end := (4 + List.length label + List.length target)%nat;
            f_group := Some {| g_open := 1;
                               g_close := Some (1 + List.length label)%nat |} |}.
Proof.
  intros Hl Ht Nl Nt. unfold markdownLink.
  rewrite one_step. change (chr 91 91) with true. cbv iota.
  rewrite open_step.
  apply plus_takes_all;
    [exact Hl | intros c Hc; apply noneOf_one; auto | reflexivity |].
  rewrite close_step. cbn [g_open].
  rewrite !one_step. change (chr 93 93) with true.
  change (chr 40 40) with true. cbv iota.
  apply plus_takes_all;
    [exact Ht | intros c Hc; apply noneOf_one; auto | reflexivity |].
  rewrite one_step. change (chr 41 41) with true. cbv iota.
  reflexivity.
Qed.

Lemma replace_before (re : regex) (repl : option ustring -> ustring)
  (p : N -> bool) (pre s : ustring) :
  (forall c, In c pre -> p c = false) ->
  replaceFrom (Atom One p :: re) repl (pre ++ s) 0
  = pre ++ replaceFrom (Atom One p :: re) repl s 0.
Proof.
  intros H. induction pre as [|c pre IH]; [reflexivity|].
  cbn [app replaceFrom matchHere]. rewrite (H c (or_introl eq_refl)).
  rewrite IH; [reflexivity|]. intros x Hx. apply H. now right.
Qed.

(** X22.  A link in a heading text is replaced by its label: for a text
    that holds one link [[label](target)] (the label not empty and
    without closing bracket, the target not empty and without closing
    parenthesis) and otherwise no opening bracket, no asterisk and no
    backtick, [cleanText] returns the text before the link, the label and
    the text after the link, trimmed. *)
Theorem cleanText_keeps_link_label (pre label target post : ustring) :
  label <> [] -> target <> [] ->
  (forall c, In c label -> c <> 93%N /\ c <> 42%N /\ c <> 96%N) ->
  (forall c, In c target -> c <> 41%N /\ c <> 42%N /\ c <> 96%N) ->
  (forall c, In c (pre ++ post) -> c <> 91%N /\ c <> 42%N /\ c <> 96%N) ->
  cleanText
    (Some (pre ++ u "[" ++ label ++ u "](" ++ target ++ u ")" ++ post))
  = Str.trim (pre ++ label ++ post).
Proof.
  intros Hl Ht Nl Nt Np.
  set (s := pre ++ u "[" ++ label ++ u "](" ++ target ++ u ")" ++ post).
  assert (forall c, In c s -> c <> 42%N /\ c <> 96%N) as Clean.
  { intros c Hc. unfold s in Hc. cbn [u app] in Hc.
    repeat (apply in_app_or in Hc as [Hc|Hc] || destruct Hc as [<-|Hc]);
      try (split; discriminate);
      try (now apply Nl in Hc); try (now apply Nt in Hc);
      try (assert (In c (pre ++ post)) as Hp
             by (apply in_or_app; auto); now apply Np in Hp). }
  assert (s <> []) as Ns.
  { unfold s. destruct pre; discriminate. }
  unfold cleanText. destruct s as [|c0 s0] eqn:Es; [congruence|].
  rewrite <- Es in *. clear c0 s0 Es.
  change (lit "`") with [Atom One (chr 96)].
  change (lit "*") with [Atom One (chr 42)].
  change (lit "**") with [Atom One (chr 42); Atom One (chr 42)].
  rewrite (TextFacts.replaceAll_no_first (chr 42) [Atom One (chr 42)]),
    (TextFacts.replaceAll_no_first (chr 42) []),
    (TextFacts.replaceAll_no_first (chr 96) []);
    try (intros c Hc; destruct (Clean c Hc) as (A & B); unfold chr;
         apply N.eqb_neq; congruence).
  f_equal. unfold replaceAll, s, markdownLink.
  rewrite replace_before.
  2:{ intros c Hc. unfold chr. apply N.eqb_neq.
      assert (In c (pre ++ post)) as Hp by (apply in_or_app; auto).
      apply Np in Hp. intuition congruence. }
  f_equal. fold markdownLink. cbn [u app].
  change (N_of_ascii "[") with 91%N. change (N_of_ascii "]") with 93%N.
  change (N_of_ascii "(") with 40%N. change (N_of_ascii ")") with 41%N.
  pose proof (link_here label target post Hl Ht
                (fun c Hc => proj1 (Nl c Hc)) (fun c Hc => proj1 (Nt c Hc)))
    as M.
  cbn [replaceFrom]. rewrite M. cbn [f_end Nat.add].
  unfold capture. cbn [f_group g_open g_close].
  replace (S (List.length label) - 1)%nat with (List.length label) by lia.
  cbn [skipn]. rewrite RegexSound.firstn_length_app. cbn [dollar1].
  f_equal.
  assert (S (S (S (List.length label + List.length target)))
          = List.length (label ++ 93%N :: 40%N :: target ++ [41%N])) as L.
  { rewrite length_app. cbn [List.length]. rewrite length_app.
    cbn [List.length]. lia. }
  rewrite L.
  replace (label ++ 93%N :: 40%N :: target ++ 41%N :: post)
    with ((label ++ 93%N :: 40%N :: target ++ [41%N]) ++ post).
  2:{ rewrite <- !app_assoc. cbn [app]. rewrite <- app_assoc. reflexivity. }
  generalize (label ++ 93%N :: 40%N :: target ++ [41%N]). intros link.
  rewrite SlugFacts.replaceFrom_skip by (rewrite length_app; lia).
  rewrite RegexSound.skipn_length_app.
  apply (TextFacts.replaceAll_no_first (chr 91)).
  intros c Hc. unfold chr. apply N.eqb_neq.
  assert (In c (pre ++ post)) as Hp by (apply in_or_app; auto).
  apply Np in Hp. intuition congruence.
Qed.

Lemma cleanText_keeps_link_label_witness :
  cleanText (Some (u "See [the docs](https://example.org/a) first "))
  = u "See the docs first".
Proof.
  refine (cleanText_keeps_link_label (u "See ") (u "the docs")
            (u "https://example.org/a") (u " first ") _ _ _ _ _);
    try discriminate;
    intros c H; cbn in H;
    repeat (destruct H as [<-|H]; [repeat split; discriminate|]);
    contradiction.
Defined.

End LinkFacts.

(** ** The two paths on the same content *)

Module PathFacts.
Import MarkdownParser Docx DocxConverter.
Import Schema (InlineRun, run_code, run_text, run_link, run_bold, run_italic,
  run_strikethrough, ContentRuns).

Lemma extract_one (text_ : ustring) :
  extractTextFromInline (Some [Stream.textToken text_]) = text_.
Proof. reflexivity. Qed.

Lemma createListFrom_items (ordered : bool) (closer : Token)
  (items : list ustring) :
  isLit "list_item_open" (type closer) = false ->
  isLit "inline" (type closer) = false ->
  isLit "list_item_close" (type closer) = false ->
  forall n currentContent,
    createListFrom (flat_map Stream.item items ++ [closer]) ordered (S n)
      currentContent
    = aiListFrom items ordered n.
Proof.
  intros O I C. induction items as [|text_ rest IH]; intros n c.
  - cbn [flat_map app createListFrom aiListFrom]. now rewrite O, I, C.
  - cbn [flat_map Stream.item app aiListFrom].
    change (createListFrom
              (Stream.block "list_item_open"
               :: Stream.block "paragraph_open"
               :: Stream.inlineText text_
               :: Stream.block "paragraph_close"
               :: Stream.block "list_item_close"
               :: flat_map Stream.item rest ++ [closer]) ordered (S n) c)
      with (listItem (marker ordered (S n)
                      ++ extractTextFromInline (Some [Stream.textToken text_]))
            :: createListFrom (flat_map Stream.item rest ++ [closer]) ordered
                 (S (S n))
                 (extractTextFromInline (Some [Stream.textToken text_]))).
    rewrite extract_one, IH. now rewrite Nat.add_1_r.
Qed.

Lemma processInlineFrom_run (r : InlineRun) (rest : list InlineToken) :
  processInlineFrom (Stream.run r ++ rest)
    {| f_bold := false; f_italic := false; f_code := false;
       f_strikethrough := false |}
  = aiRun r
    :: processInlineFrom rest
         {| f_bold := false; f_italic := false; f_code := false;
            f_strikethrough := false |}.
Proof.
  destruct r as [text_ b i s c l]. unfold Stream.run, aiRun.
  cbn [run_code run_text run_link run_bold run_italic run_strikethrough].
  destruct c; [reflexivity|].
  destruct (truthy l); [reflexivity|].
  destruct b, i, s; reflexivity.
Qed.

Lemma processInlineFrom_runs (runs : list InlineRun) :
  processInlineTokens (flat_map Stream.run runs) = map aiRun runs.
Proof.
  unfold processInlineTokens.
  induction runs as [|r runs IH]; [reflexivity|].
  cbn [flat_map map]. now rewrite processInlineFrom_run, IH.
Qed.

(** X23.  Both paths build the same paragraphs from the same content.
    For a flat list, [createList] on the tokens of the list returns what
    [createAIList] returns for the texts of the items; for a quote of one
    paragraph, [createBlockquote] returns the paragraph of
    [createAIBlockquote]; for a paragraph of at least one run (inline
    code, a link, or a text that is bold, italic or struck through),
    [createParagraph] on the inline tokens returns the paragraph of
    [createAIParagraph]. *)
Theorem paths_agree (ordered : bool) (items : list ustring)
  (text_ : ustring) (runs : list InlineRun) :
  createList (Stream.list_ ordered items) ordered
  = createAIList (Some items) ordered
  /\ createBlockquote (Stream.quoted text_)
     = [createAIBlockquote (Some text_)]
  /\ (runs <> [] ->
      createParagraph (Some (flat_map Stream.run runs))
      = createAIParagraph (Some (ContentRuns runs))).
Proof.
  split; [|split].
  - unfold createList, Stream.list_, createAIList.
    cbn [app].
    assert (forall closer,
               createListFrom
                 (Stream.block (if ordered then "ordered_list_open"
                                else "bullet_list_open")
                  :: flat_map Stream.item items ++ [closer]) ordered 1 []
               = createListFrom (flat_map Stream.item items ++ [closer])
                   ordered 1 []) as Open.
    { intros closer. now destruct ordered. }
    rewrite Open. apply createListFrom_items; now destruct ordered.
  - reflexivity.
  - intros N. unfold createParagraph, createAIParagraph.
    rewrite processInlineFrom_runs.
    destruct runs as [|r runs]; [congruence | reflexivity].
Qed.

Lemma paths_agree_witness :
  createParagraph
    (Some [ Stream.mark "strong_open"; Stream.textToken (u "Note");
            Stream.mark "strong_close" ])
  = createAIParagraph
      (Some (ContentRuns
               [ {| Schema.run_text := u "Note"; Schema.run_bold := true;
                    Schema.run_italic := false;
                    Schema.run_strikethrough := false;
                    Schema.run_code := false; Schema.run_link := None |} ])).
Proof.
  refine (proj2 (proj2 (paths_agree false [] []
                          [ {| Schema.run_text := u "Note";
                               Schema.run_bold := true;
                               Schema.run_italic := false;
                               Schema.run_strikethrough := false;
                               Schema.run_code := false;
                               Schema.run_link := None |} ])) _).
  discriminate.
Defined.

End PathFacts.

(** ** The cells of a table, from the tokens to the rows *)

Module TableStreamFacts.
Import MarkdownParser Docx DocxConverter.

Lemma pushAt_last (h : list (list Cell)) (row0 : list Cell) (c : Cell) :
  pushAt (h ++ [row0]) (List.length h) c = h ++ [row0 ++ [c]].
Proof.
  induction h as [|r h IH]; [reflexivity|].
  cbn [app List.length pushAt]. now rewrite IH.
Qed.

Lemma deref_last (h : list (list Cell)) (row0 : list Cell) :
  deref (h ++ [row0]) (List.length h) = row0.
Proof. unfold deref. apply nth_middle. Qed.

Lemma deref_old (h l : list (list Cell)) (i : nat) :
  (i < List.length h)%nat -> deref (h ++ l) i = deref h i.
Proof. intros H. unfold deref. now apply app_nth1. Qed.

(** One cell: the array of the current row gets the cell. *)
Lemma cell_step (c : Cell) (h : list (list Cell)) (row0 : list Cell)
  (r : list RowRef) (hd i : bool) (cc : list ustring) :
  fold_left tableStep (Stream.cell c)
    {| heap := h ++ [row0]; rows_ := r; currentRow := List.length h;
       isHeader := hd; inCell := i; cellContent := cc |}
  = {| heap := h ++ [row0 ++ [c]]; rows_ := r; currentRow := List.length h;
       isHeader := hd; inCell := false;
       cellContent := [cell_content c] |}.
Proof.
  destruct c as [text_ [|]]; unfold Stream.cell;
    cbn [cell_isHeader cell_content fold_left];
    unfold tableStep at 1 2 3;
    cbn -[pushAt List.length app];
    now rewrite pushAt_last.
Qed.

Lemma cells_step (cells_ : list Cell) (h : list (list Cell))
  (r : list RowRef) (hd : bool) :
  forall row0 i cc,
  exists i' cc',
    fold_left tableStep (flat_map Stream.cell cells_)
      {| heap := h ++ [row0]; rows_ := r; currentRow := List.length h;
         isHeader := hd; inCell := i; cellContent := cc |}
    = {| heap := h ++ [row0 ++ cells_]; rows_ := r;
         currentRow := List.length h; isHeader := hd; inCell := i';
         cellContent := cc' |}.
Proof.
  induction cells_ as [|c cells_ IH]; intros row0 i cc.
  - exists i, cc. cbn. now rewrite app_nil_r.
  - cbn [flat_map]. rewrite fold_left_app, cell_step.
    destruct (IH (row0 ++ [c]) false [cell_content c]) as (i' & cc' & E).
    exists i', cc'. rewrite E. now rewrite <- app_assoc.
Qed.

(** One row: a new array with the cells of the row, and a reference to
    it among the rows. *)
Lemma row_step (cells_ : list Cell) (st : TableState) :
  cells_ <> [] ->
  exists i' cc',
    fold_left tableStep (Stream.row cells_) st
    = {| heap := heap st ++ [cells_];
         rows_ := rows_ st ++ [{| row_cells := List.length (heap st);
                                  row_isHeader := isHeader st |}];
         currentRow := List.length (heap st); isHeader := isHeader st;
         inCell := i'; cellContent := cc' |}.
Proof.
  intros N. unfold Stream.row. rewrite !fold_left_app.
  change (fold_left tableStep [Stream.block "tr_open"] st)
    with {| heap := heap st ++ [[]]; rows_ := rows_ st;
            currentRow := List.length (heap st); isHeader := isHeader st;
            inCell := inCell st; cellContent := cellContent st |}.
  destruct (cells_step cells_ (heap st) (rows_ st) (isHeader st) []
              (inCell st) (cellContent st)) as (i' & cc' & E).
  rewrite E. cbn [app]. exists i', cc'.
  cbn [fold_left]. unfold tableStep. cbn -[deref List.length app].
  rewrite deref_last. destruct cells_ as [|c cells_]; [congruence|].
  reflexivity.
Qed.

(** The rows collected so far stay what they are when a row is added. *)
Lemma row_keeps (cells_ : list Cell) (st : TableState)
  (collected : list (list Cell)) :
  cells_ <> [] ->
  map (fun r => deref (heap st) (row_cells r)) (rows_ st) = collected ->
  Forall (fun r => (row_cells r < List.length (heap st))%nat) (rows_ st) ->
  let st' := fold_left tableStep (Stream.row cells_) st in
  map (fun r => deref (heap st') (row_cells r)) (rows_ st')
  = collected ++ [cells_]
  /\ Forall (fun r => (row_cells r < List.length (heap st'))%nat) (rows_ st')
  /\ isHeader st' = isHeader st.
Proof.
  intros N C F. cbv zeta.
  destruct (row_step cells_ st N) as (i' & cc' & E). rewrite E.
  cbn [heap rows_ isHeader]. split; [|split; [|reflexivity]].
  - rewrite map_app. cbn [map row_cells]. rewrite deref_last. f_equal.
    rewrite <- C. apply map_ext_in. intros r Hr.
    apply deref_old. rewrite Forall_forall in F. now apply F.
  - apply Forall_app. split.
    + eapply Forall_impl; [|exact F]. intros r Hr. cbn beta in *.
      rewrite length_app. cbn [List.length]. lia.
    + constructor; [|constructor]. cbn [row_cells].
      rewrite length_app. cbn [List.length]. lia.
Qed.

Lemma rows_keep (body : list (list Cell)) :
  Forall (fun row => row <> []) body ->
  forall st collected,
    map (fun r => deref (heap st) (row_cells r)) (rows_ st) = collected ->
    Forall (fun r => (row_cells r < List.length (heap st))%nat) (rows_ st) ->
    let st' := fold_left tableStep (flat_map Stream.row body) st in
    map (fun r => deref (heap st') (row_cells r)) (rows_ st')
    = collected ++ body
    /\ Forall (fun r => (row_cells r < List.length (heap st'))%nat) (rows_ st').
Proof.
  induction 1 as [|row body N _ IH]; intros st collected C F; cbv zeta.
  - cbn. now rewrite app_nil_r.
  - cbn [flat_map]. rewrite fold_left_app.
    destruct (row_keeps row st collected N C F) as (C' & F' & _).
    cbv zeta in C', F'.
    destruct (IH _ _ C' F') as (C2 & F2). cbv zeta in C2, F2.
    split; [|exact F2]. rewrite C2. now rewrite <- app_assoc.
Qed.

Lemma collectRows_table (head : list Cell) (body : list (list Cell)) :
  head <> [] -> Forall (fun row => row <> []) body ->
  collectRows (Stream.table head body) = head :: body.
Proof.
  intros Nh Nb. unfold collectRows, Stream.table.
  rewrite !fold_left_app.
  set (st0 := fold_left tableStep
                [Stream.block "table_open"; Stream.block "thead_open"]
                tableStart).
  assert (map (fun r => deref (heap st0) (row_cells r)) (rows_ st0) = []
          /\ Forall (fun r => (row_cells r < List.length (heap st0))%nat)
               (rows_ st0)) as (C0 & F0).
  { split; [reflexivity | constructor]. }
  destruct (row_keeps head st0 [] Nh C0 F0) as (C1 & F1 & _).
  cbv zeta in C1, F1.
  set (st1 := fold_left tableStep (Stream.row head) st0) in *.
  set (st2 := fold_left tableStep
                [Stream.block "thead_close"; Stream.block "tbody_open"] st1).
  assert (heap st2 = heap st1 /\ rows_ st2 = rows_ st1) as (H2 & R2).
  { unfold st2. cbn [fold_left]. unfold tableStep. cbn. auto. }
  assert (map (fun r => deref (heap st2) (row_cells r)) (rows_ st2) = [] ++ [head]
          /\ Forall (fun r => (row_cells r < List.length (heap st2))%nat)
               (rows_ st2)) as (C2 & F2).
  { rewrite H2, R2. auto. }
  destruct (rows_keep body Nb st2 _ C2 F2) as (C3 & F3). cbv zeta in C3.
  set (st3 := fold_left tableStep (flat_map Stream.row body) st2) in *.
  assert (forall st,
             heap (fold_left tableStep
                     [Stream.block "tbody_close"; Stream.block "table_close"] st)
             = heap st
             /\ rows_ (fold_left tableStep
                         [Stream.block "tbody_close"; Stream.block "table_close"]
                         st)
                = rows_ st) as Close.
  { intros st. cbn [fold_left]. unfold tableStep. cbn. auto. }
  destruct (Close st3) as (H4 & R4). rewrite H4, R4, C3. reflexivity.
Qed.

(** X24.  The cells of a table come through unchanged: on the tokens of
    a table whose rows all have a cell, [createTable] collects the rows
    with their cells, texts and header marks in order, and returns the
    table of these rows, each filled up with empty cells to the length
    of the longest. *)
Theorem table_cells_round_trip (head : list Cell) (body : list (list Cell)) :
  head <> [] -> Forall (fun row => row <> []) body ->
  collectRows (Stream.table head body) = head :: body
  /\ createTable (Stream.table head body)
     = ElTable
         (gridTable
            (map (fun row =>
                    {| cells :=
                         map tableCell row
                         ++ repeat emptyCell
                              (maxLength (head :: body) - List.length row) |})
               (head :: body))).
Proof.
  intros Nh Nb. pose proof (collectRows_table head body Nh Nb) as C.
  split; [exact C|]. unfold createTable. rewrite C.
  do 2 f_equal. apply map_ext. intros row. unfold padRow.
  now rewrite length_map.
Qed.

Lemma table_cells_round_trip_witness :
  collectRows Scenarios.raggedTable
  = [ [ {| cell_content := u "A"; cell_isHeader := true |};
        {| cell_content := u "B"; cell_isHeader := true |} ];
      [ {| cell_content := u "1"; cell_isHeader := false |} ] ].
Proof.
  refine (proj1 (table_cells_round_trip
                   [ {| cell_content := u "A"; cell_isHeader := true |};
                     {| cell_content := u "B"; cell_isHeader := true |} ]
                   [ [ {| cell_content := u "1"; cell_isHeader := false |} ] ]
                   _ _)).
  - discriminate.
  - constructor; [discriminate | constructor].
Defined.

End TableStreamFacts.

(** ** The local walk, block by block *)

Module WalkFacts.
Import World MarkdownParser Docx DocxConverter.

(** The closing token after tokens of other kinds. *)
Lemma closing_found (o c : ustring) (inner : list Token) (closer : Token)
  (rest : list Token) :
  forallb (fun t => negb (Str.eqb (type t) o) && negb (Str.eqb (type t) c))
    inner = true ->
  Str.eqb (type closer) o = false ->
  Str.eqb (type closer) c = true ->
  forall i,
    findClosingFrom (inner ++ closer :: rest) o c 1 i
    = Some (i + List.length inner)%nat.
Proof.
  intros F O C. induction inner as [|t inner IH]; intros i.
  - cbn [app findClosingFrom List.length]. rewrite O, C. cbn.
    now rewrite Nat.add_0_r.
  - cbn [forallb] in F. apply andb_true_iff in F as [Ft F].
    apply andb_true_iff in Ft as [To Tc].
    apply negb_true_iff in To, Tc.
    cbn [app findClosingFrom List.length]. rewrite To, Tc. cbn [Z.eqb].
    rewrite (IH F). f_equal. lia.
Qed.

Lemma firstn_exact {A} (a b : list A) (x : A) :
  firstn (S (List.length a)) (a ++ x :: b) = a ++ [x].
Proof.
  induction a as [|y a IH]; [reflexivity|].
  cbn [List.length app firstn]. cbn [List.length app firstn] in IH.
  now rewrite IH.
Qed.

Lemma skipn_exact {A} (a b : list A) (x : A) :
  skipn (S (List.length a)) (a ++ x :: b) = b.
Proof.
  induction a as [|y a IH]; [reflexivity|]. exact IH.
Qed.

(** A block between an opening and its closing token: where the block
    ends, what is cut out, and where the walk goes on. *)
Lemma block_range (rt : Runtime) (opener closer : Token)
  (inner rest : list Token) (closeType : ustring) :
  forallb (fun t =>
             negb (Str.eqb (type t)
                     (replaceFirst (u "_close") (u "_open") closeType))
             && negb (Str.eqb (type t) closeType)) inner = true ->
  Str.eqb (type closer) (replaceFirst (u "_close") (u "_open") closeType)
  = false ->
  Str.eqb (type closer) closeType = true ->
  let tokens := opener :: inner ++ closer :: rest in
  let blockEnd := findClosingToken tokens 0 closeType in
  blockEnd = Z.of_nat (S (List.length inner))
  /\ slice tokens 0 (blockEnd + 1) = opener :: inner ++ [closer]
  /\ slice tokens 1 blockEnd = inner
  /\ forall elements,
       processTokensFrom rt (inner ++ closer :: rest) (Z.to_nat blockEnd)
         elements
       = processTokensFrom rt rest 0 elements.
Proof.
  intros F O C. cbv zeta.
  assert (findClosingToken (opener :: inner ++ closer :: rest) 0 closeType
          = Z.of_nat (S (List.length inner))) as E.
  { unfold findClosingToken. cbn [skipn].
    now rewrite (closing_found _ _ inner closer rest F O C). }
  rewrite E. split; [reflexivity|].
  assert (forall k : nat, (Z.of_nat k <? 0)%Z = false) as Pos.
  { intros k. apply Z.ltb_ge. lia. }
  split; [|split].
  - unfold slice.
    replace (Z.of_nat (S (List.length inner)) + 1)%Z
      with (Z.of_nat (S (S (List.length inner)))) by lia.
    rewrite Pos, Nat2Z.id. cbn [skipn]. rewrite Nat.sub_0_r.
    rewrite firstn_cons. now rewrite firstn_exact.
  - unfold slice. rewrite Pos, Nat2Z.id. cbn [skipn].
    replace (S (List.length inner) - 1)%nat with (List.length inner) by lia.
    apply RegexSound.firstn_length_app.
  - intros elements. rewrite Nat2Z.id.
    rewrite ConvertFacts.processTokensFrom_skip.
    now rewrite skipn_exact.
Qed.

(** One turn of the walk, by the type of the token. *)
Lemma walk_fence (rt : Runtime) (token : Token) (rest : list Token)
  (elements : list Element) (w : State) :
  type token = u "fence" -> isAsciiDiagram (content token) = false ->
  processTokensFrom rt (token :: rest) 0 elements w
  = processTokensFrom rt rest 0
      (elements
       ++ map ElParagraph (createCodeBlock rt (content token) (info token))) w.
Proof.
  intros T D. cbn [processTokensFrom]. rewrite T, D. reflexivity.
Qed.

Lemma walk_code_block (rt : Runtime) (token : Token) (rest : list Token)
  (elements : list Element) (w : State) :
  type token = u "code_block" -> isAsciiDiagram (content token) = false ->
  processTokensFrom rt (token :: rest) 0 elements w
  = processTokensFrom rt rest 0
      (elements ++ map ElParagraph (createCodeBlock rt (content token) [])) w.
Proof.
  intros T D. cbn [processTokensFrom]. rewrite T, D. reflexivity.
Qed.

Lemma walk_table (rt : Runtime) (token : Token) (rest : list Token)
  (elements : list Element) :
  type token = u "table_open" ->
  processTokensFrom rt (token :: rest) 0 elements
  = processTokensFrom rt rest
      (Z.to_nat (findClosingToken (token :: rest) 0 (u "table_close")))
      (elements
       ++ [createTable
             (slice (token :: rest) 0
                (findClosingToken (token :: rest) 0 (u "table_close") + 1))]).
Proof.
  intros T. cbn [processTokensFrom]. rewrite T. reflexivity.
Qed.

Lemma walk_list (rt : Runtime) (ordered : bool) (token : Token)
  (rest : list Token) (elements : list Element) :
  type token = u (if ordered then "ordered_list_open" else "bullet_list_open") ->
  let closeType :=
    u (if ordered then "ordered_list_close" else "bullet_list_close") in
  processTokensFrom rt (token :: rest) 0 elements
  = processTokensFrom rt rest
      (Z.to_nat (findClosingToken (token :: rest) 0 closeType))
      (elements
       ++ map ElParagraph
            (createList
               (slice (token :: rest) 0
                  (findClosingToken (token :: rest) 0 closeType + 1))
               ordered)).
Proof.
  intros T. cbn [processTokensFrom]. rewrite T. now destruct ordered.
Qed.

Lemma walk_quote (rt : Runtime) (token : Token) (rest : list Token)
  (elements : list Element) :
  type token = u "blockquote_open" ->
  processTokensFrom rt (token :: rest) 0 elements
  = processTokensFrom rt rest
      (Z.to_nat (findClosingToken (token :: rest) 0 (u "blockquote_close")))
      (elements
       ++ map ElParagraph
            (createBlockquote
               (slice (token :: rest) 1
                  (findClosingToken (token :: rest) 0 (u "blockquote_close"))))).
Proof.
  intros T. cbn [processTokensFrom]. rewrite T. reflexivity.
Qed.

(** The tokens inside a table, a list and a quote open and close no
    block of the same kind. *)
Lemma row_inside (o c : ustring) (cells_ : list Cell) :
  (forall name, In name ["tr_open"; "tr_close"; "th_open"; "th_close";
                         "td_open"; "td_close"; "inline"]%string ->
                Str.eqb (u name) o = false /\ Str.eqb (u name) c = false) ->
  forallb (fun t => negb (Str.eqb (type t) o) && negb (Str.eqb (type t) c))
    (Stream.row cells_) = true.
Proof.
  intros H.
  assert (forall name, In name ["tr_open"; "tr_close"; "th_open"; "th_close";
                                "td_open"; "td_close"; "inline"]%string ->
                       negb (Str.eqb (u name) o) && negb (Str.eqb (u name) c)
                       = true) as K.
  { intros name Hn. destruct (H name Hn) as (A & B). now rewrite A, B. }
  unfold Stream.row. rewrite !forallb_app. cbn [forallb Stream.block type].
  rewrite (K "tr_open"%string), (K "tr_close"%string) by (cbn; tauto).
  cbn [andb]. rewrite andb_true_r.
  induction cells_ as [|cell cells_ IH]; [reflexivity|].
  cbn [flat_map]. rewrite forallb_app, IH, andb_true_r.
  unfold Stream.cell.
  destruct (cell_isHeader cell); cbn [forallb Stream.block Stream.inlineText type].
  - rewrite (K "th_open"%string), (K "inline"%string), (K "th_close"%string)
      by (cbn; tauto).
    reflexivity.
  - rewrite (K "td_open"%string), (K "inline"%string), (K "td_close"%string)
      by (cbn; tauto).
    reflexivity.
Qed.

Lemma table_inside (head : list Cell) (body : list (list Cell)) :
  exists inner,
    Stream.table head body
    = Stream.block "table_open" :: inner ++ [Stream.block "table_close"]
    /\ forallb (fun t => negb (Str.eqb (type t) (u "table_open"))
                         && negb (Str.eqb (type t) (u "table_close")))
         inner = true.
Proof.
  exists (Stream.block "thead_open" :: Stream.row head
          ++ [Stream.block "thead_close"; Stream.block "tbody_open"]
          ++ flat_map Stream.row body ++ [Stream.block "tbody_close"]).
  split.
  - unfold Stream.table. cbn [app]. f_equal. f_equal.
    repeat (rewrite <- app_assoc; cbn [app]). reflexivity.
  - assert (forall cells_,
               forallb (fun t => negb (Str.eqb (type t) (u "table_open"))
                                 && negb (Str.eqb (type t) (u "table_close")))
                 (Stream.row cells_) = true) as R.
    { intros cells_. apply row_inside. intros name Hn. cbn in Hn.
      repeat (destruct Hn as [<-|Hn]; [split; reflexivity|]).
      contradiction. }
    cbn [forallb]. rewrite !forallb_app, R. cbn [forallb andb].
    change (negb (Str.eqb (type (Stream.block "thead_open")) (u "table_open"))
            && negb (Str.eqb (type (Stream.block "thead_open")) (u "table_close")))
      with true.
    cbn [andb].
    induction body as [|row body IH]; [reflexivity|].
    cbn [flat_map]. rewrite forallb_app, R. exact IH.
Qed.

Lemma items_inside (ordered : bool) (items : list ustring) :
  forallb (fun t =>
             negb (Str.eqb (type t)
                     (u (if ordered then "ordered_list_open"
                         else "bullet_list_open")))
             && negb (Str.eqb (type t)
                        (u (if ordered then "ordered_list_close"
                            else "bullet_list_close"))))
    (flat_map Stream.item items) = true.
Proof.
  induction items as [|text_ items IH]; [reflexivity|].
  cbn [flat_map]. rewrite forallb_app, IH, andb_true_r.
  now destruct ordered.
Qed.

(** A heading of one of the six levels is rendered as one paragraph. *)
Lemma heading_rendered (rt : Runtime) (level : HeadingLevel)
  (text_ : ustring) :
  exists paragraph,
    createHeading (Some text_) (parseInt (skipn 1 (Stream.headingTag level)))
    = inr paragraph
    /\ Stream.rendered rt (Stream.Heading level text_)
       = [ElParagraph paragraph].
Proof. destruct level; eexists; split; reflexivity. Qed.

(** One block: the walk pushes what the renderer of the block returns
    and goes on behind the block. *)
Lemma walk_block (rt : Runtime) (b : Stream.Block) (rest : list Token)
  (elements : list Element) (w : State) :
  Stream.isDiagram b = false ->
  processTokensFrom rt (Stream.tokens b ++ rest) 0 elements w
  = processTokensFrom rt rest 0 (elements ++ Stream.rendered rt b) w.
Proof.
  intros D. destruct b as [level text_|children_| |content_ info_|content_
                           |head body|ordered items|text_];
    cbn [Stream.isDiagram] in D.
  - destruct level; reflexivity.
  - reflexivity.
  - reflexivity.
  - cbn [Stream.tokens app]. now rewrite walk_fence.
  - cbn [Stream.tokens app]. now rewrite walk_code_block.
  - cbn [Stream.tokens Stream.rendered].
    destruct (table_inside head body) as (inner & -> & F).
    cbn [app]. rewrite <- app_assoc. cbn [app].
    rewrite walk_table by reflexivity.
    destruct (block_range rt (Stream.block "table_open")
                (Stream.block "table_close") inner rest (u "table_close")
                F eq_refl eq_refl) as (E & S0 & _ & K).
    cbv zeta in E, S0, K. rewrite S0, K. reflexivity.
  - cbn [Stream.tokens Stream.rendered]. unfold Stream.list_.
    cbn [app]. rewrite <- app_assoc. cbn [app].
    rewrite (walk_list rt ordered) by reflexivity. cbv zeta.
    assert (replaceFirst (u "_close") (u "_open")
              (u (if ordered then "ordered_list_close" else "bullet_list_close"))
            = u (if ordered then "ordered_list_open" else "bullet_list_open"))
      as RO by (now destruct ordered).
    pose proof (items_inside ordered items) as F. rewrite <- RO in F.
    destruct (block_range rt
                (Stream.block (if ordered then "ordered_list_open"
                               else "bullet_list_open"))
                (Stream.block (if ordered then "ordered_list_close"
                               else "bullet_list_close"))
                (flat_map Stream.item items) rest
                (u (if ordered then "ordered_list_close"
                    else "bullet_list_close")) F)
      as (E & S0 & _ & K);
      [now destruct ordered | now destruct ordered |].
    cbv zeta in E, S0, K. rewrite S0, K. reflexivity.
  - cbn [Stream.tokens Stream.rendered].
    cbn [app]. rewrite <- app_assoc. cbn [app].
    rewrite walk_quote by reflexivity.
    destruct (block_range rt (Stream.block "blockquote_open")
                (Stream.block "blockquote_close") (Stream.quoted text_) rest
                (u "blockquote_close") eq_refl eq_refl eq_refl)
      as (E & _ & S1 & K).
    cbv zeta in E, S1, K. rewrite S1, K. reflexivity.
Qed.

(** X25.  The local walk renders a document block by block, in order:
    on a stream of headings, paragraphs, rules, code blocks without a
    glyph, tables, flat lists and quotes of one paragraph, the elements
    of the document are the elements of the first block, then those of
    the second, and so on, each block rendered by its own renderer on
    exactly its own tokens; nothing is called and nothing is skipped. *)
Theorem local_walk_renders_blocks_in_order (rt : Runtime)
  (markdown : ustring) (blocks : list Stream.Block) (w : State) :
  parseToTokens rt markdown = flat_map Stream.tokens blocks ->
  forallb (fun b => negb (Stream.isDiagram b)) blocks = true ->
  processTokens rt (flat_map Stream.tokens blocks) [] w
  = (inr (flat_map (Stream.rendered rt) blocks), w)
  /\ convertToDocx rt markdown false w
     = (inr {| margin := 1440;
               doc_children := flat_map (Stream.rendered rt) blocks |}, w).
Proof.
  intros P D.
  assert (forall bs,
             forallb (fun b => negb (Stream.isDiagram b)) bs = true ->
             forall elements,
               processTokensFrom rt (flat_map Stream.tokens bs) 0 elements w
               = (inr (elements ++ flat_map (Stream.rendered rt) bs), w)) as K.
  { induction bs as [|b bs IH]; intros Dbs elements.
    - cbn. now rewrite app_nil_r.
    - cbn [forallb] in Dbs. apply andb_true_iff in Dbs as [Db Dbs].
      apply negb_true_iff in Db.
      cbn [flat_map]. rewrite walk_block by exact Db.
      rewrite (IH Dbs). now rewrite <- app_assoc. }
  split.
  - rewrite ConvertFacts.processTokens_walk. apply (K blocks D).
  - rewrite ConversionFacts.convertToDocx_false, P, (K blocks D). reflexivity.
Qed.

Lemma local_walk_renders_blocks_in_order_witness :
  convertToDocx Documents.platform (u "## Release notes") false Samples.ready
  = (inr {| margin := 1440;
            doc_children :=
              flat_map (Stream.rendered Documents.platform) Documents.blocks |},
     Samples.ready).
Proof.
  exact (proj2 (local_walk_renders_blocks_in_order Documents.platform
                  (u "## Release notes") Documents.blocks Samples.ready
                  eq_refl eq_refl)).
Defined.

End WalkFacts.
